(* ===== verification/_CoqProject ===== *)
-Q . S2P
Prelude.v
PyText.v
Json.v
Effects.v
PyTime.v
IsoFormat.v
Models.v
AdminRows.v
Config.v
Env.v
Transactions.v
RateLimit.v
Concurrency.v
RuntimeSettings.v
Cooldown.v
RedisLimits.v
Sim.v
UrlUtil.v
CreditEstimator.v
Security.v
KeyPool.v
KeyPoolProps.v
CreditSchedule.v
CreditFetcher.v
CreditRefresh.v
CreditRefreshProps.v
Cleanup.v
Forwarder.v
Invariants.v
ForwarderProps.v
KeyTest.v
Idempotency.v
IdempotencyProps.v
ResourceBinding.v
ResourceBindingProps.v
Deps.v
DepsProps.v
Errors.v
Middleware.v
JsonText.v
Redact.v
RedactProps.v
KeyImport.v
DataPlane.v
SimApp.v
FirecrawlV2.v
RequestLog.v
RequestLogProps.v
V2Routes.v
Requests.v
RequestProps.v
Rfc3339.v
CreditAggregator.v
AdminViews.v
AdminKeyList.v
AdminKeys.v
AdminKeyOps.v
AdminCredits.v
AdminClients.v
AdminLogs.v
AdminStats.v
AdminRuntime.v
AdminLogsProps.v
AdminSpec.v
AdminKeysProps.v
AdminClientsProps.v
RedisLimitsProps.v
Schema.v
Migrations.v
MigrationsProps.v
DbSession.v
MigrateTool.v
MigrateToolProps.v
HttpPool.v
LoadConfig.v
App.v
Observability.v
SettingsFile.v
Quota.v
