(* ===== verification/Prelude.v ===== *)
(** * A verification of the FCAM gateway

    The gateway ([app/] of the repository, Python) stands between clients and the
    Firecrawl and Exa services.  An administrator gives it a pool of upstream API
    keys; clients hold tokens of the gateway and never see an upstream key.  This
    library translates the gateway's own logic into executable definitions and
    proves what makes it correct.

    ** The program and the files

    A request of a client passes these parts, in this order.

    - Middleware.v, [app/middleware.py]: limits on method, path and body size, the
      request id, and the translation of refusals; RequestLog.v, the rest of that
      file: the three middleware classes around an application, and the row of the
      request log with its bounded error details, in the text JsonText.v
      ([json.dumps], UTF-8 decoding) writes; Redact.v, [app/core/redact.py]: what
      is taken out of logged data; Errors.v, [app/errors.py]: the shape of an error
      response and the exception handlers.
    - Deps.v, [app/api/deps.py] and [app/core/time.py]: who the caller is
      ([require_client], [require_admin]) and what a client may do at once, per
      minute and per day ([enforce_client_governance], which holds a concurrency
      slot while the endpoint runs).  Quota.v: the use per day when requests overlap,
      each with its own copy of the client's row.
    - DataPlane.v, [app/api/data_plane.py], [firecrawl_compat.py] and
      [exa_compat.py]: the endpoints; [serve] runs one behind its dependencies.
      FirecrawlV2.v and V2Routes.v, [firecrawl_v2_compat.py]: the v2 endpoints and
      which route a path reaches.
    - Idempotency.v, [app/core/idempotency.py]: whether the request runs at all or
      is answered from a stored response.
    - ResourceBinding.v, [app/core/resource_binding.py]: which key a resource of a
      client belongs to.
    - Forwarder.v, [app/core/forwarder.py]: one request forwarded; picks keys,
      takes their slots, sends, attributes the answer to the key or to the request,
      punishes keys and tries others within the client's retry budget.  KeyTest.v
      is the administrator's test of one key, in the same source file.  HttpPool.v,
      [app/core/http_pool.py]: the clients a request is sent with.
    - KeyPool.v, [app/core/key_pool.py]: the scheduler that picks a key, using
      RateLimit.v ([rate_limit.py]), Concurrency.v ([concurrency.py]), Cooldown.v
      ([cooldown.py]) and RuntimeSettings.v ([runtime_settings.py]).  RedisLimits.v
      has the shared versions of the first two, with their Lua scripts;
      SettingsFile.v the file of the third.
    - CreditEstimator.v ([credit_estimator.py]) estimates what a request costs;
      CreditFetcher.v ([credit_fetcher.py]) asks the service what is left;
      CreditSchedule.v and CreditRefresh.v ([credit_refresh.py]) do so in the
      background; Cleanup.v ([app/db/cleanup.py]) deletes what is past its
      retention.
    - The control plane, [app/api/control_plane.py], is the administrator's side:
      AdminViews.v and AdminKeyList.v (how rows are shown, the list of keys),
      AdminKeys.v (creation and import), AdminKeyOps.v (update, delete, purge, test,
      revival, quota reset, batch), AdminCredits.v with CreditAggregator.v
      ([credit_aggregator.py]), AdminClients.v, AdminLogs.v and AdminStats.v (logs,
      dashboard, statistics) and AdminRuntime.v (runtime settings); AdminRows.v has
      lemmas on rows, Rfc3339.v the dates.
    - App.v, [app/main.py] and [credit_refresh_scheduler.py]: what is built from the
      configuration that LoadConfig.v ([load_config]) reads, the background task,
      and shutdown.  DbSession.v, [app/db/session.py] and [app/api/health.py]: which
      database is opened, and readiness.  Observability.v: log lines and metrics.
    - Schema.v and Migrations.v, [migrations/]: the schema, as the operations of
      alembic build it and as the ORM declares it; MigrateTool.v,
      [app/tools/migrate_sqlite_to_postgres.py]: copying one database to another.
    - Security.v ([security.py]), UrlUtil.v ([urlutil.py]), KeyImport.v
      ([key_import.py] and [batch_clients.py]) are pure helpers; Models.v
      ([app/db/models.py]) and Config.v ([app/config.py]) are the data.

    Prelude.v (this file), Effects.v, PyText.v, PyTime.v, IsoFormat.v and Json.v
    give what the code uses of Python: exceptions and loops, [str], [datetime],
    [datetime.fromisoformat], JSON values.  Transactions.v is the reasoning about
    database sessions; Invariants.v proves, statement by statement, which writes a
    request can make at all; Requests.v does so for whole data-plane requests;
    AdminSpec.v is the life cycle of a key, an abstract state machine that the
    control plane refines; Sim.v and SimApp.v hold the concrete instances.

    ** State and effects

    A Python function with effects is a computation of type [Prog A] (Effects.v): a
    function from the state to a result, or an exception, and the new state; what
    was written before an exception stays written.  The state is the record
    [World] of Env.v: the host (clock, random numbers, network), the request's
    database session, the limiters and concurrency managers of keys and of clients,
    the cooldown store, and the dictionaries the modules keep ([_nn_failures],
    [_rr_cursor], [Forwarder._failures], [_4xx_refresh_last_mono]).  [w_wire] is the
    only field the program does not have: it records the requests sent upstream, so
    that theorems can speak about them.

    A session has a view (what its objects show) and a durable part (what the
    database holds).  Queries, flushes and commits may fail; the handlers the source
    has for that are translated with the rest.  A flush checks the unique
    constraints and foreign keys that [app/db/models.py] declares (Models.v).

    Parts that are not about requests keep a state of their own: the pool of HTTP
    clients and its threads ([HttpPool.System], a step relation), the requests of a
    client on one day ([Quota.Traffic], likewise), Redis
    ([RedisLimits.v]), the schema of a database ([Schema]), the target of a
    migration ([Target]), the files of the process ([Files]) and [App.AppState].

    Code outside the repository is reached through type classes: [Host],
    [OrmSession], [RowWriter], [Codecs], [Digests], [ZoneInfo], [RedisTtl], [Redis], [Loader]
    (yaml and pydantic), [JsonFile], [SchemaEngine], [Target].  The interfaces the
    source itself implements more than once, [RateLimiter], [ConcurrencyLimiter] and
    [CooldownStore], are classes too, so the forwarder and the scheduler are
    verified for every implementation.  What a theorem needs from a class is a class
    of laws ([MathLaws], [RandomLaws], [AesLaws], [OrmLaws], [RowLaws], [ConcurrencyLaws],
    [CodecLaws], [RedisTtlLaws], [RedisLaws], [LoaderLaws], [SchemaEngineLaws],
    [TargetLaws]).  Sim.v, or the end of the file that declares the class,
    instantiates each of them concretely, a session in memory and a scripted network
    included; the witness after a theorem runs the definitions there.

    ** What is proved

    - KeyPoolProps.v.  [judged] says abstractly what a selection finds out about one
      key, with the limiter and the cooldown store asked while the selection runs
      ([during]), and [scan_key] refines it.  A selected key is in service, of the
      right provider, not tried before, not known to be out of credits, past its
      cooldown up to a second, and not refused by a limiter that can be asked
      without taking a token ([select_sound]; the Redis limiter cannot); a key that
      is usable throughout the selection is found ([select_complete]); the refusal
      is the one that follows from what was found out about every key, the wait it
      announces the shortest there is ([select_refusals]); the choice is near the
      best score ([choose_near_best]) and exploration visits every candidate
      ([exploration_is_fair]); scores are monotone in credits and failures are
      forgotten ([score_monotone], [failure_memory_fades]).
    - ForwarderProps.v, with Invariants.v.  The number of upstream calls of one call of
      [forward] is within the budget ([forward_within_budget]), a pinned request
      stays with its key ([pinned_request_stays]), every slot taken is given back
      ([forward_returns_slots]), the client's credentials never go out
      ([outbound_headers_safe]), the upstream's cookies and connection headers never
      come back ([response_headers_filtered]), no
      request brings a disabled key back or changes what a key is
      ([forward_never_reactivates], [forward_keeps_identity]), the attribution of
      answers is exact ([attribution_exact]), successes count once
      ([success_counted_once]).
    - IdempotencyProps.v.  [idempotency_decision] gives the outcome of
      [start_or_replay] as a function of the stored record, the recursion included;
      [completed_is_replayed] is the round trip.
    - DepsProps.v.  Who is admitted ([client_admitted], [admin_admitted_exactly]),
      the daily quota ([quota_enforced]), the slot of a request given back on every
      path of the endpoint ([governance_returns_slot]).
    - Concurrency.v and RateLimit.v.  Under any interleaving of threads that take
      slots and release leases, whose [release] is not atomic, a key's slots stay
      within its limit as long as no two threads release one lease at the same time
      ([interleaved_limit]; if they do, [overlapping_releases_exceed_the_limit]); over any
      stretch of time the bucket admits at most its capacity plus its rate
      ([allow_window_bound]), and the announced wait is enough
      ([retry_after_sufficient]).
    - RequestProps.v: whole requests of the data plane, from the endpoint to the
      wire.  Every header that goes out is a harmless one or the credential of a
      stored key ([requests_leak_no_credentials]), a request costs at most two
      budgets, the second for the second spelling of a path
      ([requests_within_budget]), no key is used twice by one call of [forward] that
      is not pinned ([keys_are_tried_once]), all slots are given back
      ([requests_return_all_slots]), no key comes back into service
      ([requests_never_reactivate]), and a request about a job goes to the key the
      job was created with ([job_requests_use_its_key]).  V2Routes.v: every
      declared path reaches its own handler.
    - RedisLimitsProps.v: while Redis serves every call and no clock goes back, leases
      in Redis are counted whatever the interleaving ([shared_leases_are_counted])
      and the Lua bucket is the one in memory ([shared_bucket_is_the_memory_bucket]).
    - AdminKeysProps.v, AdminClientsProps.v, AdminLogsProps.v: the control plane
      refines the life cycle of a key ([requests_refine_the_life_cycle]), keeps rows
      well typed and switched-off keys out of use, the refreshes of credits and the
      purge of a client included, rotation of a token revokes the
      old one, and reading a log page by page ends and yields everything once
      ([cursors_read_everything]).
    - RequestLogProps.v and RedactProps.v: each response leaves exactly one row with
      its data ([responses_are_logged]), error details are bounded, and redaction
      leaves no credential in any value ([redaction_leaves_no_credentials]; the
      names of members stay as they are), in log lines neither
      ([Logging.log_lines_are_clean]).
    - HttpPool.v: whatever requests, switches and shutdowns interleave, no client
      is lost ([no_client_is_lost]).  App.v: resources are released if the
      background task stops in time ([shutdown_releases_if_the_task_stops]) and
      names in Redis are apart ([redis_names_are_apart]).  Quota.v: on a day that
      begins with no request under way the use that is counted is never more than the
      requests that succeeded, and exactly that while they come one at a time
      ([usage_counts_successes]); the two ways in which the count goes wrong are
      [overlap_multiplies_the_quota] and [midnight_uses_up_the_quota].  LoadConfig.v: where
      each value comes from, objects and paths that are cut short included
      ([values_come_from_env_file_defaults]).  SettingsFile.v:
      an interrupted save leaves the old or the new settings
      ([settings_survive_interruptions]).  DbSession.v: [readyz_exact].
      Observability.v: counters count ([requests_are_counted]).
    - MigrationsProps.v: the migrations reach what the ORM declares up to two columns
      ([upgrade_head_reaches_the_models]) and undo themselves
      ([downgrades_undo_upgrades]).  MigrateToolProps.v: the tool copies every row, with
      times read in the time zone of the target's session, and succeeds when the
      target takes the rows ([migration_copies]), overwrites nothing
      ([nothing_is_overwritten]), and on databases at the head revision can copy the
      audit log only ([only_the_audit_log_is_copied]).
    - CreditRefreshProps.v, CreditSchedule.v, Cleanup.v,
      ResourceBindingProps.v, RuntimeSettings.v, Security.v, Middleware.v and
      KeyImport.v: one round asks about each due key once, in whatever order the
      event loop runs the probes ([refresh_asks_once]), and never about more at a
      time than there are workers ([at_most_workers_ask]); the schedule tightens as
      credits run out, clean-up deletes exactly the expired rows, bindings are found
      and never redirected, settings survive a restart and stay in range, secrets
      decrypt in their own domain only, request limits hold, and every line of an
      import is accounted for.

    Some theorems state behaviour that the code probably does not intend:
    [refresh_disables_foreign_keys] (the background refresh asks Firecrawl about Exa
    keys too and disables them on the refusal), [limiter_failure_keeps_slot] (a rate
    limiter that raises leaves the client's slot taken),
    [server_error_wording_blames_key] (a 5xx answer is blamed on the key by its
    wording, which is documented for 401 and 403 answers),
    [configured_zero_epsilon_ignored] (an exploration rate configured as zero is
    replaced by the default), [bound_rows_cannot_be_purged],
    [upgrade_head_reaches_the_models], [only_the_audit_log_is_copied],
    [shutdown_releases_if_the_task_stops] (its last part),
    [switching_off_closes_clients_in_use], [parent_directory], [empty_nested_url],
    [leases_too_short], [long_exa_endpoint], [admin_admitted_exactly] (a token that is
    not ASCII raises), [names_are_not_redacted] and [demo_taken] (times shifted by a
    migration).

    ** Bounds and fuel

    - The pool loop of [forward] runs [max_selection_tries] times and the pinned one
      [total_attempts] times, as the [for] loops of the source do: no added fuel.
    - [start_or_replay] calls itself after deleting a stale record.  The argument
      [depth] of [begin] is Python's recursion limit; [idempotency_decision] shows
      that the second level always answers, so every depth from two on gives the
      result.
    - [batches] cuts the list of due keys; its fuel is the number of due keys, and
      [refresh_asks_once] shows that the whole list is covered.  The order in which
      the probes of a batch run is a schedule, any list; what it leaves undone is
      done after it.
    - The background loop runs for ever in the program; [credit_refresh_loop] takes
      the number of rounds.
    - The transactions that stand in for the Lua scripts are tried five times, as in
      the source; the regular expressions are matched by structural recursion.

    ** Idealisations

    Floats are rationals, with [log1p] and powers of one half as host functions;
    integers are unbounded, as in Python.  Datetimes count microseconds.  Strings
    are sequences of 8-bit characters with ASCII case and white space (the word
    characters of the regular expressions are a parameter, [UnicodeTables]).  Calls
    of the logger and of the metrics are left out of the code they occur in, as are
    locks that guard a single dictionary operation.  A request has one session, and
    a request runs without other requests in between, except in Concurrency.v,
    RedisLimitsProps.v, HttpPool.v, Quota.v and CreditRefresh.v (the probes of a
    batch), where interleavings are explicit.
    Decryption under other associated data is taken to fail always.  SQL is read
    with the foreign keys and unique constraints of [app/db/models.py]; a database
    made by the migrations differs in two columns ([upgrade_head_reaches_the_models]).

    ** What is not modelled, and what comes next

    Not modelled: the web interface, the scripts (which call what is modelled), the
    serving of static files and of the placeholder page in [app/main.py], the
    handlers of the root logger, the text format of Prometheus, and what alembic
    does around a migration.  The tests of a batch of keys run one after the other
    here and on a pool of threads in the source.  To come: the details of the errors
    the forwarder raises, the effect of a closed HTTP client on [forward], and other
    requests that interleave on the database. *)

From stdpp Require Export base tactics list gmap strings sorting numbers option.
From Stdlib Require Export QArith Qround Qminmax Lqa.
Open Scope Z_scope.

Declare Scope fcam_scope.
Delimit Scope fcam_scope with fcam.
Open Scope fcam_scope.

(** * Booleans on the numbers the code compares *)

(** Python floats are exact rationals in this development; these are the
    boolean comparisons the code's [if]s perform on them. *)
Notation "x <=?q y" := (Qle_bool x y) (at level 70, no associativity) : fcam_scope.
Notation "x <?q y" := (negb (Qle_bool y x)) (at level 70, no associativity) : fcam_scope.

(** Python's [int(x)] on a float truncates towards zero. *)
Definition int_of_float (x : Q) : Z :=
  if x <?q 0%Q then Qceiling x else Qfloor x.

(** Python's [x or y] on integers: zero is false. *)
Definition or_int (x y : Z) : Z := if x =? 0 then y else x.
(** Python's [x or y] on floats. *)
Definition or_float (x y : Q) : Q := if Qeq_bool x 0 then y else x.
(** Python's [x or y] where [x] may be [None]. *)
Definition opt_or_int (x : option Z) (y : Z) : Z :=
  match x with Some v => or_int v y | None => y end.
Definition opt_or_float (x : option Q) (y : Q) : Q :=
  match x with Some v => or_float v y | None => y end.
(** [s or t] on strings: the empty string is false. *)
Definition or_str (s t : string) : string := if String.eqb s "" then t else s.
Definition opt_or_str (s : option string) (t : string) : string :=
  match s with Some v => or_str v t | None => t end.

Definition str_in (s : string) (l : list string) : bool := existsb (String.eqb s) l.
Definition z_in (x : Z) (l : list Z) : bool := existsb (Z.eqb x) l.

(** Python dictionaries with string keys whose order is observable. *)
Notation dict := (list (string * string)).
Fixpoint dict_get (k : string) (d : dict) : option string :=
  match d with
  | [] => None
  | (k', v) :: d' => if String.eqb k k' then Some v else dict_get k d'
  end.
(** [d[k] = v]: replaces the value in place, or appends a new entry. *)
Fixpoint dict_set (k v : string) (d : dict) : dict :=
  match d with
  | [] => [(k, v)]
  | (k', v') :: d' =>
      if String.eqb k k' then (k, v) :: d' else (k', v') :: dict_set k v d'
  end.
Definition dict_keys (d : dict) : list string := map fst d.
(** [d.update(e)]. *)
Definition dict_update (d e : dict) : dict :=
  foldl (λ acc kv, dict_set kv.1 kv.2 acc) d e.
(** [d.pop(k, None)] keeping the order of the rest. *)
Definition dict_pop (k : string) (d : dict) : dict :=
  List.filter (λ kv, negb (String.eqb k kv.1)) d.

Lemma dict_get_set k v d : dict_get k (dict_set k v d) = Some v.
Proof.
  induction d as [|[k' v'] d IH]; simpl; [by rewrite String.eqb_refl|].
  destruct (String.eqb_spec k k') as [->|]; simpl; [by rewrite String.eqb_refl|].
  destruct (String.eqb_spec k k'); done.
Qed.
Lemma dict_get_set_ne k k' v d : k ≠ k' → dict_get k (dict_set k' v d) = dict_get k d.
Proof.
  intros Hne. induction d as [|[k1 v1] d IH]; simpl.
  - destruct (String.eqb_spec k k'); done.
  - destruct (String.eqb_spec k' k1) as [->|]; simpl; [by destruct (String.eqb_spec k k1)|]. by rewrite IH.
Qed.
Lemma dict_get_pop_ne k k' d : k ≠ k' → dict_get k (dict_pop k' d) = dict_get k d.
Proof.
  intros Hne. induction d as [|[k1 v1] d IH]; simpl; [done|].
  destruct (String.eqb_spec k' k1) as [->|]; simpl; [|by rewrite IH]. by destruct (String.eqb_spec k k1).
Qed.

(** * Lemmas on rationals and integers *)

Lemma Qle_bool_false (x y : Q) : Qle_bool x y = false ↔ (y < x)%Q.
Proof.
  split; intros H.
  - apply Qnot_le_lt. intros Hle. apply Qle_bool_iff in Hle. congruence.
  - destruct (Qle_bool x y) eqn:E; [|done].
    apply Qle_bool_iff in E. exfalso. by apply (Qlt_not_le y x).
Qed.

(** * Membership in lists of names *)

Lemma str_in_true x l : str_in x l = true ↔ x ∈ l.
Proof. unfold str_in. rewrite existsb_exists, list_elem_of_In. setoid_rewrite String.eqb_eq. naive_solver. Qed.
Lemma str_in_false x l : str_in x l = false ↔ x ∉ l.
Proof. rewrite <-str_in_true. by destruct (str_in x l). Qed.

(** * Tactics *)

(** Turns boolean hypotheses and goals into propositions that [lia], [lra] and
    [congruence] use. *)
Ltac bool_prop :=
  repeat match goal with
  | H : negb _ = true |- _ => apply negb_true_iff in H
  | H : negb _ = false |- _ => apply negb_false_iff in H
  | H : andb _ _ = true |- _ => apply andb_true_iff in H; destruct H
  | H : andb _ _ = false |- _ => apply andb_false_iff in H
  | H : orb _ _ = false |- _ => apply orb_false_iff in H; destruct H
  | H : orb _ _ = true |- _ => apply orb_true_iff in H
  | H : Z.eqb _ _ = true |- _ => apply Z.eqb_eq in H
  | H : Z.eqb _ _ = false |- _ => apply Z.eqb_neq in H
  | H : Z.ltb _ _ = true |- _ => apply Z.ltb_lt in H
  | H : Z.ltb _ _ = false |- _ => apply Z.ltb_ge in H
  | H : Z.leb _ _ = true |- _ => apply Z.leb_le in H
  | H : Z.leb _ _ = false |- _ => apply Z.leb_gt in H
  | H : Nat.eqb _ _ = true |- _ => apply Nat.eqb_eq in H
  | H : Nat.eqb _ _ = false |- _ => apply Nat.eqb_neq in H
  | H : Nat.leb _ _ = true |- _ => apply Nat.leb_le in H
  | H : Nat.leb _ _ = false |- _ => apply Nat.leb_gt in H
  | H : Nat.ltb _ _ = true |- _ => apply Nat.ltb_lt in H
  | H : Nat.ltb _ _ = false |- _ => apply Nat.ltb_ge in H
  | H : Qle_bool _ _ = true |- _ => apply Qle_bool_iff in H
  | H : Qle_bool _ _ = false |- _ => apply Qle_bool_false in H
  | H : Qeq_bool _ _ = true |- _ => apply Qeq_bool_iff in H
  | H : Qeq_bool _ _ = false |- _ => apply Qeq_bool_neq in H
  | H : String.eqb _ _ = true |- _ => apply String.eqb_eq in H
  | H : String.eqb _ _ = false |- _ => apply String.eqb_neq in H
  end.

(** Case analysis on the innermost condition or scrutinee of the goal. *)
Ltac case_if :=
  match goal with
  | |- context [if ?b then _ else _] =>
      lazymatch b with context [if _ then _ else _] => fail | _ => destruct b eqn:? end
  end.
Ltac case_scrut :=
  match goal with
  | |- context [match ?x with _ => _ end] =>
      lazymatch x with context [match _ with _ => _ end] => fail | _ => destruct x eqn:? end
  end.
