(* ===== verification/PyText.v ===== *)
(** The operations of Python's [str] and [bytes] that the source uses.  A string
    is a sequence of 8-bit characters; case mapping and white space are those of
    the ASCII range, which is what tokens, statuses, paths and header names are
    made of.  Text outside that range is carried as its UTF-8 bytes. *)

From S2P Require Import Prelude.
From stdpp Require Export pretty.
From Stdlib Require Ascii.
Export (notations) Stdlib.Strings.Ascii.

Definition code (c : Ascii.ascii) : N := Ascii.N_of_ascii c.
Definition between (lo hi : N) (c : Ascii.ascii) : bool :=
  N.leb lo (code c) && N.leb (code c) hi.

Definition is_upper (c : Ascii.ascii) : bool := between 65 90 c.
Definition is_lower (c : Ascii.ascii) : bool := between 97 122 c.
Definition is_digit (c : Ascii.ascii) : bool := between 48 57 c.
Definition is_alnum (c : Ascii.ascii) : bool := is_upper c || is_lower c || is_digit c.
(** The ASCII characters [str.strip()] and [str.split()] treat as white space. *)
Definition is_space (c : Ascii.ascii) : bool := between 9 13 c || between 28 32 c.

Definition lower_char (c : Ascii.ascii) : Ascii.ascii :=
  if is_upper c then Ascii.ascii_of_N (code c + 32) else c.
Definition upper_char (c : Ascii.ascii) : Ascii.ascii :=
  if is_lower c then Ascii.ascii_of_N (code c - 32) else c.

Fixpoint string_map (f : Ascii.ascii → Ascii.ascii) (s : string) : string :=
  match s with EmptyString => EmptyString | String c s' => String (f c) (string_map f s') end.
Definition lower : string → string := string_map lower_char.
Definition upper : string → string := string_map upper_char.

Fixpoint string_forallb (p : Ascii.ascii → bool) (s : string) : bool :=
  match s with EmptyString => true | String c s' => p c && string_forallb p s' end.
Fixpoint string_existsb (p : Ascii.ascii → bool) (s : string) : bool :=
  match s with EmptyString => false | String c s' => p c || string_existsb p s' end.
(** [s.isdigit()]: false on the empty string. *)
Definition isdigit (s : string) : bool := negb (String.eqb s "") && string_forallb is_digit s.

(** [len(s)]. *)
Definition slen (s : string) : Z := Z.of_nat (String.length s).
(** [s[:n]] and [s[n:]] for n >= 0. *)
Definition slice_to (n : nat) (s : string) : string := String.substring 0 n s.
Fixpoint slice_from (n : nat) (s : string) : string :=
  match n, s with
  | O, _ => s
  | S n', String _ s' => slice_from n' s'
  | S _, EmptyString => EmptyString
  end.
(** [s[-n:]] for n > 0. *)
Definition last_chars (n : nat) (s : string) : string :=
  slice_from (String.length s - n) s.

Fixpoint lstrip_p (p : Ascii.ascii → bool) (s : string) : string :=
  match s with
  | String c s' => if p c then lstrip_p p s' else s
  | EmptyString => EmptyString
  end.
(** Trailing characters: [None] when everything was stripped. *)
Fixpoint rstrip_p (p : Ascii.ascii → bool) (s : string) : string :=
  match s with
  | EmptyString => EmptyString
  | String c s' =>
      match rstrip_p p s' with
      | EmptyString => if p c then EmptyString else String c EmptyString
      | r => String c r
      end
  end.
Definition strip_p (p : Ascii.ascii → bool) (s : string) : string := rstrip_p p (lstrip_p p s).
Definition strip : string → string := strip_p is_space.
Definition strip_char (c : Ascii.ascii) : string → string := strip_p (Ascii.eqb c).
Definition rstrip_char (c : Ascii.ascii) : string → string := rstrip_p (Ascii.eqb c).

Definition startswith (p s : string) : bool := String.prefix p s.
Definition endswith (p s : string) : bool :=
  Nat.leb (String.length p) (String.length s) && String.eqb (last_chars (String.length p) s) p.
(** [sub in s]. *)
Fixpoint contains (sub s : string) : bool :=
  String.prefix sub s ||
  match s with EmptyString => false | String _ s' => contains sub s' end.

(** [s.split(c)]: at least one part, parts may be empty. *)
Fixpoint split_char (c : Ascii.ascii) (s : string) : list string :=
  match s with
  | EmptyString => [EmptyString]
  | String d s' =>
      if Ascii.eqb c d then EmptyString :: split_char c s'
      else match split_char c s' with
           | [] => [String d EmptyString]
           | p :: ps => String d p :: ps
           end
  end.
(** [s.split(c, 1)]: the first part and, when [c] occurs, the rest. *)
Fixpoint split_once (c : Ascii.ascii) (s : string) : string * option string :=
  match s with
  | EmptyString => (EmptyString, None)
  | String d s' =>
      if Ascii.eqb c d then (EmptyString, Some s')
      else let '(a, b) := split_once c s' in (String d a, b)
  end.
(** [s.split()]. *)
Fixpoint split_space_go (cur : string) (s : string) : list string :=
  match s with
  | EmptyString => if String.eqb cur "" then [] else [cur]
  | String c s' =>
      if is_space c
      then (if String.eqb cur "" then [] else [cur]) ++ split_space_go "" s'
      else split_space_go (cur +:+ String c "") s'
  end.
Definition split_space (s : string) : list string := split_space_go "" s.
(** [c.join(l)]. *)
Fixpoint join (sep : string) (l : list string) : string :=
  match l with
  | [] => ""
  | [x] => x
  | x :: l' => x +:+ sep +:+ join sep l'
  end.
(** [s.replace(a, b)] for single characters. *)
Definition replace_char (a b : Ascii.ascii) : string → string :=
  string_map (λ c, if Ascii.eqb a c then b else c).

(** * Numbers as text *)

Definition digit_val (c : Ascii.ascii) : Z := Z.of_N (code c) - 48.
(** Digits with single underscores between them, as [int()] accepts.
    [prev] says whether the previous character was a digit. *)
Fixpoint parse_digits (prev : bool) (acc : Z) (s : string) : option Z :=
  match s with
  | EmptyString => if prev then Some acc else None
  | String c s' =>
      if is_digit c then parse_digits true (acc * 10 + digit_val c) s'
      else if Ascii.eqb c "_"%char && prev then parse_digits false acc s'
      else None
  end.
(** [int(s)] on a string; [None] is ValueError. *)
Definition parse_int (s : string) : option Z :=
  match strip s with
  | String "-"%char s' => Z.opp <$> parse_digits false 0 s'
  | String "+"%char s' => parse_digits false 0 s'
  | s' => parse_digits false 0 s'
  end.

(** Decimal digits after the point: the value so far and the next weight. *)
Fixpoint parse_frac (acc w : Q) (s : string) : Q * string :=
  match s with
  | String c s' =>
      if is_digit c then parse_frac (acc + w * inject_Z (digit_val c))%Q (w / 10)%Q s' else (acc, s)
  | EmptyString => (acc, s)
  end.
Fixpoint parse_nat_prefix (acc : Z) (s : string) : Z * string :=
  match s with
  | String c s' => if is_digit c then parse_nat_prefix (acc * 10 + digit_val c) s' else (acc, s)
  | EmptyString => (acc, s)
  end.
(** [float(s)] on an unsigned decimal numeral with an optional fraction; signs
    are handled by the caller.  [None] is ValueError.  Exponents, infinities and
    NaN are outside the model. *)
Definition parse_udecimal (s : string) : option Q :=
  let '(n, s1) := parse_nat_prefix 0 s in
  match s1 with
  | EmptyString => if String.eqb s "" then None else Some (inject_Z n)
  | String "."%char s2 =>
      let '(q, s3) := parse_frac (inject_Z n) (1 # 10) s2 in
      if String.eqb s3 "" && negb (String.eqb s ".") then Some q else None
  | _ => None
  end.
Definition parse_float (s : string) : option Q :=
  match strip s with
  | String "-"%char s' => Qopp <$> parse_udecimal s'
  | String "+"%char s' => parse_udecimal s'
  | s' => parse_udecimal s'
  end.

(** [str(n)]. *)
Definition str_int (n : Z) : string := pretty n.

(** * Lemmas *)

Lemma lower_char_not_upper c : is_upper (lower_char c) = false.
Proof. destruct c as [[] [] [] [] [] [] [] []]; reflexivity. Qed.

Lemma lower_char_idemp c : lower_char (lower_char c) = lower_char c.
Proof. unfold lower_char at 1. by rewrite lower_char_not_upper. Qed.

Lemma lower_idemp s : lower (lower s) = lower s.
Proof. unfold lower. induction s as [|c s IH]; simpl; [done|]. by rewrite lower_char_idemp, IH. Qed.

Lemma string_length_map f s : String.length (string_map f s) = String.length s.
Proof. induction s as [|c s IH]; simpl; congruence. Qed.

Lemma slice_to_app a b : slice_to (String.length a) (a +:+ b) = a.
Proof.
  unfold slice_to. induction a as [|c a IH]; simpl; [by destruct b|].
  f_equal. exact IH.
Qed.
Lemma slice_from_app a b : slice_from (String.length a) (a +:+ b) = b.
Proof. induction a as [|c a IH]; simpl; [by destruct b|done]. Qed.
Lemma lstrip_p_idemp p s : lstrip_p p (lstrip_p p s) = lstrip_p p s.
Proof.
  induction s as [|c s IH]; simpl; [done|].
  destruct (p c) eqn:E; [done|]. simpl. by rewrite E.
Qed.

Lemma rstrip_p_idemp p s : rstrip_p p (rstrip_p p s) = rstrip_p p s.
Proof.
  induction s as [|c s IH]; simpl; [done|].
  destruct (rstrip_p p s) as [|d r] eqn:E; simpl.
  - destruct (p c) eqn:Ec; simpl; [done|]. by rewrite Ec.
  - simpl in IH. by rewrite IH.
Qed.

Lemma string_length_app a b : String.length (a +:+ b) = (String.length a + String.length b)%nat.
Proof. induction a as [|c a IH]; simpl; [done|]. by f_equal. Qed.
Lemma slen_app a b : slen (a +:+ b) = (slen a + slen b)%Z.
Proof. unfold slen. rewrite string_length_app. lia. Qed.
Lemma string_app_nil_r a : a +:+ "" = a.
Proof.
  induction a as [|c a IH]; [done|]. change (String c (a +:+ "") = String c a). by rewrite IH.
Qed.
