(* ===== verification/Json.v ===== *)
(** JSON values as Python objects: the request payloads, upstream bodies and
    configuration trees the source passes around.  Objects are insertion-ordered
    like Python dictionaries. *)

From S2P Require Import Prelude PyText.
Open Scope Z_scope.

Inductive Json :=
  | JNull
  | JBool (b : bool)
  | JInt (n : Z)
  | JFloat (q : Q)
  | JStr (s : string)
  | JList (l : list Json)
  | JObj (o : list (string * Json)).

(** Induction over the values inside lists and objects. *)
Definition Json_nested_ind (P : Json → Prop)
    (Hnull : P JNull) (Hbool : ∀ b, P (JBool b)) (Hint : ∀ n, P (JInt n)) (Hfloat : ∀ q, P (JFloat q))
    (Hstr : ∀ s, P (JStr s)) (Hlist : ∀ l, Forall P l → P (JList l))
    (Hobj : ∀ o, Forall (λ kv, P kv.2) o → P (JObj o)) : ∀ j, P j :=
  fix rec j := match j with
  | JNull => Hnull
  | JBool b => Hbool b
  | JInt n => Hint n
  | JFloat q => Hfloat q
  | JStr s => Hstr s
  | JList l => Hlist l ((fix all l : Forall P l :=
      match l with [] => List.Forall_nil _ | x :: l' => List.Forall_cons _ _ _ (rec x) (all l') end) l)
  | JObj o => Hobj o ((fix all o : Forall (λ kv, P kv.2) o :=
      match o with [] => List.Forall_nil _ | x :: o' => List.Forall_cons _ _ _ (rec x.2) (all o') end) o)
  end.

(** The keys of a dictionary are distinct. *)
Fixpoint well_keyed (j : Json) : Prop :=
  match j with
  | JList l => foldr (λ x acc, well_keyed x ∧ acc) True l
  | JObj o => NoDup o.*1 ∧ foldr (λ kv acc, well_keyed kv.2 ∧ acc) True o
  | _ => True
  end.

(** Python's truth value. *)
Definition truthy (j : Json) : bool :=
  match j with
  | JNull => false
  | JBool b => b
  | JInt n => negb (n =? 0)
  | JFloat q => negb (Qeq_bool q 0)
  | JStr s => negb (String.eqb s "")
  | JList l => match l with [] => false | _ => true end
  | JObj o => match o with [] => false | _ => true end
  end.

Fixpoint obj_get (k : string) (o : list (string * Json)) : option Json :=
  match o with
  | [] => None
  | (k', v) :: o' => if String.eqb k k' then Some v else obj_get k o'
  end.
Fixpoint obj_set (k : string) (v : Json) (o : list (string * Json)) : list (string * Json) :=
  match o with
  | [] => [(k, v)]
  | (k', v') :: o' =>
      if String.eqb k k' then (k, v) :: o' else (k', v') :: obj_set k v o'
  end.

(** A value that may be absent. *)
Definition nullable {A} (f : A → Json) (o : option A) : Json :=
  match o with Some x => f x | None => JNull end.

(** [int(x)] on a JSON value; [None] stands for the TypeError or ValueError. *)
Definition json_int (j : Json) : option Z :=
  match j with
  | JBool b => Some (if b then 1 else 0)
  | JInt n => Some n
  | JFloat q => Some (int_of_float q)
  | JStr s => parse_int s
  | _ => None
  end.
