(* ===== verification/Effects.v ===== *)
(** The effect the program's Python code runs in: a state that every statement
    may change and exceptions that keep the changes made before they were
    raised.  [M W A] is a computation over the state [W]; the combinators are the
    statements the source uses ([try]/[except], [try]/[finally], [for] loops with
    early [return]).  The second half is the reasoning kit: relations between the
    state before and after a computation ([runs]), and postconditions that also
    see the result ([ensures]), with rules collected in the hint database
    [effects]. *)

From S2P Require Import Prelude PyText Json.

(** * Results and exceptions *)

(** [app/errors.py], class FcamError. *)
Record FcamError := mkFcamErrorWith {
  fe_status : Z;
  fe_code : string;
  fe_message : string;
  fe_retry_after : option Z;
  fe_details : option Json
}.
(** An error raised without [details]. *)
Definition mkFcamError (status : Z) (code message : string) (retry_after : option Z) : FcamError :=
  mkFcamErrorWith status code message retry_after None.

(** The exceptions the source raises or catches by class. *)
Inductive Exn :=
  | EFcam (e : FcamError)        (* FcamError *)
  | EInvalidTag                  (* cryptography InvalidTag *)
  | EValueError (msg : string)   (* ValueError *)
  | ETypeError                   (* TypeError *)
  | EHttpTimeout                 (* httpx.TimeoutException *)
  | EHttpError (msg : string)    (* any other httpx.HTTPError *)
  | EIntegrity                   (* sqlalchemy IntegrityError *)
  | EOther (name : string).      (* any other Exception *)

Inductive Res (A : Type) :=
  | Ok (a : A)
  | Raise (e : Exn).
Arguments Ok {A} a.
Arguments Raise {A} e.

Definition M (W A : Type) : Type := W → Res A * W.

Section Combinators.
Context {W : Type}.
Implicit Types w : W.

Definition ret {A} (a : A) : M W A := λ w, (Ok a, w).
Definition raise {A} (e : Exn) : M W A := λ w, (Raise e, w).
Definition bind {A B} (m : M W A) (f : A → M W B) : M W B :=
  λ w, match m w with
       | (Ok a, w') => f a w'
       | (Raise e, w') => (Raise e, w')
       end.
Definition gets {A} (f : W → A) : M W A := λ w, (Ok (f w), w).
Definition modify (f : W → W) : M W unit := λ w, (Ok tt, f w).
(** A primitive that returns a value and a new state. *)
Definition step {A} (f : W → A * W) : M W A := λ w, let '(a, w') := f w in (Ok a, w').
Definition of_res {A} (r : Res A) : M W A := λ w, (r, w).

(** [try: m  except <h>:] -- [h e] is [None] when the clause does not match. *)
Definition try_except {A} (m : M W A) (h : Exn → option (M W A)) : M W A :=
  λ w, match m w with
       | (Raise e, w') => match h e with Some k => k w' | None => (Raise e, w') end
       | r => r
       end.
(** [try: m  except Exception as e: k e]. *)
Definition catch_all {A} (m : M W A) (k : Exn → M W A) : M W A :=
  try_except m (λ e, Some (k e)).
(** [try: m  finally: f] -- an exception of [f] replaces the outcome of [m]. *)
Definition finally {A} (m : M W A) (f : M W unit) : M W A :=
  λ w, let '(r, w1) := m w in
       match f w1 with
       | (Ok _, w2) => (r, w2)
       | (Raise e, w2) => (Raise e, w2)
       end.

(** Outcome of a loop body: [return r] out of the function, or go on with the
    next iteration in the local state [s]. *)
Inductive Ctl (R S : Type) :=
  | Return (r : R)
  | Next (s : S).
Arguments Return {R S} r.
Arguments Next {R S} s.

(** [for x in l: body] over the local state. *)
Fixpoint for_each {A R S} (l : list A) (body : A → S → M W (Ctl R S)) (s : S)
  : M W (Ctl R S) :=
  match l with
  | [] => ret (Next s)
  | x :: l' => bind (body x s) (λ c,
      match c with
      | Return r => ret (Return r)
      | Next s' => for_each l' body s'
      end)
  end.
End Combinators.
Arguments Return {R S} r.
Arguments Next {R S} s.

Notation "'let!' x ':=' m 'in' k" := (bind m (λ x, k))
  (at level 200, x name, m at level 100, k at level 200, right associativity) : fcam_scope.
Notation "'let!' ' p ':=' m 'in' k" := (bind m (λ x, match x with p => k end))
  (at level 200, p pattern, m at level 100, k at level 200, right associativity) : fcam_scope.
Notation "m ;;! k" := (bind m (λ _, k))
  (at level 199, right associativity) : fcam_scope.

Definition raise_fcam {W A} (status : Z) (code msg : string) (retry : option Z) : M W A :=
  raise (EFcam (mkFcamError status code msg retry)).
Definition raise_detailed {W A} (status : Z) (code msg : string) (retry : option Z) (details : Json) : M W A :=
  raise (EFcam (mkFcamErrorWith status code msg retry (Some details))).

(** * Reasoning *)

Section Reasoning.
Context {W : Type}.

(** Every run of [m] relates the state before to the state after, whatever the
    outcome. *)
Definition runs (R : relation W) {A} (m : M W A) : Prop := ∀ w, R w (m w).2.

(** Every run of [m] relates the state before, the outcome and the state
    after. *)
Definition ensures {A} (m : M W A) (Φ : W → Res A → W → Prop) : Prop :=
  ∀ w, Φ w (m w).1 (m w).2.

Lemma ensures_runs R {A} (m : M W A) : ensures m (λ w _ w', R w w') ↔ runs R m.
Proof. done. Qed.

Section Rules.
Context (R : relation W) `{!PreOrder R}.

Lemma runs_ret {A} (a : A) : runs R (ret a).
Proof. intros w. simpl. reflexivity. Qed.
Lemma runs_raise {A} e : runs R (raise (A:=A) e).
Proof. intros w. simpl. reflexivity. Qed.
Lemma runs_raise_fcam {A} s c m r : runs R (raise_fcam (A:=A) s c m r).
Proof. intros w. simpl. reflexivity. Qed.
Lemma runs_raise_detailed {A} s c m r d : runs R (raise_detailed (A:=A) s c m r d).
Proof. intros w. simpl. reflexivity. Qed.
Lemma runs_of_res {A} (r : Res A) : runs R (of_res r).
Proof. intros w. simpl. reflexivity. Qed.
Lemma runs_gets {A} (f : W → A) : runs R (gets f).
Proof. intros w. simpl. reflexivity. Qed.
Lemma runs_modify f : (∀ w, R w (f w)) → runs R (modify f).
Proof. intros H w. apply H. Qed.
Lemma runs_step {A} (f : W → A * W) : (∀ w, R w (f w).2) → runs R (step f).
Proof. intros H w. specialize (H w). unfold step. by destruct (f w). Qed.
Lemma runs_bind {A B} (m : M W A) (f : A → M W B) :
  runs R m → (∀ a, runs R (f a)) → runs R (bind m f).
Proof.
  intros Hm Hf w. unfold bind. specialize (Hm w).
  destruct (m w) as [[a|e] w']; simpl in *; [|done].
  etrans; [exact Hm|apply Hf].
Qed.
Lemma runs_try_except {A} (m : M W A) h :
  runs R m → (∀ e k, h e = Some k → runs R k) → runs R (try_except m h).
Proof.
  intros Hm Hh w. unfold try_except. specialize (Hm w).
  destruct (m w) as [[a|e] w']; simpl in *; [done|].
  destruct (h e) as [k|] eqn:E; simpl; [|done].
  etrans; [exact Hm|by eapply Hh].
Qed.
Lemma runs_catch_all {A} (m : M W A) k :
  runs R m → (∀ e, runs R (k e)) → runs R (catch_all m k).
Proof. intros Hm Hk. apply runs_try_except; [done|]. intros e k' [= <-]. done. Qed.
Lemma runs_finally {A} (m : M W A) f :
  runs R m → runs R f → runs R (finally m f).
Proof.
  intros Hm Hf w. unfold finally. specialize (Hm w).
  destruct (m w) as [r w1]. specialize (Hf w1).
  destruct (f w1) as [[?|?] w2]; simpl in *; by etrans.
Qed.
Lemma runs_for_each {A X S} (l : list A) (body : A → S → M W (Ctl X S)) s :
  (∀ x s, x ∈ l → runs R (body x s)) → runs R (for_each l body s).
Proof.
  revert s. induction l as [|x l IH]; intros s Hb; [apply runs_ret|].
  apply runs_bind; [apply Hb; by left|].
  intros [r|s']; [apply runs_ret|]. apply IH. intros y s'' Hy. apply Hb. by right.
Qed.
End Rules.

Lemma runs_mono (R R' : relation W) {A} (m : M W A) :
  (∀ w w', R w w' → R' w w') → runs R m → runs R' m.
Proof. intros H Hm w. apply H, Hm. Qed.
Lemma runs_and (R R' : relation W) {A} (m : M W A) :
  runs R m → runs R' m → runs (λ w w', R w w' ∧ R' w w') m.
Proof. intros H H' w. split; [apply H|apply H']. Qed.
Lemma runs_ext (R : relation W) {A} (m m' : M W A) :
  (∀ w, m w = m' w) → runs R m → runs R m'.
Proof. intros E H w. rewrite <-E. apply H. Qed.

(** Running a bind whose first part is known. *)
Lemma bind_run {A B} (m : M W A) (f : A → M W B) w a w' : m w = (Ok a, w') → bind m f w = f a w'.
Proof. unfold bind. by intros ->. Qed.
(** Inversion of a bind that returned. *)
Lemma bind_ok {A B} (m : M W A) (f : A → M W B) w b w' :
  bind m f w = (Ok b, w') →
  ∃ a w1, m w = (Ok a, w1) ∧ f a w1 = (Ok b, w').
Proof. unfold bind. destruct (m w) as [[a|e] w1]; [eauto|done]. Qed.
Lemma bind_raise {A B} (m : M W A) (f : A → M W B) w e w' :
  bind m f w = (Raise e, w') →
  m w = (Raise e, w') ∨ ∃ a w1, m w = (Ok a, w1) ∧ f a w1 = (Raise e, w').
Proof. unfold bind. destruct (m w) as [[a|e1] w1]; [eauto|intros [= -> ->]; by left]. Qed.
Lemma bind_assoc {A B C} (m : M W A) (f : A → M W B) (g : B → M W C) w :
  bind (bind m f) g w = bind m (λ a, bind (f a) g) w.
Proof. unfold bind. by destruct (m w) as [[a|e] w1]. Qed.

(** A loop invariant over the local state: either the loop returned from an
    iteration entered with the invariant, or it ends with it. *)
Lemma for_each_inv {A X S} (l : list A) (body : A → S → M W (Ctl X S))
      (I : S → W → Prop) (Q : X → W → Prop) :
  (∀ x s w, x ∈ l → I s w →
     match body x s w with
     | (Ok (Return r), w') => Q r w'
     | (Ok (Next s'), w') => I s' w'
     | (Raise _, _) => True
     end) →
  ∀ s w, I s w →
     match for_each l body s w with
     | (Ok (Return r), w') => Q r w'
     | (Ok (Next s'), w') => I s' w'
     | (Raise _, _) => True
     end.
Proof.
  induction l as [|x l IH]; intros Hb s w HI; simpl; [done|].
  unfold bind. specialize (Hb x s w) as Hx.
  assert (x ∈ x :: l) as Hin by (by left). specialize (Hx Hin HI).
  destruct (body x s w) as [[[r|s']|e] w']; simpl; [done| |done].
  apply IH; [|done]. intros y s'' w'' Hy. apply Hb. by right.
Qed.
End Reasoning.

(** Evaluating a run: only the outcome needs to be computed. *)
Lemma run_eq {W A} (m : M W A) w r : (m w).1 = r → m w = (r, (m w).2).
Proof. intros <-. by destruct (m w). Qed.

Create HintDb effects.
#[export] Hint Resolve runs_ret runs_raise runs_raise_fcam runs_raise_detailed runs_of_res runs_gets : effects.

(** Decomposes a [runs R m] goal along the combinators and closes the leaves
    with the [effects] database. *)
Ltac runs_side := solve [typeclasses eauto | eauto with effects].
Ltac runs_step :=
  lazymatch goal with
  | |- runs _ (bind _ _) => apply runs_bind; [runs_side| |intros]
  | |- runs _ (try_except _ _) => apply runs_try_except; [runs_side| |intros ? ?]
  | |- runs _ (catch_all _ _) => apply runs_catch_all; [runs_side| |intros]
  | |- runs _ (finally _ _) => apply runs_finally; [runs_side| |]
  | |- runs _ (for_each _ _ _) => apply runs_for_each; [runs_side|intros ? ? ?]
  | |- runs _ (ret _) => apply runs_ret; runs_side
  | |- runs _ (raise _) => apply runs_raise; runs_side
  | |- runs _ (raise_fcam _ _ _ _) => apply runs_raise_fcam; runs_side
  | |- runs _ (raise_detailed _ _ _ _ _) => apply runs_raise_detailed; runs_side
  | |- runs _ (of_res _) => apply runs_of_res; runs_side
  | |- runs _ (gets _) => apply runs_gets; runs_side
  | |- runs _ (if ?b then _ else _) => destruct b eqn:?
  | |- runs _ (let '(_, _) := ?x in _) => destruct x eqn:?
  | |- runs _ (match ?x with _ => _ end) => destruct x eqn:?
  end.
Ltac runs_auto :=
  repeat first [ runs_step | solve [eauto with effects] | progress intros ].
