(* ===== verification/PyTime.v ===== *)
(** Python's [datetime] and [timedelta] as the source uses them.  A datetime
    counts microseconds (the resolution of Python's type); [Aware] values count
    from the Unix epoch in UTC, [Naive] ones carry no time zone, which is what
    SQLite returns for columns declared with one. *)

From S2P Require Import Prelude.
Open Scope Z_scope.

Inductive DateTime :=
  | Naive (us : Z)
  | Aware (us : Z).

#[export] Instance DateTime_eq_dec : EqDecision DateTime.
Proof. solve_decision. Defined.

(** The idiom [dt if dt.tzinfo is not None else dt.replace(tzinfo=utc)]: the
    instant, in microseconds since the epoch. *)
Definition utc_us (d : DateTime) : Z := match d with Naive u | Aware u => u end.
(** [app/core/resource_binding.py], _as_utc, on a present value. *)
Definition as_utc (d : DateTime) : DateTime := Aware (utc_us d).

Definition second : Z := 1000000.
Definition minute : Z := 60 * second.
Definition hour : Z := 60 * minute.
Definition day : Z := 24 * hour.

(** [timedelta.total_seconds()]. *)
Definition total_seconds (us : Z) : Q := us # 1000000.
(** [int(td.total_seconds())]. *)
Definition int_seconds (us : Z) : Z := Z.quot us second.

Lemma int_seconds_total us : int_of_float (total_seconds us) = int_seconds us.
Proof.
  unfold int_of_float, total_seconds, int_seconds, second.
  destruct (Qle_bool 0 (us # 1000000)) eqn:E; simpl.
  - apply Qle_bool_iff in E. unfold Qle in E; simpl in E.
    unfold Qfloor. symmetry. apply Z.quot_div_nonneg; lia.
  - apply Qle_bool_false in E. unfold Qlt in E; simpl in E.
    unfold Qceiling, Qfloor; simpl.
    rewrite <-(Z.opp_involutive us) at 2. rewrite Z.quot_opp_l by lia.
    f_equal. symmetry. apply Z.quot_div_nonneg; lia.
Qed.

(** * The calendar

    Days since 1970-01-01 as (year, month, day) and back, in the proleptic
    Gregorian calendar of Python's [date]; the computation counts years from
    March so that the leap day is the last of the year. *)
Definition civil_of_days (z : Z) : Z * Z * Z :=
  let z := z + 719468 in
  let era := z / 146097 in
  let doe := z - era * 146097 in
  let yoe := (doe - doe / 1460 + doe / 36524 - doe / 146096) / 365 in
  let y := yoe + era * 400 in
  let doy := doe - (365 * yoe + yoe / 4 - yoe / 100) in
  let mp := (5 * doy + 2) / 153 in
  let d := doy - (153 * mp + 2) / 5 + 1 in
  let m := if mp <? 10 then mp + 3 else mp - 9 in
  ((if m <=? 2 then y + 1 else y), m, d).

Definition days_of_civil (y m d : Z) : Z :=
  let y := if m <=? 2 then y - 1 else y in
  let era := y / 400 in
  let yoe := y - era * 400 in
  let doy := (153 * (if m >? 2 then m - 3 else m + 9) + 2) / 5 + d - 1 in
  let doe := yoe * 365 + yoe / 4 - yoe / 100 + doy in
  era * 146097 + doe - 719468.

(** [dt.replace(day=1, hour=0, minute=0, second=0, microsecond=0)]. *)
Definition start_of_month (us : Z) : Z :=
  let '(y, m, _) := civil_of_days (us / day) in days_of_civil y m 1 * day.
(** [dt.replace(day=1)]. *)
Definition first_of_month (us : Z) : Z := start_of_month us + us mod day.

Example civil_epoch : civil_of_days 0 = (1970, 1, 1).
Proof. reflexivity. Qed.
Example civil_2024_leap : civil_of_days (days_of_civil 2024 2 29) = (2024, 2, 29).
Proof. reflexivity. Qed.

(** [civil_of_days] inverts [days_of_civil] on the first day of a month of one
    400-year cycle; the cycle repeats. *)
Lemma civil_of_days_period z k :
  civil_of_days (z + k * 146097) =
  (let '(y, m, d) := civil_of_days z in (y + k * 400, m, d)).
Proof.
  unfold civil_of_days.
  replace (z + k * 146097 + 719468) with (z + 719468 + k * 146097) by lia.
  rewrite Z.div_add by lia.
  replace (z + 719468 + k * 146097 - ((z + 719468) / 146097 + k) * 146097)
    with (z + 719468 - (z + 719468) / 146097 * 146097) by lia.
  set (doe := z + 719468 - (z + 719468) / 146097 * 146097).
  set (mp := (5 * _ + 2) / 153).
  destruct ((if mp <? 10 then mp + 3 else mp - 9) <=? 2) eqn:E; f_equal; f_equal; lia.
Qed.

Lemma days_of_civil_period y m d k :
  days_of_civil (y + k * 400) m d = days_of_civil y m d + k * 146097.
Proof.
  unfold days_of_civil.
  replace (if m <=? 2 then y + k * 400 - 1 else y + k * 400)
    with ((if m <=? 2 then y - 1 else y) + k * 400) by (destruct (m <=? 2); lia).
  set (y' := if m <=? 2 then y - 1 else y).
  rewrite Z.div_add by lia.
  replace (y' + k * 400 - (y' / 400 + k) * 400) with (y' - y' / 400 * 400) by lia.
  lia.
Qed.
