(* ===== verification/IsoFormat.v ===== *)
(** [datetime.fromisoformat] on the extended formats: a date, optionally followed by
    one separator character, a time of two to six fields and an offset.  (The
    compact and week-date forms that newer Python versions add are read as
    malformed.) *)

From S2P Require Import Prelude PyText PyTime.
Open Scope Z_scope.

(** Exactly [n] digits, and the rest. *)
Fixpoint take_digits (n : nat) (acc : Z) (s : string) : option (Z * string) :=
  match n, s with
  | O, _ => Some (acc, s)
  | S n', String c s' => if is_digit c then take_digits n' (acc * 10 + digit_val c) s' else None
  | S _, EmptyString => None
  end.
Definition expect (c : Ascii.ascii) (s : string) : option string :=
  match s with String d s' => if Ascii.eqb c d then Some s' else None | EmptyString => None end.

Definition leap (y : Z) : bool := (y mod 4 =? 0) && (negb (y mod 100 =? 0) || (y mod 400 =? 0)).
Definition days_in_month (y m : Z) : Z :=
  if m =? 2 then (if leap y then 29 else 28) else if z_in m [4; 6; 9; 11] then 30 else 31.

(** Days since the epoch. *)
Definition parse_date (s : string) : option (Z * string) :=
  '(y, s) ← take_digits 4 0 s; s ← expect "-"%char s;
  '(m, s) ← take_digits 2 0 s; s ← expect "-"%char s;
  '(d, s) ← take_digits 2 0 s;
  if (1 <=? y) && (1 <=? m) && (m <=? 12) && (1 <=? d) && (d <=? days_in_month y m)
  then Some (days_of_civil y m d, s) else None.

(** Fraction digits after the point, of which six count. *)
Fixpoint parse_fraction (left : nat) (acc : Z) (s : string) : Z * string :=
  match s with
  | String c s' =>
      if is_digit c then
        match left with
        | O => parse_fraction O acc s'
        | S left' => parse_fraction left' (acc * 10 + digit_val c) s'
        end
      else (acc * 10 ^ Z.of_nat left, s)
  | EmptyString => (acc * 10 ^ Z.of_nat left, s)
  end.

(** [HH[:MM[:SS[.f...]]]] in microseconds. *)
Definition parse_hms (s : string) : option (Z * string) :=
  '(h, s) ← take_digits 2 0 s;
  match expect ":"%char s with
  | None => Some (h * hour, s)
  | Some s =>
      '(mi, s) ← take_digits 2 0 s;
      if mi >=? 60 then None
      else match expect ":"%char s with
      | None => Some (h * hour + mi * minute, s)
      | Some s =>
          '(se, s) ← take_digits 2 0 s;
          if se >=? 60 then None
          else match s with
          | String c s' =>
              if Ascii.eqb c "."%char || Ascii.eqb c ","%char then
                match s' with
                | String d _ => if is_digit d then
                    let '(f, s) := parse_fraction 6 0 s' in
                    Some (h * hour + mi * minute + se * second + f, s) else None
                | EmptyString => None
                end
              else Some (h * hour + mi * minute + se * second, s)
          | EmptyString => Some (h * hour + mi * minute + se * second, s)
          end
      end
  end.

(** The offset, [None] inside when there is none. *)
Definition parse_offset (s : string) : option (option Z) :=
  match s with
  | EmptyString => Some None
  | String c s' =>
      if Ascii.eqb c "Z"%char then (if String.eqb s' "" then Some (Some 0) else None)
      else
        let sign := if Ascii.eqb c "+"%char then Some 1 else if Ascii.eqb c "-"%char then Some (-1) else None in
        sg ← sign;
        '(o, rest) ← parse_hms s';
        if String.eqb rest "" && (o <? day) then Some (Some (sg * o)) else None
  end.

(** [None] is the ValueError. *)
Definition fromisoformat (s : string) : option DateTime :=
  '(d, s) ← parse_date s;
  match s with
  | EmptyString => Some (Naive (d * day))
  | String _ s =>
      '(t, s) ← parse_hms s;
      if t >=? day then None
      else
        off ← parse_offset s;
        Some match off with
             | None => Naive (d * day + t)
             | Some o => Aware (d * day + t - o)
             end
  end.

Example iso_z : fromisoformat "2026-01-15T12:00:00Z" = Some (Aware (days_of_civil 2026 1 15 * day + 12 * hour)).
Proof. vm_compute. reflexivity. Qed.
Example iso_offset : fromisoformat "2026-01-15 12:00:00.25+02:00" =
  Some (Aware (days_of_civil 2026 1 15 * day + 10 * hour + 250000)).
Proof. vm_compute. reflexivity. Qed.
Example iso_date : fromisoformat "2026-02-28" = Some (Naive (days_of_civil 2026 2 28 * day)).
Proof. vm_compute. reflexivity. Qed.
Example iso_bad : fromisoformat "2026-02-30" = None.
Proof. vm_compute. reflexivity. Qed.
