(* ===== verification/Models.v ===== *)
(** The database schema of [app/db/models.py]: one record per table, columns in
    the order of the source, nullable columns as options, dates as day numbers.
    [Tables] is the whole database as the gateway's session sees it.  Setters are
    given for the columns the modelled code assigns. *)

From S2P Require Import Prelude PyTime.
Open Scope Z_scope.

(** An upstream provider key, table api_keys. *)
Record ApiKey := mkApiKey {
  k_id : Z;
  k_client_id : option Z;
  k_api_key_ciphertext : string;
  k_api_key_hash : string;
  k_api_key_last4 : string;
  k_account_username : option string;
  k_account_password_ciphertext : option string;
  k_account_verified_at : option DateTime;
  k_name : option string;
  k_plan_type : string;
  k_is_active : bool;
  k_daily_quota : Z;
  k_daily_usage : Z;
  k_quota_reset_at : option Z;
  k_max_concurrent : Z;
  k_current_concurrent : Z;
  k_rate_limit_per_min : Z;
  k_rate_limit_reset_at : option DateTime;
  k_cooldown_until : option DateTime;
  k_total_requests : Z;
  k_last_used_at : option DateTime;
  k_created_at : DateTime;
  k_last_credit_snapshot_id : option Z;
  k_last_credit_check_at : option DateTime;
  k_cached_remaining_credits : option Z;
  k_cached_plan_credits : option Z;
  k_next_refresh_at : option DateTime;
  k_provider : string;
  k_status : string
}.
Definition set_k_is_active (v : bool) (r : ApiKey) : ApiKey :=
  mkApiKey
    (r.(k_id)) (r.(k_client_id)) (r.(k_api_key_ciphertext)) (r.(k_api_key_hash))
    (r.(k_api_key_last4)) (r.(k_account_username)) (r.(k_account_password_ciphertext))
    (r.(k_account_verified_at)) (r.(k_name)) (r.(k_plan_type)) v (r.(k_daily_quota))
    (r.(k_daily_usage)) (r.(k_quota_reset_at)) (r.(k_max_concurrent))
    (r.(k_current_concurrent)) (r.(k_rate_limit_per_min)) (r.(k_rate_limit_reset_at))
    (r.(k_cooldown_until)) (r.(k_total_requests)) (r.(k_last_used_at))
    (r.(k_created_at)) (r.(k_last_credit_snapshot_id)) (r.(k_last_credit_check_at))
    (r.(k_cached_remaining_credits)) (r.(k_cached_plan_credits)) (r.(k_next_refresh_at))
    (r.(k_provider)) (r.(k_status)).
Definition set_k_status (v : string) (r : ApiKey) : ApiKey :=
  mkApiKey
    (r.(k_id)) (r.(k_client_id)) (r.(k_api_key_ciphertext)) (r.(k_api_key_hash))
    (r.(k_api_key_last4)) (r.(k_account_username)) (r.(k_account_password_ciphertext))
    (r.(k_account_verified_at)) (r.(k_name)) (r.(k_plan_type)) (r.(k_is_active))
    (r.(k_daily_quota)) (r.(k_daily_usage)) (r.(k_quota_reset_at))
    (r.(k_max_concurrent)) (r.(k_current_concurrent)) (r.(k_rate_limit_per_min))
    (r.(k_rate_limit_reset_at)) (r.(k_cooldown_until)) (r.(k_total_requests))
    (r.(k_last_used_at)) (r.(k_created_at)) (r.(k_last_credit_snapshot_id))
    (r.(k_last_credit_check_at)) (r.(k_cached_remaining_credits))
    (r.(k_cached_plan_credits)) (r.(k_next_refresh_at)) (r.(k_provider)) v.
Definition set_k_cooldown_until (v : option DateTime) (r : ApiKey) : ApiKey :=
  mkApiKey
    (r.(k_id)) (r.(k_client_id)) (r.(k_api_key_ciphertext)) (r.(k_api_key_hash))
    (r.(k_api_key_last4)) (r.(k_account_username)) (r.(k_account_password_ciphertext))
    (r.(k_account_verified_at)) (r.(k_name)) (r.(k_plan_type)) (r.(k_is_active))
    (r.(k_daily_quota)) (r.(k_daily_usage)) (r.(k_quota_reset_at))
    (r.(k_max_concurrent)) (r.(k_current_concurrent)) (r.(k_rate_limit_per_min))
    (r.(k_rate_limit_reset_at)) v (r.(k_total_requests)) (r.(k_last_used_at))
    (r.(k_created_at)) (r.(k_last_credit_snapshot_id)) (r.(k_last_credit_check_at))
    (r.(k_cached_remaining_credits)) (r.(k_cached_plan_credits)) (r.(k_next_refresh_at))
    (r.(k_provider)) (r.(k_status)).
Definition set_k_next_refresh_at (v : option DateTime) (r : ApiKey) : ApiKey :=
  mkApiKey
    (r.(k_id)) (r.(k_client_id)) (r.(k_api_key_ciphertext)) (r.(k_api_key_hash))
    (r.(k_api_key_last4)) (r.(k_account_username)) (r.(k_account_password_ciphertext))
    (r.(k_account_verified_at)) (r.(k_name)) (r.(k_plan_type)) (r.(k_is_active))
    (r.(k_daily_quota)) (r.(k_daily_usage)) (r.(k_quota_reset_at))
    (r.(k_max_concurrent)) (r.(k_current_concurrent)) (r.(k_rate_limit_per_min))
    (r.(k_rate_limit_reset_at)) (r.(k_cooldown_until)) (r.(k_total_requests))
    (r.(k_last_used_at)) (r.(k_created_at)) (r.(k_last_credit_snapshot_id))
    (r.(k_last_credit_check_at)) (r.(k_cached_remaining_credits))
    (r.(k_cached_plan_credits)) v (r.(k_provider)) (r.(k_status)).
Definition set_k_cached_remaining_credits (v : option Z) (r : ApiKey) : ApiKey :=
  mkApiKey
    (r.(k_id)) (r.(k_client_id)) (r.(k_api_key_ciphertext)) (r.(k_api_key_hash))
    (r.(k_api_key_last4)) (r.(k_account_username)) (r.(k_account_password_ciphertext))
    (r.(k_account_verified_at)) (r.(k_name)) (r.(k_plan_type)) (r.(k_is_active))
    (r.(k_daily_quota)) (r.(k_daily_usage)) (r.(k_quota_reset_at))
    (r.(k_max_concurrent)) (r.(k_current_concurrent)) (r.(k_rate_limit_per_min))
    (r.(k_rate_limit_reset_at)) (r.(k_cooldown_until)) (r.(k_total_requests))
    (r.(k_last_used_at)) (r.(k_created_at)) (r.(k_last_credit_snapshot_id))
    (r.(k_last_credit_check_at)) v (r.(k_cached_plan_credits)) (r.(k_next_refresh_at))
    (r.(k_provider)) (r.(k_status)).
Definition set_k_cached_plan_credits (v : option Z) (r : ApiKey) : ApiKey :=
  mkApiKey
    (r.(k_id)) (r.(k_client_id)) (r.(k_api_key_ciphertext)) (r.(k_api_key_hash))
    (r.(k_api_key_last4)) (r.(k_account_username)) (r.(k_account_password_ciphertext))
    (r.(k_account_verified_at)) (r.(k_name)) (r.(k_plan_type)) (r.(k_is_active))
    (r.(k_daily_quota)) (r.(k_daily_usage)) (r.(k_quota_reset_at))
    (r.(k_max_concurrent)) (r.(k_current_concurrent)) (r.(k_rate_limit_per_min))
    (r.(k_rate_limit_reset_at)) (r.(k_cooldown_until)) (r.(k_total_requests))
    (r.(k_last_used_at)) (r.(k_created_at)) (r.(k_last_credit_snapshot_id))
    (r.(k_last_credit_check_at)) (r.(k_cached_remaining_credits)) v
    (r.(k_next_refresh_at)) (r.(k_provider)) (r.(k_status)).
Definition set_k_last_credit_snapshot_id (v : option Z) (r : ApiKey) : ApiKey :=
  mkApiKey
    (r.(k_id)) (r.(k_client_id)) (r.(k_api_key_ciphertext)) (r.(k_api_key_hash))
    (r.(k_api_key_last4)) (r.(k_account_username)) (r.(k_account_password_ciphertext))
    (r.(k_account_verified_at)) (r.(k_name)) (r.(k_plan_type)) (r.(k_is_active))
    (r.(k_daily_quota)) (r.(k_daily_usage)) (r.(k_quota_reset_at))
    (r.(k_max_concurrent)) (r.(k_current_concurrent)) (r.(k_rate_limit_per_min))
    (r.(k_rate_limit_reset_at)) (r.(k_cooldown_until)) (r.(k_total_requests))
    (r.(k_last_used_at)) (r.(k_created_at)) v (r.(k_last_credit_check_at))
    (r.(k_cached_remaining_credits)) (r.(k_cached_plan_credits)) (r.(k_next_refresh_at))
    (r.(k_provider)) (r.(k_status)).
Definition set_k_last_credit_check_at (v : option DateTime) (r : ApiKey) : ApiKey :=
  mkApiKey
    (r.(k_id)) (r.(k_client_id)) (r.(k_api_key_ciphertext)) (r.(k_api_key_hash))
    (r.(k_api_key_last4)) (r.(k_account_username)) (r.(k_account_password_ciphertext))
    (r.(k_account_verified_at)) (r.(k_name)) (r.(k_plan_type)) (r.(k_is_active))
    (r.(k_daily_quota)) (r.(k_daily_usage)) (r.(k_quota_reset_at))
    (r.(k_max_concurrent)) (r.(k_current_concurrent)) (r.(k_rate_limit_per_min))
    (r.(k_rate_limit_reset_at)) (r.(k_cooldown_until)) (r.(k_total_requests))
    (r.(k_last_used_at)) (r.(k_created_at)) (r.(k_last_credit_snapshot_id)) v
    (r.(k_cached_remaining_credits)) (r.(k_cached_plan_credits)) (r.(k_next_refresh_at))
    (r.(k_provider)) (r.(k_status)).
Definition set_k_total_requests (v : Z) (r : ApiKey) : ApiKey :=
  mkApiKey
    (r.(k_id)) (r.(k_client_id)) (r.(k_api_key_ciphertext)) (r.(k_api_key_hash))
    (r.(k_api_key_last4)) (r.(k_account_username)) (r.(k_account_password_ciphertext))
    (r.(k_account_verified_at)) (r.(k_name)) (r.(k_plan_type)) (r.(k_is_active))
    (r.(k_daily_quota)) (r.(k_daily_usage)) (r.(k_quota_reset_at))
    (r.(k_max_concurrent)) (r.(k_current_concurrent)) (r.(k_rate_limit_per_min))
    (r.(k_rate_limit_reset_at)) (r.(k_cooldown_until)) v (r.(k_last_used_at))
    (r.(k_created_at)) (r.(k_last_credit_snapshot_id)) (r.(k_last_credit_check_at))
    (r.(k_cached_remaining_credits)) (r.(k_cached_plan_credits)) (r.(k_next_refresh_at))
    (r.(k_provider)) (r.(k_status)).
Definition set_k_last_used_at (v : option DateTime) (r : ApiKey) : ApiKey :=
  mkApiKey
    (r.(k_id)) (r.(k_client_id)) (r.(k_api_key_ciphertext)) (r.(k_api_key_hash))
    (r.(k_api_key_last4)) (r.(k_account_username)) (r.(k_account_password_ciphertext))
    (r.(k_account_verified_at)) (r.(k_name)) (r.(k_plan_type)) (r.(k_is_active))
    (r.(k_daily_quota)) (r.(k_daily_usage)) (r.(k_quota_reset_at))
    (r.(k_max_concurrent)) (r.(k_current_concurrent)) (r.(k_rate_limit_per_min))
    (r.(k_rate_limit_reset_at)) (r.(k_cooldown_until)) (r.(k_total_requests)) v
    (r.(k_created_at)) (r.(k_last_credit_snapshot_id)) (r.(k_last_credit_check_at))
    (r.(k_cached_remaining_credits)) (r.(k_cached_plan_credits)) (r.(k_next_refresh_at))
    (r.(k_provider)) (r.(k_status)).

(** A downstream client, table clients. *)
Record Client := mkClient {
  c_id : Z;
  c_name : string;
  c_token_hash : string;
  c_token_ciphertext : option string;
  c_is_active : bool;
  c_daily_quota : option Z;
  c_daily_usage : Z;
  c_quota_reset_at : option Z;
  c_rate_limit_per_min : Z;
  c_max_concurrent : Z;
  c_max_retries : Z;
  c_created_at : DateTime;
  c_last_used_at : option DateTime;
  c_status : string
}.
Definition set_c_is_active (v : bool) (r : Client) : Client :=
  mkClient
    (r.(c_id)) (r.(c_name)) (r.(c_token_hash)) (r.(c_token_ciphertext)) v
    (r.(c_daily_quota)) (r.(c_daily_usage)) (r.(c_quota_reset_at))
    (r.(c_rate_limit_per_min)) (r.(c_max_concurrent)) (r.(c_max_retries))
    (r.(c_created_at)) (r.(c_last_used_at)) (r.(c_status)).
Definition set_c_status (v : string) (r : Client) : Client :=
  mkClient
    (r.(c_id)) (r.(c_name)) (r.(c_token_hash)) (r.(c_token_ciphertext))
    (r.(c_is_active)) (r.(c_daily_quota)) (r.(c_daily_usage)) (r.(c_quota_reset_at))
    (r.(c_rate_limit_per_min)) (r.(c_max_concurrent)) (r.(c_max_retries))
    (r.(c_created_at)) (r.(c_last_used_at)) v.
Definition set_c_daily_usage (v : Z) (r : Client) : Client :=
  mkClient
    (r.(c_id)) (r.(c_name)) (r.(c_token_hash)) (r.(c_token_ciphertext))
    (r.(c_is_active)) (r.(c_daily_quota)) v (r.(c_quota_reset_at))
    (r.(c_rate_limit_per_min)) (r.(c_max_concurrent)) (r.(c_max_retries))
    (r.(c_created_at)) (r.(c_last_used_at)) (r.(c_status)).
Definition set_c_quota_reset_at (v : option Z) (r : Client) : Client :=
  mkClient
    (r.(c_id)) (r.(c_name)) (r.(c_token_hash)) (r.(c_token_ciphertext))
    (r.(c_is_active)) (r.(c_daily_quota)) (r.(c_daily_usage)) v
    (r.(c_rate_limit_per_min)) (r.(c_max_concurrent)) (r.(c_max_retries))
    (r.(c_created_at)) (r.(c_last_used_at)) (r.(c_status)).
Definition set_c_last_used_at (v : option DateTime) (r : Client) : Client :=
  mkClient
    (r.(c_id)) (r.(c_name)) (r.(c_token_hash)) (r.(c_token_ciphertext))
    (r.(c_is_active)) (r.(c_daily_quota)) (r.(c_daily_usage)) (r.(c_quota_reset_at))
    (r.(c_rate_limit_per_min)) (r.(c_max_concurrent)) (r.(c_max_retries))
    (r.(c_created_at)) v (r.(c_status)).

(** One handled request, table request_logs. *)
Record RequestLog := mkRequestLog {
  rl_id : Z;
  rl_request_id : string;
  rl_client_id : option Z;
  rl_api_key_id : option Z;
  rl_endpoint : string;
  rl_method : string;
  rl_status_code : option Z;
  rl_response_time_ms : option Z;
  rl_success : option bool;
  rl_retry_count : Z;
  rl_error_message : option string;
  rl_error_details : option string;
  rl_idempotency_key : option string;
  rl_created_at : DateTime
}.

(** One credit probe, table credit_snapshots. *)
Record CreditSnapshot := mkCreditSnapshot {
  s_id : Z;
  s_api_key_id : Z;
  s_remaining_credits : Z;
  s_plan_credits : Z;
  s_billing_period_start : option DateTime;
  s_billing_period_end : option DateTime;
  s_snapshot_at : DateTime;
  s_fetch_success : bool;
  s_error_message : option string
}.

(** An idempotency record, table idempotency_records. *)
Record IdempotencyRecord := mkIdempotencyRecord {
  i_id : Z;
  i_client_id : Z;
  i_idempotency_key : string;
  i_request_hash : string;
  i_status : string;
  i_response_status_code : option Z;
  i_response_body : option string;
  i_created_at : DateTime;
  i_expires_at : option DateTime
}.
Definition set_i_status (v : string) (r : IdempotencyRecord) : IdempotencyRecord :=
  mkIdempotencyRecord
    (r.(i_id)) (r.(i_client_id)) (r.(i_idempotency_key)) (r.(i_request_hash)) v
    (r.(i_response_status_code)) (r.(i_response_body)) (r.(i_created_at))
    (r.(i_expires_at)).
Definition set_i_response_status_code (v : option Z) (r : IdempotencyRecord) : IdempotencyRecord :=
  mkIdempotencyRecord
    (r.(i_id)) (r.(i_client_id)) (r.(i_idempotency_key)) (r.(i_request_hash))
    (r.(i_status)) v (r.(i_response_body)) (r.(i_created_at)) (r.(i_expires_at)).
Definition set_i_response_body (v : option string) (r : IdempotencyRecord) : IdempotencyRecord :=
  mkIdempotencyRecord
    (r.(i_id)) (r.(i_client_id)) (r.(i_idempotency_key)) (r.(i_request_hash))
    (r.(i_status)) (r.(i_response_status_code)) v (r.(i_created_at)) (r.(i_expires_at)).

(** Which key created an upstream resource, table upstream_resource_bindings. *)
Record UpstreamResourceBinding := mkUpstreamResourceBinding {
  b_id : Z;
  b_client_id : Z;
  b_api_key_id : Z;
  b_resource_type : string;
  b_resource_id : string;
  b_created_at : DateTime;
  b_expires_at : option DateTime
}.
Definition set_b_expires_at (v : option DateTime) (r : UpstreamResourceBinding) : UpstreamResourceBinding :=
  mkUpstreamResourceBinding
    (r.(b_id)) (r.(b_client_id)) (r.(b_api_key_id)) (r.(b_resource_type))
    (r.(b_resource_id)) (r.(b_created_at)) v.

(** One control-plane action, table audit_logs. *)
Record AuditLog := mkAuditLog {
  a_id : Z;
  a_actor_type : string;
  a_actor_id : option string;
  a_action : string;
  a_resource_type : option string;
  a_resource_id : option string;
  a_ip : option string;
  a_user_agent : option string;
  a_created_at : DateTime
}.

(** All tables, rows by primary key. *)
Record Tables := mkTables {
  t_keys : gmap Z ApiKey;
  t_clients : gmap Z Client;
  t_request_logs : gmap Z RequestLog;
  t_snapshots : gmap Z CreditSnapshot;
  t_idempotency : gmap Z IdempotencyRecord;
  t_bindings : gmap Z UpstreamResourceBinding;
  t_audit_logs : gmap Z AuditLog
}.
Definition set_t_keys (v : gmap Z ApiKey) (r : Tables) : Tables :=
  mkTables
    v (r.(t_clients)) (r.(t_request_logs)) (r.(t_snapshots)) (r.(t_idempotency))
    (r.(t_bindings)) (r.(t_audit_logs)).
Definition set_t_clients (v : gmap Z Client) (r : Tables) : Tables :=
  mkTables
    (r.(t_keys)) v (r.(t_request_logs)) (r.(t_snapshots)) (r.(t_idempotency))
    (r.(t_bindings)) (r.(t_audit_logs)).
Definition set_t_request_logs (v : gmap Z RequestLog) (r : Tables) : Tables :=
  mkTables
    (r.(t_keys)) (r.(t_clients)) v (r.(t_snapshots)) (r.(t_idempotency))
    (r.(t_bindings)) (r.(t_audit_logs)).
Definition set_t_snapshots (v : gmap Z CreditSnapshot) (r : Tables) : Tables :=
  mkTables
    (r.(t_keys)) (r.(t_clients)) (r.(t_request_logs)) v (r.(t_idempotency))
    (r.(t_bindings)) (r.(t_audit_logs)).
Definition set_t_idempotency (v : gmap Z IdempotencyRecord) (r : Tables) : Tables :=
  mkTables
    (r.(t_keys)) (r.(t_clients)) (r.(t_request_logs)) (r.(t_snapshots)) v
    (r.(t_bindings)) (r.(t_audit_logs)).
Definition set_t_bindings (v : gmap Z UpstreamResourceBinding) (r : Tables) : Tables :=
  mkTables
    (r.(t_keys)) (r.(t_clients)) (r.(t_request_logs)) (r.(t_snapshots))
    (r.(t_idempotency)) v (r.(t_audit_logs)).
Definition set_t_audit_logs (v : gmap Z AuditLog) (r : Tables) : Tables :=
  mkTables
    (r.(t_keys)) (r.(t_clients)) (r.(t_request_logs)) (r.(t_snapshots))
    (r.(t_idempotency)) (r.(t_bindings)) v.


(** The constraints the schema declares, which the database checks when changes
    reach it.  Unique columns: the hash of an API key, the name and the token hash
    of a client, one idempotency record per client and key, one binding per client
    and resource.  Foreign keys: rows name existing rows ([refers]; a nullable
    column may be empty). *)
Definition idem_slot (r : IdempotencyRecord) : Z * string := (r.(i_client_id), r.(i_idempotency_key)).
Definition bind_slot (r : UpstreamResourceBinding) : Z * string * string :=
  (r.(b_client_id), r.(b_resource_type), r.(b_resource_id)).
Definition unique_by {A B} (f : A → B) (m : gmap Z A) : Prop :=
  ∀ i j a b, m !! i = Some a → m !! j = Some b → f a = f b → i = j.
Definition refers {A} (m : gmap Z A) (o : option Z) : Prop :=
  match o with Some i => is_Some (m !! i) | None => True end.
#[export] Instance refers_dec {A} (m : gmap Z A) o : Decision (refers m o).
Proof. destruct o; simpl; apply _. Defined.
Definition all_refer {A B} (m : gmap Z A) (f : A → option Z) (target : gmap Z B) : Prop :=
  map_Forall (λ _ r, refers target (f r)) m.

Record constraints_hold (t : Tables) : Prop := {
  uq_key_hash : unique_by k_api_key_hash (t_keys t);
  uq_client_name : unique_by c_name (t_clients t);
  uq_client_token : unique_by c_token_hash (t_clients t);
  uq_idempotency : unique_by idem_slot (t_idempotency t);
  uq_binding : unique_by bind_slot (t_bindings t);
  fk_key_client : all_refer (t_keys t) k_client_id (t_clients t);
  fk_log_client : all_refer (t_request_logs t) rl_client_id (t_clients t);
  fk_log_key : all_refer (t_request_logs t) rl_api_key_id (t_keys t);
  fk_snapshot_key : all_refer (t_snapshots t) (λ s, Some (s_api_key_id s)) (t_keys t);
  fk_idempotency_client : all_refer (t_idempotency t) (λ r, Some (i_client_id r)) (t_clients t);
  fk_binding_client : all_refer (t_bindings t) (λ b, Some (b_client_id b)) (t_clients t);
  fk_binding_key : all_refer (t_bindings t) (λ b, Some (b_api_key_id b)) (t_keys t)
}.

Definition empty_tables : Tables := mkTables ∅ ∅ ∅ ∅ ∅ ∅ ∅.

(** Rows in the order of their primary key: [ORDER BY id ASC]. *)
Definition pk_le {A} (x y : Z * A) : Prop := x.1 ≤ y.1.
#[export] Instance pk_le_dec {A} : RelDecision (@pk_le A).
Proof. intros x y. unfold pk_le. apply _. Defined.
Definition by_id {A} (m : gmap Z A) : list A := (merge_sort pk_le (map_to_list m)).*2.

Lemma elem_of_by_id {A} (m : gmap Z A) x : x ∈ by_id m ↔ ∃ i, m !! i = Some x.
Proof.
  unfold by_id. rewrite list_elem_of_fmap. setoid_rewrite merge_sort_Permutation. split.
  - intros ([i y] & -> & H%elem_of_map_to_list). by exists i.
  - intros [i H]. exists (i, x). split; [done|]. by apply elem_of_map_to_list.
Qed.

Lemma by_id_nil {A} (m : gmap Z A) : by_id m = [] ↔ m = ∅.
Proof.
  unfold by_id. split.
  - intros H%fmap_nil_inv. apply map_to_list_empty_iff.
    apply Permutation_nil_r. by rewrite <-(merge_sort_Permutation pk_le (map_to_list m)), H.
  - intros ->. by rewrite map_to_list_empty.
Qed.
