(* ===== verification/AdminRows.v ===== *)
(** The columns that only the control plane assigns, and the rows it inserts. *)

From S2P Require Import Prelude PyTime Models.
Open Scope Z_scope.

Definition set_k_client_id (v : option Z) (r : ApiKey) : ApiKey :=
  mkApiKey
    (r.(k_id)) v (r.(k_api_key_ciphertext)) (r.(k_api_key_hash)) (r.(k_api_key_last4))
    (r.(k_account_username)) (r.(k_account_password_ciphertext))
    (r.(k_account_verified_at)) (r.(k_name)) (r.(k_plan_type)) (r.(k_is_active))
    (r.(k_daily_quota)) (r.(k_daily_usage)) (r.(k_quota_reset_at))
    (r.(k_max_concurrent)) (r.(k_current_concurrent)) (r.(k_rate_limit_per_min))
    (r.(k_rate_limit_reset_at)) (r.(k_cooldown_until)) (r.(k_total_requests))
    (r.(k_last_used_at)) (r.(k_created_at)) (r.(k_last_credit_snapshot_id))
    (r.(k_last_credit_check_at)) (r.(k_cached_remaining_credits))
    (r.(k_cached_plan_credits)) (r.(k_next_refresh_at)) (r.(k_provider)) (r.(k_status)).
Definition set_k_api_key_ciphertext (v : string) (r : ApiKey) : ApiKey :=
  mkApiKey
    (r.(k_id)) (r.(k_client_id)) v (r.(k_api_key_hash)) (r.(k_api_key_last4))
    (r.(k_account_username)) (r.(k_account_password_ciphertext))
    (r.(k_account_verified_at)) (r.(k_name)) (r.(k_plan_type)) (r.(k_is_active))
    (r.(k_daily_quota)) (r.(k_daily_usage)) (r.(k_quota_reset_at))
    (r.(k_max_concurrent)) (r.(k_current_concurrent)) (r.(k_rate_limit_per_min))
    (r.(k_rate_limit_reset_at)) (r.(k_cooldown_until)) (r.(k_total_requests))
    (r.(k_last_used_at)) (r.(k_created_at)) (r.(k_last_credit_snapshot_id))
    (r.(k_last_credit_check_at)) (r.(k_cached_remaining_credits))
    (r.(k_cached_plan_credits)) (r.(k_next_refresh_at)) (r.(k_provider)) (r.(k_status)).
Definition set_k_api_key_hash (v : string) (r : ApiKey) : ApiKey :=
  mkApiKey
    (r.(k_id)) (r.(k_client_id)) (r.(k_api_key_ciphertext)) v (r.(k_api_key_last4))
    (r.(k_account_username)) (r.(k_account_password_ciphertext))
    (r.(k_account_verified_at)) (r.(k_name)) (r.(k_plan_type)) (r.(k_is_active))
    (r.(k_daily_quota)) (r.(k_daily_usage)) (r.(k_quota_reset_at))
    (r.(k_max_concurrent)) (r.(k_current_concurrent)) (r.(k_rate_limit_per_min))
    (r.(k_rate_limit_reset_at)) (r.(k_cooldown_until)) (r.(k_total_requests))
    (r.(k_last_used_at)) (r.(k_created_at)) (r.(k_last_credit_snapshot_id))
    (r.(k_last_credit_check_at)) (r.(k_cached_remaining_credits))
    (r.(k_cached_plan_credits)) (r.(k_next_refresh_at)) (r.(k_provider)) (r.(k_status)).
Definition set_k_api_key_last4 (v : string) (r : ApiKey) : ApiKey :=
  mkApiKey
    (r.(k_id)) (r.(k_client_id)) (r.(k_api_key_ciphertext)) (r.(k_api_key_hash)) v
    (r.(k_account_username)) (r.(k_account_password_ciphertext))
    (r.(k_account_verified_at)) (r.(k_name)) (r.(k_plan_type)) (r.(k_is_active))
    (r.(k_daily_quota)) (r.(k_daily_usage)) (r.(k_quota_reset_at))
    (r.(k_max_concurrent)) (r.(k_current_concurrent)) (r.(k_rate_limit_per_min))
    (r.(k_rate_limit_reset_at)) (r.(k_cooldown_until)) (r.(k_total_requests))
    (r.(k_last_used_at)) (r.(k_created_at)) (r.(k_last_credit_snapshot_id))
    (r.(k_last_credit_check_at)) (r.(k_cached_remaining_credits))
    (r.(k_cached_plan_credits)) (r.(k_next_refresh_at)) (r.(k_provider)) (r.(k_status)).
Definition set_k_account_username (v : option string) (r : ApiKey) : ApiKey :=
  mkApiKey
    (r.(k_id)) (r.(k_client_id)) (r.(k_api_key_ciphertext)) (r.(k_api_key_hash))
    (r.(k_api_key_last4)) v (r.(k_account_password_ciphertext))
    (r.(k_account_verified_at)) (r.(k_name)) (r.(k_plan_type)) (r.(k_is_active))
    (r.(k_daily_quota)) (r.(k_daily_usage)) (r.(k_quota_reset_at))
    (r.(k_max_concurrent)) (r.(k_current_concurrent)) (r.(k_rate_limit_per_min))
    (r.(k_rate_limit_reset_at)) (r.(k_cooldown_until)) (r.(k_total_requests))
    (r.(k_last_used_at)) (r.(k_created_at)) (r.(k_last_credit_snapshot_id))
    (r.(k_last_credit_check_at)) (r.(k_cached_remaining_credits))
    (r.(k_cached_plan_credits)) (r.(k_next_refresh_at)) (r.(k_provider)) (r.(k_status)).
Definition set_k_account_password_ciphertext (v : option string) (r : ApiKey) : ApiKey :=
  mkApiKey
    (r.(k_id)) (r.(k_client_id)) (r.(k_api_key_ciphertext)) (r.(k_api_key_hash))
    (r.(k_api_key_last4)) (r.(k_account_username)) v (r.(k_account_verified_at))
    (r.(k_name)) (r.(k_plan_type)) (r.(k_is_active)) (r.(k_daily_quota))
    (r.(k_daily_usage)) (r.(k_quota_reset_at)) (r.(k_max_concurrent))
    (r.(k_current_concurrent)) (r.(k_rate_limit_per_min)) (r.(k_rate_limit_reset_at))
    (r.(k_cooldown_until)) (r.(k_total_requests)) (r.(k_last_used_at))
    (r.(k_created_at)) (r.(k_last_credit_snapshot_id)) (r.(k_last_credit_check_at))
    (r.(k_cached_remaining_credits)) (r.(k_cached_plan_credits)) (r.(k_next_refresh_at))
    (r.(k_provider)) (r.(k_status)).
Definition set_k_account_verified_at (v : option DateTime) (r : ApiKey) : ApiKey :=
  mkApiKey
    (r.(k_id)) (r.(k_client_id)) (r.(k_api_key_ciphertext)) (r.(k_api_key_hash))
    (r.(k_api_key_last4)) (r.(k_account_username)) (r.(k_account_password_ciphertext)) v
    (r.(k_name)) (r.(k_plan_type)) (r.(k_is_active)) (r.(k_daily_quota))
    (r.(k_daily_usage)) (r.(k_quota_reset_at)) (r.(k_max_concurrent))
    (r.(k_current_concurrent)) (r.(k_rate_limit_per_min)) (r.(k_rate_limit_reset_at))
    (r.(k_cooldown_until)) (r.(k_total_requests)) (r.(k_last_used_at))
    (r.(k_created_at)) (r.(k_last_credit_snapshot_id)) (r.(k_last_credit_check_at))
    (r.(k_cached_remaining_credits)) (r.(k_cached_plan_credits)) (r.(k_next_refresh_at))
    (r.(k_provider)) (r.(k_status)).
Definition set_k_name (v : option string) (r : ApiKey) : ApiKey :=
  mkApiKey
    (r.(k_id)) (r.(k_client_id)) (r.(k_api_key_ciphertext)) (r.(k_api_key_hash))
    (r.(k_api_key_last4)) (r.(k_account_username)) (r.(k_account_password_ciphertext))
    (r.(k_account_verified_at)) v (r.(k_plan_type)) (r.(k_is_active))
    (r.(k_daily_quota)) (r.(k_daily_usage)) (r.(k_quota_reset_at))
    (r.(k_max_concurrent)) (r.(k_current_concurrent)) (r.(k_rate_limit_per_min))
    (r.(k_rate_limit_reset_at)) (r.(k_cooldown_until)) (r.(k_total_requests))
    (r.(k_last_used_at)) (r.(k_created_at)) (r.(k_last_credit_snapshot_id))
    (r.(k_last_credit_check_at)) (r.(k_cached_remaining_credits))
    (r.(k_cached_plan_credits)) (r.(k_next_refresh_at)) (r.(k_provider)) (r.(k_status)).
Definition set_k_plan_type (v : string) (r : ApiKey) : ApiKey :=
  mkApiKey
    (r.(k_id)) (r.(k_client_id)) (r.(k_api_key_ciphertext)) (r.(k_api_key_hash))
    (r.(k_api_key_last4)) (r.(k_account_username)) (r.(k_account_password_ciphertext))
    (r.(k_account_verified_at)) (r.(k_name)) v (r.(k_is_active)) (r.(k_daily_quota))
    (r.(k_daily_usage)) (r.(k_quota_reset_at)) (r.(k_max_concurrent))
    (r.(k_current_concurrent)) (r.(k_rate_limit_per_min)) (r.(k_rate_limit_reset_at))
    (r.(k_cooldown_until)) (r.(k_total_requests)) (r.(k_last_used_at))
    (r.(k_created_at)) (r.(k_last_credit_snapshot_id)) (r.(k_last_credit_check_at))
    (r.(k_cached_remaining_credits)) (r.(k_cached_plan_credits)) (r.(k_next_refresh_at))
    (r.(k_provider)) (r.(k_status)).
Definition set_k_daily_quota (v : Z) (r : ApiKey) : ApiKey :=
  mkApiKey
    (r.(k_id)) (r.(k_client_id)) (r.(k_api_key_ciphertext)) (r.(k_api_key_hash))
    (r.(k_api_key_last4)) (r.(k_account_username)) (r.(k_account_password_ciphertext))
    (r.(k_account_verified_at)) (r.(k_name)) (r.(k_plan_type)) (r.(k_is_active)) v
    (r.(k_daily_usage)) (r.(k_quota_reset_at)) (r.(k_max_concurrent))
    (r.(k_current_concurrent)) (r.(k_rate_limit_per_min)) (r.(k_rate_limit_reset_at))
    (r.(k_cooldown_until)) (r.(k_total_requests)) (r.(k_last_used_at))
    (r.(k_created_at)) (r.(k_last_credit_snapshot_id)) (r.(k_last_credit_check_at))
    (r.(k_cached_remaining_credits)) (r.(k_cached_plan_credits)) (r.(k_next_refresh_at))
    (r.(k_provider)) (r.(k_status)).
Definition set_k_daily_usage (v : Z) (r : ApiKey) : ApiKey :=
  mkApiKey
    (r.(k_id)) (r.(k_client_id)) (r.(k_api_key_ciphertext)) (r.(k_api_key_hash))
    (r.(k_api_key_last4)) (r.(k_account_username)) (r.(k_account_password_ciphertext))
    (r.(k_account_verified_at)) (r.(k_name)) (r.(k_plan_type)) (r.(k_is_active))
    (r.(k_daily_quota)) v (r.(k_quota_reset_at)) (r.(k_max_concurrent))
    (r.(k_current_concurrent)) (r.(k_rate_limit_per_min)) (r.(k_rate_limit_reset_at))
    (r.(k_cooldown_until)) (r.(k_total_requests)) (r.(k_last_used_at))
    (r.(k_created_at)) (r.(k_last_credit_snapshot_id)) (r.(k_last_credit_check_at))
    (r.(k_cached_remaining_credits)) (r.(k_cached_plan_credits)) (r.(k_next_refresh_at))
    (r.(k_provider)) (r.(k_status)).
Definition set_k_quota_reset_at (v : option Z) (r : ApiKey) : ApiKey :=
  mkApiKey
    (r.(k_id)) (r.(k_client_id)) (r.(k_api_key_ciphertext)) (r.(k_api_key_hash))
    (r.(k_api_key_last4)) (r.(k_account_username)) (r.(k_account_password_ciphertext))
    (r.(k_account_verified_at)) (r.(k_name)) (r.(k_plan_type)) (r.(k_is_active))
    (r.(k_daily_quota)) (r.(k_daily_usage)) v (r.(k_max_concurrent))
    (r.(k_current_concurrent)) (r.(k_rate_limit_per_min)) (r.(k_rate_limit_reset_at))
    (r.(k_cooldown_until)) (r.(k_total_requests)) (r.(k_last_used_at))
    (r.(k_created_at)) (r.(k_last_credit_snapshot_id)) (r.(k_last_credit_check_at))
    (r.(k_cached_remaining_credits)) (r.(k_cached_plan_credits)) (r.(k_next_refresh_at))
    (r.(k_provider)) (r.(k_status)).
Definition set_k_max_concurrent (v : Z) (r : ApiKey) : ApiKey :=
  mkApiKey
    (r.(k_id)) (r.(k_client_id)) (r.(k_api_key_ciphertext)) (r.(k_api_key_hash))
    (r.(k_api_key_last4)) (r.(k_account_username)) (r.(k_account_password_ciphertext))
    (r.(k_account_verified_at)) (r.(k_name)) (r.(k_plan_type)) (r.(k_is_active))
    (r.(k_daily_quota)) (r.(k_daily_usage)) (r.(k_quota_reset_at)) v
    (r.(k_current_concurrent)) (r.(k_rate_limit_per_min)) (r.(k_rate_limit_reset_at))
    (r.(k_cooldown_until)) (r.(k_total_requests)) (r.(k_last_used_at))
    (r.(k_created_at)) (r.(k_last_credit_snapshot_id)) (r.(k_last_credit_check_at))
    (r.(k_cached_remaining_credits)) (r.(k_cached_plan_credits)) (r.(k_next_refresh_at))
    (r.(k_provider)) (r.(k_status)).
Definition set_k_rate_limit_per_min (v : Z) (r : ApiKey) : ApiKey :=
  mkApiKey
    (r.(k_id)) (r.(k_client_id)) (r.(k_api_key_ciphertext)) (r.(k_api_key_hash))
    (r.(k_api_key_last4)) (r.(k_account_username)) (r.(k_account_password_ciphertext))
    (r.(k_account_verified_at)) (r.(k_name)) (r.(k_plan_type)) (r.(k_is_active))
    (r.(k_daily_quota)) (r.(k_daily_usage)) (r.(k_quota_reset_at))
    (r.(k_max_concurrent)) (r.(k_current_concurrent)) v (r.(k_rate_limit_reset_at))
    (r.(k_cooldown_until)) (r.(k_total_requests)) (r.(k_last_used_at))
    (r.(k_created_at)) (r.(k_last_credit_snapshot_id)) (r.(k_last_credit_check_at))
    (r.(k_cached_remaining_credits)) (r.(k_cached_plan_credits)) (r.(k_next_refresh_at))
    (r.(k_provider)) (r.(k_status)).

Definition set_c_token_hash (v : string) (r : Client) : Client :=
  mkClient
    (r.(c_id)) (r.(c_name)) v (r.(c_token_ciphertext)) (r.(c_is_active))
    (r.(c_daily_quota)) (r.(c_daily_usage)) (r.(c_quota_reset_at))
    (r.(c_rate_limit_per_min)) (r.(c_max_concurrent)) (r.(c_max_retries))
    (r.(c_created_at)) (r.(c_last_used_at)) (r.(c_status)).
Definition set_c_token_ciphertext (v : option string) (r : Client) : Client :=
  mkClient
    (r.(c_id)) (r.(c_name)) (r.(c_token_hash)) v (r.(c_is_active)) (r.(c_daily_quota))
    (r.(c_daily_usage)) (r.(c_quota_reset_at)) (r.(c_rate_limit_per_min))
    (r.(c_max_concurrent)) (r.(c_max_retries)) (r.(c_created_at)) (r.(c_last_used_at))
    (r.(c_status)).
Definition set_c_daily_quota (v : option Z) (r : Client) : Client :=
  mkClient
    (r.(c_id)) (r.(c_name)) (r.(c_token_hash)) (r.(c_token_ciphertext))
    (r.(c_is_active)) v (r.(c_daily_usage)) (r.(c_quota_reset_at))
    (r.(c_rate_limit_per_min)) (r.(c_max_concurrent)) (r.(c_max_retries))
    (r.(c_created_at)) (r.(c_last_used_at)) (r.(c_status)).
Definition set_c_rate_limit_per_min (v : Z) (r : Client) : Client :=
  mkClient
    (r.(c_id)) (r.(c_name)) (r.(c_token_hash)) (r.(c_token_ciphertext))
    (r.(c_is_active)) (r.(c_daily_quota)) (r.(c_daily_usage)) (r.(c_quota_reset_at)) v
    (r.(c_max_concurrent)) (r.(c_max_retries)) (r.(c_created_at)) (r.(c_last_used_at))
    (r.(c_status)).
Definition set_c_max_concurrent (v : Z) (r : Client) : Client :=
  mkClient
    (r.(c_id)) (r.(c_name)) (r.(c_token_hash)) (r.(c_token_ciphertext))
    (r.(c_is_active)) (r.(c_daily_quota)) (r.(c_daily_usage)) (r.(c_quota_reset_at))
    (r.(c_rate_limit_per_min)) v (r.(c_max_retries)) (r.(c_created_at))
    (r.(c_last_used_at)) (r.(c_status)).
Definition set_c_max_retries (v : Z) (r : Client) : Client :=
  mkClient
    (r.(c_id)) (r.(c_name)) (r.(c_token_hash)) (r.(c_token_ciphertext))
    (r.(c_is_active)) (r.(c_daily_quota)) (r.(c_daily_usage)) (r.(c_quota_reset_at))
    (r.(c_rate_limit_per_min)) (r.(c_max_concurrent)) v (r.(c_created_at))
    (r.(c_last_used_at)) (r.(c_status)).

Definition set_rl_client_id (v : option Z) (r : RequestLog) : RequestLog :=
  mkRequestLog
    (r.(rl_id)) (r.(rl_request_id)) v (r.(rl_api_key_id)) (r.(rl_endpoint))
    (r.(rl_method)) (r.(rl_status_code)) (r.(rl_response_time_ms)) (r.(rl_success))
    (r.(rl_retry_count)) (r.(rl_error_message)) (r.(rl_error_details))
    (r.(rl_idempotency_key)) (r.(rl_created_at)).
Definition set_rl_api_key_id (v : option Z) (r : RequestLog) : RequestLog :=
  mkRequestLog
    (r.(rl_id)) (r.(rl_request_id)) (r.(rl_client_id)) v (r.(rl_endpoint))
    (r.(rl_method)) (r.(rl_status_code)) (r.(rl_response_time_ms)) (r.(rl_success))
    (r.(rl_retry_count)) (r.(rl_error_message)) (r.(rl_error_details))
    (r.(rl_idempotency_key)) (r.(rl_created_at)).
