(* ===== verification/Config.v ===== *)
(** The configuration tree of [app/config.py]: one record per settings class,
    fields in the order of the source, with the declared defaults.  The records'
    field prefixes name the class.  The loading of files and environment
    variables merges JSON-like trees ([deep_merge], [env_overrides]); the
    validation of the merged tree into these records is pydantic's. *)

From S2P Require Import Prelude PyText Json.
Open Scope Z_scope.

Record ServerConfig := mkServerConfig {
  sv_host : string;
  sv_port : Z;
  sv_trust_proxy_headers : bool;
  sv_enable_docs : bool;
  sv_enable_data_plane : bool;
  sv_enable_control_plane : bool
}.
Definition default_ServerConfig : ServerConfig := {|
  sv_host := "0.0.0.0";
  sv_port := 8000;
  sv_trust_proxy_headers := false;
  sv_enable_docs := true;
  sv_enable_data_plane := true;
  sv_enable_control_plane := true
|}.

Record FirecrawlConfig := mkFirecrawlConfig {
  fc_base_url : string;
  fc_timeout : Z;
  fc_max_retries : Z;
  fc_failure_threshold : Z;
  fc_failure_window_seconds : Z;
  fc_failed_cooldown_seconds : Z
}.
Definition default_FirecrawlConfig : FirecrawlConfig := {|
  fc_base_url := "https://api.firecrawl.dev";
  fc_timeout := 30;
  fc_max_retries := 3;
  fc_failure_threshold := 3;
  fc_failure_window_seconds := 60;
  fc_failed_cooldown_seconds := 60
|}.

Record ClientAuthConfig := mkClientAuthConfig {
  ca_enabled : bool;
  ca_scheme : string
}.
Definition default_ClientAuthConfig : ClientAuthConfig := {|
  ca_enabled := true;
  ca_scheme := "bearer"
|}.

Record AdminSecurityConfig := mkAdminSecurityConfig {
  as_token_env : string;
  as_ip_allowlist : list string
}.
Definition default_AdminSecurityConfig : AdminSecurityConfig := {|
  as_token_env := "FCAM_ADMIN_TOKEN";
  as_ip_allowlist := []
|}.

Record KeyEncryptionConfig := mkKeyEncryptionConfig {
  ke_master_key_env : string
}.
Definition default_KeyEncryptionConfig : KeyEncryptionConfig := {|
  ke_master_key_env := "FCAM_MASTER_KEY"
|}.

Record RequestLimitsConfig := mkRequestLimitsConfig {
  rq_max_body_bytes : Z;
  rq_stream_body_limit : bool;
  rq_allowed_paths : list string
}.
Definition default_RequestLimitsConfig : RequestLimitsConfig := {|
  rq_max_body_bytes := 1048576;
  rq_stream_body_limit := true;
  rq_allowed_paths := ["scrape"; "crawl"; "search"; "agent"; "map"; "extract"; "batch"; "browser"; "team"]
|}.

Record HttpClientConfig := mkHttpClientConfig {
  hc_connection_pool_enabled : bool;
  hc_max_connections : Z;
  hc_max_keepalive_connections : Z;
  hc_keepalive_expiry_seconds : Q
}.
Definition default_HttpClientConfig : HttpClientConfig := {|
  hc_connection_pool_enabled := false;
  hc_max_connections := 100;
  hc_max_keepalive_connections := 20;
  hc_keepalive_expiry_seconds := (30)%Q
|}.

Record SecurityConfig := mkSecurityConfig {
  se_client_auth : ClientAuthConfig;
  se_admin : AdminSecurityConfig;
  se_key_encryption : KeyEncryptionConfig;
  se_request_limits : RequestLimitsConfig;
  se_http_client : HttpClientConfig
}.
Definition default_SecurityConfig : SecurityConfig := {|
  se_client_auth := default_ClientAuthConfig;
  se_admin := default_AdminSecurityConfig;
  se_key_encryption := default_KeyEncryptionConfig;
  se_request_limits := default_RequestLimitsConfig;
  se_http_client := default_HttpClientConfig
|}.

Record QuotaConfig := mkQuotaConfig {
  qu_timezone : string;
  qu_count_mode : string;
  qu_default_daily_limit : Z;
  qu_reset_time : string;
  qu_enable_quota_check : bool
}.
Definition default_QuotaConfig : QuotaConfig := {|
  qu_timezone := "UTC";
  qu_count_mode := "success";
  qu_default_daily_limit := 0;
  qu_reset_time := "00:00";
  qu_enable_quota_check := false
|}.

Record RateLimitConfig := mkRateLimitConfig {
  rl_cooldown_seconds : Z
}.
Definition default_RateLimitConfig : RateLimitConfig := {|
  rl_cooldown_seconds := 60
|}.

Record SmartRefreshConfig := mkSmartRefreshConfig {
  sr_enabled : bool;
  sr_high_usage_interval : Z;
  sr_medium_usage_interval : Z;
  sr_normal_usage_interval : Z;
  sr_low_usage_interval : Z;
  sr_abundant_remaining_threshold : Z;
  sr_abundant_min_interval_minutes : Z
}.
Definition default_SmartRefreshConfig : SmartRefreshConfig := {|
  sr_enabled := true;
  sr_high_usage_interval := 30;
  sr_medium_usage_interval := 60;
  sr_normal_usage_interval := 120;
  sr_low_usage_interval := 240;
  sr_abundant_remaining_threshold := 1000;
  sr_abundant_min_interval_minutes := 120
|}.

Record FixedRefreshConfig := mkFixedRefreshConfig {
  fr_interval_minutes : Z
}.
Definition default_FixedRefreshConfig : FixedRefreshConfig := {|
  fr_interval_minutes := 60
|}.

Record LocalEstimationConfig := mkLocalEstimationConfig {
  le_enabled : bool;
  le_sync_on_request : bool
}.
Definition default_LocalEstimationConfig : LocalEstimationConfig := {|
  le_enabled := true;
  le_sync_on_request := true
|}.

Record CreditMonitoringConfig := mkCreditMonitoringConfig {
  cm_enabled : bool;
  cm_smart_refresh : SmartRefreshConfig;
  cm_fixed_refresh : FixedRefreshConfig;
  cm_batch_size : Z;
  cm_batch_delay_seconds : Z;
  cm_workers : Z;
  cm_local_estimation : LocalEstimationConfig;
  cm_retention_days : Z;
  cm_retry_delay_minutes : Z;
  cm_refresh_check_interval_seconds : Z;
  cm_min_manual_refresh_interval_seconds : Z;
  cm_history_max_limit : Z
}.
Definition default_CreditMonitoringConfig : CreditMonitoringConfig := {|
  cm_enabled := false;
  cm_smart_refresh := default_SmartRefreshConfig;
  cm_fixed_refresh := default_FixedRefreshConfig;
  cm_batch_size := 10;
  cm_batch_delay_seconds := 5;
  cm_workers := 4;
  cm_local_estimation := default_LocalEstimationConfig;
  cm_retention_days := 90;
  cm_retry_delay_minutes := 10;
  cm_refresh_check_interval_seconds := 300;
  cm_min_manual_refresh_interval_seconds := 300;
  cm_history_max_limit := 500
|}.

Record SchedulingConfig := mkSchedulingConfig {
  sc_freshness_half_life_seconds : Z;
  sc_unknown_credit_baseline : Q;
  sc_epsilon_greedy : Q;
  sc_near_score_ratio : Q;
  sc_failure_penalty_half_life_seconds : Q;
  sc_failure_penalty_unit : Q
}.
Definition default_SchedulingConfig : SchedulingConfig := {|
  sc_freshness_half_life_seconds := 6 * 3600;
  sc_unknown_credit_baseline := (50)%Q;
  sc_epsilon_greedy := (1 # 10)%Q;
  sc_near_score_ratio := (95 # 100)%Q;
  sc_failure_penalty_half_life_seconds := (300)%Q;
  sc_failure_penalty_unit := (1)%Q
|}.

Record IdempotencyConfig := mkIdempotencyConfig {
  id_enabled : bool;
  id_ttl_seconds : Z;
  id_max_response_bytes : Z;
  id_require_on : list string
}.
Definition default_IdempotencyConfig : IdempotencyConfig := {|
  id_enabled := true;
  id_ttl_seconds := 86400;
  id_max_response_bytes := 1048576;
  id_require_on := []
|}.

Record DatabaseConfig := mkDatabaseConfig {
  db_path : string;
  db_url : option string
}.
Definition default_DatabaseConfig : DatabaseConfig := {|
  db_path := "./data/api_manager.db";
  db_url := None
|}.

Record LoggingConfig := mkLoggingConfig {
  lo_level : string;
  lo_format : string;
  lo_redact_fields : list string
}.
Definition default_LoggingConfig : LoggingConfig := {|
  lo_level := "INFO";
  lo_format := "json";
  lo_redact_fields := ["authorization"; "api_key"; "x-api-key"; "token"; "cookie"; "set-cookie"]
|}.

Record RetentionConfig := mkRetentionConfig {
  re_request_logs_days : Z;
  re_audit_logs_days : Z
}.
Definition default_RetentionConfig : RetentionConfig := {|
  re_request_logs_days := 30;
  re_audit_logs_days := 90
|}.

Record ObservabilityConfig := mkObservabilityConfig {
  ob_metrics_enabled : bool;
  ob_metrics_path : string;
  ob_retention : RetentionConfig
}.
Definition default_ObservabilityConfig : ObservabilityConfig := {|
  ob_metrics_enabled := false;
  ob_metrics_path := "/metrics";
  ob_retention := default_RetentionConfig
|}.

Record RedisConfig := mkRedisConfig {
  rd_url : string;
  rd_key_prefix : string
}.
Definition default_RedisConfig : RedisConfig := {|
  rd_url := "redis://localhost:6379/0";
  rd_key_prefix := "fcam"
|}.

Record StateConfig := mkStateConfig {
  st_mode : string;
  st_redis : RedisConfig
}.
Definition default_StateConfig : StateConfig := {|
  st_mode := "memory";
  st_redis := default_RedisConfig
|}.

Record ControlPlaneConfig := mkControlPlaneConfig {
  cp_batch_key_test_max_workers : Z
}.
Definition default_ControlPlaneConfig : ControlPlaneConfig := {|
  cp_batch_key_test_max_workers := 10
|}.

Record ProviderConfig := mkProviderConfig {
  pr_enabled : bool;
  pr_base_url : string;
  pr_auth_mode : string;
  pr_timeout : Z;
  pr_max_retries : Z;
  pr_route_prefix : string;
  pr_allowed_paths : list string
}.
Definition default_exa : ProviderConfig := {|
  pr_enabled := false;
  pr_base_url := "https://api.exa.ai";
  pr_auth_mode := "x-api-key";
  pr_timeout := 30;
  pr_max_retries := 3;
  pr_route_prefix := "/exa";
  pr_allowed_paths := ["search"; "findSimilar"; "contents"; "answer"]
|}.

Record ProvidersConfig := mkProvidersConfig {
  ps_exa : ProviderConfig
}.
Definition default_ProvidersConfig : ProvidersConfig := {|
  ps_exa := default_exa
|}.

Record AppConfig := mkAppConfig {
  cfg_server : ServerConfig;
  cfg_firecrawl : FirecrawlConfig;
  cfg_providers : ProvidersConfig;
  cfg_security : SecurityConfig;
  cfg_quota : QuotaConfig;
  cfg_rate_limit : RateLimitConfig;
  cfg_credit_monitoring : CreditMonitoringConfig;
  cfg_scheduling : SchedulingConfig;
  cfg_idempotency : IdempotencyConfig;
  cfg_database : DatabaseConfig;
  cfg_logging : LoggingConfig;
  cfg_observability : ObservabilityConfig;
  cfg_state : StateConfig;
  cfg_control_plane : ControlPlaneConfig
}.
Definition default_AppConfig : AppConfig := {|
  cfg_server := default_ServerConfig;
  cfg_firecrawl := default_FirecrawlConfig;
  cfg_providers := default_ProvidersConfig;
  cfg_security := default_SecurityConfig;
  cfg_quota := default_QuotaConfig;
  cfg_rate_limit := default_RateLimitConfig;
  cfg_credit_monitoring := default_CreditMonitoringConfig;
  cfg_scheduling := default_SchedulingConfig;
  cfg_idempotency := default_IdempotencyConfig;
  cfg_database := default_DatabaseConfig;
  cfg_logging := default_LoggingConfig;
  cfg_observability := default_ObservabilityConfig;
  cfg_state := default_StateConfig;
  cfg_control_plane := default_ControlPlaneConfig
|}.

Record Secrets := mkSecrets {
  sec_admin_token : option string;
  sec_master_key : option string
}.

(** [_normalize_base_url], the validator of both base URLs: [None] is the
    ValueError on an empty URL. *)
Definition normalize_base_url (v : string) : option string :=
  let normalized := strip v in
  if String.eqb normalized "" then None else Some (rstrip_char "/"%char normalized).

(** [_deep_merge base override]: objects are merged key by key, anything else in
    the override replaces the base value. *)
Fixpoint deep_merge (base override : Json) {struct override} : Json :=
  match override with
  | JObj o =>
      match base with
      | JObj b =>
          JObj ((fix go (acc : list (string * Json)) (l : list (string * Json)) :=
             match l with
             | [] => acc
             | (k, v) :: l' =>
                 let v' := match v, obj_get k acc with
                           | JObj _, Some (JObj m) => deep_merge (JObj m) v
                           | _, _ => v
                           end in
                 go (obj_set k v' acc) l'
             end) b o)
      | _ => override
      end
  | _ => override
  end.
