(* ===== verification/Env.v ===== *)
(** What the gateway runs on.  Code that is not in the repository appears as
    type classes of operations: [Host] (clock, random numbers, HTTP client,
    cryptography, the C math library), [OrmSession] (SQLAlchemy's session),
    and the three interfaces with more than one implementation in the source,
    [RateLimiter], [ConcurrencyLimiter] and [CooldownStore] (in-process or Redis;
    [app/main.py] picks).  What the program relies on from each is stated as a
    class of laws; clients prove their theorems against the laws and the
    instances discharge them.  [World] is the whole mutable state of the
    process, and the last section gives the primitive statements. *)

From S2P Require Import Prelude Effects PyText PyTime Json Models.
Open Scope Z_scope.

(** * The host *)

Record HttpRequest := mkHttpRequest {
  rq_base : string;            (* base_url of the client *)
  rq_method : string;
  rq_url : string;
  rq_headers : dict;
  rq_json : option Json
}.

Record HttpResponse := mkHttpResponse {
  rs_status : Z;
  rs_headers : dict;
  rs_content : string
}.

(** [httpx.Client.request]: a response, or one of the two exception classes the
    source tells apart. *)
Inductive HttpOutcome :=
  | HttpReply (r : HttpResponse)
  | HttpTimedOut
  | HttpFailed (msg : string).  (* str() of the exception *)

Class Host := {
  HostState : Type;
  h_now : HostState → Z * HostState;          (* datetime.now(utc), in us *)
  h_mono : HostState → Q * HostState;         (* time.monotonic(), perf_counter() *)
  h_random : HostState → Q * HostState;       (* random.Random().random() *)
  h_http : HttpRequest → HostState → HttpOutcome * HostState;
  h_log1p : Q → Q;                            (* math.log1p *)
  h_half_pow : Q → Q;                         (* x |-> 0.5 ** x *)
  h_json_loads : string → option Json;        (* json.loads; None when it raises *)
  h_str : Json → string;                      (* str() of a JSON value that is no string *)
  h_urandom : nat → HostState → string * HostState;         (* os.urandom(n) *)
  h_token_urlsafe : nat → HostState → string * HostState;   (* secrets.token_urlsafe(n) *)
  h_aes_encrypt : string → string → string → string → string;
      (* AESGCM(key).encrypt(nonce, plaintext, aad) *)
  h_aes_decrypt : string → string → string → string → option string
      (* AESGCM(key).decrypt(nonce, ciphertext, aad); None is InvalidTag *)
}.

(** The floating-point functions, as far as the scheduler depends on them. *)
Class MathLaws `{!Host} := {
  log1p_zero : (h_log1p 0 == 0)%Q;
  log1p_mono : ∀ x y, (0 <= x)%Q → (x <= y)%Q → (h_log1p x <= h_log1p y)%Q;
  half_pow_pos : ∀ x, (0 <= x)%Q → (0 < h_half_pow x)%Q;
  half_pow_le1 : ∀ x, (0 <= x)%Q → (h_half_pow x <= 1)%Q;
  half_pow_anti : ∀ x y, (0 <= x)%Q → (x <= y)%Q → (h_half_pow y <= h_half_pow x)%Q
}.

(** [random()] is in [0, 1). *)
Class RandomLaws `{!Host} := {
  random_range : ∀ h, (0 <= (h_random h).1)%Q ∧ ((h_random h).1 < 1)%Q
}.

(** [os.urandom(n)] returns [n] bytes. *)
Class UrandomLaws `{!Host} := {
  urandom_length : ∀ n h, String.length (h_urandom n h).1 = n
}.

(** Authenticated decryption inverts encryption under the same key, nonce and
    associated data, and rejects a ciphertext made under other associated data. *)
Class AesLaws `{!Host} := {
  aes_round_trip : ∀ k n p a, h_aes_decrypt k n (h_aes_encrypt k n p a) a = Some p;
  aes_aad_bound : ∀ k n p a a', a ≠ a' → h_aes_decrypt k n (h_aes_encrypt k n p a) a' = None
}.

(** * The database session *)

(** How a flush or a commit ends: a constraint of the schema is violated, or the
    database fails. *)
Inductive CommitOutcome := Committed | IntegrityFailure | CommitFailure.

(** A SQLAlchemy session: [db_view] is what its objects and queries show,
    [db_durable] what the database holds. *)
Class OrmSession := {
  Session : Type;
  db_view : Session → Tables;
  db_durable : Session → Tables;
  db_assign : (Tables → Tables) → Session → Session;  (* attribute writes, add, delete *)
  db_query : Session → bool * Session;                (* false: the query raises *)
  db_flush : Session → CommitOutcome * Session;       (* sends pending changes *)
  db_commit : Session → CommitOutcome * Session;
  db_rollback : Session → Session;
  db_next_id : Session → Z                            (* primary key of the next insert *)
}.

Class OrmLaws `{!OrmSession} := {
  view_assign : ∀ f s, db_view (db_assign f s) = f (db_view s);
  durable_assign : ∀ f s, db_durable (db_assign f s) = db_durable s;
  view_query : ∀ s, db_view (db_query s).2 = db_view s;
  durable_query : ∀ s, db_durable (db_query s).2 = db_durable s;
  view_flush : ∀ s, db_view (db_flush s).2 = db_view s;
  durable_flush : ∀ s, db_durable (db_flush s).2 = db_durable s;
  flush_constraints : ∀ s, (db_flush s).1 = Committed → constraints_hold (db_view s);
  flush_integrity : ∀ s, (db_flush s).1 = IntegrityFailure → ¬ constraints_hold (db_view s);
  view_commit : ∀ s, db_view (db_commit s).2 = db_view s;
  durable_commit : ∀ s, db_durable (db_commit s).2 =
    match (db_commit s).1 with Committed => db_view s | _ => db_durable s end;
  commit_constraints : ∀ s, (db_commit s).1 = Committed → constraints_hold (db_view s);
  commit_integrity : ∀ s, (db_commit s).1 = IntegrityFailure → ¬ constraints_hold (db_view s);
  view_rollback : ∀ s, db_view (db_rollback s) = db_durable s;
  durable_rollback : ∀ s, db_durable (db_rollback s) = db_durable s;
  next_id_fresh : ∀ s, let t := db_view s in let id := db_next_id s in
    t_idempotency t !! id = None ∧ t_bindings t !! id = None ∧ t_snapshots t !! id = None ∧
    t_keys t !! id = None ∧ t_clients t !! id = None ∧ t_request_logs t !! id = None ∧
    t_audit_logs t !! id = None
}.

(** * The interfaces with several implementations *)

(** The two clocks a limiter may read. *)
Record Moment := mkMoment { mo_mono : Q; mo_wall : Z }.

(** TokenBucketRateLimiter / RedisTokenBucketRateLimiter.  [rl_peek] is [None]
    where the implementation has no such method. *)
Class RateLimiter := {
  Limiter : Type;
  rl_peek : option (string → Z → Moment → Limiter → Res (bool * Z));
  rl_allow : string → Z → Moment → Limiter → Res (bool * Z) * Limiter
}.

(** ConcurrencyManager / RedisConcurrencyManager. *)
Class ConcurrencyLimiter := {
  Conc : Type;
  Lease : Type;
  cl_try_acquire : string → Z → Moment → Conc → Res (option Lease) * Conc;
  cl_release : Lease → Conc → Conc;
  cl_current : string → Moment → Conc → Z
}.

(** Releasing a lease right after acquiring it gives the capacity back, and a
    refusal takes none: in well-formed states the number of slots in use is what
    it was, for every key. *)
Class ConcurrencyLaws `{!ConcurrencyLimiter} := {
  conc_wf : Conc → Prop;
  acquire_wf : ∀ k m t c, conc_wf c → conc_wf (cl_try_acquire k m t c).2;
  release_wf : ∀ l c, conc_wf c → conc_wf (cl_release l c);
  release_acquired : ∀ k m t c l c' k' t', conc_wf c →
    cl_try_acquire k m t c = (Ok (Some l), c') →
    cl_current k' t' (cl_release l c') = cl_current k' t' c;
  refused_unchanged : ∀ k m t c r c' k' t',
    cl_try_acquire k m t c = (r, c') → (∀ l, r ≠ Ok (Some l)) →
    cl_current k' t' c' = cl_current k' t' c
}.

(** NoopCooldownStore / RedisCooldownStore. *)
Class CooldownStore := {
  CoolState : Type;
  cd_set : Z → Z → CoolState → Res unit * CoolState;
  cd_remaining : Z → CoolState → Res (option Z) * CoolState
}.

Class Env := {
  env_host :: Host;
  env_orm :: OrmSession;
  env_rate :: RateLimiter;
  env_conc :: ConcurrencyLimiter;
  env_cool :: CooldownStore
}.

(** * The state of the process *)

Section World.
Context {E : Env}.

Record World := mkWorld {
  w_host : HostState; (* everything outside the process *)
  w_db : Session; (* the request's database session *)
  w_key_limiter : Limiter; (* app.state.key_rate_limiter *)
  w_key_conc : Conc; (* app.state.key_concurrency *)
  w_client_limiter : Limiter; (* app.state.client_rate_limiter *)
  w_client_conc : Conc; (* app.state.client_concurrency *)
  w_cooldown : CoolState; (* app.state.cooldown_store *)
  w_nn_failures : gmap Z (Q * Q); (* KeyPool._nn_failures: (count, monotonic time) *)
  w_rr_cursor : gmap string Z; (* KeyPool._rr_cursor *)
  w_fwd_failures : gmap Z (Z * Z); (* Forwarder._failures: (count, first_at in us) *)
  w_refresh_mono : gmap Z Q; (* credit_fetcher._4xx_refresh_last_mono *)
  w_wire : list HttpRequest (* ghost: the requests sent to the upstream, newest first *)
}.
Definition set_w_host (v : HostState) (r : World) : World :=
  mkWorld
    v r.(w_db) r.(w_key_limiter) r.(w_key_conc) r.(w_client_limiter) r.(w_client_conc)
    r.(w_cooldown) r.(w_nn_failures) r.(w_rr_cursor) r.(w_fwd_failures)
    r.(w_refresh_mono) r.(w_wire).
Definition set_w_db (v : Session) (r : World) : World :=
  mkWorld
    r.(w_host) v r.(w_key_limiter) r.(w_key_conc) r.(w_client_limiter)
    r.(w_client_conc) r.(w_cooldown) r.(w_nn_failures) r.(w_rr_cursor)
    r.(w_fwd_failures) r.(w_refresh_mono) r.(w_wire).
Definition set_w_key_limiter (v : Limiter) (r : World) : World :=
  mkWorld
    r.(w_host) r.(w_db) v r.(w_key_conc) r.(w_client_limiter) r.(w_client_conc)
    r.(w_cooldown) r.(w_nn_failures) r.(w_rr_cursor) r.(w_fwd_failures)
    r.(w_refresh_mono) r.(w_wire).
Definition set_w_key_conc (v : Conc) (r : World) : World :=
  mkWorld
    r.(w_host) r.(w_db) r.(w_key_limiter) v r.(w_client_limiter) r.(w_client_conc)
    r.(w_cooldown) r.(w_nn_failures) r.(w_rr_cursor) r.(w_fwd_failures)
    r.(w_refresh_mono) r.(w_wire).
Definition set_w_client_limiter (v : Limiter) (r : World) : World :=
  mkWorld
    r.(w_host) r.(w_db) r.(w_key_limiter) r.(w_key_conc) v r.(w_client_conc)
    r.(w_cooldown) r.(w_nn_failures) r.(w_rr_cursor) r.(w_fwd_failures)
    r.(w_refresh_mono) r.(w_wire).
Definition set_w_client_conc (v : Conc) (r : World) : World :=
  mkWorld
    r.(w_host) r.(w_db) r.(w_key_limiter) r.(w_key_conc) r.(w_client_limiter) v
    r.(w_cooldown) r.(w_nn_failures) r.(w_rr_cursor) r.(w_fwd_failures)
    r.(w_refresh_mono) r.(w_wire).
Definition set_w_cooldown (v : CoolState) (r : World) : World :=
  mkWorld
    r.(w_host) r.(w_db) r.(w_key_limiter) r.(w_key_conc) r.(w_client_limiter)
    r.(w_client_conc) v r.(w_nn_failures) r.(w_rr_cursor) r.(w_fwd_failures)
    r.(w_refresh_mono) r.(w_wire).
Definition set_w_nn_failures (v : gmap Z (Q * Q)) (r : World) : World :=
  mkWorld
    r.(w_host) r.(w_db) r.(w_key_limiter) r.(w_key_conc) r.(w_client_limiter)
    r.(w_client_conc) r.(w_cooldown) v r.(w_rr_cursor) r.(w_fwd_failures)
    r.(w_refresh_mono) r.(w_wire).
Definition set_w_rr_cursor (v : gmap string Z) (r : World) : World :=
  mkWorld
    r.(w_host) r.(w_db) r.(w_key_limiter) r.(w_key_conc) r.(w_client_limiter)
    r.(w_client_conc) r.(w_cooldown) r.(w_nn_failures) v r.(w_fwd_failures)
    r.(w_refresh_mono) r.(w_wire).
Definition set_w_fwd_failures (v : gmap Z (Z * Z)) (r : World) : World :=
  mkWorld
    r.(w_host) r.(w_db) r.(w_key_limiter) r.(w_key_conc) r.(w_client_limiter)
    r.(w_client_conc) r.(w_cooldown) r.(w_nn_failures) r.(w_rr_cursor) v
    r.(w_refresh_mono) r.(w_wire).
Definition set_w_refresh_mono (v : gmap Z Q) (r : World) : World :=
  mkWorld
    r.(w_host) r.(w_db) r.(w_key_limiter) r.(w_key_conc) r.(w_client_limiter)
    r.(w_client_conc) r.(w_cooldown) r.(w_nn_failures) r.(w_rr_cursor)
    r.(w_fwd_failures) v r.(w_wire).
Definition set_w_wire (v : list HttpRequest) (r : World) : World :=
  mkWorld
    r.(w_host) r.(w_db) r.(w_key_limiter) r.(w_key_conc) r.(w_client_limiter)
    r.(w_client_conc) r.(w_cooldown) r.(w_nn_failures) r.(w_rr_cursor)
    r.(w_fwd_failures) r.(w_refresh_mono) v.
End World.

Notation Prog := (M World).

(** * Primitive statements *)

Section Primitives.
Context {E : Env}.

Definition on_host {A} (f : HostState → A * HostState) : Prog A :=
  step (λ w, let '(a, h) := f (w_host w) in (a, set_w_host h w)).
Definition now_utc : Prog Z := on_host h_now.
Definition monotonic : Prog Q := on_host h_mono.
Definition random : Prog Q := on_host h_random.
Definition urandom (n : nat) : Prog string := on_host (h_urandom n).
Definition moment : Prog Moment :=
  let! m := monotonic in let! t := now_utc in ret (mkMoment m t).

(** [client.request(...)]; every call is recorded on the wire. *)
Definition http_request (r : HttpRequest) : Prog HttpResponse :=
  modify (λ w, set_w_wire (r :: w_wire w) w) ;;!
  let! o := on_host (h_http r) in
  match o with
  | HttpReply resp => ret resp
  | HttpTimedOut => raise EHttpTimeout
  | HttpFailed msg => raise (EHttpError msg)
  end.

Definition view (w : World) : Tables := db_view (w_db w).
Definition durable (w : World) : Tables := db_durable (w_db w).
Definition assign (f : Tables → Tables) : Prog unit :=
  modify (λ w, set_w_db (db_assign f (w_db w)) w).
Definition query : Prog Tables :=
  let! ok := step (λ w, let '(b, s) := db_query (w_db w) in (b, set_w_db s w)) in
  if ok : bool then gets view else raise (EOther "OperationalError").
Definition flush : Prog unit :=
  let! o := step (λ w, let '(o, s) := db_flush (w_db w) in (o, set_w_db s w)) in
  match o with
  | Committed => ret tt
  | IntegrityFailure => raise EIntegrity
  | CommitFailure => raise (EOther "OperationalError")
  end.
Definition commit : Prog unit :=
  let! o := step (λ w, let '(o, s) := db_commit (w_db w) in (o, set_w_db s w)) in
  match o with
  | Committed => ret tt
  | IntegrityFailure => raise EIntegrity
  | CommitFailure => raise (EOther "OperationalError")
  end.
Definition rollback : Prog unit := modify (λ w, set_w_db (db_rollback (w_db w)) w).

(** Reading an attribute of a loaded ApiKey object; a row that is gone raises
    ObjectDeletedError. *)
Definition get_key (id : Z) : Prog ApiKey :=
  let! t := gets view in
  match t_keys t !! id with
  | Some k => ret k
  | None => raise (EOther "ObjectDeletedError")
  end.
(** Assigning attributes of a loaded ApiKey object. *)
Definition assign_key (id : Z) (f : ApiKey → ApiKey) : Prog unit :=
  assign (λ t, set_t_keys (alter f id (t_keys t)) t).
Definition get_client (id : Z) : Prog Client :=
  let! t := gets view in
  match t_clients t !! id with
  | Some c => ret c
  | None => raise (EOther "ObjectDeletedError")
  end.
Definition assign_client (id : Z) (f : Client → Client) : Prog unit :=
  assign (λ t, set_t_clients (alter f id (t_clients t)) t).

(** [try: m; db.commit()  except Exception: db.rollback(); logger.exception(...)]. *)
Definition commit_or_rollback (m : Prog unit) : Prog unit :=
  catch_all (m ;;! commit) (λ _, rollback).
End Primitives.

(** * Frame reasoning: what a statement leaves alone *)

Definition same {W A} (f : W → A) : relation W := λ w w', f w' = f w.
#[export] Instance same_preorder {W A} (f : W → A) : PreOrder (same f).
Proof. split; [by intros w|]. intros w1 w2 w3 H1 H2. unfold same in *. congruence. Qed.

(** Leaves of a frame proof: a statement that writes other fields. *)
Ltac frame_leaf :=
  let w := fresh "w" in
  intros w; unfold same;
  cbv [on_host now_utc monotonic random assign query flush commit rollback view durable];
  cbv [step modify gets bind ret raise]; simpl;
  repeat case_match; simplify_eq/=; reflexivity.

Section Frames.
Context {E : Env}.

Lemma frame_on_host {A X} (f : HostState → A * HostState) (p : World → X) :
  (∀ h w, p (set_w_host h w) = p w) → runs (same p) (on_host f).
Proof.
  intros H w. unfold on_host, step, same. destruct (f (w_host w)) as [a h]; simpl. apply H.
Qed.
Lemma frame_http_request {X} r (p : World → X) :
  (∀ h w, p (set_w_host h w) = p w) → (∀ l w, p (set_w_wire l w) = p w) →
  runs (same p) (http_request r).
Proof.
  intros H1 H2. unfold http_request. runs_auto.
  - apply runs_modify. intros w. apply H2.
  - by apply frame_on_host.
Qed.
Lemma frame_db_step {A X} (f : Session → A * Session) (p : World → X) :
  (∀ s w, p (set_w_db s w) = p w) →
  runs (same p) (step (λ w, let '(b, s) := f (w_db w) in (b, set_w_db s w))).
Proof. intros H w. unfold step, same. destruct (f (w_db w)) as [a s]; simpl. apply H. Qed.
Lemma frame_assign {X} f (p : World → X) :
  (∀ s w, p (set_w_db s w) = p w) → runs (same p) (assign f).
Proof. intros H w. apply H. Qed.
Lemma frame_rollback {X} (p : World → X) :
  (∀ s w, p (set_w_db s w) = p w) → runs (same p) rollback.
Proof. intros H w. apply H. Qed.
Lemma frame_query {X} (p : World → X) :
  (∀ s w, p (set_w_db s w) = p w) → runs (same p) query.
Proof.
  intros H. unfold query. runs_auto. by apply frame_db_step.
Qed.
Lemma frame_flush {X} (p : World → X) :
  (∀ s w, p (set_w_db s w) = p w) → runs (same p) flush.
Proof.
  intros H. unfold flush. runs_auto. by apply frame_db_step.
Qed.
Lemma frame_commit {X} (p : World → X) :
  (∀ s w, p (set_w_db s w) = p w) → runs (same p) commit.
Proof.
  intros H. unfold commit. runs_auto. by apply frame_db_step.
Qed.
Lemma frame_get_key {X} id (p : World → X) : runs (same p) (get_key id).
Proof. unfold get_key. runs_auto. Qed.
Lemma frame_get_client {X} id (p : World → X) : runs (same p) (get_client id).
Proof. unfold get_client. runs_auto. Qed.
End Frames.
#[export] Hint Resolve frame_on_host frame_http_request frame_assign frame_rollback
  frame_query frame_flush frame_commit frame_get_key frame_get_client same_preorder : effects.
