(* ===== verification/Transactions.v ===== *)
(** Reasoning about the database session: what each statement does to what the
    session shows ([view]) and what the database holds ([durable]), and the shapes
    of transaction the components share.  A session is [clean] when nothing is
    pending in it, the state every request starts in. *)

From S2P Require Import Prelude Effects Models Env.

Section Transactions.
Context {E : Env} {OL : OrmLaws}.

Definition clean (w : World) : Prop := view w = durable w.
Definition operational : Exn := EOther "OperationalError".

Lemma query_spec w :
  view (query w).2 = view w ∧ durable (query w).2 = durable w ∧
  ((query w).1 = Ok (view w) ∨ (query w).1 = Raise operational).
Proof.
  unfold query, bind, step, gets, view, durable.
  pose proof (view_query (w_db w)) as Hv. pose proof (durable_query (w_db w)) as Hd.
  destruct (db_query (w_db w)) as [[] s]; simpl in *; rewrite ?Hv, ?Hd; auto.
Qed.

Lemma assign_spec f w :
  (assign f w).1 = Ok tt ∧ view (assign f w).2 = f (view w) ∧ durable (assign f w).2 = durable w.
Proof. unfold view, durable. simpl. by rewrite view_assign, durable_assign. Qed.

Lemma rollback_spec w :
  (rollback w).1 = Ok tt ∧ view (rollback w).2 = durable w ∧ durable (rollback w).2 = durable w.
Proof. unfold view, durable. simpl. by rewrite view_rollback, durable_rollback. Qed.

Lemma commit_spec w :
  view (commit w).2 = view w ∧
  match (commit w).1 with
  | Ok _ => durable (commit w).2 = view w ∧ constraints_hold (view w)
  | Raise e => durable (commit w).2 = durable w ∧
               (e = EIntegrity ∧ ¬ constraints_hold (view w) ∨ e = operational)
  end.
Proof.
  unfold commit, bind, step, view, durable.
  pose proof (view_commit (w_db w)) as Hv. pose proof (durable_commit (w_db w)) as Hd.
  pose proof (commit_constraints (w_db w)) as Hc. pose proof (commit_integrity (w_db w)) as Hi.
  destruct (db_commit (w_db w)) as [[] s]; simpl in *; rewrite ?Hv, ?Hd; auto 6.
Qed.

(** One statement and the commit that makes it durable: the outcome and what the
    database holds after it. *)
Lemma assign_commit_spec f w :
  match (assign f ;;! commit)%fcam w with
  | (Ok _, w') => view w' = f (view w) ∧ durable w' = f (view w) ∧ constraints_hold (f (view w))
  | (Raise e, w') => durable w' = durable w ∧
      (e = EIntegrity ∧ ¬ constraints_hold (f (view w)) ∨ e = operational)
  end.
Proof.
  unfold bind. destruct (assign_spec f w) as (H1 & H2 & H3).
  destruct (assign f w) as [[[]|?] w1]; simpl in *; [|done].
  destruct (commit_spec w1) as [H4 H5]. destruct (commit w1) as [[[]|e] w2]; simpl in *;
    rewrite H2 in *; rewrite <-?H3; intuition.
Qed.

(** [commit_or_rollback] always returns, in a clean session in which the statement
    took effect as a whole or not at all. *)
Lemma edit_spec f w : clean w →
  let m := commit_or_rollback (query ;;! assign f)%fcam in
  (m w).1 = Ok tt ∧ clean (m w).2 ∧
  (durable (m w).2 = f (durable w) ∧ constraints_hold (durable (m w).2) ∨ durable (m w).2 = durable w).
Proof.
  intros Hc m. subst m. unfold commit_or_rollback, catch_all, try_except. rewrite bind_assoc.
  change ((query ;;! assign f ;;! commit)%fcam w) with
    (match query w with (Ok _, w1) => (assign f ;;! commit)%fcam w1 | (Raise e, w1) => (Raise e, w1) end).
  destruct (query_spec w) as (H1 & H2 & H3). destruct (query w) as [r w1]; simpl in *. unfold clean in *.
  destruct H3 as [->| ->].
  - pose proof (assign_commit_spec f w1) as Ha. destruct ((assign f ;;! commit)%fcam w1) as [[[]|e] w2].
    + destruct Ha as (H4 & H5 & H6). cbn [fst snd]. rewrite H1, Hc in *. rewrite H4, H5. auto.
    + destruct (rollback_spec w2) as (-> & -> & ->). destruct Ha as [-> _]. rewrite H2. auto.
  - destruct (rollback_spec w1) as (-> & -> & ->). rewrite H2. auto.
Qed.
End Transactions.

(** A host reading changes nothing in the database. *)
Lemma on_host_db {E : Env} {A} (f : HostState → A * HostState) w :
  ∃ w', on_host f w = (Ok (f (w_host w)).1, w') ∧ view w' = view w ∧ durable w' = durable w ∧
        w_db w' = w_db w.
Proof. unfold on_host, step. destruct (f (w_host w)) as [a h]; simpl. eauto. Qed.

(** * Unique columns *)

Section Unique.
Context {A B : Type} (f : A → B).
Implicit Types m : gmap Z A.

Lemma unique_filter (P : Z * A → Prop) `{!∀ x, Decision (P x)} m :
  unique_by f m → unique_by f (filter P m).
Proof.
  intros Hu i j a b Hi Hj. apply map_lookup_filter_Some in Hi as [Hi _], Hj as [Hj _]. by apply Hu.
Qed.
Lemma unique_delete i m : unique_by f m → unique_by f (delete i m).
Proof.
  intros Hu j k a b Hj Hk. apply lookup_delete_Some in Hj as [_ Hj], Hk as [_ Hk]. by apply Hu.
Qed.
(** A new row keeps a column unique exactly if no row has its value. *)
Lemma unique_insert i a m : m !! i = None → unique_by f m →
  unique_by f (<[i := a]> m) ↔ ∀ j b, m !! j = Some b → f b ≠ f a.
Proof.
  intros Hi Hu. split.
  - intros Hu' j b Hj Hf. assert (i = j); [|congruence].
    apply (Hu' i j a b); [by rewrite lookup_insert_eq| |done].
    rewrite lookup_insert_ne; [done|congruence].
  - intros Hf j k b c. rewrite !lookup_insert_Some. intros [[<- <-]|[? Hj]] [[<- <-]|[? Hk]] He;
      [done|by destruct (Hf k c)|by destruct (Hf j b)|by apply (Hu j k b c)].
Qed.
End Unique.

Lemma unique_subseteq {A B} (f : A → B) (m m' : gmap Z A) : m' ⊆ m → unique_by f m → unique_by f m'.
Proof.
  intros Hs Hu i j a b Hi Hj. apply Hu; by eapply lookup_weaken.
Qed.

(** * Foreign keys *)

Lemma refers_mono {A} (m m' : gmap Z A) o : dom m ⊆ dom m' → refers m o → refers m' o.
Proof. destruct o as [i|]; simpl; [|done]. rewrite <-!elem_of_dom. set_solver. Qed.
Lemma all_refer_target {A B} (m : gmap Z A) f (t t' : gmap Z B) :
  dom t ⊆ dom t' → all_refer m f t → all_refer m f t'.
Proof. intros Hd H i x Hi. eapply refers_mono; [exact Hd|by apply (H i)]. Qed.
Lemma all_refer_subseteq {A B} (m m' : gmap Z A) f (t : gmap Z B) :
  m' ⊆ m → all_refer m f t → all_refer m' f t.
Proof. intros Hs H i x Hi. apply (H i). by eapply lookup_weaken. Qed.
Lemma all_refer_insert {A B} (m : gmap Z A) f (t : gmap Z B) i x :
  refers t (f x) → all_refer m f t → all_refer (<[i := x]> m) f t.
Proof. intros Hx H. by apply map_Forall_insert_2. Qed.

(** Removing idempotency records, or adding one for a client that exists. *)
Lemma constraints_fewer_records t m :
  m ⊆ t_idempotency t → constraints_hold t → constraints_hold (set_t_idempotency m t).
Proof.
  intros Hs []. split; simpl; try done.
  - by eapply unique_subseteq.
  - by eapply all_refer_subseteq.
Qed.
Lemma constraints_new_record t id c r :
  constraints_hold t → t_idempotency t !! id = None → is_Some (t_clients t !! c) → i_client_id r = c →
  constraints_hold (set_t_idempotency (<[id := r]> (t_idempotency t)) t) ↔
  ∀ j x, t_idempotency t !! j = Some x → idem_slot x ≠ idem_slot r.
Proof.
  intros H Hid Hcl <-. rewrite <-(unique_insert _ _ _ _ Hid (uq_idempotency _ H)).
  destruct H. split; [by intros []|]. intros Hu. split; simpl; try done.
  by apply all_refer_insert.
Qed.

(** Looking a row up by a unique column. *)
Section FindBy.
Context {A B : Type} (f : A → B) (p : A → bool) (s : B).
Context (Hp : ∀ x, p x = true ↔ f x = s).
Implicit Types m : gmap Z A.

Lemma find_by_some m r : List.find p (by_id m) = Some r → ∃ i, m !! i = Some r ∧ f r = s.
Proof.
  intros [Hi Hb%Hp]%find_some. apply list_elem_of_In, elem_of_by_id in Hi as [i Hi]. eauto.
Qed.
Lemma find_by_none m i r : List.find p (by_id m) = None → m !! i = Some r → f r ≠ s.
Proof.
  intros Hn Hi Hs%Hp. assert (In r (by_id m)) as Hin by (apply list_elem_of_In, elem_of_by_id; eauto).
  apply (find_none _ _ Hn) in Hin. congruence.
Qed.
Lemma find_by_unique m i r : unique_by f m → m !! i = Some r → f r = s → List.find p (by_id m) = Some r.
Proof.
  intros Hu Hi Hs. destruct (List.find p (by_id m)) as [r'|] eqn:Hf.
  - apply find_by_some in Hf as (j & Hj & Hs').
    assert (i = j) as <- by (apply (Hu i j r r'); congruence). congruence.
  - by destruct (find_by_none m i r Hf Hi).
Qed.
End FindBy.
