(* ===== verification/RateLimit.v ===== *)
(** [app/core/rate_limit.py]: the in-process token bucket.  A bucket holds up to
    [rate_per_min] tokens and refills continuously at [rate_per_min / 60] tokens
    a second; a call takes one token or is told how long to wait.  Theorems: the
    bucket never leaves [0, capacity], [peek] foretells [allow], the announced
    wait is enough, and over any stretch of time no key gets more than its
    capacity plus what was refilled. *)

From S2P Require Import Prelude Effects PyText PyTime Json Models Env.
Open Scope Z_scope.

Module TokenBucket.

(** class _Bucket. *)
Record Bucket := mkBucket { tokens : Q; last_refill : Q }.

(** TokenBucketRateLimiter._buckets. *)
Notation Buckets := (gmap string Bucket).

Definition capacity (rate_per_min : Z) : Q := inject_Z rate_per_min.
Definition refill_per_sec (rate_per_min : Z) : Q := (capacity rate_per_min / 60)%Q.

(** [min(capacity, bucket.tokens + elapsed * refill_per_sec)] with
    [elapsed = max(now - bucket.last_refill, 0.0)]. *)
Definition refilled (rate_per_min : Z) (now : Q) (b : Bucket) : Q :=
  let elapsed := Qmax (now - last_refill b) 0 in
  Qmin (capacity rate_per_min) (tokens b + elapsed * refill_per_sec rate_per_min)%Q.

(** [max(int(math.ceil((1.0 - tokens) / refill_per_sec)), 1)]. *)
Definition retry_after (rate_per_min : Z) (tokens : Q) : Z :=
  Z.max (Qceiling ((1 - tokens) / refill_per_sec rate_per_min)) 1.

(** TokenBucketRateLimiter.peek. *)
Definition peek (key : string) (rate_per_min : Z) (now : Q) (buckets : Buckets) : bool * Z :=
  if rate_per_min <=? 0 then (true, 0) else
  match buckets !! key with
  | None => (true, 0)
  | Some bucket =>
      let tokens := refilled rate_per_min now bucket in
      if Qle_bool 1 tokens then (true, 0)
      else (false, retry_after rate_per_min tokens)
  end.

(** TokenBucketRateLimiter.allow. *)
Definition allow (key : string) (rate_per_min : Z) (now : Q) (buckets : Buckets)
  : (bool * Z) * Buckets :=
  if rate_per_min <=? 0 then ((true, 0), buckets) else
  let bucket := match buckets !! key with
                | None => mkBucket (capacity rate_per_min) now
                | Some b => b
                end in
  let tokens := refilled rate_per_min now bucket in
  if Qle_bool 1 tokens
  then ((true, 0), <[key := mkBucket (tokens - 1) now]> buckets)
  else ((false, retry_after rate_per_min tokens), <[key := mkBucket tokens now]> buckets).

(** One call of [allow]: which key, at what rate, when. *)
Record Call := mkCall { call_key : string; call_rate : Z; call_time : Q }.

(** A run of calls in order: the answers and the final buckets. *)
Fixpoint run (cs : list Call) (st : Buckets) : list bool * Buckets :=
  match cs with
  | [] => ([], st)
  | c :: cs' =>
      let '((ok, _), st') := allow (call_key c) (call_rate c) (call_time c) st in
      let '(oks, st'') := run cs' st' in
      (ok :: oks, st'')
  end.

(** How many of the calls for [key] were let through. *)
Fixpoint allowed (key : string) (cs : list Call) (oks : list bool) : Z :=
  match cs, oks with
  | c :: cs', ok :: oks' =>
      (if String.eqb (call_key c) key && ok then 1 else 0) + allowed key cs' oks'
  | _, _ => 0
  end.

(** The clock reading of the last call, [t] when there is none. *)
Definition last_time (t : Q) (cs : list Call) : Q := List.last (map call_time cs) t.

(** Times do not go back (time.monotonic), and [key] is always called at the
    same rate. *)
Fixpoint steady (key : string) (rate : Z) (t : Q) (cs : list Call) : Prop :=
  match cs with
  | [] => True
  | c :: cs' =>
      (t <= call_time c)%Q ∧ (call_key c = key → call_rate c = rate) ∧
      steady key rate (call_time c) cs'
  end.

(** Invariant: what a bucket of a key with this rate may hold, and the latest
    time it was touched. *)
Definition bucket_ok (rate : Z) (t : Q) (b : Bucket) : Prop :=
  (0 <= tokens b)%Q ∧ (tokens b <= capacity rate)%Q ∧ (last_refill b <= t)%Q.
Definition key_ok (key : string) (rate : Z) (t : Q) (st : Buckets) : Prop :=
  ∀ b, st !! key = Some b → bucket_ok rate t b.

(** What the key could spend at time [t]: its refilled tokens, or a full
    bucket when it has none yet. *)
Definition headroom (key : string) (rate : Z) (t : Q) (st : Buckets) : Q :=
  match st !! key with
  | Some b => refilled rate t b
  | None => capacity rate
  end.

End TokenBucket.

(** The in-process limiter as an implementation of the interface. *)
#[export] Instance token_bucket_limiter : RateLimiter := {|
  Limiter := gmap string TokenBucket.Bucket;
  rl_peek := Some (λ key rate t st, Ok (TokenBucket.peek key rate (mo_mono t) st));
  rl_allow := λ key rate t st,
    let '(r, st') := TokenBucket.allow key rate (mo_mono t) st in (Ok r, st')
|}.

Module TokenBucketFacts.
Import TokenBucket.

Lemma refill_pos r : 0 < r → (0 < refill_per_sec r)%Q.
Proof.
  intros H. unfold refill_per_sec, capacity. apply Qlt_shift_div_l; [lra|].
  rewrite Qmult_0_l. rewrite (Zlt_Qlt 0 r) in H. exact H.
Qed.

Lemma capacity_ge1 r : 0 < r → (1 <= capacity r)%Q.
Proof. intros H. unfold capacity. assert (1 <= r) as H' by lia. rewrite Zle_Qle in H'. exact H'. Qed.

Lemma refilled_bounds r now b :
  0 < r → (0 <= tokens b)%Q → (0 <= refilled r now b <= capacity r)%Q.
Proof.
  intros Hr Hb. unfold refilled. pose proof (refill_pos r Hr) as Hp.
  pose proof (capacity_ge1 r Hr). split; [|apply Q.le_min_l].
  apply Q.min_glb; [lra|].
  assert (0 <= Qmax (now - last_refill b) 0)%Q by apply Q.le_max_r. nra.
Qed.

(** When the clock did not go back, the refill is linear up to the cap. *)
Lemma refilled_linear r now b :
  0 < r → (last_refill b <= now)%Q →
  (refilled r now b <= tokens b + (now - last_refill b) * refill_per_sec r)%Q.
Proof.
  intros Hr Ht. unfold refilled. eapply Qle_trans; [apply Q.le_min_r|].
  rewrite Q.max_l by lra. lra.
Qed.

Lemma refilled_nonneg_later r t t' b :
  0 < r → (t <= t')%Q → (0 <= tokens b)%Q →
  (refilled r t b <= refilled r t' b)%Q ∧
  (refilled r t' b <= refilled r t b + (t' - t) * refill_per_sec r)%Q.
Proof.
  intros Hr Ht Hb. unfold refilled. pose proof (refill_pos r Hr) as Hp.
  set (e := Qmax (t - last_refill b) 0). set (e' := Qmax (t' - last_refill b) 0).
  assert (e <= e')%Q by (apply Q.max_le_compat_r; lra).
  assert (e' <= e + (t' - t))%Q.
  { subst e e'. destruct (Q.max_spec (t' - last_refill b) 0) as [[? ->]|[? ->]],
      (Q.max_spec (t - last_refill b) 0) as [[? ->]|[? ->]]; lra. }
  split.
  - apply Q.min_le_compat_l. nra.
  - destruct (Q.min_spec (capacity r) (tokens b + e * refill_per_sec r)) as [[? ->]|[? ->]].
    + eapply Qle_trans; [apply Q.le_min_l|]. nra.
    + eapply Qle_trans; [apply Q.le_min_r|]. nra.
Qed.

Lemma refilled_now r now b :
  0 < r → last_refill b = now → (0 <= tokens b <= capacity r)%Q →
  (refilled r now b == tokens b)%Q.
Proof.
  intros Hr <- [? ?]. unfold refilled. rewrite Q.max_r by lra.
  rewrite Q.min_r by lra. lra.
Qed.

(** One call, on every branch. *)
Lemma allow_cases key r now st :
  0 < r →
  let '((ok, s), st') := allow key r now st in
  ∃ b, st' = <[key := b]> st ∧ last_refill b = now ∧
    if ok then (1 <= headroom key r now st)%Q ∧ s = 0 ∧
               (tokens b == headroom key r now st - 1)%Q
    else (headroom key r now st < 1)%Q ∧
         s = retry_after r (tokens b) ∧ (tokens b == headroom key r now st)%Q.
Proof.
  intros Hr. unfold allow, headroom. destruct (r <=? 0) eqn:E; [lia|].
  destruct (st !! key) as [b|] eqn:Eb.
  - destruct (Qle_bool 1 _) eqn:El; bool_prop; eexists; repeat split; simpl; try done; lra.
  - assert (refilled r now (mkBucket (capacity r) now) == capacity r)%Q as Hc.
    { pose proof (capacity_ge1 r Hr). apply refilled_now; simpl; [done|done|lra]. }
    destruct (Qle_bool 1 _) eqn:El; bool_prop; eexists; repeat split; simpl; try done; lra.
Qed.

Lemma headroom_bounds key r t st :
  0 < r → key_ok key r t st → (0 <= headroom key r t st <= capacity r)%Q.
Proof.
  intros Hr Hk. unfold headroom. pose proof (capacity_ge1 r Hr).
  destruct (st !! key) as [b|] eqn:E; [|lra].
  apply refilled_bounds; [done|]. by destruct (Hk b E).
Qed.

Lemma headroom_later key r t t' st :
  0 < r → (t <= t')%Q → key_ok key r t st →
  (headroom key r t' st <= headroom key r t st + (t' - t) * refill_per_sec r)%Q.
Proof.
  intros Hr Ht Hk. unfold headroom. pose proof (refill_pos r Hr).
  destruct (st !! key) as [b|] eqn:E; [|nra].
  apply refilled_nonneg_later; [done..|]. by destruct (Hk b E).
Qed.

Lemma key_ok_later key r t t' st : (t <= t')%Q → key_ok key r t st → key_ok key r t' st.
Proof. intros Ht Hk b Hb. destruct (Hk b Hb) as (?&?&?). repeat split; [done|done|lra]. Qed.

(** A call on the key itself keeps the invariant and spends headroom. *)
Lemma allow_same key r t now st :
  0 < r → (t <= now)%Q → key_ok key r t st →
  let '((ok, _), st') := allow key r now st in
  key_ok key r now st' ∧
  (headroom key r now st' + (if ok then 1 else 0) <= headroom key r now st)%Q.
Proof.
  intros Hr Ht Hk. pose proof (allow_cases key r now st Hr) as Ha.
  pose proof (headroom_bounds key r now st Hr (key_ok_later _ _ _ _ _ Ht Hk)) as Hh.
  destruct (allow key r now st) as [[ok s] st']. destruct Ha as (b & -> & Hl & Hb).
  assert (0 <= tokens b <= capacity r)%Q as Hbb by (destruct ok; destruct Hb as (?&?&?); lra).
  split.
  - intros b' Hb'. rewrite lookup_insert_eq in Hb'. injection Hb' as <-.
    unfold bucket_ok. rewrite Hl. lra.
  - unfold headroom at 1. rewrite lookup_insert_eq.
    pose proof (refilled_now r now b Hr Hl Hbb). destruct ok; destruct Hb as (?&?&?); lra.
Qed.

(** A call on another key leaves this key's bucket alone. *)
Lemma allow_other key key' r now st :
  key ≠ key' → (allow key' r now st).2 !! key = st !! key.
Proof.
  intros Hne. unfold allow. destruct (r <=? 0); [done|].
  destruct (Qle_bool 1 _); simpl; by rewrite lookup_insert_ne.
Qed.

Lemma key_ok_ext key r t st st' :
  st' !! key = st !! key → key_ok key r t st → key_ok key r t st'.
Proof. intros E Hk b Hb. apply Hk. by rewrite <-E. Qed.

Lemma headroom_ext key r t st st' :
  st' !! key = st !! key → headroom key r t st' = headroom key r t st.
Proof. unfold headroom. by intros ->. Qed.

Lemma last_time_cons t c cs : last_time t (c :: cs) = last_time (call_time c) cs.
Proof.
  unfold last_time. simpl. destruct cs as [|c' cs]; simpl; [done|].
  generalize (call_time c'), (map call_time cs). clear. intros x l.
  revert x. induction l as [|y l IH]; intros x; simpl; [done|]. apply IH.
Qed.

Lemma run_bound key r cs t st :
  0 < r → steady key r t cs → key_ok key r t st →
  (t <= last_time t cs)%Q ∧
  (inject_Z (allowed key cs (run cs st).1)
   <= headroom key r t st + (last_time t cs - t) * refill_per_sec r)%Q.
Proof.
  intros Hr. revert t st. induction cs as [|c cs IH]; intros t st Hs Hk.
  { simpl. pose proof (headroom_bounds key r t st Hr Hk). unfold last_time; simpl.
    change (inject_Z 0) with 0%Q. split; [lra|].
    assert ((t - t) * refill_per_sec r == 0)%Q as -> by ring. lra. }
  destruct Hs as (Ht & Hrate & Hs). rewrite last_time_cons.
  destruct c as [ck cr ct]; simpl in *.
  pose proof (headroom_later key r t ct st Hr Ht Hk) as Hlater.
  pose proof (refill_pos r Hr) as Hp.
  destruct (String.eqb ck key) eqn:Ek.
  - pose proof Ek as Ek'. apply String.eqb_eq in Ek' as ->. rewrite (Hrate eq_refl).
    pose proof (allow_same key r t ct st Hr Ht Hk) as Ha.
    destruct (allow key r ct st) as [[ok s] st'] eqn:Eal. destruct Ha as [Hk' Hh].
    destruct (IH ct st' Hs Hk') as [Hl HIH]. destruct (run cs st') as [oks st''].
    split; [lra|]. simpl. rewrite inject_Z_plus.
    destruct ok; simpl in *; change (inject_Z 1) with 1%Q; change (inject_Z 0) with 0%Q; nra.
  - pose proof Ek as Ek'. apply String.eqb_neq in Ek'.
    pose proof (allow_other key ck cr ct st) as Ho.
    destruct (allow ck cr ct st) as [[ok s] st'] eqn:Eal. simpl in Ho.
    specialize (Ho ltac:(congruence)).
    assert (key_ok key r ct st') as Hk'.
    { eapply key_ok_ext; [done|]. by eapply key_ok_later. }
    destruct (IH ct st' Hs Hk') as [Hl HIH]. destruct (run cs st') as [oks st''].
    rewrite (headroom_ext key r _ st st' Ho) in HIH.
    split; [lra|]. simpl. rewrite Z.add_0_l. cbn [fst] in HIH. lra.
Qed.
End TokenBucketFacts.

Module TokenBucketTheorems.
Import TokenBucket TokenBucketFacts.

(** C13. Over any run of [allow] calls whose clock does not go back, in which a
    key is always called at the same positive rate and other keys are called
    at will, the number of calls let through for that key is at most its
    capacity plus the tokens refilled since the start of the run. *)
Theorem allow_window_bound key rate cs t0 st :
  0 < rate → steady key rate t0 cs → key_ok key rate t0 st →
  (inject_Z (allowed key cs (run cs st).1)
   <= capacity rate + (last_time t0 cs - t0) * refill_per_sec rate)%Q.
Proof.
  intros Hr Hs Hk. destruct (run_bound key rate cs t0 st Hr Hs Hk) as [Hl Hb].
  pose proof (headroom_bounds key rate t0 st Hr Hk). lra.
Qed.

Lemma allow_window_bound_witness :
  (inject_Z (allowed "k" [mkCall "k" 1 0; mkCall "k" 1 10; mkCall "j" 5 20; mkCall "k" 1 61]
               (run [mkCall "k" 1 0; mkCall "k" 1 10; mkCall "j" 5 20; mkCall "k" 1 61] ∅).1)
   <= capacity 1 + (last_time 0 [mkCall "k" 1 0; mkCall "k" 1 10; mkCall "j" 5 20; mkCall "k" 1 61]
                    - 0) * refill_per_sec 1)%Q.
Proof.
  apply allow_window_bound.
  - lia.
  - repeat split; try done; vm_compute; done.
  - intros b Hb. by rewrite lookup_empty in Hb.
Defined.

(** [peek] is a faithful preview of [allow]: on the same state, key, rate
    and clock it gives the same verdict and the same wait. *)
Theorem peek_foretells_allow key rate now st :
  peek key rate now st = (allow key rate now st).1.
Proof.
  unfold peek, allow. destruct (rate <=? 0) eqn:Hr; [done|].
  destruct (st !! key) as [b|] eqn:E.
  - by destruct (Qle_bool 1 (refilled rate now b)).
  - pose proof (capacity_ge1 rate ltac:(lia)).
    pose proof (refilled_now rate now (mkBucket (capacity rate) now) ltac:(lia) eq_refl) as Hc.
    simpl in Hc. specialize (Hc ltac:(lra)).
    destruct (Qle_bool 1 (refilled _ _ _)) eqn:El; [done|]. bool_prop. lra.
Qed.

(** A refused call announces a wait of at least one second that is long
    enough: asked again that many seconds later, with no call on the key in
    between, the limiter lets the call through. *)
Theorem retry_after_sufficient key rate t now later st s st' :
  0 < rate → (t <= now)%Q → key_ok key rate t st →
  allow key rate now st = ((false, s), st') →
  (now + inject_Z s <= later)%Q →
  1 ≤ s ∧ (allow key rate later st').1 = (true, 0).
Proof.
  intros Hr Ht Hk Ha Hl. pose proof (allow_cases key rate now st Hr) as Hc.
  pose proof (allow_same key rate t now st Hr Ht Hk) as Hs. rewrite Ha in Hc, Hs.
  destruct Hc as (b & -> & Hlast & Hlow & -> & Htok). destruct Hs as [Hk' _].
  split; [unfold retry_after; lia|].
  destruct (Hk' b (lookup_insert_eq _ _ _)) as (Hb0 & Hb1 & _).
  rewrite <-peek_foretells_allow. unfold peek. rewrite lookup_insert_eq.
  destruct (rate <=? 0) eqn:E; [lia|]. pose proof (refill_pos rate Hr) as Hp.
  pose proof (capacity_ge1 rate Hr).
  assert (1 <= refilled rate later b)%Q as Hge; [|by apply Qle_bool_iff in Hge as ->].
  unfold refilled. rewrite Hlast. apply Q.min_glb; [done|].
  set (need := ((1 - tokens b) / refill_per_sec rate)%Q).
  assert (need <= inject_Z (retry_after rate (tokens b)))%Q as Hneed.
  { unfold retry_after. fold need. eapply Qle_trans; [apply Qle_ceiling|].
    rewrite <-Zle_Qle. lia. }
  assert (need * refill_per_sec rate == 1 - tokens b)%Q as Hmul.
  { unfold need. field. lra. }
  assert (need <= Qmax (later - now) 0)%Q.
  { eapply Qle_trans; [|apply Q.le_max_l]. lra. }
  nra.
Qed.

Lemma retry_after_sufficient_witness :
  1 ≤ 60 ∧ (allow "k" 1 60 (allow "k" 1 0 (allow "k" 1 0 ∅).2).2).1 = (true, 0).
Proof.
  apply (retry_after_sufficient "k" 1 0 0 60 (allow "k" 1 0 ∅).2 60).
  - lia.
  - vm_compute; done.
  - intros b Hb. vm_compute in Hb. injection Hb as <-. repeat split; vm_compute; done.
  - vm_compute. reflexivity.
  - vm_compute; done.
Defined.
End TokenBucketTheorems.
