(* ===== verification/Concurrency.v ===== *)
(** [app/core/concurrency.py]: the in-process concurrency limiter.  A manager
    counts the slots in use per key; acquiring hands out a [Lease] object whose
    [release] returns the slot once.  Lease objects live in the manager's heap
    [leases], so that two releases of one lease act on one object.

    [try_acquire], [_release] and [current] run under the manager's lock and are one
    step each; [Lease.release] is not: it tests the flag, sets it, and only then calls
    the function that takes the lock.  Threads ([thread_step]) interleave these steps;
    [release] is the three in a row, which is what a call amounts to when no other
    thread comes in between, and what the forwarder's model uses. *)

From S2P Require Import Prelude Effects PyText PyTime Json Models Env.
Open Scope Z_scope.

Module ConcurrencyManager.

(** class _State. *)
Record State := mkState { current_ : Z; maximum_ : Z }.

(** class Lease: the key its [release_fn] gives back ([None] for the no-op
    function of an unlimited key) and the [_released] flag. *)
Record LeaseObj := mkLease { lease_key : option string; released : bool }.

(** class ConcurrencyManager: [_states], and the heap of its leases. *)
Record Manager := mkManager { states : gmap string State; leases : list LeaseObj }.
Definition new_manager : Manager := mkManager ∅ [].

(** [Lease(release_fn)]: a fresh object, its reference is its index. *)
Definition new_lease (k : option string) (m : Manager) : nat * Manager :=
  (length (leases m), mkManager (states m) (leases m ++ [mkLease k false])).

(** ConcurrencyManager.try_acquire. *)
Definition try_acquire (key : string) (maximum : Z) (m : Manager) : option nat * Manager :=
  if maximum <=? 0 then
    let '(l, m') := new_lease None m in (Some l, m')
  else
    let state := match states m !! key with
                 | None => mkState 0 maximum
                 | Some s => s
                 end in
    let state := mkState (current_ state) maximum in
    let m := mkManager (<[key := state]> (states m)) (leases m) in
    if current_ state >=? maximum_ state then (None, m)
    else
      let state := mkState (current_ state + 1) (maximum_ state) in
      let m := mkManager (<[key := state]> (states m)) (leases m) in
      let '(l, m') := new_lease (Some key) m in (Some l, m').

(** ConcurrencyManager._release. *)
Definition release_key (key : string) (m : Manager) : Manager :=
  match states m !! key with
  | None => m
  | Some s =>
      mkManager (<[key := mkState (Z.max (current_ s - 1) 0) (maximum_ s)]> (states m)) (leases m)
  end.

(** Lease.release, in its three steps: the test of [_released], its setting, and the
    call of [_release_fn]. *)
Definition release_test (l : nat) (m : Manager) : bool :=
  match leases m !! l with Some (mkLease _ released) => negb released | None => false end.
Definition release_mark (l : nat) (m : Manager) : Manager :=
  match leases m !! l with
  | Some (mkLease k _) => mkManager (states m) (<[l := mkLease k true]> (leases m))
  | None => m
  end.
Definition release_fn (l : nat) (m : Manager) : option string :=
  match leases m !! l with Some (mkLease k _) => k | None => None end.
Definition call_release_fn (k : option string) (m : Manager) : Manager :=
  match k with None => m | Some key => release_key key m end.
Definition release (l : nat) (m : Manager) : Manager :=
  if release_test l m then call_release_fn (release_fn l m) (release_mark l m) else m.

(** ConcurrencyManager.current. *)
Definition current (key : string) (m : Manager) : Z :=
  match states m !! key with Some s => current_ s | None => 0 end.

(** The leases of [key] that are still held. *)
Definition live (key : string) (o : LeaseObj) : bool :=
  match o with
  | mkLease (Some k) false => String.eqb k key
  | _ => false
  end.
Definition live_count (key : string) (m : Manager) : Z :=
  Z.of_nat (length (List.filter (live key) (leases m))).

(** A call of [Lease.release] that has not returned: it has found the flag of the lease
    not set, or it has set it and is about to call the function. *)
Inductive Releasing := Tested (l : nat) | Marked (k : option string).
#[export] Instance releasing_eq : EqDecision Releasing.
Proof. solve_decision. Defined.
(** The manager, and what each thread is in the middle of. *)
Record Threads := mkThreads { manager : Manager; calls : gmap nat Releasing }.
Definition idle (t : nat) (s : Threads) : Prop := calls s !! t = None.

(** One step of the thread [t].  [overlap] tells whether a thread may begin to release a
    lease that another has tested and not yet marked. *)
Inductive thread_step (overlap : bool) (limit : string → Z) : Threads → Threads → Prop :=
  | step_acquire t key m c :
      idle t (mkThreads m c) →
      thread_step overlap limit (mkThreads m c) (mkThreads (try_acquire key (limit key) m).2 c)
  | step_test t l m c :
      idle t (mkThreads m c) → (overlap = false → ∀ t', c !! t' ≠ Some (Tested l)) →
      thread_step overlap limit (mkThreads m c)
        (mkThreads m (if release_test l m then <[t := Tested l]> c else c))
  | step_mark t l m c :
      c !! t = Some (Tested l) →
      thread_step overlap limit (mkThreads m c)
        (mkThreads (release_mark l m) (<[t := Marked (release_fn l m)]> c))
  | step_call t k m c :
      c !! t = Some (Marked k) →
      thread_step overlap limit (mkThreads m c) (mkThreads (call_release_fn k m) (delete t c)).

(** From a fresh manager, each key acquired under its limit. *)
Definition reachable (overlap : bool) (limit : string → Z) : Threads → Prop :=
  rtc (thread_step overlap limit) (mkThreads new_manager ∅).

(** The releases of leases of [key] that have marked the lease and not yet returned the
    slot. *)
Definition returning (key : string) (c : gmap nat Releasing) : gmap nat Releasing :=
  filter (λ p, p.2 = Marked (Some key)) c.
Definition returning_count (key : string) (c : gmap nat Releasing) : Z := Z.of_nat (size (returning key c)).

(** Representation invariant: the counter of a key is its number of live
    leases. *)
Definition wf (m : Manager) : Prop :=
  ∀ key, current key m = live_count key m.

End ConcurrencyManager.

Module ConcurrencyFacts.
Import ConcurrencyManager.

Lemma live_count_nonneg key m : 0 ≤ live_count key m.
Proof. unfold live_count. lia. Qed.

Lemma live_count_pos key m l :
  leases m !! l = Some (mkLease (Some key) false) → 0 < live_count key m.
Proof.
  intros E. unfold live_count.
  assert (mkLease (Some key) false ∈ List.filter (live key) (leases m)) as Hin.
  { apply list_elem_of_In, List.filter_In. split.
    - apply list_elem_of_In. by eapply list_elem_of_lookup_2.
    - simpl. apply String.eqb_refl. }
  destruct (List.filter (live key) (leases m)); [by inversion Hin|simpl; lia].
Qed.

Lemma filter_live_insert key os l k :
  os !! l = Some (mkLease k false) →
  Z.of_nat (length (List.filter (live key) os)) =
  Z.of_nat (length (List.filter (live key) (<[l := mkLease k true]> os)))
    + (if live key (mkLease k false) then 1 else 0).
Proof.
  revert l. induction os as [|o os IH]; intros [|l] H; simpl in H; try done.
  - injection H as ->. destruct k as [k|]; simpl; [|lia].
    destruct (String.eqb k key); simpl; lia.
  - specialize (IH l H). simpl. destruct (live key o); simpl in *; lia.
Qed.

Lemma live_count_release_none key m l :
  leases m !! l = Some (mkLease None false) →
  live_count key (mkManager (states m) (<[l := mkLease None true]> (leases m))) = live_count key m.
Proof. intros H. unfold live_count; simpl. rewrite (filter_live_insert key _ _ _ H). simpl. lia. Qed.

Lemma live_count_release_some key k m l st :
  leases m !! l = Some (mkLease (Some k) false) →
  live_count key (mkManager st (<[l := mkLease (Some k) true]> (leases m)))
  = live_count key m - (if String.eqb k key then 1 else 0).
Proof.
  intros H. unfold live_count; simpl. rewrite (filter_live_insert key _ _ _ H). simpl.
  destruct (String.eqb k key); lia.
Qed.

Lemma live_count_new key k m st :
  live_count key (mkManager st (leases m ++ [mkLease k false]))
  = live_count key m + (if live key (mkLease k false) then 1 else 0).
Proof.
  unfold live_count; simpl. rewrite List.filter_app, length_app. simpl.
  destruct k as [k|]; simpl; [destruct (String.eqb k key); simpl|]; lia.
Qed.

Lemma current_insert key key' s m ls :
  current key (mkManager (<[key' := s]> (states m)) ls)
  = if String.eqb key' key then current_ s else current key m.
Proof.
  unfold current; simpl. destruct (String.eqb key' key) eqn:E; bool_prop; subst.
  - by rewrite lookup_insert_eq.
  - by rewrite lookup_insert_ne.
Qed.

(** [try_acquire] on every branch, in terms of the observable counters. *)
Lemma try_acquire_cases key mx m :
  match try_acquire key mx m with
  | (Some l, m') =>
      l = length (leases m) ∧
      (∀ k', current k' m' = current k' m + (if (0 <? mx) && String.eqb key k' then 1 else 0)) ∧
      (0 < mx → current key m < mx) ∧
      (∃ st, m' = mkManager st (leases m ++ [mkLease (if 0 <? mx then Some key else None) false]))
  | (None, m') =>
      0 < mx ∧ mx ≤ current key m ∧ leases m' = leases m ∧ ∀ k', current k' m' = current k' m
  end.
Proof.
  unfold try_acquire. destruct (mx <=? 0) eqn:E; simpl.
  { assert (0 <? mx = false) as -> by lia. split_and!; [done|..].
    - intros k'. unfold current; simpl. lia.
    - lia.
    - eexists. done. }
  assert (0 <? mx = true) as -> by lia.
  set (c := match states m !! key with Some s => s | None => _ end).
  assert (current_ c = current key m) as Hc.
  { unfold c, current. by destruct (states m !! key). }
  rewrite Hc. destruct (current key m >=? mx) eqn:E2; simpl.
  - repeat split; [lia|lia|]. intros k'. rewrite current_insert; simpl.
    destruct (String.eqb key k') eqn:Ek; bool_prop; subst; done.
  - split_and!; [done|..].
    + intros k'. rewrite insert_insert_eq, current_insert; simpl.
      destruct (String.eqb key k') eqn:Ek; bool_prop; subst; lia.
    + intros _. lia.
    + eexists. done.
Qed.

Lemma wf_new : wf new_manager.
Proof. intros key. unfold current, live_count; simpl. by rewrite lookup_empty. Qed.

Lemma wf_acquire key mx m : wf m → wf (try_acquire key mx m).2.
Proof.
  intros Hwf. pose proof (try_acquire_cases key mx m) as Hc.
  destruct (try_acquire key mx m) as [[l|] m']; simpl in *; intros k'.
  - destruct Hc as (_ & -> & _ & st & ->). rewrite live_count_new, Hwf. f_equal.
    destruct (0 <? mx); simpl; done.
  - destruct Hc as (_ & _ & Hl & ->). unfold live_count. rewrite Hl. apply Hwf.
Qed.

Lemma release_eq l m :
  release l m =
  match leases m !! l with
  | Some (mkLease k false) => call_release_fn k (mkManager (states m) (<[l := mkLease k true]> (leases m)))
  | _ => m
  end.
Proof. unfold release, release_test, release_fn, release_mark. by destruct (leases m !! l) as [[k []]|]. Qed.

(** [release] on every branch. *)
Lemma release_current l m k' :
  wf m →
  current k' (release l m) =
    current k' m - (match leases m !! l with
                    | Some o => if live k' o then 1 else 0
                    | None => 0
                    end).
Proof.
  intros Hwf. rewrite release_eq. destruct (leases m !! l) as [[[k|] []]|] eqn:E; simpl; try lia.
  - unfold release_key; simpl. destruct (states m !! k) as [s|] eqn:Es.
    + rewrite (current_insert k' k _ (mkManager (states m) (leases m))); simpl.
      destruct (String.eqb k k') eqn:Ek; bool_prop; subst; [|unfold current; simpl; lia].
      assert (0 < live_count k' m) as Hpos.
      { by eapply live_count_pos. }
      rewrite <-Hwf in Hpos.
      assert (current k' m = current_ s) as Hc by (unfold current; by rewrite Es). lia.
    + destruct (String.eqb k k') eqn:Ek; bool_prop; subst; [|unfold current; simpl; case_match; lia].
      exfalso. specialize (Hwf k'). unfold current in Hwf. rewrite Es in Hwf.
      pose proof (live_count_pos _ _ _ E). lia.
  - unfold current; simpl. lia.
Qed.
End ConcurrencyFacts.

Module ConcurrencyTheorems.
Import ConcurrencyManager ConcurrencyFacts.

Lemma wf_release l m : wf m → wf (release l m).
Proof.
  intros Hwf k'. rewrite release_current by done. rewrite Hwf, release_eq.
  destruct (leases m !! l) as [[[k|] []]|] eqn:E; simpl; try lia.
  - unfold release_key; simpl. destruct (states m !! k);
      rewrite (live_count_release_some k' k m l _ E); done.
  - rewrite (live_count_release_none k' m l E). lia.
Qed.

(** *** Threads *)

Lemma returning_insert key t x c : c !! t = None →
  returning_count key (<[t := x]> c) = returning_count key c + (if decide (x = Marked (Some key)) then 1 else 0).
Proof.
  intros Ht. unfold returning_count, returning. rewrite map_filter_insert. simpl. case_decide.
  - rewrite map_size_insert_None by (apply map_lookup_filter_None; by left). lia.
  - rewrite delete_id by done. lia.
Qed.
Lemma returning_delete key t x c : c !! t = Some x →
  returning_count key (delete t c) = returning_count key c - (if decide (x = Marked (Some key)) then 1 else 0).
Proof.
  intros Ht. pose proof (returning_insert key t x (delete t c) (lookup_delete_eq _ _)) as Hi.
  rewrite insert_delete_id in Hi by done. lia.
Qed.
Lemma returning_replace key t x y c : c !! t = Some x →
  returning_count key (<[t := y]> c) =
    returning_count key c - (if decide (x = Marked (Some key)) then 1 else 0)
                          + (if decide (y = Marked (Some key)) then 1 else 0).
Proof.
  intros Ht. rewrite <-insert_delete_eq, returning_insert by apply lookup_delete_eq.
  by rewrite (returning_delete _ _ x).
Qed.
Lemma returning_pos key t c : c !! t = Some (Marked (Some key)) → 0 < returning_count key c.
Proof.
  intros Ht. pose proof (returning_delete key t _ c Ht) as Hd. rewrite decide_True in Hd by done.
  unfold returning_count in *. lia.
Qed.

(** What holds between the steps while releases of one lease do not overlap: a slot is in
    use for every lease not marked and every release that has still to return one. *)
Record threads_ok (limit : string → Z) (s : Threads) : Prop := {
  ok_slots : ∀ key, current key (manager s) = live_count key (manager s) + returning_count key (calls s);
  ok_limit : ∀ key, 0 < limit key → current key (manager s) ≤ limit key;
  ok_tested : ∀ t l, calls s !! t = Some (Tested l) → release_test l (manager s) = true;
  ok_alone : ∀ t t' l, calls s !! t = Some (Tested l) → calls s !! t' = Some (Tested l) → t = t'
}.

Lemma mark_live key l m : release_test l m = true →
  live_count key (release_mark l m) = live_count key m - (if decide (release_fn l m = Some key) then 1 else 0).
Proof.
  unfold release_test, release_mark, release_fn. destruct (leases m !! l) as [[k []]|] eqn:E; [done| |done].
  intros _. destruct k as [k|].
  - rewrite (live_count_release_some _ _ _ _ _ E). destruct (String.eqb_spec k key), (decide (Some k = Some key)); congruence || lia.
  - rewrite (live_count_release_none _ _ _ E), decide_False by done. lia.
Qed.
Lemma mark_current key l m : current key (release_mark l m) = current key m.
Proof. unfold release_mark. by destruct (leases m !! l) as [[k r]|]. Qed.
Lemma mark_test l l' m : l' ≠ l → release_test l' (release_mark l m) = release_test l' m.
Proof.
  intros Hne. unfold release_mark, release_test. destruct (leases m !! l) as [[k r]|]; [|done]. simpl.
  by rewrite list_lookup_insert_ne.
Qed.
Lemma call_leases k m : leases (call_release_fn k m) = leases m.
Proof. destruct k as [k|]; [|done]. simpl. unfold release_key. by destruct (states m !! k). Qed.
Lemma call_current key k m : 0 < current key m ∨ k ≠ Some key →
  current key (call_release_fn k m) = current key m - (if decide (k = Some key) then 1 else 0).
Proof.
  intros Hk. destruct k as [k|]; [|rewrite decide_False by done; simpl; lia]. unfold call_release_fn, release_key.
  destruct (states m !! k) as [s|] eqn:Es.
  - rewrite (current_insert key k _ m). simpl. destruct (String.eqb_spec k key) as [->|Hne].
    + rewrite decide_True by done. unfold current in Hk. unfold current. rewrite Es in Hk |- *. destruct Hk; [lia|done].
    + rewrite decide_False by congruence. lia.
  - destruct (decide (Some k = Some key)) as [[= ->]|]; [|lia].
    exfalso. unfold current in Hk. rewrite Es in Hk. destruct Hk; [lia|done].
Qed.

Lemma acquire_test key mx l m : release_test l m = true → release_test l (try_acquire key mx m).2 = true.
Proof.
  intros Hl. pose proof (try_acquire_cases key mx m) as Hc. unfold release_test in *.
  destruct (leases m !! l) as [o|] eqn:E; [|done]. destruct (try_acquire key mx m) as [[n|] m']; simpl in *.
  - destruct Hc as (_ & _ & _ & st & ->). simpl. by rewrite (lookup_app_l_Some _ _ _ _ E).
  - destruct Hc as (_ & _ & -> & _). by rewrite E.
Qed.

Lemma acquire_ok limit key m c :
  threads_ok limit (mkThreads m c) → threads_ok limit (mkThreads (try_acquire key (limit key) m).2 c).
Proof.
  intros [Hs Hl Ht Ha]. simpl in *. pose proof (try_acquire_cases key (limit key) m) as Hc.
  assert (∀ t l, c !! t = Some (Tested l) → release_test l (try_acquire key (limit key) m).2 = true) as Ht'
    by (intros t l Hi; by apply acquire_test, (Ht t)).
  destruct (try_acquire key (limit key) m) as [[n|] m']; simpl in *.
  - destruct Hc as (_ & Hcur & Hlt & st & ->). split; simpl; [| |done|done].
    + intros k. rewrite Hcur, live_count_new, Hs. destruct (0 <? limit key); simpl; lia.
    + intros k Hk. rewrite Hcur. specialize (Hl k Hk). destruct (String.eqb_spec key k) as [->|].
      * rewrite andb_true_r. specialize (Hlt Hk). case_match; lia.
      * rewrite andb_false_r. lia.
  - destruct Hc as (_ & _ & Hle & Hcur). split; simpl; [| |done|done]; intros k.
    + rewrite Hcur, Hs. unfold live_count. by rewrite Hle.
    + rewrite Hcur. apply Hl.
Qed.
Lemma step_ok limit s s' : thread_step false limit s s' → threads_ok limit s → threads_ok limit s'.
Proof.
  intros [t key m c Hi|t l m c Hi Ho|t l m c Hc|t k m c Hc] Hok; [by apply acquire_ok|..];
    destruct Hok as [Hs Hl Ht Ha]; simpl in *.
  - destruct (release_test l m) eqn:Hr; [|done]. split; simpl; [|done|..].
    + intros key. rewrite returning_insert by done. rewrite decide_False, Hs by done. lia.
    + intros t' l' [[-> [= <-]]|[_ Ht']]%lookup_insert_Some; [done|by eapply Ht].
    + intros t1 t2 l' [[<- [= <-]]|[Hn1 H1]]%lookup_insert_Some [[<- E2]|[Hn2 H2]]%lookup_insert_Some.
      * done.
      * by destruct (Ho eq_refl t2).
      * injection E2 as <-. by destruct (Ho eq_refl t1).
      * by eapply Ha.
  - pose proof (Ht _ _ Hc) as Hr. split; simpl.
    + intros key. rewrite mark_current, mark_live, (returning_replace _ _ _ _ _ Hc), Hs by done.
      rewrite (decide_False (P := Tested l = _)) by done.
      destruct (decide (release_fn l m = Some key)) as [->|Hne]; [rewrite decide_True by done; lia|].
      rewrite decide_False by congruence. lia.
    + intros key. rewrite mark_current. apply Hl.
    + intros t' l' [[_ ?]|[Hn Ht']]%lookup_insert_Some; [done|]. rewrite mark_test; [by eapply Ht|].
      intros ->. by apply Hn, (Ha t t' l).
    + intros t1 t2 l' [[_ ?]|[_ H1]]%lookup_insert_Some [[_ ?]|[_ H2]]%lookup_insert_Some; try done. by eapply Ha.
  - assert (∀ key, current key (call_release_fn k m) = current key m - (if decide (k = Some key) then 1 else 0)) as Hcur.
    { intros key. apply call_current. destruct (decide (k = Some key)) as [->|]; [left|by right].
      rewrite Hs. pose proof (returning_pos key t c Hc). pose proof (live_count_nonneg key m). lia. }
    split; simpl.
    + intros key. rewrite Hcur, Hs, (returning_delete _ _ _ _ Hc). unfold live_count. rewrite call_leases.
      destruct (decide (k = Some key)) as [->|Hne]; [rewrite decide_True by done; lia|].
      rewrite decide_False by congruence. lia.
    + intros key Hk. rewrite Hcur. specialize (Hl key Hk). case_decide; lia.
    + intros t' l [_ Ht']%lookup_delete_Some. unfold release_test. rewrite call_leases. by eapply Ht.
    + intros t1 t2 l [_ H1]%lookup_delete_Some [_ H2]%lookup_delete_Some. by eapply Ha.
Qed.

(** C12. Whatever the interleaving of threads that acquire and release, step by step (a
    release tests the flag of its lease, sets it, and then gives the slot back under the
    lock): the number of slots in use for a key is exactly the number of its leases not
    released plus the number of releases under way that have set the flag and not yet
    given the slot back; it is never negative and never exceeds the key's limit, if it
    has one.  Releases may be repeated, but no thread begins to release a lease while
    another is between the test and the setting of its flag: those two steps are not
    under the lock, and with such an overlap a slot is given back twice
    ([overlapping_releases_exceed_the_limit]).  In the gateway a lease is released only by
    the request that took it. *)
Theorem interleaved_limit limit s key :
  reachable false limit s →
  let used := current key (manager s) in
  used = live_count key (manager s) + returning_count key (calls s) ∧
  0 ≤ used ∧ (0 < limit key → used ≤ limit key).
Proof.
  intros Hr. assert (threads_ok limit s) as [Hs Hl _ _].
  { refine (rtc_ind_r (threads_ok limit) _ _ _ s Hr); [|intros s1 s2 _ Hstep Hok; by eapply step_ok].
    split; simpl; [|intros k ?; unfold current; simpl; rewrite lookup_empty; lia|done|done].
    intros k. unfold current, live_count, returning_count, returning. simpl. by rewrite lookup_empty, map_filter_empty. }
  split_and!; [apply Hs|rewrite Hs|apply Hl]. unfold live_count, returning_count. lia.
Qed.

(** A thread that releases alone: the three steps are [release]. *)
Lemma release_alone overlap limit t l m c :
  c !! t = None → (∀ t', c !! t' ≠ Some (Tested l)) →
  rtc (thread_step overlap limit) (mkThreads m c) (mkThreads (release l m) c).
Proof.
  intros Ht Ho. unfold release.
  assert (thread_step overlap limit (mkThreads m c) (mkThreads m (if release_test l m then <[t := Tested l]> c else c)))
    as H1 by (by apply step_test).
  destruct (release_test l m); [|by apply rtc_once]. eapply rtc_l; [exact H1|].
  eapply rtc_l; [apply (step_mark _ _ t); by rewrite lookup_insert_eq|]. rewrite insert_insert_eq.
  eapply rtc_r; [apply rtc_refl|].
  replace c with (delete t (<[t := Marked (release_fn l m)]> c)) at 2 by (by rewrite delete_insert_id).
  apply step_call. by rewrite lookup_insert_eq.
Qed.

(** A thread between the setting of the flag and the return of the slot. *)
Definition half_released : Threads :=
  mkThreads (release_mark 0 (try_acquire "k" 1 new_manager).2)
            (<[7%nat := Marked (Some "k")]> (<[7%nat := Tested 0]> ∅)).
Lemma interleaved_limit_witness :
  let used := current "k" (manager half_released) in
  used = live_count "k" (manager half_released) + returning_count "k" (calls half_released) ∧
  0 ≤ used ∧ (0 < 1 → used ≤ 1).
Proof.
  apply (interleaved_limit (λ _, 1) half_released "k").
  eapply rtc_l; [apply (step_acquire _ _ 7%nat "k"); done|].
  eapply rtc_l; [apply (step_test _ _ 7%nat 0); done|].
  apply rtc_once. apply (step_mark _ _ 7%nat 0). done.
Defined.
Example half_released_counts :
  current "k" (manager half_released) = 1 ∧ live_count "k" (manager half_released) = 0 ∧
  returning_count "k" (calls half_released) = 1.
Proof. vm_compute. done. Qed.

(** Two threads release one lease of a key with the limit 2 at the same time: both find
    the flag not set, and two slots are given back; after that two more leases are given
    out, and three are held. *)
Lemma overlapping_releases_exceed_the_limit :
  ∃ s, reachable true (λ _, 2) s ∧ calls s = ∅ ∧ live_count "k" (manager s) = 3.
Proof.
  eexists. split_and!.
  - eapply rtc_l; [apply (step_acquire _ _ 0%nat "k"); done|].
    eapply rtc_l; [apply (step_acquire _ _ 0%nat "k"); done|].
    eapply rtc_l; [apply (step_test _ _ 0%nat 0); done|].
    eapply rtc_l; [apply (step_test _ _ 1%nat 0); done|].
    eapply rtc_l; [apply (step_mark _ _ 0%nat 0); done|].
    eapply rtc_l; [apply (step_mark _ _ 1%nat 0); done|].
    eapply rtc_l; [apply (step_call _ _ 0%nat (Some "k")); done|].
    eapply rtc_l; [apply (step_call _ _ 1%nat (Some "k")); done|].
    eapply rtc_l; [apply (step_acquire _ _ 0%nat "k"); done|].
    eapply rtc_l; [apply (step_acquire _ _ 0%nat "k"); done|].
    apply rtc_refl.
  - reflexivity.
  - reflexivity.
Qed.

(** A lease gives its slot back at most once: a second [release] of the
    same lease object changes nothing. *)
Theorem release_once l m :
  release l (release l m) = release l m.
Proof.
  rewrite (release_eq l m). destruct (leases m !! l) as [[k []]|] eqn:E.
  - by rewrite release_eq, E.
  - assert (l < length (leases m))%nat as Hlt by (by eapply lookup_lt_Some).
    rewrite release_eq, call_leases. cbn [leases]. by rewrite list_lookup_insert_eq.
  - by rewrite release_eq, E.
Qed.
End ConcurrencyTheorems.

(** The in-process manager as an implementation of the interface. *)
#[export] Instance memory_concurrency : ConcurrencyLimiter := {|
  Conc := ConcurrencyManager.Manager;
  Lease := nat;
  cl_try_acquire := λ key maximum _ m,
    let '(l, m') := ConcurrencyManager.try_acquire key maximum m in (Ok l, m');
  cl_release := ConcurrencyManager.release;
  cl_current := λ key _ m, ConcurrencyManager.current key m
|}.

#[export] Program Instance memory_concurrency_laws : ConcurrencyLaws := {|
  conc_wf := ConcurrencyManager.wf
|}.
Next Obligation.
  intros k m t c Hc. simpl. pose proof (ConcurrencyFacts.wf_acquire k m c Hc).
  by destruct (ConcurrencyManager.try_acquire k m c).
Qed.
Next Obligation. intros l c Hc. by apply ConcurrencyTheorems.wf_release. Qed.
Next Obligation.
  intros k m t c l c' k' t' Hwf H. simpl in *.
  pose proof (ConcurrencyFacts.try_acquire_cases k m c) as Hc.
  pose proof (ConcurrencyFacts.wf_acquire k m c Hwf) as Hwf'.
  destruct (ConcurrencyManager.try_acquire k m c) as [r c1]. injection H as -> ->.
  destruct Hc as (-> & Hcur & _ & st & ->). simpl in Hwf'.
  rewrite ConcurrencyFacts.release_current, Hcur by done. simpl.
  rewrite lookup_app_r, Nat.sub_diag by lia. simpl.
  destruct (0 <? m); simpl; [destruct (String.eqb k k')|]; lia.
Qed.
Next Obligation.
  intros k m t c r c' k' t' H Hr. simpl in *.
  pose proof (ConcurrencyFacts.try_acquire_cases k m c) as Hc.
  destruct (ConcurrencyManager.try_acquire k m c) as [[l|] c1]; injection H as <- <-.
  - by destruct (Hr l).
  - by destruct Hc as (_ & _ & _ & Hc).
Qed.
