(* ===== verification/RuntimeSettings.v ===== *)
(** [app/core/runtime_settings.py]: the scheduling knobs the admin API changes
    without a restart, and their copy on disk.  A field that is [None] follows
    the configuration file.  The disk holds the JSON document that was written
    last; [None] is a missing file. *)

From S2P Require Import Prelude Effects PyText Json Config.
Open Scope Z_scope.

(** class RuntimeScheduling. *)
Record RuntimeScheduling := mkRuntimeScheduling {
  rs_freshness_half_life_seconds : option Z;
  rs_unknown_credit_baseline : option Q;
  rs_credit_workers : option Z;
  rs_http_connection_pool_enabled : option bool;
  rs_credit_batch_size : option Z;
  rs_credit_batch_delay_seconds : option Z;
  rs_credit_refresh_check_interval_seconds : option Z;
  rs_credit_retry_delay_minutes : option Z;
  rs_epsilon_greedy : option Q
}.
Definition set_rs_freshness_half_life_seconds (v : option Z) (r : RuntimeScheduling) : RuntimeScheduling :=
  mkRuntimeScheduling
    v r.(rs_unknown_credit_baseline) r.(rs_credit_workers)
    r.(rs_http_connection_pool_enabled) r.(rs_credit_batch_size)
    r.(rs_credit_batch_delay_seconds) r.(rs_credit_refresh_check_interval_seconds)
    r.(rs_credit_retry_delay_minutes) r.(rs_epsilon_greedy).
Definition set_rs_unknown_credit_baseline (v : option Q) (r : RuntimeScheduling) : RuntimeScheduling :=
  mkRuntimeScheduling
    r.(rs_freshness_half_life_seconds) v r.(rs_credit_workers)
    r.(rs_http_connection_pool_enabled) r.(rs_credit_batch_size)
    r.(rs_credit_batch_delay_seconds) r.(rs_credit_refresh_check_interval_seconds)
    r.(rs_credit_retry_delay_minutes) r.(rs_epsilon_greedy).
Definition set_rs_credit_workers (v : option Z) (r : RuntimeScheduling) : RuntimeScheduling :=
  mkRuntimeScheduling
    r.(rs_freshness_half_life_seconds) r.(rs_unknown_credit_baseline) v
    r.(rs_http_connection_pool_enabled) r.(rs_credit_batch_size)
    r.(rs_credit_batch_delay_seconds) r.(rs_credit_refresh_check_interval_seconds)
    r.(rs_credit_retry_delay_minutes) r.(rs_epsilon_greedy).
Definition set_rs_http_connection_pool_enabled (v : option bool) (r : RuntimeScheduling) : RuntimeScheduling :=
  mkRuntimeScheduling
    r.(rs_freshness_half_life_seconds) r.(rs_unknown_credit_baseline)
    r.(rs_credit_workers) v r.(rs_credit_batch_size) r.(rs_credit_batch_delay_seconds)
    r.(rs_credit_refresh_check_interval_seconds) r.(rs_credit_retry_delay_minutes)
    r.(rs_epsilon_greedy).
Definition set_rs_credit_batch_size (v : option Z) (r : RuntimeScheduling) : RuntimeScheduling :=
  mkRuntimeScheduling
    r.(rs_freshness_half_life_seconds) r.(rs_unknown_credit_baseline)
    r.(rs_credit_workers) r.(rs_http_connection_pool_enabled) v
    r.(rs_credit_batch_delay_seconds) r.(rs_credit_refresh_check_interval_seconds)
    r.(rs_credit_retry_delay_minutes) r.(rs_epsilon_greedy).
Definition set_rs_credit_batch_delay_seconds (v : option Z) (r : RuntimeScheduling) : RuntimeScheduling :=
  mkRuntimeScheduling
    r.(rs_freshness_half_life_seconds) r.(rs_unknown_credit_baseline)
    r.(rs_credit_workers) r.(rs_http_connection_pool_enabled) r.(rs_credit_batch_size) v
    r.(rs_credit_refresh_check_interval_seconds) r.(rs_credit_retry_delay_minutes)
    r.(rs_epsilon_greedy).
Definition set_rs_credit_refresh_check_interval_seconds (v : option Z) (r : RuntimeScheduling) : RuntimeScheduling :=
  mkRuntimeScheduling
    r.(rs_freshness_half_life_seconds) r.(rs_unknown_credit_baseline)
    r.(rs_credit_workers) r.(rs_http_connection_pool_enabled) r.(rs_credit_batch_size)
    r.(rs_credit_batch_delay_seconds) v r.(rs_credit_retry_delay_minutes)
    r.(rs_epsilon_greedy).
Definition set_rs_credit_retry_delay_minutes (v : option Z) (r : RuntimeScheduling) : RuntimeScheduling :=
  mkRuntimeScheduling
    r.(rs_freshness_half_life_seconds) r.(rs_unknown_credit_baseline)
    r.(rs_credit_workers) r.(rs_http_connection_pool_enabled) r.(rs_credit_batch_size)
    r.(rs_credit_batch_delay_seconds) r.(rs_credit_refresh_check_interval_seconds) v
    r.(rs_epsilon_greedy).
Definition set_rs_epsilon_greedy (v : option Q) (r : RuntimeScheduling) : RuntimeScheduling :=
  mkRuntimeScheduling
    r.(rs_freshness_half_life_seconds) r.(rs_unknown_credit_baseline)
    r.(rs_credit_workers) r.(rs_http_connection_pool_enabled) r.(rs_credit_batch_size)
    r.(rs_credit_batch_delay_seconds) r.(rs_credit_refresh_check_interval_seconds)
    r.(rs_credit_retry_delay_minutes) v.

(** RuntimeSettings.__init__, before the persisted overrides are read. *)
Definition init_scheduling (base : SchedulingConfig) (pool : option bool) : RuntimeScheduling := {|
  rs_freshness_half_life_seconds := Some (sc_freshness_half_life_seconds base);
  rs_unknown_credit_baseline := Some (sc_unknown_credit_baseline base);
  rs_credit_workers := None;
  rs_http_connection_pool_enabled := pool;
  rs_credit_batch_size := None;
  rs_credit_batch_delay_seconds := None;
  rs_credit_refresh_check_interval_seconds := None;
  rs_credit_retry_delay_minutes := None;
  rs_epsilon_greedy := Some (or_float (sc_epsilon_greedy base) (1 # 10))
|}.

(** The keyword arguments of RuntimeSettings.patch_scheduling; the [clear_*]
    flags (and [unset_credit_workers]) win over the values. *)
Record Patch := mkPatch {
  p_freshness_half_life_seconds : option Z;
  p_unknown_credit_baseline : option Q;
  p_credit_workers : option Z;
  p_unset_credit_workers : bool;
  p_http_connection_pool_enabled : option bool;
  p_clear_http_connection_pool_override : bool;
  p_credit_batch_size : option Z;
  p_clear_credit_batch_size : bool;
  p_credit_batch_delay_seconds : option Z;
  p_clear_credit_batch_delay_seconds : bool;
  p_credit_refresh_check_interval_seconds : option Z;
  p_clear_credit_refresh_check_interval_seconds : bool;
  p_credit_retry_delay_minutes : option Z;
  p_clear_credit_retry_delay_minutes : bool;
  p_epsilon_greedy : option Q;
  p_clear_epsilon_greedy : bool
}.

Definition clamp01 (x : Q) : Q := Qmin (Qmax x 0) 1.

(** [if clear: field = None  elif v is not None: field = f(v)]. *)
Definition patch_field {A} (clear : bool) (v : option A) (f : A → A) (old : option A) : option A :=
  if clear then None else match v with Some x => Some (f x) | None => old end.

(** RuntimeSettings.patch_scheduling, the assignments under the lock. *)
Definition patch_scheduling (p : Patch) (s : RuntimeScheduling) : RuntimeScheduling := {|
  rs_freshness_half_life_seconds :=
    patch_field false (p_freshness_half_life_seconds p) (Z.max 1) (rs_freshness_half_life_seconds s);
  rs_unknown_credit_baseline :=
    patch_field false (p_unknown_credit_baseline p) (λ x, Qmax x 0) (rs_unknown_credit_baseline s);
  rs_credit_workers :=
    patch_field (p_unset_credit_workers p) (p_credit_workers p) (Z.max 1) (rs_credit_workers s);
  rs_http_connection_pool_enabled :=
    patch_field (p_clear_http_connection_pool_override p) (p_http_connection_pool_enabled p)
      id (rs_http_connection_pool_enabled s);
  rs_credit_batch_size :=
    patch_field (p_clear_credit_batch_size p) (p_credit_batch_size p) (Z.max 1)
      (rs_credit_batch_size s);
  rs_credit_batch_delay_seconds :=
    patch_field (p_clear_credit_batch_delay_seconds p) (p_credit_batch_delay_seconds p) (Z.max 0)
      (rs_credit_batch_delay_seconds s);
  rs_credit_refresh_check_interval_seconds :=
    patch_field (p_clear_credit_refresh_check_interval_seconds p)
      (p_credit_refresh_check_interval_seconds p) (Z.max 1)
      (rs_credit_refresh_check_interval_seconds s);
  rs_credit_retry_delay_minutes :=
    patch_field (p_clear_credit_retry_delay_minutes p) (p_credit_retry_delay_minutes p) (Z.max 1)
      (rs_credit_retry_delay_minutes s);
  rs_epsilon_greedy :=
    patch_field (p_clear_epsilon_greedy p) (p_epsilon_greedy p) clamp01 (rs_epsilon_greedy s)
|}.

(** The [effective_*] readers: the override, or the fallback. *)
Definition effective_half_life (s : RuntimeScheduling) (fallback : Z) : Q :=
  inject_Z (default fallback (rs_freshness_half_life_seconds s)).
Definition effective_unknown_baseline (s : RuntimeScheduling) (fallback : Q) : Q :=
  default fallback (rs_unknown_credit_baseline s).
Definition effective_epsilon_greedy (s : RuntimeScheduling) (fallback : Q) : Q :=
  clamp01 (default fallback (rs_epsilon_greedy s)).
Definition effective_credit_workers (s : RuntimeScheduling) (fallback : Z) : Z :=
  default fallback (rs_credit_workers s).
Definition effective_http_connection_pool_enabled (s : RuntimeScheduling) (fallback : bool) : bool :=
  default fallback (rs_http_connection_pool_enabled s).
Definition effective_credit_batch_size (s : RuntimeScheduling) (fallback : Z) : Z :=
  Z.max (default fallback (rs_credit_batch_size s)) 1.
Definition effective_credit_batch_delay_seconds (s : RuntimeScheduling) (fallback : Z) : Z :=
  Z.max (default fallback (rs_credit_batch_delay_seconds s)) 0.
Definition effective_credit_refresh_check_interval_seconds (s : RuntimeScheduling) (fallback : Z) : Z :=
  Z.max (default fallback (rs_credit_refresh_check_interval_seconds s)) 1.
Definition effective_credit_retry_delay_minutes (s : RuntimeScheduling) (fallback : Z) : Z :=
  Z.max (default fallback (rs_credit_retry_delay_minutes s)) 1.

(** [_overrides_dict_unlocked]: the fields that are set, in the order of
    [_PERSIST_FIELDS]. *)
Definition entry {A} (name : string) (f : A → Json) (v : option A) : list (string * Json) :=
  match v with Some x => [(name, f x)] | None => [] end.
Definition overrides (s : RuntimeScheduling) : list (string * Json) :=
  entry "freshness_half_life_seconds" JInt (rs_freshness_half_life_seconds s) ++
  entry "unknown_credit_baseline" JFloat (rs_unknown_credit_baseline s) ++
  entry "credit_workers" JInt (rs_credit_workers s) ++
  entry "http_connection_pool_enabled" JBool (rs_http_connection_pool_enabled s) ++
  entry "credit_batch_size" JInt (rs_credit_batch_size s) ++
  entry "credit_batch_delay_seconds" JInt (rs_credit_batch_delay_seconds s) ++
  entry "credit_refresh_check_interval_seconds" JInt (rs_credit_refresh_check_interval_seconds s) ++
  entry "credit_retry_delay_minutes" JInt (rs_credit_retry_delay_minutes s) ++
  entry "epsilon_greedy" JFloat (rs_epsilon_greedy s).

(** [_save_to_disk_unlocked]: the document that replaces the file. *)
Definition save_document (s : RuntimeScheduling) : Json :=
  JObj [("version", JInt 1); ("overrides", JObj (overrides s))].

(** [float(x)] of a JSON value. *)
Definition json_float (j : Json) : option Q :=
  match j with
  | JBool b => Some (if b then 1%Q else 0%Q)
  | JInt n => Some (inject_Z n)
  | JFloat q => Some q
  | JStr s => parse_float s
  | _ => None
  end.

(** The assignments of [_load_from_disk] run in a [try]: an exception keeps those
    made before it. *)
Notation Load := (M RuntimeScheduling unit).
Definition load_int (v : Json) : M RuntimeScheduling Z :=
  match json_int v with Some n => ret n | None => raise (EValueError "int") end.
Definition load_float (v : Json) : M RuntimeScheduling Q :=
  match json_float v with Some q => ret q | None => raise (EValueError "float") end.

(** [if name in data and data[name] is not None: ...]. *)
Definition load_present (name : string) (data : list (string * Json)) (f : Json → Load) : Load :=
  match obj_get name data with
  | None | Some JNull => ret tt
  | Some v => f v
  end.
(** [if name in data: v = data[name]; field = None if v is None else ...]. *)
Definition load_nullable (name : string) (data : list (string * Json)) (clear : Load)
    (f : Json → Load) : Load :=
  match obj_get name data with
  | None => ret tt
  | Some JNull => clear
  | Some v => f v
  end.
Definition load_clamped (name : string) (data : list (string * Json)) (lo : Z)
    (set : option Z → RuntimeScheduling → RuntimeScheduling) : Load :=
  load_nullable name data (modify (set None))
    (λ v, let! n := load_int v in modify (set (Some (Z.max n lo)))).

Definition load_overrides (data : list (string * Json)) : Load :=
  load_present "freshness_half_life_seconds" data (λ v,
    let! n := load_int v in modify (set_rs_freshness_half_life_seconds (Some (Z.max n 1)))) ;;!
  load_present "unknown_credit_baseline" data (λ v,
    let! q := load_float v in modify (set_rs_unknown_credit_baseline (Some (Qmax q 0)))) ;;!
  load_clamped "credit_workers" data 1 set_rs_credit_workers ;;!
  load_nullable "http_connection_pool_enabled" data
    (modify (set_rs_http_connection_pool_enabled None))
    (λ v, modify (set_rs_http_connection_pool_enabled (Some (truthy v)))) ;;!
  load_clamped "credit_batch_size" data 1 set_rs_credit_batch_size ;;!
  load_clamped "credit_batch_delay_seconds" data 0 set_rs_credit_batch_delay_seconds ;;!
  load_clamped "credit_refresh_check_interval_seconds" data 1
    set_rs_credit_refresh_check_interval_seconds ;;!
  load_clamped "credit_retry_delay_minutes" data 1 set_rs_credit_retry_delay_minutes ;;!
  load_present "epsilon_greedy" data (λ v,
    let! q := load_float v in modify (set_rs_epsilon_greedy (Some (clamp01 q)))).

(** [_load_from_disk] on the content of the file ([None]: no such file, or not
    JSON). *)
Definition load_from_disk (disk : option Json) (s : RuntimeScheduling) : RuntimeScheduling :=
  match disk with
  | Some (JObj raw) =>
      let data := match obj_get "overrides" raw with Some (JObj o) => o | _ => raw end in
      (catch_all (load_overrides data) (λ _, ret tt) s).2
  | _ => s
  end.

(** * Theorems *)

(** The ranges every override is kept in. *)
Definition scheduling_ok (s : RuntimeScheduling) : Prop :=
  (∀ n, rs_freshness_half_life_seconds s = Some n → 1 ≤ n) ∧
  (∀ q, rs_unknown_credit_baseline s = Some q → (0 <= q)%Q) ∧
  (∀ n, rs_credit_workers s = Some n → 1 ≤ n) ∧
  (∀ n, rs_credit_batch_size s = Some n → 1 ≤ n) ∧
  (∀ n, rs_credit_batch_delay_seconds s = Some n → 0 ≤ n) ∧
  (∀ n, rs_credit_refresh_check_interval_seconds s = Some n → 1 ≤ n) ∧
  (∀ n, rs_credit_retry_delay_minutes s = Some n → 1 ≤ n) ∧
  (∀ q, rs_epsilon_greedy s = Some q → (0 <= q <= 1)%Q).

Lemma clamp01_range x : (0 <= clamp01 x <= 1)%Q.
Proof.
  unfold clamp01. split; [|apply Q.le_min_r]. apply Q.min_glb; [apply Q.le_max_r|lra].
Qed.
Lemma clamp01_id x : (0 <= x <= 1)%Q → (clamp01 x == x)%Q.
Proof. intros [? ?]. unfold clamp01. rewrite Q.max_l by done. by rewrite Q.min_l. Qed.

Lemma patch_ok p s : scheduling_ok s → scheduling_ok (patch_scheduling p s).
Proof.
  intros (H1&H2&H3&H4&H5&H6&H7&H8). unfold scheduling_ok, patch_scheduling, patch_field; simpl.
  split_and!; intros x; repeat case_match; try done; eauto; intros [= <-];
    try lia; [apply Q.le_max_r|apply clamp01_range].
Qed.

(** Computations on the settings that keep them in range. *)
Definition keeps_ok {A} (m : M RuntimeScheduling A) : Prop :=
  runs (λ s s', scheduling_ok s → scheduling_ok s') m.

Lemma set_field_ok :
  (∀ v s, (∀ n, v = Some n → 1 ≤ n) → scheduling_ok s → scheduling_ok (set_rs_freshness_half_life_seconds v s)) ∧
  (∀ v s, (∀ q, v = Some q → (0 <= q)%Q) → scheduling_ok s → scheduling_ok (set_rs_unknown_credit_baseline v s)) ∧
  (∀ v s, (∀ n, v = Some n → 1 ≤ n) → scheduling_ok s → scheduling_ok (set_rs_credit_workers v s)) ∧
  (∀ v s, scheduling_ok s → scheduling_ok (set_rs_http_connection_pool_enabled v s)) ∧
  (∀ v s, (∀ n, v = Some n → 1 ≤ n) → scheduling_ok s → scheduling_ok (set_rs_credit_batch_size v s)) ∧
  (∀ v s, (∀ n, v = Some n → 0 ≤ n) → scheduling_ok s → scheduling_ok (set_rs_credit_batch_delay_seconds v s)) ∧
  (∀ v s, (∀ n, v = Some n → 1 ≤ n) → scheduling_ok s → scheduling_ok (set_rs_credit_refresh_check_interval_seconds v s)) ∧
  (∀ v s, (∀ n, v = Some n → 1 ≤ n) → scheduling_ok s → scheduling_ok (set_rs_credit_retry_delay_minutes v s)) ∧
  (∀ v s, (∀ q, v = Some q → (0 <= q <= 1)%Q) → scheduling_ok s → scheduling_ok (set_rs_epsilon_greedy v s)).
Proof. unfold scheduling_ok. split_and!; intros; destruct_and?; split_and!; by eauto. Qed.

#[local] Instance ok_preorder : PreOrder (λ s s' : RuntimeScheduling, scheduling_ok s → scheduling_ok s').
Proof. split; [by intros s|]. intros s1 s2 s3 H1 H2 H. by apply H2, H1. Qed.

Lemma load_clamped_keeps name data lo set :
  (∀ v s, (∀ n, v = Some n → lo ≤ n) → scheduling_ok s → scheduling_ok (set v s)) →
  keeps_ok (load_clamped name data lo set).
Proof.
  intros H. unfold keeps_ok, load_clamped, load_nullable, load_int.
  runs_auto; apply runs_modify; intros ?; apply H; intros ?; try done; intros [= <-]; lia.
Qed.

Lemma load_overrides_keeps data : keeps_ok (load_overrides data).
Proof.
  destruct set_field_ok as (H1&H2&H3&H4&H5&H6&H7&H8&H9). unfold keeps_ok, load_overrides.
  repeat (apply runs_bind; [apply _| |intros _]);
    try (apply load_clamped_keeps; done);
    unfold load_present, load_nullable, load_int, load_float; runs_auto; apply runs_modify;
    intros ?; first
      [ apply H1; intros ? [= <-]; lia | apply H2; intros ? [= <-]; apply Q.le_max_r
      | apply H9; intros ? [= <-]; apply clamp01_range | apply H4 ].
Qed.

(** What reading back a saved document does: set fields win, unset ones keep
    what the running settings had. *)
Definition overlay (s s0 : RuntimeScheduling) : RuntimeScheduling := {|
  rs_freshness_half_life_seconds := rs_freshness_half_life_seconds s ∪ rs_freshness_half_life_seconds s0;
  rs_unknown_credit_baseline := rs_unknown_credit_baseline s ∪ rs_unknown_credit_baseline s0;
  rs_credit_workers := rs_credit_workers s ∪ rs_credit_workers s0;
  rs_http_connection_pool_enabled := rs_http_connection_pool_enabled s ∪ rs_http_connection_pool_enabled s0;
  rs_credit_batch_size := rs_credit_batch_size s ∪ rs_credit_batch_size s0;
  rs_credit_batch_delay_seconds := rs_credit_batch_delay_seconds s ∪ rs_credit_batch_delay_seconds s0;
  rs_credit_refresh_check_interval_seconds :=
    rs_credit_refresh_check_interval_seconds s ∪ rs_credit_refresh_check_interval_seconds s0;
  rs_credit_retry_delay_minutes := rs_credit_retry_delay_minutes s ∪ rs_credit_retry_delay_minutes s0;
  rs_epsilon_greedy := rs_epsilon_greedy s ∪ rs_epsilon_greedy s0
|}.

Lemma obj_get_app k a b :
  obj_get k (a ++ b) = match obj_get k a with Some v => Some v | None => obj_get k b end.
Proof.
  induction a as [|[k' v] a IH]; simpl; [done|]. by destruct (String.eqb k k').
Qed.
Lemma obj_get_entry {A} k name (f : A → Json) v :
  obj_get k (entry name f v) = if String.eqb k name then f <$> v else None.
Proof. destruct v; simpl; [done|]. by destruct (String.eqb k name). Qed.

Lemma Qmax_id x : (0 <= x)%Q → Qmax x 0 = x.
Proof.
  intros H. unfold Qmax, GenericMinMax.gmax. destruct (x ?= 0)%Q eqn:E; [done| |done].
  apply Qlt_alt in E. lra.
Qed.
Lemma clamp01_eq x : (0 <= x <= 1)%Q → clamp01 x = x.
Proof.
  intros [H H']. unfold clamp01. rewrite Qmax_id by done. unfold Qmin, GenericMinMax.gmin.
  destruct (x ?= 1)%Q eqn:E; [done|done|]. apply Qgt_alt in E. lra.
Qed.

Section LoadEntry.
Context {A : Type} (name : string) (data : list (string * Json)) (f : A → Json) (v : option A).
Context (set : option A → RuntimeScheduling → RuntimeScheduling)
        (get : RuntimeScheduling → option A) (s : RuntimeScheduling).
Hypothesis Hset : set (get s) s = s.
Hypothesis Hdata : obj_get name data = f <$> v.
Hypothesis Hnull : ∀ x, f x ≠ JNull.

Lemma load_present_entry body :
  (∀ x, v = Some x → body (f x) s = (Ok tt, set (Some x) s)) →
  load_present name data body s = (Ok tt, set (v ∪ get s) s).
Proof.
  intros Hb. unfold load_present. rewrite Hdata. destruct v as [x|]; simpl.
  - rewrite union_Some_l, <-(Hb x eq_refl). specialize (Hnull x). by destruct (f x).
  - by rewrite (left_id_L None union), Hset.
Qed.
Lemma load_nullable_entry clear body :
  (∀ x, v = Some x → body (f x) s = (Ok tt, set (Some x) s)) →
  load_nullable name data clear body s = (Ok tt, set (v ∪ get s) s).
Proof.
  intros Hb. unfold load_nullable. rewrite Hdata. destruct v as [x|]; simpl.
  - rewrite union_Some_l, <-(Hb x eq_refl). specialize (Hnull x). by destruct (f x).
  - by rewrite (left_id_L None union), Hset.
Qed.
End LoadEntry.

Lemma load_clamped_entry name data lo set get v s :
  set (get s) s = s → obj_get name data = JInt <$> v → (∀ n, v = Some n → lo ≤ n) →
  load_clamped name data lo set s = (Ok tt, set (v ∪ get s) s).
Proof.
  intros Hset Hd Hv. apply (load_nullable_entry _ _ JInt); [done..|].
  intros n ->. specialize (Hv n eq_refl). unfold bind, load_int, modify; simpl.
  by rewrite Z.max_l by lia.
Qed.

Lemma bind_ok_eq {W A B} (m : M W A) (f : A → M W B) w a w' :
  m w = (Ok a, w') → bind m f w = f a w'.
Proof. unfold bind. by intros ->. Qed.

Ltac get_entry :=
  unfold overrides; rewrite !obj_get_app, !obj_get_entry; simpl;
  repeat match goal with |- context [match ?f <$> ?v with _ => _ end] => destruct v; simpl end;
  done.

Lemma load_overrides_saved s s0 :
  scheduling_ok s → load_overrides (overrides s) s0 = (Ok tt, overlay s s0).
Proof.
  intros (H1&H2&H3&H4&H5&H6&H7&H8). unfold load_overrides.
  erewrite bind_ok_eq; [|apply (load_present_entry _ _ JInt (rs_freshness_half_life_seconds s)
    set_rs_freshness_half_life_seconds rs_freshness_half_life_seconds);
    [by destruct s0|get_entry|done|
     intros n Hn; specialize (H1 n Hn); unfold bind, load_int, modify; simpl;
     by rewrite Z.max_l by lia]].
  erewrite bind_ok_eq; [|apply (load_present_entry _ _ JFloat (rs_unknown_credit_baseline s)
    set_rs_unknown_credit_baseline rs_unknown_credit_baseline);
    [by destruct s0|get_entry|done|
     intros q Hq; unfold bind, load_float, modify; simpl; by rewrite Qmax_id by eauto]].
  erewrite bind_ok_eq; [|apply (load_clamped_entry _ _ _ _ rs_credit_workers
    (rs_credit_workers s)); [by destruct s0|get_entry|done]].
  erewrite bind_ok_eq; [|apply (load_nullable_entry _ _ JBool (rs_http_connection_pool_enabled s)
    set_rs_http_connection_pool_enabled rs_http_connection_pool_enabled);
    [by destruct s0|get_entry|done|done]].
  erewrite bind_ok_eq; [|apply (load_clamped_entry _ _ _ _ rs_credit_batch_size
    (rs_credit_batch_size s)); [by destruct s0|get_entry|done]].
  erewrite bind_ok_eq; [|apply (load_clamped_entry _ _ _ _ rs_credit_batch_delay_seconds
    (rs_credit_batch_delay_seconds s)); [by destruct s0|get_entry|done]].
  erewrite bind_ok_eq; [|apply (load_clamped_entry _ _ _ _
    rs_credit_refresh_check_interval_seconds (rs_credit_refresh_check_interval_seconds s));
    [by destruct s0|get_entry|done]].
  erewrite bind_ok_eq; [|apply (load_clamped_entry _ _ _ _ rs_credit_retry_delay_minutes
    (rs_credit_retry_delay_minutes s)); [by destruct s0|get_entry|done]].
  erewrite (load_present_entry _ _ JFloat (rs_epsilon_greedy s)
    set_rs_epsilon_greedy rs_epsilon_greedy); [|by destruct s0|get_entry|done|].
  - by destruct s0.
  - intros q Hq. unfold bind, load_float, modify; simpl. by rewrite clamp01_eq by eauto.
Qed.

Lemma load_from_disk_saved s s0 :
  scheduling_ok s → load_from_disk (Some (save_document s)) s0 = overlay s s0.
Proof.
  intros H. unfold load_from_disk, save_document; simpl. unfold catch_all, try_except.
  by rewrite load_overrides_saved.
Qed.
Lemma load_from_disk_ok disk s : scheduling_ok s → scheduling_ok (load_from_disk disk s).
Proof.
  intros H. unfold load_from_disk.
  destruct disk as [[| | | | | |raw]|]; try done.
  refine (runs_catch_all (λ s s', scheduling_ok s → scheduling_ok s') _ _ _ _ s H).
  - apply load_overrides_keeps.
  - intros e w Hw. exact Hw.
Qed.

(** Administration and persistence of the scheduling settings agree: a patch of
    settings that are in range gives settings in range, and a process that starts
    from the file written after the patch runs with exactly the patched
    overrides, with its own defaults for the fields the patch cleared. *)
Theorem patched_settings_survive_restart p s s0 :
  scheduling_ok s →
  scheduling_ok (patch_scheduling p s) ∧
  load_from_disk (Some (save_document (patch_scheduling p s))) s0 =
    overlay (patch_scheduling p s) s0.
Proof. intros H%(patch_ok p). split; [done|by apply load_from_disk_saved]. Qed.

(** No settings file, whatever it holds (a wrong type stops the load half way),
    can bring the scheduler's parameters out of range: the half life and the
    batch size stay at least 1, delays are not negative, the exploration rate
    stays a probability. *)
Theorem settings_file_cannot_break_ranges disk s fb_i fb_q :
  scheduling_ok s → 1 ≤ fb_i →
  let s' := load_from_disk disk s in
  scheduling_ok s' ∧
  (1 <= effective_half_life s' fb_i)%Q ∧
  (0 <= effective_epsilon_greedy s' fb_q <= 1)%Q ∧
  1 ≤ effective_credit_batch_size s' fb_i ∧
  0 ≤ effective_credit_batch_delay_seconds s' fb_i ∧
  1 ≤ effective_credit_workers s' fb_i.
Proof.
  intros H Hfb s'. assert (scheduling_ok s') as Hs by by apply load_from_disk_ok.
  split; [done|]. destruct Hs as (H1&_&H3&_).
  unfold effective_half_life, effective_epsilon_greedy, effective_credit_batch_size,
    effective_credit_batch_delay_seconds, effective_credit_workers.
  assert (∀ o : option Z, (∀ n, o = Some n → 1 ≤ n) → 1 ≤ default fb_i o) as Hd.
  { intros [n|] Ho; simpl; [by apply Ho|done]. }
  specialize (Hd _ H1) as Hl. rewrite (Zle_Qle 1) in Hl.
  split_and!; try apply clamp01_range; try lia; [exact Hl|by apply Hd].
Qed.

Definition sample_settings : RuntimeScheduling :=
  mkRuntimeScheduling (Some 3600) (Some (50 # 1)) None None (Some 20) None None None (Some (1 # 10)).
Definition sample_patch : Patch :=
  mkPatch (Some 0) None None true None false None true None false (Some 90) false None false
    (Some (3 # 2)) false.

Lemma sample_settings_ok : scheduling_ok sample_settings.
Proof. unfold scheduling_ok; simpl. split_and!; intros ? [= <-] || done; lia || lra || idtac. Qed.

Lemma patched_settings_survive_restart_witness :
  let s' := patch_scheduling sample_patch sample_settings in
  rs_freshness_half_life_seconds s' = Some 1 ∧ rs_credit_batch_size s' = None ∧
  rs_epsilon_greedy s' = Some 1%Q ∧
  load_from_disk (Some (save_document s')) sample_settings = overlay s' sample_settings.
Proof.
  split; [done|]. split; [done|]. split; [done|].
  apply (patched_settings_survive_restart sample_patch sample_settings sample_settings).
  apply sample_settings_ok.
Defined.
Lemma settings_file_cannot_break_ranges_witness :
  let disk := Some (JObj [("freshness_half_life_seconds", JInt (-5));
                          ("credit_workers", JObj []); ("epsilon_greedy", JInt 7)]) in
  rs_freshness_half_life_seconds (load_from_disk disk sample_settings) = Some 1 ∧
  (1 <= effective_half_life (load_from_disk disk sample_settings) 300)%Q.
Proof.
  split; [done|].
  apply (settings_file_cannot_break_ranges _ sample_settings 300 0%Q); [apply sample_settings_ok|lia].
Defined.

(** The scheduler configured without exploration still explores: [or 0.1] in the
    constructor reads a configured rate of zero as "not configured". *)
Theorem configured_zero_epsilon_ignored base pool fallback :
  (sc_epsilon_greedy base == 0)%Q →
  effective_epsilon_greedy (init_scheduling base pool) fallback = (1 # 10)%Q.
Proof.
  intros H. unfold effective_epsilon_greedy, init_scheduling, or_float; simpl.
  apply Qeq_bool_iff in H. rewrite H. reflexivity.
Qed.
Lemma configured_zero_epsilon_ignored_witness :
  let base := mkSchedulingConfig 300 50 0 (95 # 100) 300 1 in
  effective_epsilon_greedy (init_scheduling base None) 0 = (1 # 10)%Q.
Proof. apply configured_zero_epsilon_ignored. reflexivity. Defined.
