(* ===== verification/Cooldown.v ===== *)
(** [app/core/cooldown.py]: the two cooldown stores the forwarder writes and the
    key pool reads.  The in-process one keeps nothing; the Redis one keeps a key
    with a time to live per API key.  Redis itself is the class [RedisTtl]. *)

From S2P Require Import Prelude Effects PyText Env.
Open Scope Z_scope.

Module NoopCooldownStore.
Definition set_cooldown (key_id cooldown_seconds : Z) (s : unit) : Res unit * unit := (Ok tt, s).
Definition remaining_seconds (key_id : Z) (s : unit) : Res (option Z) * unit := (Ok None, s).
End NoopCooldownStore.

#[export] Instance noop_cooldown : CooldownStore := {|
  CoolState := unit;
  cd_set := NoopCooldownStore.set_cooldown;
  cd_remaining := NoopCooldownStore.remaining_seconds
|}.

(** The Redis commands used here; [None] or [false] is a client exception. *)
Class RedisTtl := {
  RedisState : Type;
  rd_delete : string → RedisState → bool * RedisState;
  rd_setex : string → Z → string → RedisState → bool * RedisState;
  rd_ttl : string → RedisState → option Z * RedisState
}.

(** What Redis documents: a key just set with a positive time to live reports at
    most that time and more than none, one just deleted reports a negative value,
    and other keys are not affected by either. *)
Class RedisTtlLaws `{!RedisTtl} := {
  ttl_after_setex : ∀ k n v s s' r s'', 0 < n →
    rd_setex k n v s = (true, s') → rd_ttl k s' = (Some r, s'') → 0 < r ≤ n;
  ttl_after_delete : ∀ k s s' r s'',
    rd_delete k s = (true, s') → rd_ttl k s' = (Some r, s'') → r < 0
}.

Module RedisCooldownStore.
Section RedisCooldownStore.
Context `{!RedisTtl}.

Record Store := mkStore { key_prefix : string; scope : string }.

Definition make (prefix sc : string) : Store :=
  mkStore (strip_char ":"%char (or_str prefix "fcam")) (strip_char ":"%char sc).

Definition redis_key (self : Store) (key_id : Z) : string :=
  key_prefix self +:+ ":cooldown:" +:+ scope self +:+ ":" +:+ str_int key_id.

Definition unavailable : Exn :=
  EFcam (mkFcamError 503 "DB_UNAVAILABLE" "State backend unavailable" None).

Definition set_cooldown (self : Store) (key_id cooldown_seconds : Z) (s : RedisState)
  : Res unit * RedisState :=
  let seconds := Z.max cooldown_seconds 0 in
  let '(ok, s') :=
    if seconds <=? 0 then rd_delete (redis_key self key_id) s
    else rd_setex (redis_key self key_id) seconds "1" s in
  ((if ok : bool then Ok tt else Raise unavailable), s').

Definition remaining_seconds (self : Store) (key_id : Z) (s : RedisState)
  : Res (option Z) * RedisState :=
  match rd_ttl (redis_key self key_id) s with
  | (None, s') => (Raise unavailable, s')
  | (Some ttl, s') => (Ok (if ttl <=? 0 then None else Some ttl), s')
  end.

Definition redis_cooldown (self : Store) : CooldownStore := {|
  CoolState := RedisState;
  cd_set := set_cooldown self;
  cd_remaining := remaining_seconds self
|}.

(** A cooldown written for a key is the one read back: a positive one is seen
    with at most its length left, and one of no length clears what was there. *)
Theorem cooldown_read_back `{!RedisTtlLaws} self id secs s s' r s'' :
  set_cooldown self id secs s = (Ok tt, s') →
  remaining_seconds self id s' = (Ok r, s'') →
  match r with Some n => 0 < n ≤ secs | None => secs ≤ 0 end.
Proof.
  unfold set_cooldown, remaining_seconds. intros Hset Hget.
  destruct (rd_ttl (redis_key self id) s') as [[ttl|] s3] eqn:Ht; simplify_eq/=.
  destruct (Z.max secs 0 <=? 0) eqn:Hs; bool_prop.
  - destruct (rd_delete (redis_key self id) s) as [[] s4] eqn:Hd; simplify_eq/=.
    apply (ttl_after_delete _ _ _ _ _ Hd) in Ht. case_if; simpl; bool_prop; lia.
  - destruct (rd_setex (redis_key self id) (Z.max secs 0) "1" s) as [[] s4] eqn:Hd; simplify_eq/=.
    apply (ttl_after_setex _ _ _ _ _ _ _ Hs Hd) in Ht. case_if; simpl; bool_prop; lia.
Qed.
End RedisCooldownStore.

(** A Redis without a clock: the time to live a key was set with. *)
Definition TimelessRedis : RedisTtl := {|
  RedisState := gmap string Z;
  rd_delete k s := (true, delete k s);
  rd_setex k n _ s := (true, <[k := n]> s);
  rd_ttl k s := (Some (default (-2) (s !! k)), s)
|}.
Lemma timeless_laws : @RedisTtlLaws TimelessRedis.
Proof.
  split; simpl.
  - intros k n v s s' r s'' Hn [= <-] [= <- <-]. rewrite lookup_insert_eq. simpl. lia.
  - intros k s s' r s'' [= <-] [= <- <-]. by rewrite lookup_delete_eq.
Qed.

Lemma cooldown_read_back_witness :
  let st := make "" "keys" in
  redis_key st 7 = "fcam:cooldown:keys:7" ∧ 0 < 30 ≤ 30.
Proof.
  split; [vm_compute; reflexivity|].
  apply (@cooldown_read_back TimelessRedis timeless_laws
    (make "" "keys") 7 30 ∅ {[ "fcam:cooldown:keys:7" := 30 ]} (Some 30)
    {[ "fcam:cooldown:keys:7" := 30 ]}); vm_compute; reflexivity.
Defined.
End RedisCooldownStore.
