(* ===== verification/RedisLimits.v ===== *)
(** The limiters shared by several processes, [RedisTokenBucketRateLimiter] of
    [app/core/rate_limit.py] and [RedisConcurrencyManager] of [app/core/concurrency.py]:
    the scripts they have Redis run, the optimistic transactions they fall back on where
    the server knows no scripts, and their methods.  Redis is the class [Redis]: what the
    client sees of it, with the laws of the commands used ([RedisLaws]).  Numbers are
    exact: a field written by a script reads back as the number written. *)

From S2P Require Import Prelude Effects PyText PyTime Env.
Open Scope Z_scope.

(** * Redis *)

(** How a round trip ends, and a transaction on a watched key. *)
Inductive CallOutcome := Answered | UnknownCommand | CallFailed.
Inductive ExecOutcome := Executed | Conflict | ExecFailed.

(** [rd_call] and [rd_exec] tell how the next round trip ends and what it leaves of the
    data; [rd_lapse] is what the server does to a key whose time to live has run out;
    [rd_uuid] is [uuid.uuid4().hex]. *)
Class Redis := {
  RedisDb : Type;
  rd_hmget : string → RedisDb → option Q * option Z;          (* HMGET key tokens last *)
  rd_hmset : string → Q → Z → RedisDb → RedisDb;              (* HMSET, and EXPIRE 120 *)
  rd_zset : string → RedisDb → gmap string Z;                 (* the members with their scores *)
  rd_zremrangebyscore : string → Z → RedisDb → RedisDb;       (* from -inf to a score *)
  rd_zadd : string → Z → string → Z → RedisDb → RedisDb;      (* score, member, seconds to live *)
  rd_zrem : string → string → RedisDb → RedisDb;
  rd_lapse : string → RedisDb → RedisDb;
  rd_call : RedisDb → CallOutcome * RedisDb;
  rd_exec : RedisDb → ExecOutcome * RedisDb;
  rd_uuid : RedisDb → string * RedisDb
}.

(** [ZCARD]. *)
Definition rd_zcard `{!Redis} (key : string) (s : RedisDb) : Z := Z.of_nat (size (rd_zset key s)).

(** The commands as Redis documents them; each touches its own key only.  A round trip
    and an executed transaction change nothing else. *)
Class RedisLaws `{!Redis} := {
  hmget_hmset : ∀ k q n s, rd_hmget k (rd_hmset k q n s) = (Some q, Some n);
  hmget_hmset_ne : ∀ k k' q n s, k ≠ k' → rd_hmget k (rd_hmset k' q n s) = rd_hmget k s;
  hmget_lapse : ∀ k s, rd_hmget k (rd_lapse k s) = (None, None);
  hmget_lapse_ne : ∀ k k' s, k ≠ k' → rd_hmget k (rd_lapse k' s) = rd_hmget k s;
  hmget_call : ∀ k s, rd_hmget k (rd_call s).2 = rd_hmget k s;
  hmget_exec : ∀ k s s', rd_exec s = (Executed, s') → rd_hmget k s' = rd_hmget k s;
  zset_range : ∀ k x s, rd_zset k (rd_zremrangebyscore k x s) = filter (λ p, x < p.2) (rd_zset k s);
  zset_range_ne : ∀ k k' x s, k ≠ k' → rd_zset k (rd_zremrangebyscore k' x s) = rd_zset k s;
  zset_zadd : ∀ k x m e s, rd_zset k (rd_zadd k x m e s) = <[m := x]> (rd_zset k s);
  zset_zadd_ne : ∀ k k' x m e s, k ≠ k' → rd_zset k (rd_zadd k' x m e s) = rd_zset k s;
  zset_zrem : ∀ k m s, rd_zset k (rd_zrem k m s) = delete m (rd_zset k s);
  zset_zrem_ne : ∀ k k' m s, k ≠ k' → rd_zset k (rd_zrem k' m s) = rd_zset k s;
  zset_lapse : ∀ k s, rd_zset k (rd_lapse k s) = ∅;
  zset_lapse_ne : ∀ k k' s, k ≠ k' → rd_zset k (rd_lapse k' s) = rd_zset k s;
  zset_call : ∀ k s, rd_zset k (rd_call s).2 = rd_zset k s;
  zset_exec : ∀ k s s', rd_exec s = (Executed, s') → rd_zset k s' = rd_zset k s;
  zset_uuid : ∀ k s, rd_zset k (rd_uuid s).2 = rd_zset k s
}.

Definition state_unavailable : Exn :=
  EFcam (mkFcamError 503 "DB_UNAVAILABLE" "State backend unavailable" None).
(** [int(time.time() * 1000)]. *)
Definition now_ms (t : Moment) : Z := mo_wall t / 1000.

(** [key_prefix] and [scope] as the constructors clean them, and the names in Redis. *)
Record RedisNames := mkRedisNames { rn_prefix : string; rn_scope : string }.
Definition redis_names (prefix scope : string) : RedisNames :=
  mkRedisNames (strip_char ":"%char (or_str prefix "fcam")) (strip_char ":"%char scope).
Definition redis_name (kind : string) (self : RedisNames) (key : string) : string :=
  rn_prefix self +:+ ":" +:+ kind +:+ ":" +:+ rn_scope self +:+ ":" +:+ or_str (strip_char ":"%char key) "unknown".

(** * The shared token bucket *)

Module RedisBucket.
Section RedisBucket.
Context `{!Redis} (self : RedisNames).

(** [_ALLOW_LUA] between its reads and writes: the fields found, what is written back,
    and the answer. *)
Definition script_step (now : Z) (capacity refill_per_ms : Q) (data : option Q * option Z) : (Q * Z) * (Z * Z) :=
  let tokens := default capacity data.1 in
  let last := default now data.2 in
  let elapsed := now - last in
  let elapsed := if elapsed <? 0 then 0 else elapsed in
  let tokens := Qmin capacity (tokens + inject_Z elapsed * refill_per_ms) in
  if Qle_bool 1 tokens then ((tokens - 1, now)%Q, (1, 0))
  else
    let ms_needed := ((1 - tokens) / refill_per_ms)%Q in
    let retry_after := Qceiling (ms_needed / 1000) in
    ((tokens, now), (0, if retry_after <? 1 then 1 else retry_after)).
Definition _ALLOW_LUA (key : string) (now : Z) (capacity refill_per_ms : Q) (s : RedisDb) : (Z * Z) * RedisDb :=
  if Qle_bool capacity 0 then ((1, 0), s)
  else
    let '((tokens, last), answer) := script_step now capacity refill_per_ms (rd_hmget key s) in
    (answer, rd_hmset key tokens last s).

(** The fallback: up to [n] transactions on the watched hash. *)
Fixpoint _allow_fallback (n : nat) (key : string) (now : Z) (capacity refill_per_ms : Q) (s : RedisDb)
  : Res (Z * Z) * RedisDb :=
  match n with
  | O => (Raise state_unavailable, s)
  | S n =>
      let '(raw_tokens, raw_last) := rd_hmget key s in
      let tokens := default capacity raw_tokens in
      let last := default now raw_last in
      let elapsed := Z.max (now - last) 0 in
      let tokens := Qmin capacity (tokens + inject_Z elapsed * refill_per_ms) in
      let allowed := Qle_bool 1 tokens in
      let retry_after :=
        if allowed then 0 else Z.max (Qceiling ((1 - tokens) / refill_per_ms / 1000)) 1 in
      let tokens := if allowed then (tokens - 1)%Q else tokens in
      match rd_exec s with
      | (Executed, s') => (Ok ((if allowed then 1 else 0), retry_after), rd_hmset key tokens now s')
      | (Conflict, s') => _allow_fallback n key now capacity refill_per_ms s'
      | (ExecFailed, s') => (Raise (EOther "RedisError"), s')
      end
  end.

Definition allow (key : string) (rate_per_min : Z) (t : Moment) (s : RedisDb) : Res (bool * Z) * RedisDb :=
  if rate_per_min <=? 0 then (Ok (true, 0), s)
  else
    let now := now_ms t in
    let capacity := inject_Z rate_per_min in
    let refill_per_ms := (capacity / 60000)%Q in
    let name := redis_name "rate_limit" self key in
    let '(r, s') := match rd_call s with
                    | (Answered, s1) => let '(a, s2) := _ALLOW_LUA name now capacity refill_per_ms s1 in (Ok a, s2)
                    | (UnknownCommand, s1) => _allow_fallback 5 name now capacity refill_per_ms s1
                    | (CallFailed, s1) => (Raise state_unavailable, s1)
                    end in
    (match r with
     | Ok (allowed, retry_after) => Ok (negb (allowed =? 0), retry_after)
     | Raise e => Raise e
     end, s').
End RedisBucket.

(** As an implementation of the interface; it has no [peek]. *)
Definition redis_limiter `{!Redis} (self : RedisNames) : RateLimiter := {|
  Limiter := RedisDb;
  rl_peek := None;
  rl_allow := allow self
|}.
End RedisBucket.

(** * The shared leases *)

Module RedisConcurrency.
Section RedisConcurrency.
Context `{!Redis} (self : RedisNames) (lease_ttl_ms : Z).

(** [max(int(lease_ttl_ms), 1000)]. *)
Definition ttl_ms : Z := Z.max lease_ttl_ms 1000.
Definition expire_s : Z := Z.max 1 (Qceiling (inject_Z ttl_ms / 1000)).

Definition _ACQUIRE_LUA (key : string) (now max : Z) (token : string) (s : RedisDb) : Z * RedisDb :=
  let s := rd_zremrangebyscore key now s in
  if rd_zcard key s >=? max then (0, s)
  else (1, rd_zadd key (now + ttl_ms) token expire_s s).
Definition _CURRENT_LUA (key : string) (now : Z) (s : RedisDb) : Z * RedisDb :=
  let s := rd_zremrangebyscore key now s in (rd_zcard key s, s).

Fixpoint _acquire_fallback (n : nat) (key : string) (now max : Z) (token : string) (s : RedisDb) : Res Z * RedisDb :=
  match n with
  | O => (Raise state_unavailable, s)
  | S n =>
      (* sent at once: the watched pipeline is not yet buffering *)
      let s := rd_zremrangebyscore key now s in
      if rd_zcard key s >=? max then (Ok 0, s)
      else
        match rd_exec s with
        | (Executed, s') => (Ok 1, rd_zadd key (now + ttl_ms) token expire_s s')
        | (Conflict, s') => _acquire_fallback n key now max token s'
        | (ExecFailed, s') => (Raise (EOther "RedisError"), s')
        end
  end.

(** What a lease gives back: nothing for an unlimited key, else its token. *)
Definition RedisLease : Type := option (string * string).
Definition try_acquire (key : string) (maximum : Z) (t : Moment) (s : RedisDb) : Res (option RedisLease) * RedisDb :=
  if maximum <=? 0 then (Ok (Some None), s)
  else
    let '(token, s) := rd_uuid s in
    let now := now_ms t in
    let name := redis_name "concurrency" self key in
    let '(ok, s) := match rd_call s with
                    | (Answered, s1) => let '(n, s2) := _ACQUIRE_LUA name now maximum token s1 in (Ok n, s2)
                    | (UnknownCommand, s1) => _acquire_fallback 5 name now maximum token s1
                    | (CallFailed, s1) => (Raise state_unavailable, s1)
                    end in
    (match ok with
     | Ok n => Ok (if n =? 1 then Some (Some (name, token)) else None)
     | Raise e => Raise e
     end, s).
(** [_release]; a failure of Redis is logged and the token left to its deadline. *)
Definition release (l : RedisLease) (s : RedisDb) : RedisDb :=
  match l with
  | None => s
  | Some (name, token) => match rd_call s with (Answered, s1) => rd_zrem name token s1 | (_, s1) => s1 end
  end.
(** [current]: the script, else the two commands, else 0. *)
Definition current (key : string) (t : Moment) (s : RedisDb) : Z :=
  let name := redis_name "concurrency" self key in
  match rd_call s with
  | (Answered, s1) => (_CURRENT_LUA name (now_ms t) s1).1
  | (_, s1) => match rd_call s1 with
               | (Answered, s2) => rd_zcard name (rd_zremrangebyscore name (now_ms t) s2)
               | _ => 0
               end
  end.
End RedisConcurrency.

Definition redis_concurrency `{!Redis} (self : RedisNames) (lease_ttl_ms : Z) : ConcurrencyLimiter := {|
  Conc := RedisDb;
  Lease := RedisLease;
  cl_try_acquire := try_acquire self lease_ttl_ms;
  cl_release := release;
  cl_current := current self
|}.
End RedisConcurrency.
