(* ===== verification/Sim.v ===== *)
(** A concrete environment, in which the definitions run: a host that plays
    scripted clocks, random numbers and upstream replies, a database session in
    memory whose commits can be scripted to fail, and the in-process limiters.
    It satisfies every law of Env.v, so theorems that assume the laws are not
    vacuous; the concrete inputs of the witnesses are built here. *)

From S2P Require Import Prelude Effects PyText PyTime Json Models Config Env RateLimit Concurrency Cooldown.
Open Scope Z_scope.

Module Simulation.

(** * The host *)

Record SimHost := mkSimHost {
  sim_now : Z;                    (* each reading is one microsecond later *)
  sim_mono : Q;
  sim_randoms : list Q;           (* then 0 *)
  sim_replies : list HttpOutcome  (* then a timeout *)
}.

(** A cipher that writes the associated data, in a prefix code, before the text. *)
Fixpoint tag (a : string) : string :=
  match a with
  | EmptyString => "0"
  | String c a' => String "1"%char (String c (tag a'))
  end.
Fixpoint untag (a s : string) : option string :=
  match a, s with
  | EmptyString, String "0"%char s' => Some s'
  | String c a', String "1"%char (String d s') => if Ascii.eqb c d then untag a' s' else None
  | _, _ => None
  end.
Lemma untag_tag a a' p : untag a' (tag a +:+ p) = if decide (a = a') then Some p else None.
Proof.
  revert a'. induction a as [|c a IH]; intros [|d a']; simpl; try done.
  destruct (Ascii.eqb_spec d c) as [->|Hne].
  - rewrite IH. by repeat case_decide; simplify_eq.
  - case_decide; [|done]. naive_solver.
Qed.

(** A textual form of JSON values that is easy to read back. *)
Notation leaf := (bool + Z + Q + string)%type.
Fixpoint to_tree (j : Json) : gen_tree leaf :=
  match j with
  | JNull => GenNode 0 []
  | JBool b => GenLeaf (inl (inl (inl b)))
  | JInt n => GenLeaf (inl (inl (inr n)))
  | JFloat q => GenLeaf (inl (inr q))
  | JStr s => GenLeaf (inr s)
  | JList l => GenNode 1 (map to_tree l)
  | JObj o => GenNode 2 (map (λ kv, GenNode 0 [GenLeaf (inr kv.1); to_tree kv.2]) o)
  end.
Fixpoint of_tree (t : gen_tree leaf) : Json :=
  match t with
  | GenLeaf (inl (inl (inl b))) => JBool b
  | GenLeaf (inl (inl (inr n))) => JInt n
  | GenLeaf (inl (inr q)) => JFloat q
  | GenLeaf (inr s) => JStr s
  | GenNode 1 l => JList (map of_tree l)
  | GenNode 2 o => JObj (map (λ t, match t with
                                   | GenNode _ [GenLeaf (inr k); v] => (k, of_tree v)
                                   | _ => (EmptyString, JNull)
                                   end) o)
  | GenNode _ _ => JNull
  end.
Lemma of_to_tree j : of_tree (to_tree j) = j.
Proof.
  induction j as [| | | | |l IH|o IH] using Json_nested_ind; simpl; try done.
  - f_equal. rewrite map_map. induction IH as [|x l Hx _ IHl]; simpl; congruence.
  - f_equal. rewrite map_map. induction IH as [|[k v] o Hx _ IHo]; simpl in *; congruence.
Qed.
#[export] Instance Q_eq_dec : EqDecision Q.
Proof. solve_decision. Defined.
#[export] Program Instance Q_countable : Countable Q :=
  inj_countable' (λ q, (Qnum q, Qden q)) (λ p, Qmake p.1 p.2) _.
Next Obligation. by intros []. Qed.
Fixpoint bits (p : positive) : string :=
  match p with xH => EmptyString | xO p => String "0"%char (bits p) | xI p => String "1"%char (bits p) end.
Fixpoint of_bits (s : string) : positive :=
  match s with EmptyString => xH | String "0"%char s => xO (of_bits s) | String _ s => xI (of_bits s) end.
Lemma of_bits_bits p : of_bits (bits p) = p.
Proof. induction p; simpl; congruence. Qed.
Definition sim_json_dumps (j : Json) : string := String "#"%char (bits (encode (to_tree j))).

(** The bodies the scripted upstream may send. *)
Definition sim_json_loads (s : string) : option Json :=
  match s with
  | "{}" => Some (JObj [])
  | "credits" =>
      Some (JObj [("success", JBool true);
                  ("data", JObj [("remainingCredits", JInt 70); ("planCredits", JInt 100)])])
  | "job" => Some (JObj [("success", JBool true); ("id", JStr "job-1")])
  | String "#"%char s' => of_tree <$> decode (of_bits s')
  | _ => None
  end.
Lemma sim_loads_dumps j : sim_json_loads (sim_json_dumps j) = Some j.
Proof. simpl. by rewrite of_bits_bits, decode_encode; simpl; rewrite of_to_tree. Qed.

(** Fresh bytes: the same ones each time. *)
Fixpoint sim_bytes (n : nat) : string :=
  match n with O => EmptyString | S n' => String "r"%char (sim_bytes n') end.

Definition pop {A} (l : list A) (d : A) : A * list A :=
  match l with [] => (d, []) | x :: l' => (x, l') end.

#[export] Instance sim_host : Host := {|
  HostState := SimHost;
  h_now h := (sim_now h, mkSimHost (sim_now h + 1) (sim_mono h) (sim_randoms h) (sim_replies h));
  h_mono h := (sim_mono h, h);
  h_random h := let '(q, l) := pop (sim_randoms h) 0%Q in
    (Qmin (Qmax q 0) (1 # 2), mkSimHost (sim_now h) (sim_mono h) l (sim_replies h));
  h_http _ h := let '(o, l) := pop (sim_replies h) HttpTimedOut in
    (o, mkSimHost (sim_now h) (sim_mono h) (sim_randoms h) l);
  h_log1p x := x;
  h_half_pow x := (/ (1 + x))%Q;
  h_json_loads := sim_json_loads;
  h_str _ := "?";
  h_urandom n h := (sim_bytes n, h);
  h_token_urlsafe n h := ("token-" +:+ str_int (sim_now h),
    mkSimHost (sim_now h + 1) (sim_mono h) (sim_randoms h) (sim_replies h));
  h_aes_encrypt _ _ p a := tag a +:+ p;
  h_aes_decrypt _ _ c a := untag a c
|}.

Lemma inv_1plus x y : (0 <= x)%Q → (x <= y)%Q → (/ (1 + y) <= / (1 + x))%Q.
Proof.
  intros Hx Hxy. apply Qle_shift_inv_l; [lra|].
  rewrite Qmult_comm. apply (Qmult_le_r _ _ (1 + y)); [lra|].
  rewrite <-Qmult_assoc, (Qmult_comm (/ _)), Qmult_inv_r, Qmult_1_r by lra. lra.
Qed.

#[export] Instance sim_math : MathLaws.
Proof.
  split; simpl; intros; try lra.
  - apply Qinv_lt_0_compat. lra.
  - apply (Qle_trans _ (/ (1 + 0))); [by apply inv_1plus; lra|]. compute. discriminate.
  - by apply inv_1plus.
Qed.
#[export] Instance sim_random : RandomLaws.
Proof.
  split. intros h. simpl. destruct (pop (sim_randoms h) 0%Q) as [q l]; simpl. split.
  - apply Q.min_glb; [apply Q.le_max_r|lra].
  - eapply Qle_lt_trans; [apply Q.le_min_r|]. lra.
Qed.
#[export] Instance sim_urandom : UrandomLaws.
Proof. split. intros n h. simpl. induction n as [|n IH]; simpl; congruence. Qed.
#[export] Instance sim_aes : AesLaws.
Proof.
  split; simpl; intros; rewrite untag_tag; by case_decide.
Qed.

(** * The session *)

Record SimSession := mkSimSession {
  ss_view : Tables;
  ss_durable : Tables;
  ss_fail : list bool     (* whether each coming statement fails; then none does *)
}.

Definition uniqueb {A B} `{!EqDecision B} (f : A → B) (m : gmap Z A) : bool :=
  bool_decide (NoDup ((λ p, f p.2) <$> map_to_list m)).
Lemma uniqueb_spec {A B} `{!EqDecision B} (f : A → B) (m : gmap Z A) :
  uniqueb f m = true ↔ unique_by f m.
Proof.
  unfold uniqueb. rewrite bool_decide_eq_true. split.
  - intros Hnd i j a b Hi%elem_of_map_to_list Hj%elem_of_map_to_list Hf.
    apply list_elem_of_lookup in Hi as [p Hp]. apply list_elem_of_lookup in Hj as [q Hq].
    assert (p = q) as ->; [|by simplify_eq].
    eapply NoDup_lookup; [exact Hnd|by rewrite list_lookup_fmap, Hp|].
    rewrite list_lookup_fmap, Hq. simpl. by rewrite Hf.
  - intros Hu. apply NoDup_fmap_2_strong; [|apply NoDup_map_to_list].
    intros [i a] [j b] Hi%elem_of_map_to_list Hj%elem_of_map_to_list Hf. simpl in *.
    assert (i = j) as -> by by eapply Hu. by simplify_eq.
Qed.
Definition referb {A B} (m : gmap Z A) (f : A → option Z) (target : gmap Z B) : bool :=
  forallb (λ p, match f p.2 with Some i => match target !! i with Some _ => true | None => false end
                | None => true end) (map_to_list m).
Lemma referb_spec {A B} (m : gmap Z A) (f : A → option Z) (target : gmap Z B) :
  referb m f target = true ↔ all_refer m f target.
Proof.
  unfold referb, all_refer, map_Forall. rewrite forallb_forall. split.
  - intros H i x Hi%elem_of_map_to_list%list_elem_of_In. specialize (H _ Hi). simpl in H.
    unfold refers. destruct (f x) as [j|]; [|done]. destruct (target !! j); [by eexists|done].
  - intros H [i x] Hi%list_elem_of_In%elem_of_map_to_list. specialize (H i x Hi). simpl.
    unfold refers in H. destruct (f x) as [j|]; [|done]. by destruct H as [? ->].
Qed.
Definition constraintsb (t : Tables) : bool :=
  uniqueb k_api_key_hash (t_keys t) && uniqueb c_name (t_clients t) && uniqueb c_token_hash (t_clients t) &&
  uniqueb idem_slot (t_idempotency t) && uniqueb bind_slot (t_bindings t) &&
  referb (t_keys t) k_client_id (t_clients t) && referb (t_request_logs t) rl_client_id (t_clients t) &&
  referb (t_request_logs t) rl_api_key_id (t_keys t) &&
  referb (t_snapshots t) (λ s, Some (s_api_key_id s)) (t_keys t) &&
  referb (t_idempotency t) (λ r, Some (i_client_id r)) (t_clients t) &&
  referb (t_bindings t) (λ b, Some (b_client_id b)) (t_clients t) &&
  referb (t_bindings t) (λ b, Some (b_api_key_id b)) (t_keys t).
Lemma constraintsb_spec t : constraintsb t = true ↔ constraints_hold t.
Proof.
  unfold constraintsb. rewrite !andb_true_iff, !uniqueb_spec, !referb_spec. split.
  - intros H. destruct_and! H. by split.
  - intros []. by split_and!.
Qed.

Definition max_id {A} (m : gmap Z A) : Z := foldr Z.max 0 (map_to_list m).*1.
Lemma max_id_fresh {A} (m : gmap Z A) n : max_id m < n → m !! n = None.
Proof.
  intros H. destruct (m !! n) as [x|] eqn:E; [|done].
  apply elem_of_map_to_list, (list_elem_of_fmap_2 fst) in E. simpl in E. unfold max_id in H.
  exfalso. revert E H. generalize (map_to_list m).*1 as l.
  induction l as [|i l IH]; simpl; [by intros ?%not_elem_of_nil|].
  intros [<-|Hin]%elem_of_cons Hm; [lia|]. apply IH; [done|lia].
Qed.

Definition sim_flush (s : SimSession) : CommitOutcome * SimSession :=
  (if constraintsb (ss_view s) then Committed else IntegrityFailure, s).
Definition sim_commit (s : SimSession) : CommitOutcome * SimSession :=
  let '(fail, l) := pop (ss_fail s) false in
  if fail : bool then (CommitFailure, mkSimSession (ss_view s) (ss_durable s) l)
  else if constraintsb (ss_view s)
  then (Committed, mkSimSession (ss_view s) (ss_view s) l)
  else (IntegrityFailure, mkSimSession (ss_view s) (ss_durable s) l).

#[export] Instance sim_session : OrmSession := {|
  Session := SimSession;
  db_view := ss_view;
  db_durable := ss_durable;
  db_assign f s := mkSimSession (f (ss_view s)) (ss_durable s) (ss_fail s);
  db_query s := (true, s);
  db_flush := sim_flush;
  db_commit := sim_commit;
  db_rollback s := mkSimSession (ss_durable s) (ss_durable s) (ss_fail s);
  db_next_id s := let t := ss_view s in
    1 + foldr Z.max 0 [max_id (t_idempotency t); max_id (t_bindings t); max_id (t_snapshots t);
                       max_id (t_keys t); max_id (t_clients t); max_id (t_request_logs t);
                       max_id (t_audit_logs t)]
|}.

#[export] Instance sim_orm_laws : OrmLaws.
Proof.
  split; try done; try (intros s; simpl; unfold sim_commit, sim_flush; repeat case_match; done).
  - intros s. simpl. unfold sim_flush. simpl. case_match; [|done]. intros _. by apply constraintsb_spec.
  - intros s. simpl. unfold sim_flush. simpl. case_match; [done|]. intros _ Hc%constraintsb_spec. congruence.
  - intros s. simpl. unfold sim_commit. repeat case_match; try done. intros _. by apply constraintsb_spec.
  - intros s. simpl. unfold sim_commit. repeat case_match; try done. intros _ H3%constraintsb_spec. congruence.
  - intros s. simpl. split_and!; apply max_id_fresh; lia.
Qed.

(** * The environment *)

#[export] Instance sim_env : Env := {|
  env_host := sim_host;
  env_orm := sim_session;
  env_rate := token_bucket_limiter;
  env_conc := memory_concurrency;
  env_cool := noop_cooldown
|}.

Definition T0 : Z := days_of_civil 2026 1 15 * day + 12 * hour.
Definition enc_key (plain : string) : string := "nonce-nonce-" +:+ tag "fcam:api_key:v1" +:+ plain.

(** Key number [id] with the given provider, status and cached credits. *)
Definition sim_key (id : Z) (provider : string) (credits : option Z) : ApiKey := {|
  k_id := id; k_client_id := None; k_api_key_ciphertext := enc_key ("fc-key-" +:+ str_int id);
  k_api_key_hash := "hash-" +:+ str_int id; k_api_key_last4 := "0001"; k_account_username := None;
  k_account_password_ciphertext := None; k_account_verified_at := None; k_name := None;
  k_plan_type := "free"; k_is_active := true; k_daily_quota := 0; k_daily_usage := 0;
  k_quota_reset_at := None; k_max_concurrent := 2; k_current_concurrent := 0;
  k_rate_limit_per_min := 10; k_rate_limit_reset_at := None; k_cooldown_until := None;
  k_total_requests := 0; k_last_used_at := None; k_created_at := Naive 0;
  k_last_credit_snapshot_id := None; k_last_credit_check_at := None;
  k_cached_remaining_credits := credits; k_cached_plan_credits := None;
  k_next_refresh_at := None; k_provider := provider; k_status := "active"
|}.
Definition sim_tables (ks : list ApiKey) (cs : list Client) : Tables :=
  set_t_clients (list_to_map ((λ c, (c_id c, c)) <$> cs))
    (set_t_keys (list_to_map ((λ k, (k_id k, k)) <$> ks)) empty_tables).

Definition sim_world (t : Tables) (randoms : list Q) (replies : list HttpOutcome) : World := {|
  w_host := mkSimHost T0 1000 randoms replies;
  w_db := mkSimSession t t [];
  w_key_limiter := (∅ : gmap string TokenBucket.Bucket);
  w_key_conc := ConcurrencyManager.new_manager;
  w_client_limiter := (∅ : gmap string TokenBucket.Bucket);
  w_client_conc := ConcurrencyManager.new_manager;
  w_cooldown := tt;
  w_nn_failures := ∅;
  w_rr_cursor := ∅;
  w_fwd_failures := ∅;
  w_refresh_mono := ∅;
  w_wire := []
|}.
Definition sim_client (id : Z) (quota : option Z) (retries : Z) : Client := {|
  c_id := id; c_name := "client-" +:+ str_int id; c_token_hash := "hash-" +:+ str_int id; c_token_ciphertext := None;
  c_is_active := true; c_daily_quota := quota; c_daily_usage := 0; c_quota_reset_at := None;
  c_rate_limit_per_min := 60; c_max_concurrent := 10; c_max_retries := retries;
  c_created_at := Naive 0; c_last_used_at := None; c_status := "active"
|}.

#[export] Instance sim_conc_laws : @ConcurrencyLaws env_conc := memory_concurrency_laws.
Lemma sim_world_conc_wf t randoms replies : conc_wf (w_key_conc (sim_world t randoms replies)).
Proof. exact ConcurrencyFacts.wf_new. Qed.
Lemma sim_world_client_wf t randoms replies : conc_wf (w_client_conc (sim_world t randoms replies)).
Proof. exact ConcurrencyFacts.wf_new. Qed.
Lemma sim_allow_total key rate t (l : @Limiter (@env_rate sim_env)) : ∃ x, (rl_allow key rate t l).1 = Ok x.
Proof. simpl. destruct (TokenBucket.allow key rate (mo_mono t) l) as [x l']. by exists x. Qed.

End Simulation.
