(* ===== verification/UrlUtil.v ===== *)
(** [app/core/urlutil.py]: the upstream base URL without a trailing [/v1] or
    [/v2], with the parts of the standard library's [urlsplit] and [urlunsplit]
    that it depends on. *)

From S2P Require Import Prelude Effects PyText.
Open Scope Z_scope.

(** [s] up to the first character of [stop], and the rest from there. *)
Fixpoint break_at (stop : Ascii.ascii → bool) (s : string) : string * string :=
  match s with
  | EmptyString => (EmptyString, EmptyString)
  | String c s' => if stop c then (EmptyString, s)
                   else let '(a, b) := break_at stop s' in (String c a, b)
  end.
Definition char_in (l : string) (c : Ascii.ascii) : bool := string_existsb (Ascii.eqb c) l.

Record SplitResult := mkSplitResult {
  u_scheme : string; u_netloc : string; u_path : string
}.

(** [urlsplit(url)], scheme, netloc and path; the query and the fragment are
    cut off.  A bracketed host that is not closed is the ValueError. *)
Definition urlsplit (url : string) : Res SplitResult :=
  let url := lstrip_p (λ c, N.leb (code c) 32) url in
  let '(pre, post) := break_at (Ascii.eqb ":"%char) url in
  let is_scheme :=
    match pre, post with
    | String c _, String _ _ =>
        (is_upper c || is_lower c) &&
        string_forallb (λ c, is_alnum c || char_in "+-." c) pre
    | _, _ => false
    end in
  let '(scheme, url) := if is_scheme then (lower pre, slice_from 1 post) else ("", url) in
  let '(netloc, url) :=
    if startswith "//" url then break_at (char_in "/?#") (slice_from 2 url) else ("", url) in
  if xorb (char_in netloc "["%char) (char_in netloc "]"%char)
  then Raise (EValueError "Invalid IPv6 URL")
  else
    let url := (split_once "#"%char url).1 in
    let path := (split_once "?"%char url).1 in
    Ok (mkSplitResult scheme netloc path).

(** [urlunsplit((scheme, netloc, path, "", ""))] with a scheme and a netloc. *)
Definition urlunsplit (u : SplitResult) : string :=
  let path := u_path u in
  let path := if negb (String.eqb path "") && negb (startswith "/" path) then "/" +:+ path else path in
  u_scheme u +:+ "://" +:+ u_netloc u +:+ path.

Definition strip_provider_version_suffix (base_url : string) : Res (string * option string) :=
  let normalized := rstrip_char "/"%char base_url in
  match urlsplit normalized with
  | Raise e => Raise e
  | Ok parts =>
      if String.eqb (u_scheme parts) "" || String.eqb (u_netloc parts) ""
      then Ok (normalized, None)
      else
        let path := rstrip_char "/"%char (u_path parts) in
        let '(version, path) :=
          if endswith "/v1" path then (Some "v1", slice_to (String.length path - 3) path)
          else if endswith "/v2" path then (Some "v2", slice_to (String.length path - 3) path)
          else (None, path) in
        Ok (rstrip_char "/"%char (urlunsplit (mkSplitResult (u_scheme parts) (u_netloc parts) path)),
            version)
  end.

Example strip_v1 : strip_provider_version_suffix "https://api.firecrawl.dev/v1/" =
  Ok ("https://api.firecrawl.dev", Some "v1").
Proof. vm_compute. reflexivity. Qed.
Example strip_none : strip_provider_version_suffix "HTTPS://h:80/a/?q#f" = Ok ("https://h:80/a", None).
Proof. vm_compute. reflexivity. Qed.
Example strip_twice : strip_provider_version_suffix "http://h/v2/v1" = Ok ("http://h/v2", Some "v1").
Proof. vm_compute. reflexivity. Qed.
