(* ===== verification/CreditEstimator.v ===== *)
(** [app/core/credit_estimator.py]: what a request is estimated to cost, and the
    update of the locally cached credits. *)

From S2P Require Import Prelude Effects PyText Json Models Env.
Open Scope Z_scope.

Definition CREDIT_COST_MAP : list (string * Z) :=
  [("/v1/scrape", 1); ("/v1/crawl", 5); ("/v1/search", 1); ("/v1/map", 1);
   ("/v2/scrape", 1); ("/v2/crawl", 5); ("/v2/map", 1); ("/v2/extract", 2);
   ("/v2/batch/scrape", 1)].
Definition cost_lookup (endpoint : string) : option Z :=
  snd <$> List.find (λ e, String.eqb (fst e) endpoint) CREDIT_COST_MAP.

(** [response_data.get("data", {}).get(field, 1)], then [int(...)] with 1 for a
    value that is no number.  A body or a "data" member that is not an object has
    no [get]: AttributeError. *)
Definition response_count (field : string) (response_data : Json) : Res Z :=
  match response_data with
  | JObj o =>
      match default (JObj []) (obj_get "data" o) with
      | JObj d => Ok (default 1 (json_int (default (JInt 1) (obj_get field d))))
      | _ => Raise (EOther "AttributeError")
      end
  | _ => Raise (EOther "AttributeError")
  end.

Definition estimate_credit_cost (endpoint : string) (response_data : option Json) : Res Z :=
  let base_cost := default 1 (cost_lookup endpoint) in
  let has_data := match response_data with Some j => truthy j | None => false end in
  if contains "/crawl" endpoint && has_data then
    match response_count "total" (default JNull response_data) with
    | Ok pages_i => Ok (Z.max base_cost (Z.max pages_i 1))
    | Raise e => Raise e
    end
  else if contains "/batch/" endpoint && has_data then
    match response_count "count" (default JNull response_data) with
    | Ok count_i => Ok (Z.max (base_cost * Z.max count_i 1) 1)
    | Raise e => Raise e
    end
  else Ok base_cost.

Definition normalize_endpoint (path : string) : string :=
  if String.eqb path "" then path
  else
    let path_no_query := (split_once "?"%char path).1 in
    if str_in path_no_query [""; "/"] then path_no_query
    else
      let parts := split_char "/"%char path_no_query in
      if (4 <=? Z.of_nat (length parts)) && String.eqb (nth 2 parts "") "crawl"
      then join "/" (firstn 3 parts)
      else if (5 <=? Z.of_nat (length parts)) && String.eqb (nth 2 parts "") "batch"
      then join "/" (firstn 4 parts)
      else path_no_query.

Section UpdateLocalCredits.
Context {E : Env}.

Definition update_local_credits (key_id delta : Z) : Prog unit :=
  let! key := get_key key_id in
  match k_cached_remaining_credits key with
  | None => ret tt
  | Some old =>
      let new := Z.max 0 (old + delta) in
      if new =? old then ret tt
      else
        assign_key key_id (set_k_cached_remaining_credits (Some new)) ;;!
        commit_or_rollback (ret tt)
  end.
End UpdateLocalCredits.

Lemma cost_lookup_pos endpoint c : cost_lookup endpoint = Some c → 1 ≤ c.
Proof.
  unfold cost_lookup. intros H. apply fmap_Some in H as ([e n] & Hf & ->).
  apply find_some in Hf as [Hin _]. simpl in *.
  repeat destruct Hin as [[= <- <-]|Hin]; (done || lia).
Qed.

(** Every estimate is at least one credit, at least the endpoint's base cost,
    and at least the number of pages a finished crawl reports: an answered
    request is never estimated to be free, and a crawl never below its size. *)
Theorem estimate_at_least endpoint rd c :
  estimate_credit_cost endpoint rd = Ok c →
  1 ≤ c ∧ (∀ b, cost_lookup endpoint = Some b → b ≤ c) ∧
  (∀ j n, rd = Some j → truthy j = true → contains "/crawl" endpoint = true →
          response_count "total" j = Ok n → n ≤ c).
Proof.
  unfold estimate_credit_cost.
  assert (1 ≤ default 1 (cost_lookup endpoint)) as Hb.
  { destruct (cost_lookup endpoint) eqn:E; simpl; [by eapply cost_lookup_pos|lia]. }
  assert (∀ b, cost_lookup endpoint = Some b → b = default 1 (cost_lookup endpoint)) as Hd.
  { by intros b ->. }
  set (base := default 1 (cost_lookup endpoint)) in *. clearbody base. intros H.
  assert (1 ≤ c ∧ base ≤ c) as [H1 H2].
  { repeat case_match; simplify_eq/=; nia. }
  split; [done|]. split; [intros b ->%Hd; done|].
  intros j n -> Ht Hc Hn. rewrite Hc, Ht in H. simpl in H. rewrite Hn in H. simplify_eq. lia.
Qed.
Lemma estimate_at_least_witness :
  let body := JObj [("data", JObj [("total", JStr "37")])] in
  estimate_credit_cost (normalize_endpoint "/v1/crawl/abc?x=1") (Some body) = Ok 37 ∧ 1 ≤ 37.
Proof.
  split; [vm_compute; reflexivity|].
  refine (proj1 (estimate_at_least (normalize_endpoint "/v1/crawl/abc?x=1")
    (Some (JObj [("data", JObj [("total", JStr "37")])])) 37 _)). vm_compute. reflexivity.
Defined.
