(* ===== verification/Security.v ===== *)
(** [app/core/security.py]: encryption of API keys, account passwords and client
    tokens at rest (each in its own domain, by associated data), masking, and the
    rules for client tokens chosen by an administrator.  AES-GCM is the host's;
    the digests are the class [Digests]; the nonce that [os.urandom] draws is an
    argument. *)

From S2P Require Import Prelude Effects PyText Env Sim.
Open Scope Z_scope.

(** hashlib, hmac and base64 as far as they are used. *)
Class Digests := {
  sha256 : string → string;
  hmac_sha256 : string → string → string;                 (* key, message; hex *)
  urlsafe_b64decode : string → option string              (* None: it raises *)
}.

Definition AAD_API_KEY : string := "fcam:api_key:v1".
Definition AAD_ACCOUNT_PASSWORD : string := "fcam:account_password:v1".
Definition AAD_CLIENT_TOKEN : string := "fcam:client_token:v1".
Definition NONCE_BYTES : nat := 12.

Section Digest.
Context `{!Digests}.

Definition derive_master_key_bytes (master_key : string) : string :=
  match urlsafe_b64decode master_key with
  | Some raw => if slen raw =? 32 then raw else sha256 master_key
  | None => sha256 master_key
  end.
Definition hmac_sha256_hex (key message : string) : string := hmac_sha256 key message.
End Digest.

(** [hmac.compare_digest] on two [str]: it compares ASCII text only. *)
Definition is_ascii (s : string) : bool := string_forallb (λ c, (Ascii.nat_of_ascii c <? 128)%nat) s.
Definition constant_time_equals (a b : string) : Res bool :=
  if is_ascii a && is_ascii b then Ok (String.eqb a b) else Raise ETypeError.

Section Encryption.
Context `{!Host}.

Definition encrypt_with (aad master_key nonce plaintext : string) : string :=
  nonce +:+ h_aes_encrypt master_key nonce plaintext aad.
Definition decrypt_with (aad master_key blob : string) : Res string :=
  if slen blob <? Z.of_nat NONCE_BYTES then Raise (EValueError "Invalid ciphertext")
  else
    let nonce := slice_to NONCE_BYTES blob in
    let ciphertext := slice_from NONCE_BYTES blob in
    match h_aes_decrypt master_key nonce ciphertext aad with
    | Some plaintext => Ok plaintext
    | None => Raise EInvalidTag
    end.

Definition encrypt_api_key : string → string → string → string := encrypt_with AAD_API_KEY.
Definition decrypt_api_key : string → string → Res string := decrypt_with AAD_API_KEY.
Definition encrypt_account_password : string → string → string → string :=
  encrypt_with AAD_ACCOUNT_PASSWORD.
Definition decrypt_account_password : string → string → Res string :=
  decrypt_with AAD_ACCOUNT_PASSWORD.
Definition encrypt_client_token : string → string → string → string := encrypt_with AAD_CLIENT_TOKEN.
Definition decrypt_client_token : string → string → Res string := decrypt_with AAD_CLIENT_TOKEN.
End Encryption.

Definition mask_api_key_last4 (api_key_last4 : string) : string :=
  let last4 := last_chars 4 api_key_last4 in
  if String.eqb last4 "" then "fc-****" else "fc-****" +:+ last4.

(** [token] is what [secrets.token_urlsafe(32)] returned. *)
Definition generate_client_token (token : string) : string := "fcam_client_" +:+ token.

(** [int(any(p(c) for c in t))], one character class. *)
Definition has_class (p : Ascii.ascii → bool) (t : string) : Z := if string_existsb p t then 1 else 0.
Definition char_classes (t : string) : Z :=
  has_class is_lower t + has_class is_upper t + has_class is_digit t +
  has_class (λ c, negb (is_alnum c)) t.

(** [validate_client_token_complexity]: [Ok] when it returns; the messages are
    shortened to their subject. *)
Definition validate_client_token_complexity (token : string) : Res unit :=
  let t := strip token in
  if slen t <? 24 then Raise (EValueError "shorter than 24")
  else if slen t >? 256 then Raise (EValueError "longer than 256")
  else if char_classes t <? 3 then Raise (EValueError "fewer than three classes")
  else
    let low := lower t in
    if str_in low ["password"; "admin"; "fcam_client_test"] ||
       String.eqb low "fcam_client_aaaaaaaaaaaaaaaaaaaa"
    then Raise (EValueError "too simple")
    else Ok tt.

(** * Lemmas *)


Section Theorems.
Context `{!Host, !AesLaws}.

Lemma decrypt_encrypt aad aad' k n p :
  String.length n = NONCE_BYTES →
  decrypt_with aad' k (encrypt_with aad k n p) =
    if decide (aad = aad') then Ok p else Raise EInvalidTag.
Proof.
  intros Hn. unfold decrypt_with, encrypt_with.
  assert (slen (n +:+ h_aes_encrypt k n p aad) <? Z.of_nat NONCE_BYTES = false) as ->.
  { apply Z.ltb_ge. unfold slen. rewrite string_length_app. lia. }
  rewrite <-Hn, slice_to_app, slice_from_app.
  case_decide as Ha; [by rewrite Ha, aes_round_trip|by rewrite aes_aad_bound].
Qed.

(** Secrets at rest come back under the master key they were stored with, and
    only as what they were stored as: a ciphertext of one kind (API key, account
    password, client token) put in the place of another is rejected as
    tampered. *)
Theorem secrets_round_trip_in_their_domain k n p :
  String.length n = NONCE_BYTES →
  decrypt_api_key k (encrypt_api_key k n p) = Ok p ∧
  decrypt_account_password k (encrypt_account_password k n p) = Ok p ∧
  decrypt_client_token k (encrypt_client_token k n p) = Ok p ∧
  decrypt_api_key k (encrypt_client_token k n p) = Raise EInvalidTag ∧
  decrypt_client_token k (encrypt_api_key k n p) = Raise EInvalidTag ∧
  decrypt_api_key k (encrypt_account_password k n p) = Raise EInvalidTag ∧
  decrypt_client_token k (encrypt_account_password k n p) = Raise EInvalidTag.
Proof.
  intros Hn. unfold decrypt_api_key, encrypt_api_key, decrypt_account_password,
    encrypt_account_password, decrypt_client_token, encrypt_client_token.
  rewrite !decrypt_encrypt by done. done.
Qed.
End Theorems.

Lemma existsb_lower_strip t : slen (lower t) = slen t.
Proof. unfold slen, lower. by rewrite string_length_map. Qed.

(** A client token that an administrator may choose has, without the white space
    around it, 24 to 256 characters of at least three of the four classes; and
    that is all the check amounts to, except for the one pattern it names: the
    shorter trivial words are already too short. *)
Theorem token_complexity_exact token :
  validate_client_token_complexity token = Ok tt ↔
  24 ≤ slen (strip token) ≤ 256 ∧ 3 ≤ char_classes (strip token) ∧
  lower (strip token) ≠ "fcam_client_aaaaaaaaaaaaaaaaaaaa".
Proof.
  unfold validate_client_token_complexity. set (t := strip token).
  assert (slen (lower t) = slen t) as Hl by apply existsb_lower_strip. split.
  - rewrite Z.gtb_ltb. intros H. repeat case_match; simplify_eq; bool_prop. split; [lia|].
    done.
  - intros ([H1 H2] & H3 & H4).
    destruct (slen t <? 24) eqn:E1; bool_prop; [lia|].
    rewrite Z.gtb_ltb. destruct (256 <? slen t) eqn:E2; bool_prop; [lia|].
    destruct (char_classes t <? 3) eqn:E3; bool_prop; [lia|].
    apply String.eqb_neq in H4. rewrite H4, orb_false_r.
    destruct (str_in (lower t) _) eqn:E5; [|done].
    apply existsb_exists in E5 as (w & Hw & Heq%String.eqb_eq). rewrite Heq in Hl.
    repeat destruct Hw as [<-|Hw]; simpl in *; (done || (unfold slen in Hl at 1; simpl in Hl; lia)).
Qed.
Import Simulation.

Lemma token_complexity_example :
  validate_client_token_complexity "  Correct-horse-battery-staple " = Ok tt ∧
  validate_client_token_complexity "correcthorsebatterystaple" = Raise (EValueError "fewer than three classes").
Proof. split; vm_compute; reflexivity. Qed.
Lemma secrets_round_trip_in_their_domain_witness :
  decrypt_api_key "k" (encrypt_api_key "k" "0123456789ab" "fc-secret") = Ok "fc-secret" ∧
  decrypt_api_key "k" (encrypt_client_token "k" "0123456789ab" "fc-secret") = Raise EInvalidTag.
Proof.
  destruct (secrets_round_trip_in_their_domain "k" "0123456789ab" "fc-secret" eq_refl)
    as (H1 & _ & _ & H2 & _). split; [exact H1|exact H2].
Defined.
