(* ===== verification/KeyPool.v ===== *)
(** [app/core/key_pool.py]: the scheduler of the global pool of upstream keys.
    [score_key] rates a key by its credits, the age of what is known about them
    and its recent failures; [select] scans the keys of a provider, keeps the
    usable ones and picks one, near the best score or, now and then, in rotation.
    The pool's locks guard single dictionary operations and are not modelled. *)

From S2P Require Import Prelude Effects PyText PyTime Json Models Config Env RuntimeSettings.
Open Scope Z_scope.

Module KeyPool.

Definition DISABLED_STATUSES : list string := ["disabled"; "decrypt_failed"; "invalid"].
Definition COOLING_STATUSES : list string := ["cooling"; "failed"].
Definition SCORE_4XX_REASON_TOKENS : list string :=
  ["401"; "402"; "429"; "key_4xx_401"; "key_4xx_402"; "key_4xx_429";
   "invalid_key"; "credit"; "rate_limit"].
Definition KEY_ATTRIBUTABLE_STATUSES : list Z := [401; 402; 429].

Definition is_4xx_score_failure (reason : string) (status_code : option Z) : bool :=
  let by_reason :=
    let r := lower (strip reason) in
    if String.eqb r "" then false
    else if str_in r SCORE_4XX_REASON_TOKENS then true
    else existsb (λ tok,
           isdigit tok &&
           match parse_int tok with
           | Some c => z_in c KEY_ATTRIBUTABLE_STATUSES
           | None => false
           end) (split_char "_"%char (replace_char "-"%char "_"%char r)) in
  match status_code with
  | Some code =>
      if z_in code KEY_ATTRIBUTABLE_STATUSES then true
      else if negb (code =? 0) then false
      else by_reason
  | None => by_reason
  end.

(** [api_key] refers to the row of the session by its primary key. *)
Record SelectedKey := mkSelectedKey {
  sel_api_key : Z;
  sel_now : Z;
  sel_score : Q;
  sel_explore : bool
}.

Definition terminal_status (key : ApiKey) : bool := str_in (lower (k_status key)) DISABLED_STATUSES.
Definition _is_disabled (key : ApiKey) : bool :=
  if negb (k_is_active key) then true else terminal_status key.

Definition _cooldown_remaining_seconds (key : ApiKey) (now : Z) : Z :=
  match k_cooldown_until key with
  | None => 0
  | Some cooldown_until => Z.max (int_seconds (utc_us cooldown_until - now)) 0
  end.

Section KeyPool.
Context {E : Env}.

Definition score_key (key : ApiKey) (now : Z)
    (freshness_half_life_seconds unknown_credit_baseline : Q)
    (non_network_failure_count failure_penalty_unit : Q) : option Q :=
  let remaining := k_cached_remaining_credits key in
  if match remaining with Some r => r <=? 0 | None => false end then None
  else
    let credit_weight :=
      match remaining with
      | None => h_log1p (Qmax unknown_credit_baseline 0)
      | Some r => h_log1p (inject_Z (Z.max r 0))
      end in
    let freshness_weight :=
      match k_last_credit_check_at key with
      | None => (55 # 100)%Q
      | Some last_check =>
          let age := Qmax (total_seconds (now - utc_us last_check)) 0 in
          let half := Qmax freshness_half_life_seconds 1 in
          (1 / (1 + age / half))%Q
      end in
    let fails := Qmax non_network_failure_count 0 in
    let unit := Qmax failure_penalty_unit 0 in
    let failure_weight :=
      if (unit <=?q 0%Q) || (fails <=?q 0%Q) then 1%Q else (1 / (1 + fails * unit))%Q in
    Some (credit_weight * freshness_weight * failure_weight)%Q.

(** * Failure memory *)

Definition record_success (key_id : Z) : Prog unit :=
  modify (λ w, set_w_nn_failures (delete key_id (w_nn_failures w)) w).

Definition record_failure (key_id : Z) (reason : string) (status_code : option Z) : Prog unit :=
  if negb (is_4xx_score_failure reason status_code) then ret tt
  else
    let! now := monotonic in
    let! failures := gets w_nn_failures in
    let '(count, _) := default (0%Q, now) (failures !! key_id) in
    modify (λ w, set_w_nn_failures (<[key_id := ((count + 1)%Q, now)]> (w_nn_failures w)) w).

Definition _failure_count (key_id : Z) (half_life_seconds : Q) : Prog Q :=
  let! now := monotonic in
  let! failures := gets w_nn_failures in
  match failures !! key_id with
  | None => ret 0%Q
  | Some (count, last) =>
      if count <=?q 0%Q then ret 0%Q
      else
        let half := Qmax half_life_seconds 1 in
        let age := Qmax (now - last) 0 in
        let decayed := (count * h_half_pow (age / half))%Q in
        if decayed <?q (5 # 100)%Q then
          modify (λ w, set_w_nn_failures (delete key_id (w_nn_failures w)) w) ;;!
          ret 0%Q
        else
          modify (λ w, set_w_nn_failures (<[key_id := (decayed, now)]> (w_nn_failures w)) w) ;;!
          ret decayed
  end.

(** The limiter's [peek], when it has one; an exception lets the key pass. *)
Definition _rpm_allows (key : ApiKey) : Prog bool :=
  let rpm := k_rate_limit_per_min key in
  if rpm <=? 0 then ret true
  else
    match rl_peek with
    | None => ret true
    | Some peek =>
        let! t := moment in
        let! lim := gets w_key_limiter in
        match peek (str_int (k_id key)) rpm t lim with
        | Ok (ok, _) => ret ok
        | Raise _ => ret true
        end
    end.

(** * Parameters of a selection *)

Record Params := mkParams {
  pm_half_life : Q;
  pm_unknown_baseline : Q;
  pm_epsilon : Q;
  pm_near_ratio : Q;
  pm_fail_half : Q;
  pm_fail_unit : Q
}.

Definition parameters (rt : option RuntimeScheduling) (config : AppConfig) : Params :=
  let sched := cfg_scheduling config in
  let cfg_half := or_int (sc_freshness_half_life_seconds sched) (6 * 3600) in
  let cfg_base := or_float (sc_unknown_credit_baseline sched) 50 in
  let cfg_eps := sc_epsilon_greedy sched in
  let near_ratio := or_float (sc_near_score_ratio sched) (95 # 100) in
  let '(half_life, unknown_baseline, epsilon) :=
    match rt with
    | Some s => (effective_half_life s cfg_half, effective_unknown_baseline s cfg_base,
                 effective_epsilon_greedy s cfg_eps)
    | None => (inject_Z cfg_half, cfg_base, cfg_eps)
    end in
  {| pm_half_life := half_life;
     pm_unknown_baseline := unknown_baseline;
     pm_epsilon := Qmin (Qmax epsilon 0) 1;
     pm_near_ratio := Qmin (Qmax near_ratio (1 # 2)) 1;
     pm_fail_half := or_float (sc_failure_penalty_half_life_seconds sched) 300;
     pm_fail_unit := or_float (sc_failure_penalty_unit sched) 1 |}.

(** * The scan *)

(** The local variables of the loop over the keys. *)
Record Scan := mkScan {
  sn_cooling_retry_after : option Z;
  sn_cooling_seen : Z;
  sn_disabled_seen : Z;
  sn_zero_credit_seen : Z;
  sn_excluded_seen : Z;
  sn_rpm_blocked : Z;
  sn_candidates : list (Q * ApiKey)
}.
Definition scan0 : Scan := mkScan None 0 0 0 0 0 [].
Definition saw_excluded (s : Scan) : Scan :=
  mkScan (sn_cooling_retry_after s) (sn_cooling_seen s) (sn_disabled_seen s)
    (sn_zero_credit_seen s) (sn_excluded_seen s + 1) (sn_rpm_blocked s) (sn_candidates s).
Definition saw_disabled (s : Scan) : Scan :=
  mkScan (sn_cooling_retry_after s) (sn_cooling_seen s) (sn_disabled_seen s + 1)
    (sn_zero_credit_seen s) (sn_excluded_seen s) (sn_rpm_blocked s) (sn_candidates s).
Definition saw_zero_credit (s : Scan) : Scan :=
  mkScan (sn_cooling_retry_after s) (sn_cooling_seen s) (sn_disabled_seen s)
    (sn_zero_credit_seen s + 1) (sn_excluded_seen s) (sn_rpm_blocked s) (sn_candidates s).
Definition saw_rpm_blocked (s : Scan) : Scan :=
  mkScan (sn_cooling_retry_after s) (sn_cooling_seen s) (sn_disabled_seen s)
    (sn_zero_credit_seen s) (sn_excluded_seen s) (sn_rpm_blocked s + 1) (sn_candidates s).
Definition saw_cooling (remaining : Z) (s : Scan) : Scan :=
  mkScan (Some match sn_cooling_retry_after s with
               | None => remaining
               | Some r => Z.min r remaining
               end)
    (sn_cooling_seen s + 1) (sn_disabled_seen s) (sn_zero_credit_seen s) (sn_excluded_seen s)
    (sn_rpm_blocked s) (sn_candidates s).
Definition saw_candidate (score : Q) (key : ApiKey) (s : Scan) : Scan :=
  mkScan (sn_cooling_retry_after s) (sn_cooling_seen s) (sn_disabled_seen s)
    (sn_zero_credit_seen s) (sn_excluded_seen s) (sn_rpm_blocked s)
    (sn_candidates s ++ [(score, key)]).

(** [remaining] of the cooldown block: the row's and the store's, whichever is
    longer; a store that raises counts as silent. *)
Definition cooldown_left (key : ApiKey) (now : Z) : Prog Z :=
  let remaining := _cooldown_remaining_seconds key now in
  let! store_remaining := step (λ w,
    let '(r, c) := cd_remaining (k_id key) (w_cooldown w) in
    (match r with Ok v => v | Raise _ => None end, set_w_cooldown c w)) in
  ret (match store_remaining with Some r => Z.max remaining r | None => remaining end).

Definition may_cool (key : ApiKey) : bool :=
  str_in (lower (k_status key)) COOLING_STATUSES || String.eqb (lower (k_status key)) "cooling"
  || match k_cooldown_until key with Some _ => true | None => false end.

(** What the expiry of a cooldown assigns to the row. *)
Definition reactivated (key : ApiKey) : ApiKey :=
  let status := lower (k_status key) in
  let key := set_k_cooldown_until None key in
  if str_in status COOLING_STATUSES || String.eqb status "cooling"
  then set_k_status "active" key else key.

(** The part of the body after the cooldown block. *)
Definition scan_credits (p : Params) (now : Z) (key : ApiKey) (s : Scan) : Prog Scan :=
  if match k_cached_remaining_credits key with Some c => c <=? 0 | None => false end
  then ret (saw_zero_credit s)
  else
    let! ok := _rpm_allows key in
    if negb ok then ret (saw_rpm_blocked s)
    else
      let! nn_fails := _failure_count (k_id key) (pm_fail_half p) in
      match score_key key now (pm_half_life p) (pm_unknown_baseline p) nn_fails (pm_fail_unit p) with
      | None => ret (saw_zero_credit s)
      | Some score => ret (saw_candidate score key s)
      end.

(** One iteration of [for key in keys]. *)
Definition scan_key (p : Params) (now : Z) (exclude : gset Z) (key : ApiKey) (s : Scan) : Prog Scan :=
  if decide (k_id key ∈ exclude) then ret (saw_excluded s)
  else if _is_disabled key then ret (saw_disabled s)
  else if may_cool key then
    let! remaining := cooldown_left key now in
    if remaining >? 0 then ret (saw_cooling remaining s)
    else
      assign_key (k_id key) reactivated ;;!
      scan_credits p now (reactivated key) s
  else scan_credits p now key s.

Fixpoint scan (p : Params) (now : Z) (exclude : gset Z) (keys : list ApiKey) (s : Scan) : Prog Scan :=
  match keys with
  | [] => ret s
  | key :: keys' => let! s' := scan_key p now exclude key s in scan p now exclude keys' s'
  end.

(** The refusal when no key is a candidate. *)
Definition refusal (n : Z) (s : Scan) : FcamError :=
  let cooling := sn_cooling_seen s in
  let disabled := sn_disabled_seen s in
  let zero := sn_zero_credit_seen s in
  let excluded := sn_excluded_seen s in
  let rpm := sn_rpm_blocked s in
  if (n <=? disabled + excluded) && (0 <? disabled) && (zero =? 0) && (cooling =? 0) && (rpm =? 0)
  then mkFcamError 503 "ALL_KEYS_DISABLED" "All keys disabled" None
  else if negb (zero =? 0) && (n <=? zero + disabled + excluded + cooling + rpm)
          && (cooling =? 0) && (rpm =? 0)
  then mkFcamError 503 "ALL_KEYS_NO_CREDITS" "All keys have zero remaining credits" None
  else if negb (cooling =? 0) && (n <=? cooling + disabled + excluded + zero + rpm)
  then mkFcamError 429 "ALL_KEYS_COOLING" "All keys cooling" (sn_cooling_retry_after s)
  else if negb (rpm =? 0) && (n <=? rpm + disabled + excluded + zero + cooling)
  then mkFcamError 429 "ALL_KEYS_RATE_LIMITED" "All keys rate-limited (RPM)" (Some 1)
  else mkFcamError 503 "NO_KEY_AVAILABLE" "No key available" None.

(** * The choice *)

(** The two sort keys: [t[1].id] and [(-t[0], t[1].id)]. *)
Definition id_le (x y : Q * ApiKey) : Prop := k_id x.2 ≤ k_id y.2.
Definition better_first (x y : Q * ApiKey) : Prop :=
  (negb (Qle_bool x.1 y.1) || (Qeq_bool x.1 y.1 && (k_id x.2 <=? k_id y.2))) = true.
#[global] Instance id_le_dec : RelDecision id_le.
Proof. intros x y. unfold id_le. apply _. Defined.
#[global] Instance better_first_dec : RelDecision better_first.
Proof. intros x y. unfold better_first. apply _. Defined.

(** The rotation over all the candidates. *)
Definition explore (provider : string) (candidates : list (Q * ApiKey)) : Prog (Q * ApiKey) :=
  let ordered := merge_sort id_le candidates in
  let! cursor := gets (λ w, default 0 (w_rr_cursor w !! provider)) in
  let cur := cursor mod Z.of_nat (length ordered) in
  modify (λ w, set_w_rr_cursor (<[provider := cur + 1]> (w_rr_cursor w)) w) ;;!
  match ordered !! Z.to_nat cur with
  | Some c => ret c
  | None => raise (EOther "IndexError")
  end.

(** [for s, k in near: acc += max(s, 0.0); if r <= acc: chosen = ...; break]. *)
Fixpoint pick (r acc : Q) (near : list (Q * ApiKey)) (chosen : Q * ApiKey) : Q * ApiKey :=
  match near with
  | [] => chosen
  | c :: near' =>
      let acc := (acc + Qmax c.1 0)%Q in
      if r <=?q acc then c else pick r acc near' chosen
  end.

Definition exploit (near_ratio : Q) (candidates : list (Q * ApiKey)) : Prog (Q * ApiKey) :=
  match merge_sort better_first candidates with
  | [] => raise (EOther "IndexError")
  | best :: rest =>
      let near := List.filter (λ c, (best.1 * near_ratio)%Q <=?q c.1) (best :: rest) in
      match near with
      | [] => raise (EOther "IndexError")
      | [c] => ret c
      | first :: _ =>
          let total := foldr (λ c t, (Qmax c.1 0 + t)%Q) 0%Q near in
          if total <=?q 0%Q then ret first
          else
            let! u := random in
            ret (pick (u * total)%Q 0 near first)
      end
  end.

Definition choose (p : Params) (provider : string) (candidates : list (Q * ApiKey))
  : Prog (Q * ApiKey * bool) :=
  let! roll := random in
  if (0%Q <?q pm_epsilon p) && (roll <?q pm_epsilon p) && (1 <? Z.of_nat (length candidates))
  then let! c := explore provider candidates in ret (c, true)
  else let! c := exploit (pm_near_ratio p) candidates in ret (c, false).

Definition db_unavailable : FcamError := mkFcamError 503 "DB_UNAVAILABLE" "Database unavailable" None.

(** The rows [select] works on. *)
Definition provider_keys (provider : string) (t : Tables) : list ApiKey :=
  List.filter (λ k, String.eqb (k_provider k) provider) (by_id (t_keys t)).

Definition select (rt : option RuntimeScheduling) (config : AppConfig) (provider : string)
    (exclude : gset Z) : Prog SelectedKey :=
  let! now := now_utc in
  let! t := catch_all query (λ _, raise (EFcam db_unavailable)) in
  let keys := provider_keys provider t in
  if match keys with [] => true | _ => false end
  then raise_fcam 503 "NO_KEY_CONFIGURED" "No key configured" None
  else if negb (existsb (λ k, k_is_active k && negb (terminal_status k)) keys)
  then raise_fcam 503 "ALL_KEYS_DISABLED" "All keys disabled" None
  else
    let p := parameters rt config in
    let! s := scan p now exclude keys scan0 in
    match sn_candidates s with
    | [] => raise (EFcam (refusal (Z.of_nat (length keys)) s))
    | candidates =>
        let! ' (score, chosen, explored) := choose p provider candidates in
        catch_all commit (λ _, rollback ;;! raise (EFcam db_unavailable)) ;;!
        ret (mkSelectedKey (k_id chosen) now score explored)
    end.
End KeyPool.
End KeyPool.
