(* ===== verification/KeyPoolProps.v ===== *)
(** The scheduler is correct: what a selection finds out about each key ([judged], the
    abstract specification that [scan_key] refines), which keys [select] can return,
    which refusal follows from which findings ([reason]), and how it chooses among the
    usable keys.  The clocks, the limiter and the cooldown store are asked while the
    selection runs; [during] are the states of these surroundings it passes through. *)

From S2P Require Import Prelude Effects PyText PyTime Json Models Config Env RuntimeSettings KeyPool Sim.
Import KeyPool.
Open Scope Z_scope.

Module KeyPoolFacts.
Section KeyPoolFacts.
Context {E : Env}.

Lemma on_host_ok {A} (f : HostState → A * HostState) w :
  on_host f w = (Ok (f (w_host w)).1, set_w_host (f (w_host w)).2 w).
Proof. unfold on_host, step. by destruct (f (w_host w)). Qed.

(** * What passes while a selection runs *)

(** The surroundings a selection reads: clocks and random numbers, and the cooldown store. *)
Definition Surroundings : Type := HostState * CoolState.
Definition surr (w : World) : Surroundings := (w_host w, w_cooldown w).
Inductive passes : relation Surroundings :=
  | p_now h c : passes (h, c) ((h_now h).2, c)
  | p_mono h c : passes (h, c) ((h_mono h).2, c)
  | p_random h c : passes (h, c) ((h_random h).2, c)
  | p_store id h c : passes (h, c) (h, (cd_remaining id c).2).
Definition elapses (w w' : World) : Prop := rtc passes (surr w) (surr w').
#[export] Instance elapses_preorder : PreOrder elapses.
Proof. split; [by intros w; apply rtc_refl|]. intros w1 w2 w3. apply rtc_trans. Qed.
(** The surroundings between [w] and [w']. *)
Definition during (w w' : World) (x : Surroundings) : Prop := rtc passes (surr w) x ∧ rtc passes x (surr w').
Lemma during_mono w0 w w' w1 x : elapses w0 w → elapses w' w1 → during w w' x → during w0 w1 x.
Proof. intros H0 H1 [Hx Hx']. split; by eapply rtc_trans. Qed.
Lemma during_start w w' : elapses w w' → during w w' (surr w).
Proof. intros H. split; [apply rtc_refl|exact H]. Qed.
Lemma during_later w w' w1 x : elapses w' w1 → during w w' x → during w w1 x.
Proof. apply during_mono. reflexivity. Qed.
Lemma during_earlier w0 w w' x : elapses w0 w → during w w' x → during w0 w' x.
Proof. intros H. apply during_mono; [exact H|reflexivity]. Qed.
Lemma elapses_same w w' : surr w' = surr w → elapses w w'.
Proof. unfold elapses. intros ->. apply rtc_refl. Qed.
Lemma on_host_elapses {A} (f : HostState → A * HostState) w :
  (∀ h c, passes (h, c) ((f h).2, c)) → elapses w (on_host f w).2.
Proof. intros Hf. rewrite on_host_ok. apply rtc_once, Hf. Qed.

(** The state components a scan does not write. *)
Definition quiet (w w' : World) : Prop :=
  w_key_limiter w' = w_key_limiter w ∧ w_rr_cursor w' = w_rr_cursor w ∧
  w_key_conc w' = w_key_conc w ∧ w_wire w' = w_wire w ∧ elapses w w'.
#[export] Instance quiet_preorder : PreOrder quiet.
Proof.
  split; [by intros w; split_and!|]. intros w1 w2 w3 (?&?&?&?&?) (?&?&?&?&?). unfold quiet. by split_and!; etrans.
Qed.
Lemma quiet_db s w : quiet w (set_w_db s w).
Proof. unfold quiet. split_and!; try done. by apply elapses_same. Qed.
Lemma quiet_elapses w w' : quiet w w' → elapses w w'.
Proof. by intros (_ & _ & _ & _ & H). Qed.

(** * What a selection finds out about a key *)

Definition in_play (ex : gset Z) (key : ApiKey) : Prop := k_id key ∉ ex ∧ _is_disabled key = false.
Definition out_of_credit (k : ApiKey) : Prop := ∃ c, k_cached_remaining_credits k = Some c ∧ c ≤ 0.

(** What the clocks say when [moment] reads them. *)
Definition moment_at (h : HostState) : Moment := mkMoment (h_mono h).1 (h_now (h_mono h).2).1.
(** The longer of the row's wait and the cooldown store's answer. *)
Definition longest_wait (now : Z) (key : ApiKey) (x : Surroundings) : Z :=
  match (cd_remaining (k_id key) x.2).1 with
  | Ok (Some v) => Z.max (_cooldown_remaining_seconds key now) v
  | _ => _cooldown_remaining_seconds key now
  end.

Section Judged.
Context (p : Params) (now : Z) (ex : gset Z) (lim : Limiter).
(** The surroundings in which the limiter and the store may be asked. *)
Context (D : Surroundings → Prop).

(** The limiter, asked about the key, refuses it; or it does not: there is no rate to
    check, no way to ask without taking a token, or an answer that is not a refusal. *)
Definition limiter_refuses (key : ApiKey) : Prop :=
  0 < k_rate_limit_per_min key ∧ ∃ peek x z, D x ∧ rl_peek = Some peek ∧
    peek (str_int (k_id key)) (k_rate_limit_per_min key) (moment_at x.1) lim = Ok (false, z).
Definition limiter_admits (key : ApiKey) : Prop :=
  k_rate_limit_per_min key ≤ 0 ∨ rl_peek = None ∨
  ∃ peek x, D x ∧ rl_peek = Some peek ∧
    ∀ z, peek (str_int (k_id key)) (k_rate_limit_per_min key) (moment_at x.1) lim ≠ Ok (false, z).
(** Nothing to wait for: no cooldown, or one that is over in the row and in the store. *)
Definition rested (key : ApiKey) : Prop := may_cool key = false ∨ ∃ x, D x ∧ longest_wait now key x ≤ 0.
(** The key as it is rated: as it is, or after its cooldown. *)
Definition rated (key : ApiKey) : ApiKey := if may_cool key then reactivated key else key.

Inductive Verdict :=
  | VExcluded
  | VDisabled
  | VCooling (wait : Z)
  | VNoCredit
  | VRateLimited
  | VCandidate (score : Q) (key : ApiKey).
Inductive judged (key : ApiKey) : Verdict → Prop :=
  | j_excluded : k_id key ∈ ex → judged key VExcluded
  | j_disabled : k_id key ∉ ex → _is_disabled key = true → judged key VDisabled
  | j_cooling x : in_play ex key → may_cool key = true → D x → 0 < longest_wait now key x →
      judged key (VCooling (longest_wait now key x))
  | j_no_credit : in_play ex key → rested key → out_of_credit key → judged key VNoCredit
  | j_rate_limited : in_play ex key → rested key → ¬ out_of_credit key → limiter_refuses key →
      judged key VRateLimited
  | j_candidate fails score : in_play ex key → rested key → ¬ out_of_credit key → limiter_admits key →
      score_key (rated key) now (pm_half_life p) (pm_unknown_baseline p) fails (pm_fail_unit p) = Some score →
      judged key (VCandidate score (rated key)).
End Judged.

Lemma judged_mono p now ex lim (D D' : Surroundings → Prop) key v :
  (∀ x, D x → D' x) → judged p now ex lim D key v → judged p now ex lim D' key v.
Proof.
  intros HD Hj.
  assert (rested now D key → rested now D' key) as Hr by (intros [H|(x & Hx & H)]; [by left|right; eauto]).
  destruct Hj; [by apply j_excluded|by apply j_disabled|by apply j_cooling; auto|by apply j_no_credit; auto|..].
  - apply j_rate_limited; auto. destruct H2 as [Hrate (peek & x & z & Hx & Hp)]. split; [done|].
    exists peek, x, z. auto.
  - eapply j_candidate; eauto. destruct H2 as [H2|[H2|(peek & x & Hx & Hp)]]; [by left|right; by left|].
    right; right. exists peek, x. auto.
Qed.

(** How a verdict changes the local variables of the loop. *)
Definition see (s : Scan) (v : Verdict) : Scan :=
  match v with
  | VExcluded => saw_excluded s
  | VDisabled => saw_disabled s
  | VCooling r => saw_cooling r s
  | VNoCredit => saw_zero_credit s
  | VRateLimited => saw_rpm_blocked s
  | VCandidate score key => saw_candidate score key s
  end.

(** * The scan refines it *)

Lemma rpm_allows_spec key w :
  ∃ b w', _rpm_allows key w = (Ok b, w') ∧ quiet w w' ∧
    if b : bool then limiter_admits (w_key_limiter w) (during w w') key
    else limiter_refuses (w_key_limiter w) (during w w') key.
Proof.
  unfold _rpm_allows. case_if; bool_prop; [exists true, w; split_and!; try done; by left|].
  destruct rl_peek as [peek|] eqn:Ep.
  2:{ exists true, w. split_and!; try done. right. by left. }
  unfold moment, monotonic, now_utc. erewrite bind_run.
  2:{ erewrite bind_run by apply on_host_ok. erewrite bind_run by apply on_host_ok. reflexivity. }
  unfold bind, gets; simpl. set (w' := set_w_host _ _).
  assert (elapses w w') as Hel.
  { eapply rtc_l; [apply (p_mono (w_host w))|]. apply rtc_once, (p_now (h_mono (w_host w)).2). }
  assert (quiet w w') as Hq by (by split_and!). pose proof (during_start w w' Hel) as Hd.
  change (mkMoment _ _) with (moment_at (surr w).1). case_match.
  - destruct a as [[] z]; eexists _, w'; (split; [reflexivity|split; [done|]]).
    + right; right. exists peek, (surr w). split_and!; [done|done|congruence].
    + split; [done|]. by exists peek, (surr w), z.
  - exists true, w'. split; [reflexivity|split; [done|]]. right; right. exists peek, (surr w).
    split_and!; [done|done|congruence].
Qed.

Lemma failure_count_spec id half w :
  ∃ q w', _failure_count id half w = (Ok q, w') ∧ quiet w w'.
Proof.
  unfold _failure_count, monotonic. erewrite bind_run by apply on_host_ok.
  assert (elapses w (set_w_host (h_mono (w_host w)).2 w)) as Hel by apply rtc_once, (p_mono (w_host w)).
  unfold bind, gets, modify, ret. repeat case_match; simplify_eq/=; eexists _, _; by split_and!.
Qed.

Lemma cooldown_left_spec key now w :
  ∃ w', cooldown_left key now w = (Ok (longest_wait now key (surr w)), w') ∧ quiet w w' ∧
    during w w' (surr w).
Proof.
  unfold cooldown_left, bind, step, ret, longest_wait. simpl.
  pose proof (p_store (k_id key) (w_host w) (w_cooldown w)) as Hp.
  destruct (cd_remaining (k_id key) (w_cooldown w)) as [r c]. simpl in *.
  assert (elapses w (set_w_cooldown c w)) as Hel by by apply rtc_once.
  exists (set_w_cooldown c w). split; [by destruct r as [[]|]|].
  split; [by split_and!|by apply during_start].
Qed.

Lemma reactivated_fields key :
  k_id (reactivated key) = k_id key ∧ k_provider (reactivated key) = k_provider key ∧
  k_is_active (reactivated key) = k_is_active key ∧
  k_cached_remaining_credits (reactivated key) = k_cached_remaining_credits key ∧
  k_rate_limit_per_min (reactivated key) = k_rate_limit_per_min key ∧
  k_last_credit_check_at (reactivated key) = k_last_credit_check_at key ∧
  k_cooldown_until (reactivated key) = None.
Proof. unfold reactivated. case_if; done. Qed.
Lemma rated_fields key :
  k_id (rated key) = k_id key ∧ k_cached_remaining_credits (rated key) = k_cached_remaining_credits key ∧
  k_rate_limit_per_min (rated key) = k_rate_limit_per_min key.
Proof. unfold rated. case_if; [|done]. by destruct (reactivated_fields key) as (?&_&_&?&?&_). Qed.

Lemma score_key_none key now h b f u :
  score_key key now h b f u = None ↔ ∃ c, k_cached_remaining_credits key = Some c ∧ c ≤ 0.
Proof.
  unfold score_key. destruct (k_cached_remaining_credits key) as [c|]; simpl.
  - destruct (c <=? 0) eqn:Ec; bool_prop; [by split; eauto|]. split; [done|].
    intros (c' & [= <-] & Hc). lia.
  - split; [done|]. intros (c & ? & _). done.
Qed.

Lemma scan_credits_spec p now ex key s w0 w :
  in_play ex key → elapses w0 w → rested now (during w0 w) key →
  ∃ v w', scan_credits p now (rated key) s w = (Ok (see s v), w') ∧ quiet w w' ∧
    judged p now ex (w_key_limiter w) (during w0 w') key v.
Proof.
  intros Hin H0 Hr0. destruct (rated_fields key) as (Hid & Hc & Hrate).
  assert (∀ w', quiet w w' → rested now (during w0 w') key) as Hr.
  { intros w' Hq%quiet_elapses. destruct Hr0 as [H|(x & Hx & H)]; [by left|right]. exists x.
    split; [by eapply during_later|done]. }
  unfold scan_credits. rewrite Hc.
  destruct (match k_cached_remaining_credits key with Some c => c <=? 0 | None => false end) eqn:Ez.
  { exists VNoCredit, w. split; [reflexivity|]. split; [done|]. apply j_no_credit; [done|by apply Hr|].
    destruct (k_cached_remaining_credits key) as [c|] eqn:Ek; [|done]. bool_prop. by exists c. }
  assert (¬ out_of_credit key) as Hcr.
  { intros (c & Hk & Hle). rewrite Hk in Ez. bool_prop. lia. }
  destruct (rpm_allows_spec (rated key) w) as (b & w1 & Hrpm & Hq1 & Hb).
  erewrite bind_run by exact Hrpm. destruct b; simpl.
  2:{ exists VRateLimited, w1. split; [reflexivity|]. split; [done|]. apply j_rate_limited; [done|by apply Hr|done|].
      unfold limiter_refuses in *. rewrite Hid, Hrate in Hb. destruct Hb as [? (peek & x & z & Hx & Hb)].
      split; [done|]. exists peek, x, z. split; [by eapply during_earlier|done]. }
  destruct (failure_count_spec (k_id (rated key)) (pm_fail_half p) w1) as (q & w2 & Hf & Hq2).
  erewrite bind_run by exact Hf.
  assert (quiet w w2) as Hq by by etrans.
  destruct (score_key (rated key) now _ _ q _) as [score|] eqn:Es.
  - exists (VCandidate score (rated key)), w2. split; [reflexivity|]. split; [done|].
    eapply j_candidate; [done|by apply Hr|done| |exact Es].
    unfold limiter_admits in *. rewrite Hid, Hrate in Hb. destruct Hb as [?|[?|(peek & x & Hx & Hb)]]; [by left|right; by left|].
    right; right. exists peek, x. split; [|done]. by eapply during_mono; [exact H0|apply quiet_elapses, Hq2|].
  - exfalso. apply Hcr. apply score_key_none in Es. by rewrite Hc in Es.
Qed.

Lemma assign_key_quiet id f w : ∃ w', assign_key id f w = (Ok tt, w') ∧ quiet w w'.
Proof. eexists. split; [reflexivity|]. apply quiet_db. Qed.

Lemma scan_key_refines p now ex key s w :
  ∃ v w', scan_key p now ex key s w = (Ok (see s v), w') ∧ quiet w w' ∧
    judged p now ex (w_key_limiter w) (during w w') key v.
Proof.
  unfold scan_key. case_decide as Hex.
  { exists VExcluded, w. split; [reflexivity|]. split; [done|]. by constructor. }
  destruct (_is_disabled key) eqn:Hd.
  { exists VDisabled, w. split; [reflexivity|]. split; [done|]. by constructor. }
  assert (in_play ex key) as Hin by done.
  pose proof (scan_credits_spec p now ex key s w) as Hsc. unfold rated in Hsc.
  destruct (may_cool key) eqn:Hm; [|apply Hsc; [done|reflexivity|by left]].
  destruct (cooldown_left_spec key now w) as (w1 & Hr & Hq & Hx).
  erewrite bind_run by exact Hr. rewrite Z.gtb_ltb. destruct (0 <? _) eqn:Hpos; bool_prop.
  { eexists (VCooling _), w1. split; [reflexivity|]. split; [done|]. by apply j_cooling. }
  destruct (assign_key_quiet (k_id key) reactivated w1) as (w2 & Ha & Hq2).
  erewrite bind_run by exact Ha. destruct (Hsc w2) as (v & w3 & Hs & Hq3 & Hj); [done|by apply quiet_elapses; etrans| |].
  - right. exists (surr w). split; [|done]. eapply during_later, Hx. by apply quiet_elapses.
  - exists v, w3. split; [done|]. split; [by do 2 etrans|].
    destruct Hq as (<- & _), Hq2 as (<- & _). exact Hj.
Qed.

Lemma scan_refines p now ex keys : ∀ s w,
  ∃ vs w', scan p now ex keys s w = (Ok (foldl see s vs), w') ∧ quiet w w' ∧
    Forall2 (judged p now ex (w_key_limiter w) (during w w')) keys vs.
Proof.
  induction keys as [|key keys IH]; intros s w; simpl; [by exists [], w|].
  destruct (scan_key_refines p now ex key s w) as (v & w1 & Hk & Hq & Hj).
  erewrite bind_run by exact Hk. destruct (IH (see s v) w1) as (vs & w2 & Hk2 & Hq2 & Hjs).
  exists (v :: vs), w2. split; [done|]. split; [by etrans|]. destruct Hq as (Hlim & Hq).
  constructor.
  - eapply judged_mono, Hj. intros x. apply during_later. by apply quiet_elapses.
  - rewrite Hlim in Hjs. eapply Forall2_impl; [exact Hjs|]. intros k u. apply judged_mono.
    intros x. apply during_earlier, Hq.
Qed.

(** * What the counters say *)

Definition tally (f : Verdict → bool) (vs : list Verdict) : Z := Z.of_nat (length (List.filter f vs)).
Definition is_cooling (v : Verdict) : bool := match v with VCooling _ => true | _ => false end.
Definition is_disabled (v : Verdict) : bool := match v with VDisabled => true | _ => false end.
Definition is_broke (v : Verdict) : bool := match v with VNoCredit => true | _ => false end.
Definition is_excluded (v : Verdict) : bool := match v with VExcluded => true | _ => false end.
Definition is_limited (v : Verdict) : bool := match v with VRateLimited => true | _ => false end.
Definition candidates_of (vs : list Verdict) : list (Q * ApiKey) :=
  omap (λ v, match v with VCandidate q k => Some (q, k) | _ => None end) vs.
Definition shortest (o : option Z) (vs : list Verdict) : option Z :=
  foldl (λ o v, match v with
                | VCooling r => Some match o with None => r | Some r' => Z.min r' r end
                | _ => o
                end) o vs.

Lemma tally_cons f v vs : tally f (v :: vs) = (if f v then 1 else 0) + tally f vs.
Proof. unfold tally. simpl. case_if; simpl; lia. Qed.

Lemma seen_all vs : ∀ s, let s' := foldl see s vs in
  sn_cooling_seen s' = sn_cooling_seen s + tally is_cooling vs ∧
  sn_disabled_seen s' = sn_disabled_seen s + tally is_disabled vs ∧
  sn_zero_credit_seen s' = sn_zero_credit_seen s + tally is_broke vs ∧
  sn_excluded_seen s' = sn_excluded_seen s + tally is_excluded vs ∧
  sn_rpm_blocked s' = sn_rpm_blocked s + tally is_limited vs ∧
  sn_candidates s' = sn_candidates s ++ candidates_of vs ∧
  sn_cooling_retry_after s' = shortest (sn_cooling_retry_after s) vs.
Proof.
  induction vs as [|v vs IH]; intros s; simpl.
  { unfold tally; simpl. rewrite app_nil_r, !Z.add_0_r. done. }
  destruct (IH (see s v)) as (-> & -> & -> & -> & -> & -> & ->). rewrite !tally_cons.
  destruct v; simpl; split_and!; try lia; try done. by rewrite <-app_assoc.
Qed.

(** Which refusal follows from which findings. *)
Inductive reason (vs : list Verdict) : Z → string → option Z → Prop :=
  | r_cooling r : VCooling r ∈ vs → (∀ r', VCooling r' ∈ vs → r ≤ r') → reason vs 429 "ALL_KEYS_COOLING" (Some r)
  | r_limited : (∀ r, VCooling r ∉ vs) → VRateLimited ∈ vs → reason vs 429 "ALL_KEYS_RATE_LIMITED" (Some 1)
  | r_broke : (∀ r, VCooling r ∉ vs) → VRateLimited ∉ vs → VNoCredit ∈ vs →
      reason vs 503 "ALL_KEYS_NO_CREDITS" None
  | r_disabled : (∀ v, v ∈ vs → v = VExcluded ∨ v = VDisabled) → VDisabled ∈ vs →
      reason vs 503 "ALL_KEYS_DISABLED" None
  | r_tried : (∀ v, v ∈ vs → v = VExcluded) → reason vs 503 "NO_KEY_AVAILABLE" None.


(** * Scores *)

Lemma Qdiv_1_bounds x : (0 <= x)%Q → (0 < 1 / (1 + x) <= 1)%Q.
Proof.
  intros Hx. split; [apply Qlt_shift_div_l; lra|apply Qle_shift_div_r; lra].
Qed.
Lemma Qdiv_1_anti x y : (0 <= x)%Q → (x <= y)%Q → (1 / (1 + y) <= 1 / (1 + x))%Q.
Proof.
  intros Hx Hxy. apply Qle_shift_div_l; [lra|].
  assert (1 / (1 + y) * (1 + x) == (1 + x) / (1 + y))%Q as -> by (field; lra).
  apply Qle_shift_div_r; lra.
Qed.

Definition freshness (key : ApiKey) (now : Z) (half : Q) : Q :=
  match k_last_credit_check_at key with
  | None => (55 # 100)%Q
  | Some last_check =>
      (1 / (1 + Qmax (total_seconds (now - utc_us last_check)) 0 / Qmax half 1))%Q
  end.
Definition failure_factor (fails unit : Q) : Q :=
  if (Qmax unit 0 <=?q 0%Q) || (Qmax fails 0 <=?q 0%Q) then 1%Q
  else (1 / (1 + Qmax fails 0 * Qmax unit 0))%Q.
Definition credit_factor (key : ApiKey) (baseline : Q) : Q :=
  match k_cached_remaining_credits key with
  | None => h_log1p (Qmax baseline 0)
  | Some r => h_log1p (inject_Z (Z.max r 0))
  end.

Lemma score_key_some key now h b f u s :
  score_key key now h b f u = Some s →
  s = (credit_factor key b * freshness key now h * failure_factor f u)%Q.
Proof. unfold score_key. case_match; [done|]. by intros [= <-]. Qed.

Lemma Qdiv_nonneg x y : (0 <= x)%Q → (0 < y)%Q → (0 <= x / y)%Q.
Proof. intros Hx Hy. apply Qle_shift_div_l; [done|lra]. Qed.
Lemma Qmax_pos x y : (0 < y)%Q → (0 < Qmax x y)%Q.
Proof. intros H. eapply Qlt_le_trans; [exact H|apply Q.le_max_r]. Qed.
Lemma Qmax0_nonneg x : (0 <= Qmax x 0)%Q.
Proof. apply Q.le_max_r. Qed.

Lemma age_nonneg t h : (0 <= Qmax t 0 / Qmax h 1)%Q.
Proof. apply Qdiv_nonneg; [apply Qmax0_nonneg|apply Qmax_pos; lra]. Qed.
Lemma freshness_bounds key now half : (0 < freshness key now half <= 1)%Q.
Proof. unfold freshness. case_match; [apply Qdiv_1_bounds, age_nonneg|split; reflexivity || lra]. Qed.
Lemma failure_factor_bounds f u : (0 < failure_factor f u <= 1)%Q.
Proof.
  unfold failure_factor. case_if; [split; lra|]. apply Qdiv_1_bounds.
  apply Qmult_le_0_compat; apply Qmax0_nonneg.
Qed.
Lemma credit_factor_nonneg `{!MathLaws} key b : (0 <= credit_factor key b)%Q.
Proof.
  unfold credit_factor. rewrite <-log1p_zero. case_match; apply log1p_mono; try lra.
  - change 0%Q with (inject_Z 0). rewrite <-Zle_Qle. lia.
  - apply Qmax0_nonneg.
Qed.
Lemma score_nonneg `{!MathLaws} key now h b f u s : score_key key now h b f u = Some s → (0 <= s)%Q.
Proof.
  intros ->%score_key_some. pose proof (freshness_bounds key now h).
  pose proof (failure_factor_bounds f u). pose proof (credit_factor_nonneg key b).
  apply Qmult_le_0_compat; [apply Qmult_le_0_compat|]; lra.
Qed.

(** * The choice *)

Lemma near_ratio_bounds rt config : (0 < pm_near_ratio (parameters rt config) <= 1)%Q.
Proof.
  unfold parameters. destruct rt; simpl.
  all: split; [|apply Q.le_min_r]; apply Q.min_glb_lt; [|lra];
    eapply Qlt_le_trans; [|apply Q.le_max_r]; reflexivity.
Qed.

Lemma pick_in r near : ∀ acc chosen, pick r acc near chosen = chosen ∨ pick r acc near chosen ∈ near.
Proof.
  induction near as [|c near IH]; intros acc chosen; simpl; [by left|].
  case_if; [right; by left|]. destruct (IH (acc + Qmax c.1 0)%Q chosen) as [->|H]; [by left|].
  right. by right.
Qed.

Lemma explore_spec provider cands w :
  cands ≠ [] → ∃ c w', explore provider cands w = (Ok c, w') ∧ c ∈ cands ∧
    w_db w' = w_db w.
Proof.
  intros Hne. unfold explore, bind, gets, modify; simpl.
  set (cur := default 0 _ `mod` _).
  assert (length (merge_sort id_le cands) = length cands) as Hlen
    by apply Permutation_length, merge_sort_Permutation.
  assert (Z.to_nat cur < length (merge_sort id_le cands))%nat as Hlt.
  { assert (0 < Z.of_nat (length (merge_sort id_le cands))) by (rewrite Hlen; destruct cands; simpl; done || lia).
    subst cur. pose proof (Z.mod_pos_bound (default 0 (w_rr_cursor w !! provider)) _ H). lia. }
  apply lookup_lt_is_Some_2 in Hlt as [c Hc]. rewrite Hc.
  eexists c, _. split; [reflexivity|]. split; [|done].
  rewrite <-(merge_sort_Permutation id_le cands). by eapply list_elem_of_lookup_2.
Qed.

Lemma better_first_total : Total better_first.
Proof.
  intros x y. unfold better_first.
  destruct (Qle_bool x.1 y.1) eqn:E1, (Qle_bool y.1 x.1) eqn:E2; simpl; auto.
  - apply Qle_bool_iff in E1, E2.
    assert (Qeq_bool x.1 y.1 = true) as -> by (apply Qeq_bool_iff; lra).
    assert (Qeq_bool y.1 x.1 = true) as -> by (apply Qeq_bool_iff; lra). simpl.
    destruct (Z.le_ge_cases (k_id x.2) (k_id y.2)); [left|right]; apply Z.leb_le; lia.
Qed.
Lemma better_first_trans : Transitive better_first.
Proof.
  intros x y z. unfold better_first. rewrite !orb_true_iff, !andb_true_iff, !negb_true_iff,
    !Qle_bool_false, !Qeq_bool_iff, !Z.leb_le.
  intros [H1|[H1 H1']] [H2|[H2 H2']]; [left; lra..|right; split; [lra|lia]].
Qed.
Lemma better_first_score x y : better_first x y → (y.1 <= x.1)%Q.
Proof.
  unfold better_first. rewrite orb_true_iff, andb_true_iff, negb_true_iff, Qle_bool_false, Qeq_bool_iff.
  intros [H|[H _]]; lra.
Qed.

(** Without exploration the choice is near the best of all the candidates. *)
Lemma exploit_spec ratio cands w :
  cands ≠ [] → (0 < ratio <= 1)%Q → (∀ c, c ∈ cands → (0 <= c.1)%Q) →
  ∃ c w', exploit ratio cands w = (Ok c, w') ∧ c ∈ cands ∧ w_db w' = w_db w ∧
    ∀ c', c' ∈ cands → (c'.1 * ratio <= c.1)%Q.
Proof.
  intros Hne Hr Hpos. unfold exploit.
  pose proof (merge_sort_Permutation better_first cands) as Hperm.
  assert (StronglySorted better_first (merge_sort better_first cands)) as Hsort.
  { pose proof better_first_total. pose proof better_first_trans. by apply StronglySorted_merge_sort; apply _. }
  destruct (merge_sort better_first cands) as [|best rest] eqn:Es.
  { apply Permutation_nil_l in Hperm. by subst. }
  assert (∀ c', c' ∈ cands → (c'.1 <= best.1)%Q) as Hbest.
  { intros c' Hc. rewrite <-Hperm in Hc. apply elem_of_cons in Hc as [->|Hc]; [lra|].
    apply StronglySorted_inv in Hsort as [_ Hf]. rewrite Forall_forall in Hf.
    by apply better_first_score, Hf. }
  assert (best ∈ cands) as Hbin by (rewrite <-Hperm; by left).
  set (near := List.filter _ (best :: rest)).
  assert (∀ c, c ∈ near → c ∈ cands ∧ (best.1 * ratio <= c.1)%Q) as Hnear.
  { intros c Hc. subst near. rewrite list_elem_of_In, filter_In, <-list_elem_of_In, Hperm in Hc.
    by rewrite Qle_bool_iff in Hc. }
  assert (∀ c, c ∈ near → c ∈ cands ∧ ∀ c', c' ∈ cands → (c'.1 * ratio <= c.1)%Q) as Hgood.
  { intros c [Hin Hle]%Hnear. split; [done|]. intros c' Hc'.
    eapply Qle_trans; [|exact Hle]. apply Qmult_le_compat_r; [by apply Hbest|lra]. }
  assert (best ∈ near) as Hbn.
  { subst near. rewrite list_elem_of_In, filter_In, <-list_elem_of_In. split; [by left|].
    apply Qle_bool_iff. rewrite <-(Qmult_1_r best.1) at 2. specialize (Hpos best Hbin).
    rewrite (Qmult_comm _ ratio), (Qmult_comm _ 1). apply Qmult_le_compat_r; lra. }
  clearbody near. destruct near as [|c1 [|c2 near]]; [by apply not_elem_of_nil in Hbn| |].
  - exists c1, w. split; [done|]. destruct (Hgood c1) as [? ?]; [by left|]. done.
  - case_if.
    + exists c1, w. split; [done|]. destruct (Hgood c1) as [? ?]; [by left|]. done.
    + unfold random. erewrite bind_run by apply on_host_ok.
      eexists _, _. split; [reflexivity|]. match goal with |- context [pick ?r ?a ?l ?c] =>
        destruct (pick_in r l a c) as [Hp|Hp] end.
      * rewrite Hp. destruct (Hgood c1) as [? ?]; [by left|]. done.
      * by destruct (Hgood _ Hp) as [? ?].
Qed.

(** * The whole selection *)

Lemma query_quiet `{!OrmLaws} w :
  match query w with
  | (Ok t, w') => t = view w ∧ view w' = view w ∧ quiet w w'
  | (Raise _, w') => quiet w w'
  end.
Proof.
  unfold query, bind, step. pose proof (view_query (w_db w)) as Hv.
  destruct (db_query (w_db w)) as [[] s]; simpl in *; [|apply quiet_db].
  unfold view. simpl. rewrite Hv. split; [done|]. split; [done|]. apply quiet_db.
Qed.

(** Everything a selection can do, in terms of what it found out about the keys. *)
Definition select_outcome (rt : option RuntimeScheduling) (config : AppConfig) (provider : string)
    (ex : gset Z) (w : World) (r : Res SelectedKey) (w' : World) : Prop :=
  let keys := provider_keys provider (view w) in
  let p := parameters rt config in
  let now := (h_now (w_host w)).1 in
  let found vs := Forall2 (judged p now ex (w_key_limiter w) (during w w')) keys vs in
  match r with
  | Raise e =>
      (e = EFcam db_unavailable ∧ (db_query (w_db w)).1 = false) ∨
      (e = EFcam db_unavailable ∧ ∃ vs s, found vs ∧ candidates_of vs ≠ [] ∧ (db_commit s).1 ≠ Committed) ∨
      (keys = [] ∧ e = EFcam (mkFcamError 503 "NO_KEY_CONFIGURED" "No key configured" None)) ∨
      (keys ≠ [] ∧ (∀ k, k ∈ keys → _is_disabled k = true) ∧
         e = EFcam (mkFcamError 503 "ALL_KEYS_DISABLED" "All keys disabled" None)) ∨
      (keys ≠ [] ∧ ∃ vs, found vs ∧ candidates_of vs = [] ∧
         e = EFcam (refusal (Z.of_nat (length vs)) (foldl see scan0 vs)))
  | Ok sel =>
      sel_now sel = now ∧ ∃ vs c, found vs ∧ c ∈ candidates_of vs ∧
        sel_api_key sel = k_id c.2 ∧ sel_score sel = c.1 ∧
        (sel_explore sel = false → ∀ c', c' ∈ candidates_of vs → (c'.1 * pm_near_ratio p <= c.1)%Q)
  end.

(** Choosing and committing let no more than time pass. *)
Lemma runs_random : runs elapses random.
Proof. intros w. apply on_host_elapses, p_random. Qed.
Lemma runs_elapses_modify f : (∀ w, surr (f w) = surr w) → runs elapses (modify f).
Proof. intros Hf w. apply elapses_same, Hf. Qed.
Lemma choose_elapses p provider cands : runs elapses (choose p provider cands).
Proof.
  unfold choose, explore, exploit. pose proof runs_random.
  runs_auto; by apply runs_elapses_modify.
Qed.
Lemma commit_elapses w : elapses w (commit w).2.
Proof.
  apply elapses_same. unfold commit, bind, step. by destruct (db_commit (w_db w)) as [[] s].
Qed.

Lemma choose_spec p provider cands w :
  cands ≠ [] → (0 < pm_near_ratio p <= 1)%Q → (∀ c, c ∈ cands → (0 <= c.1)%Q) →
  ∃ c b w', choose p provider cands w = (Ok (c, b), w') ∧ c ∈ cands ∧
    (b = false → ∀ c', c' ∈ cands → (c'.1 * pm_near_ratio p <= c.1)%Q).
Proof.
  intros Hne Hr Hpos. unfold choose, random. erewrite bind_run by apply on_host_ok.
  case_if.
  - destruct (explore_spec provider cands (set_w_host (h_random (w_host w)).2 w) Hne)
      as (c & w' & He & Hin & _).
    erewrite bind_run by exact He. by exists c, true, w'.
  - destruct (exploit_spec (pm_near_ratio p) cands (set_w_host (h_random (w_host w)).2 w) Hne Hr Hpos)
      as (c & w' & He & Hin & _ & Hb).
    erewrite bind_run by exact He. by exists c, false, w'.
Qed.

(** A candidate and the key it was. *)
Lemma candidate_from p now ex lim D keys vs score key' :
  Forall2 (judged p now ex lim D) keys vs → (score, key') ∈ candidates_of vs →
  ∃ key fails, key ∈ keys ∧ in_play ex key ∧ rested now D key ∧ ¬ out_of_credit key ∧
    limiter_admits lim D key ∧ key' = rated key ∧
    score_key key' now (pm_half_life p) (pm_unknown_baseline p) fails (pm_fail_unit p) = Some score.
Proof.
  intros Hf (v & Hv & Hc)%list_elem_of_omap. destruct v; simplify_eq.
  apply list_elem_of_lookup in Hv as [i Hi]. destruct (Forall2_lookup_r _ _ _ _ _ Hf Hi) as (key & Hk & Hj).
  apply list_elem_of_lookup_2 in Hk. inversion Hj; subst. by exists key, fails.
Qed.
Lemma candidates_nonneg `{!MathLaws} p now ex lim D keys vs :
  Forall2 (judged p now ex lim D) keys vs → ∀ c, c ∈ candidates_of vs → (0 <= c.1)%Q.
Proof.
  intros Hf [score key'] Hc. destruct (candidate_from _ _ _ _ _ _ _ _ _ Hf Hc) as (? & f & _ & _ & _ & _ & _ & _ & Hs).
  by eapply score_nonneg.
Qed.

Lemma select_spec `{!OrmLaws, !MathLaws} rt config provider ex w :
  let '(r, w') := select rt config provider ex w in select_outcome rt config provider ex w r w'.
Proof.
  unfold select, now_utc. erewrite bind_run by apply on_host_ok.
  unfold select_outcome. set (now := (h_now (w_host w)).1). set (w1 := set_w_host _ w).
  assert (elapses w w1) as H1 by apply rtc_once, (p_now (w_host w)).
  unfold bind at 1. unfold catch_all at 1, try_except at 1.
  destruct (query w1) as [[t|e] w2] eqn:Eq.
  2:{ left. split; [done|]. unfold query, bind, step in Eq. simpl in Eq.
      by destruct (db_query (w_db w)) as [[] s]. }
  pose proof (query_quiet w1) as Hq. rewrite Eq in Hq. destruct Hq as (Ht & Hv & Hq).
  assert (t = view w) as -> by done. clear Ht.
  remember (provider_keys provider (view w)) as keys eqn:Hkeys.
  destruct keys as [|k0 keys']; [right; right; left; done|].
  remember (k0 :: keys') as keys. clear Hkeys. assert (keys ≠ []) as Hne by by subst.
  case_if.
  { do 3 right; left. split_and!; [done| |done]. intros k Hk. bool_prop.
    unfold _is_disabled. destruct (k_is_active k) eqn:Ha; simpl; [|done].
    destruct (terminal_status k) eqn:Hs; [done|]. exfalso.
    apply not_true_iff_false in Heqb. apply Heqb, existsb_exists. exists k.
    rewrite <-list_elem_of_In, Ha, Hs. by subst. }
  destruct (scan_refines (parameters rt config) now ex keys scan0 w2) as (vs & w3 & Hs & Hq3 & Hf).
  erewrite bind_run by exact Hs. rewrite (proj1 Hq) in Hf. simpl in Hf.
  destruct (seen_all vs scan0) as (_ & _ & _ & _ & _ & Hcs & _). simpl in Hcs. rewrite Hcs.
  assert (∀ w', elapses w3 w' → Forall2 (judged (parameters rt config) now ex (w_key_limiter w) (during w w')) keys vs) as Hfound.
  { intros w' Hw'. eapply Forall2_impl; [exact Hf|]. intros k v. apply judged_mono. intros x.
    apply during_mono; [by etrans; [exact H1|apply quiet_elapses]|done]. }
  destruct (candidates_of vs) as [|c0 cs] eqn:Ec.
  { do 4 right. split; [done|]. exists vs. rewrite (Forall2_length _ _ _ Hf). split_and!; [|done|done].
    by apply Hfound. }
  destruct (choose_spec (parameters rt config) provider (candidates_of vs) w3)
    as (c & b & w4 & Hc & Hin & Hbest).
  { by rewrite Ec. } { apply near_ratio_bounds. } { by eapply candidates_nonneg. }
  pose proof (choose_elapses (parameters rt config) provider (candidates_of vs) w3) as H34.
  rewrite <-Ec. destruct c as [score chosen]. erewrite bind_run by exact Hc. rewrite Hc in H34. simpl in H34.
  pose proof (commit_elapses w4) as H45.
  unfold bind, catch_all, try_except, rollback, modify, raise.
  destruct (commit w4) as [[[]|e] w5] eqn:Em; simpl in *.
  - split; [done|]. exists vs, (score, chosen). split_and!; try done. apply Hfound. by etrans.
  - right; left. split; [done|]. exists vs, (w_db w4). split_and!; [|by rewrite Ec|].
    + apply Hfound. etrans; [exact H34|]. etrans; [exact H45|]. by apply elapses_same.
    + unfold commit, bind, step in Em. simpl in Em. by destruct (db_commit (w_db w4)) as [[] s].
Qed.

Lemma select_fresh `{!OrmLaws, !MathLaws} rt config provider ex w sel w' :
  select rt config provider ex w = (Ok sel, w') → sel_api_key sel ∉ ex.
Proof.
  intros Hsel. pose proof (select_spec rt config provider ex w) as Hs. rewrite Hsel in Hs.
  destruct Hs as (_ & vs & [score key'] & Hf & Hc & Hid & _).
  destruct (candidate_from _ _ _ _ _ _ _ _ _ Hf Hc) as (key & f & _ & [Hex _] & _ & _ & _ & -> & _).
  rewrite Hid. simpl. by destruct (rated_fields key) as (-> & _).
Qed.

Lemma provider_keys_spec provider t k :
  k ∈ provider_keys provider t ↔ k_provider k = provider ∧ ∃ i, t_keys t !! i = Some k.
Proof.
  unfold provider_keys. rewrite list_elem_of_In, filter_In, <-list_elem_of_In, elem_of_by_id,
    String.eqb_eq. tauto.
Qed.
(** The key that is selected is switched on in the table. *)
Lemma select_in_service `{!OrmLaws, !MathLaws} rt config provider ex w sel w' :
  select rt config provider ex w = (Ok sel, w') →
  ∃ i key, t_keys (view w) !! i = Some key ∧ k_id key = sel_api_key sel ∧ k_is_active key = true.
Proof.
  intros Hsel. pose proof (select_spec rt config provider ex w) as Hs. rewrite Hsel in Hs.
  destruct Hs as (_ & vs & [score key'] & Hf & Hc & Hid & _).
  destruct (candidate_from _ _ _ _ _ _ _ _ _ Hf Hc) as (key & f & Hin & [_ Hdis] & _ & _ & _ & -> & _).
  apply provider_keys_spec in Hin as (_ & i & Hlook). exists i, key. rewrite Hid. unfold _is_disabled in Hdis.
  split_and!; [done| |by destruct (k_is_active key)]. simpl. by destruct (rated_fields key) as (->&_).
Qed.
End KeyPoolFacts.
End KeyPoolFacts.

Module KeyPoolTheorems.
Import KeyPoolFacts.
Section KeyPoolTheorems.
Context {E : Env}.

Lemma int_seconds_nonpos us : Z.max (int_seconds us) 0 = 0 → us < second.
Proof.
  unfold int_seconds, second. intros H. destruct (Z.lt_ge_cases us 1000000) as [|Hge]; [done|].
  rewrite Z.quot_div_nonneg in H by lia.
  assert (1 <= us / 1000000) by (apply Z.div_le_lower_bound; lia). lia.
Qed.

Lemma longest_wait_row now key x : longest_wait now key x ≤ 0 → _cooldown_remaining_seconds key now = 0.
Proof.
  unfold longest_wait. assert (0 ≤ _cooldown_remaining_seconds key now)
    by (unfold _cooldown_remaining_seconds; case_match; lia).
  repeat case_match; lia.
Qed.

(** C4. A selected key is one that may be used: a row of the requested provider, not
    tried before in this request, active and in no terminal status, not known to be
    out of credits, and with less than a second of its cooldown left by the clock at
    the start of the selection; if the row looks as if it had a cooldown, the
    cooldown store, asked during the selection, named none either.  And where the
    rate limiter can be asked without taking a token, it was asked about this key
    during the selection and did not refuse it.  (The limiter in memory can be asked,
    the one in Redis cannot: there a rate is only checked when the key is used.) *)
Theorem select_sound `{!OrmLaws, !MathLaws} rt config provider ex w sel w' :
  select rt config provider ex w = (Ok sel, w') →
  sel_now sel = (h_now (w_host w)).1 ∧
  ∃ i key, t_keys (view w) !! i = Some key ∧ k_id key = sel_api_key sel ∧
    k_provider key = provider ∧ sel_api_key sel ∉ ex ∧
    k_is_active key = true ∧ terminal_status key = false ∧
    (∀ c, k_cached_remaining_credits key = Some c → 0 < c) ∧
    (∀ t, k_cooldown_until key = Some t → utc_us t - sel_now sel < second) ∧
    (may_cool key = true → ∃ x, during w w' x ∧
       ∀ v, (cd_remaining (k_id key) x.2).1 = Ok (Some v) → v ≤ 0) ∧
    (∀ peek, rl_peek = Some peek → 0 < k_rate_limit_per_min key → ∃ x, during w w' x ∧
       ∀ z, peek (str_int (k_id key)) (k_rate_limit_per_min key) (moment_at x.1) (w_key_limiter w) ≠ Ok (false, z)).
Proof.
  intros Hsel. pose proof (select_spec rt config provider ex w) as Hs. rewrite Hsel in Hs.
  destruct Hs as (Hnow & vs & [score key'] & Hf & Hc & Hid & _ & _). simpl in Hid. rewrite Hnow. split; [done|].
  destruct (candidate_from _ _ _ _ _ _ _ _ _ Hf Hc)
    as (key & f & Hin & [Hex Hdis] & Hrested & Hcr & Hrpm & -> & _).
  apply provider_keys_spec in Hin as (Hp & i & Hlook). exists i, key.
  rewrite Hid. destruct (rated_fields key) as (-> & _). unfold _is_disabled in Hdis.
  destruct (k_is_active key); simpl in Hdis; [|done].
  split_and!; try done.
  - intros c Hc'. destruct (Z.lt_ge_cases 0 c) as [|Hle]; [done|]. destruct Hcr. by exists c.
  - intros t Ht. destruct Hrested as [Hm|(x & _ & Hx)].
    + unfold may_cool in Hm. rewrite Ht, orb_true_r in Hm. done.
    + apply longest_wait_row in Hx. unfold _cooldown_remaining_seconds in Hx. rewrite Ht in Hx.
      by apply int_seconds_nonpos.
  - intros Hm. destruct Hrested as [Hn|(x & Hd & Hx)]; [congruence|]. exists x. split; [done|].
    intros v Hv. unfold longest_wait in Hx. rewrite Hv in Hx. lia.
  - intros peek Hpeek Hrate. destruct Hrpm as [Hr|[Hr|(peek' & x & Hd & Hpk & Hz)]]; [lia|congruence|].
    exists x. split; [done|]. congruence.
Qed.



(** When the scheduler does not explore, the chosen key's score is within the
    configured ratio of the best: no candidate's score times the ratio exceeds
    it; and a choice among candidates is always made. *)
Theorem choose_near_best `{!MathLaws} p provider cands w :
  cands ≠ [] → (0 < pm_near_ratio p <= 1)%Q → (∀ c, c ∈ cands → (0 <= c.1)%Q) →
  ∃ c b w', choose p provider cands w = (Ok (c, b), w') ∧ c ∈ cands ∧
    (b = false → ∀ c', c' ∈ cands → (c'.1 * pm_near_ratio p <= c.1)%Q).
Proof. apply choose_spec. Qed.

(** [n] explorations in a row over the same candidates. *)
Fixpoint rotation (n : nat) (provider : string) (cands : list (Q * ApiKey)) : Prog (list (Q * ApiKey)) :=
  match n with
  | O => ret []
  | S n' =>
      let! c := explore provider cands in
      let! cs := rotation n' provider cands in
      ret (c :: cs)
  end.

Definition cursor_at (provider : string) (w : World) : Z := default 0 (w_rr_cursor w !! provider).

Lemma explore_at provider cands w a c :
  merge_sort id_le cands !! a = Some c →
  cursor_at provider w mod Z.of_nat (length cands) = Z.of_nat a →
  ∃ w', explore provider cands w = (Ok c, w') ∧ cursor_at provider w' = Z.of_nat a + 1.
Proof.
  intros Hc Ha. unfold explore, bind, gets, modify; simpl.
  assert (length (merge_sort id_le cands) = length cands) as ->
    by apply Permutation_length, merge_sort_Permutation.
  fold (cursor_at provider w). rewrite Ha, Nat2Z.id, Hc.
  eexists. split; [reflexivity|]. unfold cursor_at; simpl. by rewrite lookup_insert_eq.
Qed.

Lemma rotation_at provider cands : ∀ k a w,
  (a + k ≤ length cands)%nat →
  cursor_at provider w mod Z.of_nat (length cands) = Z.of_nat a mod Z.of_nat (length cands) →
  ∃ w', rotation k provider cands w = (Ok (take k (drop a (merge_sort id_le cands))), w') ∧
    cursor_at provider w' mod Z.of_nat (length cands) = Z.of_nat (a + k) mod Z.of_nat (length cands).
Proof.
  assert (length (merge_sort id_le cands) = length cands) as Hlen
    by apply Permutation_length, merge_sort_Permutation.
  induction k as [|k IH]; intros a w Hak Hcur; simpl.
  { exists w. by rewrite Nat.add_0_r. }
  destruct (lookup_lt_is_Some_2 (merge_sort id_le cands) a) as [c Hc]; [lia|].
  destruct (explore_at provider cands w a c Hc) as (w1 & He & Hcur1).
  { rewrite Hcur. apply Z.mod_small. lia. }
  erewrite bind_run by exact He.
  destruct (IH (S a) w1) as (w2 & Hr & Hcur2).
  { lia. } { rewrite Hcur1. f_equal. lia. }
  erewrite bind_run by exact Hr. exists w2. split; [|by rewrite Hcur2; do 2 f_equal; lia].
  unfold ret. do 2 f_equal. by rewrite (drop_S _ c a).
Qed.

Lemma rotation_app provider cands k1 k2 : ∀ w l1 w1 l2 w2,
  rotation k1 provider cands w = (Ok l1, w1) → rotation k2 provider cands w1 = (Ok l2, w2) →
  rotation (k1 + k2) provider cands w = (Ok (l1 ++ l2), w2).
Proof.
  induction k1 as [|k1 IH]; simpl; intros w l1 w1 l2 w2 H1 H2.
  { by injection H1 as <- <-. }
  apply bind_ok in H1 as (c & w3 & He & H1). apply bind_ok in H1 as (cs & w4 & Hr & H1).
  injection H1 as <- <-. erewrite bind_run by exact He.
  erewrite bind_run by by eapply IH. done.
Qed.

(** Exploration is fair: whatever the cursor of the provider is, as many
    explorations in a row as there are candidates choose every candidate
    exactly once. *)
Theorem exploration_is_fair provider cands w :
  cands ≠ [] →
  ∃ chosen w', rotation (length cands) provider cands w = (Ok chosen, w') ∧
    Permutation chosen cands.
Proof.
  intros Hne. set (n := length cands).
  assert (0 < Z.of_nat n) by (subst n; destruct cands; simpl; done || lia).
  pose proof (Z.mod_pos_bound (cursor_at provider w) (Z.of_nat n) ltac:(lia)) as Hb.
  set (a := Z.to_nat (cursor_at provider w mod Z.of_nat n)).
  destruct (rotation_at provider cands (n - a) a w) as (w1 & H1 & Hc1); [lia|..].
  { fold n. subst a. rewrite Z2Nat.id by lia. by rewrite Z.mod_mod by lia. }
  destruct (rotation_at provider cands a 0 w1) as (w2 & H2 & _); [lia|..].
  { rewrite Hc1. fold n. replace (a + (n - a))%nat with n by lia.
    rewrite Z.mod_same, Z.mod_0_l by lia. done. }
  eexists _, w2. replace n with (n - a + a)%nat at 1 by lia.
  split; [by eapply rotation_app|].
  assert (length (merge_sort id_le cands) = n) as Hlen
    by apply Permutation_length, merge_sort_Permutation.
  rewrite take_ge by (rewrite length_drop; lia). rewrite drop_0.
  rewrite Permutation_app_comm, take_drop. apply merge_sort_Permutation.
Qed.

(** The score ranks keys as intended: it is never negative, and of two keys the
    one with at least the credits, at least as fresh a credit check and no more
    recent failures does not score lower. *)
Theorem score_monotone `{!MathLaws} k1 k2 r1 r2 t1 t2 now half base f1 f2 unit s1 s2 :
  k_cached_remaining_credits k1 = Some r1 → k_cached_remaining_credits k2 = Some r2 → r1 ≤ r2 →
  k_last_credit_check_at k1 = Some t1 → k_last_credit_check_at k2 = Some t2 → utc_us t1 ≤ utc_us t2 →
  (f2 <= f1)%Q →
  score_key k1 now half base f1 unit = Some s1 → score_key k2 now half base f2 unit = Some s2 →
  (0 <= s1 <= s2)%Q.
Proof.
  intros Hr1 Hr2 Hr Ht1 Ht2 Ht Hf Hs1 Hs2. split; [by eapply score_nonneg|].
  apply score_key_some in Hs1 as ->. apply score_key_some in Hs2 as ->.
  assert (credit_factor k1 base <= credit_factor k2 base)%Q as Hc.
  { unfold credit_factor. rewrite Hr1, Hr2. apply log1p_mono.
    - change 0%Q with (inject_Z 0). rewrite <-Zle_Qle. lia.
    - rewrite <-Zle_Qle. lia. }
  assert (freshness k1 now half <= freshness k2 now half)%Q as Hfr.
  { unfold freshness. rewrite Ht1, Ht2. apply Qdiv_1_anti; [apply age_nonneg|].
    apply Qmult_le_compat_r; [|apply Qlt_le_weak, Qinv_lt_0_compat, Qmax_pos; lra].
    apply Q.max_le_compat_r. unfold total_seconds, Qle; simpl. lia. }
  assert (failure_factor f1 unit <= failure_factor f2 unit)%Q as Hfa.
  { pose proof (failure_factor_bounds f1 unit) as [_ ?].
    unfold failure_factor at 2. case_if; [done|]. apply orb_false_iff in Heqb as [Hu Hf2].
    bool_prop. assert (Qmax f2 0 <= Qmax f1 0)%Q by by apply Q.max_le_compat_r.
    unfold failure_factor. destruct (_ || _) eqn:Hor.
    - apply orb_true_iff in Hor as [?|?]; bool_prop; lra.
    - apply Qdiv_1_anti; [apply Qmult_le_0_compat; apply Qmax0_nonneg|].
      apply Qmult_le_compat_r; [done|apply Qmax0_nonneg]. }
  pose proof (credit_factor_nonneg k1 base). pose proof (freshness_bounds k1 now half).
  pose proof (failure_factor_bounds f1 unit).
  apply Qmult_le_compat_nonneg; [|split; lra].
  split; [apply Qmult_le_0_compat; lra|]. apply Qmult_le_compat_nonneg; split; lra.
Qed.

Definition NETWORK_FAILURE_REASONS : list string :=
  ["timeout"; "http_error"; "connect_error"; "connection_error"; "network"; "read_timeout";
   "write_timeout"; "pool_timeout"; "upstream_5xx"; "5xx"; "server_error"].

(** A failure lowers a key's score only when the key is to blame: with a status
    code, exactly 401, 402 and 429 count, whatever the reason string says; the
    transport reasons never count. *)
Theorem only_key_failures_penalised :
  (∀ reason code, code ≠ 0 →
     is_4xx_score_failure reason (Some code) = true ↔ code = 401 ∨ code = 402 ∨ code = 429) ∧
  (∀ reason, reason ∈ NETWORK_FAILURE_REASONS → is_4xx_score_failure reason None = false).
Proof.
  split.
  - intros reason code Hc. unfold is_4xx_score_failure, KEY_ATTRIBUTABLE_STATUSES, z_in. simpl.
    apply Z.eqb_neq in Hc. rewrite Hc. simpl.
    destruct (code =? 401) eqn:E1, (code =? 402) eqn:E2, (code =? 429) eqn:E3; simpl; bool_prop; lia.
  - apply Forall_forall. repeat constructor.
Qed.

(** The memory of a key's failures fades: read back at any later time it is not
    negative and not more than was recorded, and what is stored afterwards is
    what was returned (nothing, once it is below a twentieth). *)
Theorem failure_memory_fades `{!MathLaws} id half w count last :
  w_nn_failures w !! id = Some (count, last) → (0 <= count)%Q →
  ∃ q w', _failure_count id half w = (Ok q, w') ∧ (0 <= q <= count)%Q ∧
    match w_nn_failures w' !! id with
    | Some (count', _) => q = count' ∨ ((q == 0)%Q ∧ (count' == 0)%Q)
    | None => (q == 0)%Q
    end.
Proof.
  intros Hl Hc. unfold _failure_count, monotonic. erewrite bind_run by apply on_host_ok.
  unfold bind at 1, gets. simpl. rewrite Hl. set (now := (h_mono _).1).
  case_if; bool_prop.
  { eexists _, _. split; [reflexivity|]. split; [split; lra|]. simpl. rewrite Hl. right. split; lra. }
  set (x := (Qmax (now - last) 0 / Qmax half 1)%Q).
  assert (0 <= x)%Q as Hx by apply age_nonneg.
  pose proof (half_pow_pos x Hx) as H1. pose proof (half_pow_le1 x Hx) as H2.
  assert (0 <= count * h_half_pow x <= count)%Q as Hb.
  { split; [apply Qmult_le_0_compat; lra|].
    rewrite <-(Qmult_1_r count) at 2. apply Qmult_le_l; lra. }
  case_if; bool_prop; eexists _, _; (split; [reflexivity|]); simpl.
  - split; [split; lra|]. by rewrite lookup_delete_eq.
  - split; [exact Hb|]. rewrite lookup_insert_eq. by left.
Qed.
End KeyPoolTheorems.

(** * Concrete inputs *)

Import Simulation.

Definition pool_rows : list ApiKey :=
  [sim_key 1 "firecrawl" (Some 0); sim_key 2 "firecrawl" (Some 40); sim_key 3 "exa" None;
   sim_key 4 "firecrawl" (Some 900)].
Definition pool_world : World := sim_world (sim_tables pool_rows []) [(1 # 2)%Q] [].
Definition pool_select (ex : gset Z) : Res SelectedKey * World :=
  select None default_AppConfig "firecrawl" ex pool_world.

Lemma pool_selects : (pool_select ∅).1 =
  Ok (mkSelectedKey 4 T0 (900 * (55 # 100) * 1)%Q false).
Proof. vm_compute. reflexivity. Qed.

Lemma pool_rows_ids i key : t_keys (view pool_world) !! i = Some key → i = k_id key.
Proof.
  intros Hk. assert (In (i, key) (map_to_list (t_keys (view pool_world)))) as Hin
    by by apply list_elem_of_In, elem_of_map_to_list.
  vm_compute in Hin. repeat destruct Hin as [[= <- <-]|Hin]; done.
Qed.

Lemma select_sound_witness :
  ∃ i key, t_keys (view pool_world) !! i = Some key ∧ k_id key = 2 ∧ k_provider key = "firecrawl" ∧
    ∃ peek x, rl_peek = Some peek ∧ during pool_world (pool_select {[4]}).2 x ∧
      ∀ z, peek "2" 10 (moment_at x.1) (w_key_limiter pool_world) ≠ Ok (false, z).
Proof.
  destruct (select_sound None default_AppConfig "firecrawl" {[4]} pool_world
    (mkSelectedKey 2 T0 (40 * (55 # 100) * 1)%Q false) (pool_select {[4]}).2)
    as (_ & i & key & Hk & Hid & Hp & _ & _ & _ & _ & _ & _ & Hl).
  - apply (run_eq (select None default_AppConfig "firecrawl" {[4]}) pool_world). vm_compute. reflexivity.
  - exists i, key. split; [exact Hk|]. split; [exact Hid|]. split; [exact Hp|].
    assert (k_rate_limit_per_min key = 10) as Hrate.
    { assert (i = k_id key) as -> by (revert Hk; clear; apply pool_rows_ids). rewrite Hid in Hk.
      vm_compute in Hk. injection Hk as <-. reflexivity. }
    destruct (Hl _ eq_refl) as (x & Hx & Hz); [lia|]. eexists _, x. split; [reflexivity|]. split; [exact Hx|].
    rewrite Hid, Hrate in Hz. exact Hz.
Defined.
Lemma choose_near_best_witness :
  let cands := [(1%Q, sim_key 1 "exa" None); (100%Q, sim_key 2 "exa" None); (98%Q, sim_key 4 "exa" None)] in
  ∃ c b w', choose (parameters None default_AppConfig) "exa" cands pool_world = (Ok (c, b), w') ∧ c ∈ cands.
Proof.
  destruct (choose_near_best (parameters None default_AppConfig) "exa"
    [(1%Q, sim_key 1 "exa" None); (100%Q, sim_key 2 "exa" None); (98%Q, sim_key 4 "exa" None)] pool_world)
    as (c & b & w' & H & Hin & _).
  - discriminate.
  - split; vm_compute; [reflexivity|discriminate].
  - intros c Hc. repeat (apply elem_of_cons in Hc as [->|Hc]; [vm_compute; discriminate|]).
    by apply not_elem_of_nil in Hc.
  - exists c, b, w'. split; [exact H|exact Hin].
Defined.
Lemma exploration_is_fair_witness :
  let cands := [(1%Q, sim_key 7 "exa" None); (2%Q, sim_key 5 "exa" None)] in
  ∃ chosen w', rotation 2 "exa" cands pool_world = (Ok chosen, w') ∧ Permutation chosen cands.
Proof.
  apply (exploration_is_fair "exa" [(1%Q, sim_key 7 "exa" None); (2%Q, sim_key 5 "exa" None)] pool_world).
  discriminate.
Defined.
Definition checked_key (c t : Z) : ApiKey :=
  set_k_last_credit_check_at (Some (Naive t)) (sim_key 1 "exa" (Some c)).
Lemma score_monotone_witness :
  ∃ s1 s2, score_key (checked_key 5 0) second 60 50 2 1 = Some s1 ∧
    score_key (checked_key 6 second) second 60 50 1 1 = Some s2 ∧ (0 <= s1 <= s2)%Q.
Proof.
  eexists _, _. split; [reflexivity|]. split; [reflexivity|].
  apply (score_monotone (checked_key 5 0) (checked_key 6 second) 5 6 (Naive 0) (Naive second)
    second 60 50 2 1 1); try reflexivity; try lra; unfold second; simpl; lia.
Defined.
Lemma failure_memory_fades_witness :
  let w := set_w_nn_failures {[ 3 := (2%Q, 700%Q) ]} pool_world in
  ∃ q w', _failure_count 3 300 w = (Ok q, w') ∧ (0 <= q <= 2)%Q.
Proof.
  destruct (failure_memory_fades 3 300 (set_w_nn_failures {[ 3 := (2%Q, 700%Q) ]} pool_world) 2 700)
    as (q & w' & H & Hq & _); [reflexivity|lra|].
  exists q, w'. split; [exact H|exact Hq].
Defined.
End KeyPoolTheorems.
