(* ===== verification/CreditSchedule.v ===== *)
(** [calculate_next_refresh_time] of [app/core/credit_refresh.py]: when a key's
    credits are asked for again, from what is known about them. *)

From S2P Require Import Prelude Effects PyText PyTime Models Config Env KeyPool Sim.
Import KeyPool.
Open Scope Z_scope.

Definition usage_ratio (remaining plan : Z) : Q := (1 - inject_Z remaining / inject_Z plan)%Q.

(** The interval of the branch for a key with credits left, in minutes. *)
Definition smart_interval (config : AppConfig) (remaining plan : Z) : Z :=
  let smart := cm_smart_refresh (cfg_credit_monitoring config) in
  if negb (sr_enabled smart) then fr_interval_minutes (cm_fixed_refresh (cfg_credit_monitoring config))
  else
    let ratio := usage_ratio remaining plan in
    let interval :=
      if (9 # 10) <?q ratio then sr_high_usage_interval smart
      else if (7 # 10) <?q ratio then sr_medium_usage_interval smart
      else if (5 # 10) <?q ratio then sr_normal_usage_interval smart
      else sr_low_usage_interval smart in
    let threshold := or_int (sr_abundant_remaining_threshold smart) 1000 in
    let floor_m := or_int (sr_abundant_min_interval_minutes smart) 120 in
    if threshold <=? remaining then Z.max interval floor_m else interval.

(** [(first of this month + 32 days).replace(day=1)]. *)
Definition next_month (now : Z) : Z := first_of_month (start_of_month now + 32 * day).

Section Schedule.
Context {E : Env}.

Definition calculate_next_refresh_time (key : ApiKey) (config : AppConfig) : Prog (option DateTime) :=
  if negb (k_is_active key) || terminal_status key then ret None
  else
    let! now := now_utc in
    match k_cached_remaining_credits key, k_cached_plan_credits key with
    | Some remaining, Some plan =>
        if plan =? 0 then
          ret (Some (Aware (now + fr_interval_minutes (cm_fixed_refresh (cfg_credit_monitoring config)) * minute)))
        else if remaining =? 0 then ret (Some (Aware (next_month now)))
        else ret (Some (Aware (now + smart_interval config remaining plan * minute)))
    | _, _ => ret (Some (Aware now))
    end.
End Schedule.

Example next_month_mid : next_month (days_of_civil 2026 1 31 * day + 5 * hour) = days_of_civil 2026 2 1 * day.
Proof. vm_compute. reflexivity. Qed.
Example next_month_year : next_month (days_of_civil 2027 12 1 * day) = days_of_civil 2028 1 1 * day.
Proof. vm_compute. reflexivity. Qed.

(** * Theorems *)

Section Theorems.
Context {E : Env}.

Lemma usage_ratio_anti r1 r2 plan :
  0 < plan → r1 ≤ r2 → (usage_ratio r2 plan <= usage_ratio r1 plan)%Q.
Proof.
  intros Hp Hr. unfold usage_ratio.
  assert (inject_Z r1 / inject_Z plan <= inject_Z r2 / inject_Z plan)%Q; [|lra].
  apply Qmult_le_compat_r; [by rewrite <-Zle_Qle|].
  apply Qlt_le_weak, Qinv_lt_0_compat. change 0%Q with (inject_Z 0). by rewrite <-Zlt_Qlt.
Qed.

(** The emptier a key of a plan is, the sooner its credits are asked for again:
    with intervals configured in their order, the interval does not shrink as
    the credits left grow, and a key with abundant credits is left alone for at
    least the configured floor. *)
Theorem refresh_interval_monotone config r1 r2 plan :
  let smart := cm_smart_refresh (cfg_credit_monitoring config) in
  sr_high_usage_interval smart ≤ sr_medium_usage_interval smart →
  sr_medium_usage_interval smart ≤ sr_normal_usage_interval smart →
  sr_normal_usage_interval smart ≤ sr_low_usage_interval smart →
  0 < plan → r1 ≤ r2 →
  smart_interval config r1 plan ≤ smart_interval config r2 plan ∧
  (sr_enabled smart = true → or_int (sr_abundant_remaining_threshold smart) 1000 ≤ r2 →
   or_int (sr_abundant_min_interval_minutes smart) 120 ≤ smart_interval config r2 plan).
Proof.
  intros smart H1 H2 H3 Hp Hr. pose proof (usage_ratio_anti r1 r2 plan Hp Hr) as Hu.
  unfold smart_interval. fold smart. destruct (sr_enabled smart); simpl; [|split; [lia|done]].
  set (u1 := usage_ratio r1 plan) in *. set (u2 := usage_ratio r2 plan) in *. clearbody u1 u2.
  set (th := or_int _ 1000). set (fl := or_int _ 120). split.
  - assert (∀ u v : Q, (v <= u)%Q → ∀ c, (c <?q v) = true → (c <?q u) = true) as Hm.
    { intros u v Huv c Hc. bool_prop. apply negb_true_iff, Qle_bool_false. lra. }
    specialize (Hm _ _ Hu). pose proof (Hm (9 # 10)). pose proof (Hm (7 # 10)). pose proof (Hm (5 # 10)).
    assert (th <=? r1 = true → th <=? r2 = true) by (rewrite !Z.leb_le; lia).
    destruct ((9 # 10) <?q u1), ((9 # 10) <?q u2), ((7 # 10) <?q u1), ((7 # 10) <?q u2),
      ((5 # 10) <?q u1), ((5 # 10) <?q u2), (th <=? r1), (th <=? r2); try lia; naive_solver.
  - intros _ Ht. apply Z.leb_le in Ht. rewrite Ht. lia.
Qed.

(** A key is scheduled for a credit check if and only if it is in service: a
    disabled key or one in a terminal status never is, and any other always is,
    at once when nothing is known about its credits. *)
Theorem refresh_scheduled_iff_in_service key config w :
  ∃ r w', calculate_next_refresh_time key config w = (Ok r, w') ∧
    (r = None ↔ _is_disabled key = true) ∧
    (_is_disabled key = false →
     k_cached_remaining_credits key = None ∨ k_cached_plan_credits key = None →
     r = Some (Aware (h_now (w_host w)).1)).
Proof.
  unfold calculate_next_refresh_time, _is_disabled.
  destruct (k_is_active key); simpl; [|by eexists None, w].
  destruct (terminal_status key); simpl; [by eexists None, w|].
  unfold bind, now_utc, on_host, step. destruct (h_now (w_host w)) as [now h].
  destruct (k_cached_remaining_credits key) as [r|], (k_cached_plan_credits key) as [p|]; simpl;
    [destruct (p =? 0); [|destruct (r =? 0)]|..]; eexists _, _;
    (split; [reflexivity|]); (split; [by split|]); intros _; (done || intros [?|?]; done).
Qed.
End Theorems.

Lemma refresh_interval_monotone_witness :
  smart_interval default_AppConfig 50 1000 = 30 ∧ smart_interval default_AppConfig 400 1000 = 120 ∧
  30 ≤ 120.
Proof.
  split; [reflexivity|]. split; [reflexivity|].
  apply (refresh_interval_monotone default_AppConfig 50 400 1000); simpl; lia.
Defined.
