(* ===== verification/CreditFetcher.v ===== *)
(** [app/core/credit_fetcher.py]: asking Firecrawl for the credits of a key (the
    probe, HTTP only), writing the answer to the database, and the two callers of
    both: the debounced refresh on the request path and the administrator's. *)

From S2P Require Import Prelude Effects PyText PyTime IsoFormat Json Models Config Env UrlUtil Security.
From S2P Require Import KeyPool CreditSchedule.
Open Scope Z_scope.

Module CreditFetcher.

(** The values of [CreditFetchResult.kind]. *)
Inductive Kind := Success | DecryptFailed | Invalid | Cooling | Error.

Record CreditFetchResult := mkCreditFetchResult {
  cf_api_key_id : Z;
  cf_kind : Kind;
  cf_remaining_credits : Z;
  cf_plan_credits : Z;
  cf_billing_period_start : option DateTime;
  cf_billing_period_end : option DateTime;
  cf_error_message : option string;
  cf_http_status : option Z;
  cf_fetched_at : option Z
}.
(** A result without credits: the keyword defaults of the dataclass. *)
Definition failure (id : Z) (kind : Kind) (message : string) (status : option Z) (now : Z)
  : CreditFetchResult :=
  mkCreditFetchResult id kind 0 0 None None (Some message) status (Some now).

(** [s.replace("Z", "+00:00")]. *)
Fixpoint replace_Z (s : string) : string :=
  match s with
  | EmptyString => EmptyString
  | String c s' => if Ascii.eqb c "Z"%char then "+00:00" +:+ replace_Z s' else String c (replace_Z s')
  end.
Definition _parse_datetime (dt_str : option Json) : option DateTime :=
  match dt_str with
  | Some (JStr s) => if String.eqb s "" then None else fromisoformat (replace_Z s)
  | _ => None
  end.

Definition exn_text (e : Exn) : string :=
  match e with
  | EHttpError msg => msg
  | EValueError msg => "ValueError: " +:+ msg
  | EOther name => name +:+ ": "
  | _ => "Exception: "
  end.
(** [str(exc)] of the two exceptions of a failed decryption. *)
Definition decrypt_text (e : Exn) : string :=
  match e with EValueError msg => msg | _ => "" end.

Section CreditFetcher.
Context {E : Env}.

Definition json_text (j : Json) : string := match j with JStr s => s | _ => h_str j end.
(** [x.get(k)] on a decoded JSON value. *)
Definition json_get (k : string) (j : Json) : Prog (option Json) :=
  match j with JObj o => ret (obj_get k o) | _ => raise (EOther "AttributeError") end.
(** [int(v or 0)]. *)
Definition int_or_0 (v : option Json) : Prog Z :=
  match v with
  | Some j => if truthy j then
                match json_int j with Some n => ret n | None => raise (EValueError "int") end
              else ret 0
  | None => ret 0
  end.

Definition probe_request (base_url plaintext request_id : string) : HttpRequest := {|
  rq_base := "";
  rq_method := "GET";
  rq_url := base_url +:+ "/v2/team/credit-usage";
  rq_headers := [("Authorization", "Bearer " +:+ plaintext); ("X-Request-Id", request_id);
                 ("Accept", "application/json")];
  rq_json := None
|}.

(** The reading of a 200 response. *)
Definition read_payload (id now : Z) (payload : Json) : Prog CreditFetchResult :=
  let! success := json_get "success" payload in
  if negb (match success with Some j => truthy j | None => false end) then
    let! error := json_get "error" payload in
    let text := match error with
                | Some j => if truthy j then json_text j else "Upstream returned success=false"
                | None => "Upstream returned success=false"
                end in
    ret (failure id Error text (Some 200) now)
  else
    let! data := json_get "data" payload in
    let data := match data with Some j => if truthy j then j else JObj [] | None => JObj [] end in
    let! r := json_get "remainingCredits" data in
    let! remaining := int_or_0 r in
    let! p := json_get "planCredits" data in
    let! plan := int_or_0 p in
    let! bs := json_get "billingPeriodStart" data in
    let! be := json_get "billingPeriodEnd" data in
    ret (mkCreditFetchResult id Success remaining plan (_parse_datetime bs) (_parse_datetime be)
           None None (Some now)).

Definition read_response (id now : Z) (response : HttpResponse) : Prog CreditFetchResult :=
  let status := rs_status response in
  if status =? 200 then
    match h_json_loads (rs_content response) with
    | None => ret (failure id Error "Invalid JSON response" (Some 200) now)
    | Some payload => read_payload id now payload
    end
  else if z_in status [401; 403] then
    ret (failure id Invalid (str_int status +:+ " " +:+ rs_content response) (Some status) now)
  else if status =? 429 then ret (failure id Cooling "429 Rate Limited" (Some 429) now)
  else ret (failure id Error (str_int status +:+ " " +:+ rs_content response) (Some status) now).

(** [probe_credit_from_firecrawl] in two parts, up to the answer to the request and after
    it: the coroutine is suspended in between.  The exceptions it lets through are those
    of the base URL, before the request, and of a payload of an unexpected shape. *)
Definition probe_send (id : Z) (plaintext : string) (config : AppConfig) (request_id : string)
  : Prog (Z * (HttpResponse + CreditFetchResult)) :=
  let! ' (base_url, _) := of_res (strip_provider_version_suffix (fc_base_url (cfg_firecrawl config))) in
  let! now := now_utc in
  let! outcome := try_except
    (let! r := http_request (probe_request base_url plaintext request_id) in ret (inl r))
    (λ e, Some match e with
               | EHttpTimeout => ret (inr (failure id Error "Request timeout" (Some 504) now))
               | _ => ret (inr (failure id Error (exn_text e) None now))
               end) in
  ret (now, outcome).
Definition probe_receive (id : Z) (answer : Z * (HttpResponse + CreditFetchResult)) : Prog CreditFetchResult :=
  match answer.2 with
  | inr result => ret result
  | inl response => read_response id answer.1 response
  end.
Definition probe_credit_from_firecrawl (id : Z) (plaintext : string) (config : AppConfig)
    (request_id : string) : Prog CreditFetchResult :=
  let! answer := probe_send id plaintext config request_id in
  probe_receive id answer.
(** The synchronous twin for the request path: a shorter timeout, the same
    decisions. *)
Definition probe_credit_from_firecrawl_sync (id : Z) (plaintext : string) (config : AppConfig)
    (request_id : string) : Prog CreditFetchResult :=
  probe_credit_from_firecrawl id plaintext config request_id.

(** [db.add(snapshot); db.flush()]; the flush fills in the primary key and the
    creation time. *)
Definition add_snapshot (key_id remaining plan : Z) (ps pe : option DateTime) (ok : bool)
    (message : option string) : Prog CreditSnapshot :=
  let! now := now_utc in
  let! id := gets (λ w, db_next_id (w_db w)) in
  let snapshot := mkCreditSnapshot id key_id remaining plan ps pe (Aware now) ok message in
  assign (λ t, set_t_snapshots (<[id := snapshot]> (t_snapshots t)) t) ;;!
  flush ;;!
  ret snapshot.

Definition apply_credit_fetch_result (key_id : Z) (result : CreditFetchResult) (config : AppConfig)
  : Prog CreditSnapshot :=
  let! now := match cf_fetched_at result with Some t => ret t | None => now_utc end in
  match cf_kind result with
  | DecryptFailed =>
      assign_key key_id (λ k, set_k_next_refresh_at None (set_k_is_active false
        (set_k_status "decrypt_failed" k))) ;;!
      add_snapshot key_id 0 0 None None false
        (Some (opt_or_str (cf_error_message result) "Decryption failed"))
  | Invalid =>
      assign_key key_id (λ k, set_k_cached_remaining_credits (Some 0) (set_k_next_refresh_at None
        (set_k_is_active false (set_k_status "invalid" k)))) ;;!
      add_snapshot key_id 0 0 None None false (Some (opt_or_str (cf_error_message result) "invalid key"))
  | Cooling =>
      assign_key key_id (λ k, set_k_cooldown_until (Some (Aware now)) (set_k_status "cooling" k)) ;;!
      add_snapshot key_id 0 0 None None false
        (Some (opt_or_str (cf_error_message result) "429 Rate Limited"))
  | Success =>
      let! snapshot := add_snapshot key_id (cf_remaining_credits result) (cf_plan_credits result)
        (cf_billing_period_start result) (cf_billing_period_end result) true None in
      assign_key key_id (λ k, set_k_last_credit_check_at (Some (Aware now))
        (set_k_last_credit_snapshot_id (Some (s_id snapshot))
          (set_k_cached_plan_credits (Some (cf_plan_credits result))
            (set_k_cached_remaining_credits (Some (cf_remaining_credits result)) k)))) ;;!
      let! next := catch_all
        (let! key := get_key key_id in calculate_next_refresh_time key config) (λ _, ret None) in
      assign_key key_id (set_k_next_refresh_at next) ;;!
      ret snapshot
  | Error =>
      add_snapshot key_id 0 0 None None false
        (Some (opt_or_str (cf_error_message result) "Upstream error"))
  end.

(** [decrypt_api_key] in a [try] that catches InvalidTag and ValueError. *)
Definition try_decrypt (master_key ciphertext : string) : Prog (string + Exn) :=
  match decrypt_api_key master_key ciphertext with
  | Ok p => ret (inl p)
  | Raise EInvalidTag => ret (inr EInvalidTag)
  | Raise (EValueError m) => ret (inr (EValueError m))
  | Raise e => raise e
  end.

Definition DEFAULT_4XX_REFRESH_DEBOUNCE_SECONDS : Q := 10.

(** The debounce: [false] when the key was refreshed too recently; otherwise the
    time is taken note of. *)
Definition debounce_4xx (key_id : Z) : Prog bool :=
  let! now_m := monotonic in
  let! last := gets (λ w, w_refresh_mono w !! key_id) in
  if match last with
     | Some l => (now_m - l)%Q <?q Qmax DEFAULT_4XX_REFRESH_DEBOUNCE_SECONDS 0
     | None => false
     end
  then ret false
  else
    modify (λ w, set_w_refresh_mono (<[key_id := now_m]> (w_refresh_mono w)) w) ;;!
    ret true.

Definition refresh_credits_after_4xx (key_id : Z) (master_key : option string) (config : AppConfig)
    (request_id : option string) : Prog (option CreditFetchResult) :=
  match master_key with
  | None => ret None
  | Some master_key =>
      let! key := get_key key_id in
      if negb (String.eqb (or_str (k_provider key) "firecrawl") "firecrawl") then ret None
      else if negb (k_is_active key) && str_in (lower (k_status key)) ["disabled"; "decrypt_failed"]
      then ret None
      else
        let! go := debounce_4xx key_id in
        if negb go then ret None
        else
          let! rid :=
            (if String.eqb (default "" request_id) "" then
               let! time := now_utc in
               ret ("4xx-credit-refresh-" +:+ str_int key_id +:+ "-" +:+ str_int (time / second))
             else ret (default "" request_id)) in
          let! plain := try_decrypt master_key (k_api_key_ciphertext key) in
          match plain with
          | inr e =>
              let! now := now_utc in
              let result := failure key_id DecryptFailed ("Decryption failed: " +:+ decrypt_text e) None now in
              commit_or_rollback (apply_credit_fetch_result key_id result config ;;! ret tt) ;;!
              ret (Some result)
          | inl plaintext =>
              let! probed := catch_all
                (let! r := probe_credit_from_firecrawl_sync key_id plaintext config rid in ret (Some r))
                (λ _, ret None) in
              match probed with
              | None => ret None
              | Some result =>
                  commit_or_rollback (apply_credit_fetch_result key_id result config ;;! ret tt) ;;!
                  ret (Some result)
              end
          end
  end.

(** The error a failed probe is reported as to the administrator. *)
Definition probe_error (result : CreditFetchResult) : FcamError :=
  let message := default "" (cf_error_message result) in
  let status := opt_or_int (cf_http_status result) 0 in
  let other := mkFcamError (or_int status 502) "UPSTREAM_ERROR"
    ("Firecrawl API error: " +:+
     (if status =? 0 then default "None" (cf_error_message result) else str_int status)) None in
  match cf_kind result with
  | Invalid => mkFcamError (opt_or_int (cf_http_status result) 401) "INVALID_API_KEY"
                 "API key is invalid or unauthorized" None
  | Cooling => mkFcamError 429 "RATE_LIMITED" "Firecrawl API rate limited" None
  | Error =>
      if match cf_http_status result with Some s => s =? 504 | None => false end
      then mkFcamError 504 "TIMEOUT" "Firecrawl API request timeout" None
      else if startswith "Invalid JSON" message
      then mkFcamError 502 "UPSTREAM_ERROR" "Invalid upstream JSON" None
      else if contains "success=false" message
      then mkFcamError 502 "UPSTREAM_ERROR" "Firecrawl credit usage failed" None
      else other
  | _ => other
  end.

(** [except Exception: db.rollback(); raise]. *)
Definition or_rollback {A} (m : Prog A) (k : Exn → Exn) : Prog A :=
  catch_all m (λ e, rollback ;;! raise (k e)).

Definition fetch_credit_from_firecrawl (key_id : Z) (master_key : string) (config : AppConfig)
    (request_id : string) : Prog CreditSnapshot :=
  let! key := get_key key_id in
  let! plain := try_decrypt master_key (k_api_key_ciphertext key) in
  match plain with
  | inr e =>
      let! now := now_utc in
      let result := failure key_id DecryptFailed ("Decryption failed: " +:+ decrypt_text e) None now in
      or_rollback (let! s := apply_credit_fetch_result key_id result config in commit ;;! ret s) id ;;!
      raise_fcam 500 "DECRYPTION_FAILED" "Failed to decrypt API key" None
  | inl plaintext =>
      let! result := probe_credit_from_firecrawl key_id plaintext config request_id in
      let! snapshot := or_rollback
        (let! s := apply_credit_fetch_result key_id result config in
         commit ;;! query ;;! ret s)
        (λ _, EFcam KeyPool.db_unavailable) in
      match cf_kind result with
      | Success => ret snapshot
      | _ => raise (EFcam (probe_error result))
      end
  end.
End CreditFetcher.
End CreditFetcher.
