(* ===== verification/CreditRefresh.v ===== *)
(** The background refresh of [app/core/credit_refresh.py]: one round finds the keys
    whose check is due, probes them batch by batch and writes the results one key
    at a time.  The probes of a batch are coroutines under a semaphore
    ([asyncio.gather]): each runs up to its request, is suspended, and runs on when the
    answer has come ([Probe]); which of them runs next is the event loop's choice, given
    as a schedule ([gather]).  A round uses a session per phase, each closed (its
    uncommitted changes dropped) at the end. *)

From S2P Require Import Prelude Effects PyText PyTime Json Models Config Env RuntimeSettings Security KeyPool.
From S2P Require Import CreditSchedule CreditFetcher.
Import KeyPool CreditFetcher.
Open Scope Z_scope.

Module CreditRefresh.
Section CreditRefresh.
Context {E : Env}.

(** [_probe_one_key] up to the request, and from the answer on. *)
Inductive Probe :=
  | Waiting (key_id : Z) (ciphertext : string)
  | Asked (key_id : Z) (answer : Z * (HttpResponse + CreditFetchResult))
  | Finished (result : CreditFetchResult).
Definition probe_start (config : AppConfig) (master_key : string) (now key_id : Z) (ciphertext : string)
  : Prog Probe :=
  let! plain := try_decrypt master_key ciphertext in
  match plain with
  | inr e =>
      ret (Finished (failure key_id DecryptFailed ("Decryption failed: " +:+ decrypt_text e) None now))
  | inl plaintext =>
      let request_id := "credit-refresh-" +:+ str_int key_id +:+ "-" +:+ str_int (now / second) in
      catch_all (let! answer := probe_send key_id plaintext config request_id in ret (Asked key_id answer))
        (λ e, ret (Finished (failure key_id Error (exn_text e) None now)))
  end.
Definition probe_end (now key_id : Z) (answer : Z * (HttpResponse + CreditFetchResult)) : Prog CreditFetchResult :=
  catch_all (probe_receive key_id answer) (λ e, ret (failure key_id Error (exn_text e) None now)).
(** *** The probes of a batch *)

Definition is_asked (p : Probe) : bool := match p with Asked _ _ => true | _ => false end.
(** The slots of the semaphore that are taken. *)
Definition taken (ps : list Probe) : nat := length (List.filter is_asked ps).
(** The event loop turns to the [i]-th probe: one that waits begins if a slot of the
    semaphore is free, one that has asked reads its answer. *)
Definition probe_step (config : AppConfig) (master_key : string) (now : Z) (workers i : nat) (ps : list Probe)
  : Prog (list Probe) :=
  match ps !! i with
  | Some (Waiting key_id ciphertext) =>
      if (taken ps <? workers)%nat then
        let! p := probe_start config master_key now key_id ciphertext in ret (<[i := p]> ps)
      else ret ps
  | Some (Asked key_id answer) =>
      let! r := probe_end now key_id answer in ret (<[i := Finished r]> ps)
  | _ => ret ps
  end.
Fixpoint probe_steps (config : AppConfig) (master_key : string) (now : Z) (workers : nat) (schedule : list nat)
    (ps : list Probe) : Prog (list Probe) :=
  match schedule with
  | [] => ret ps
  | i :: schedule =>
      let! ps := probe_step config master_key now workers i ps in
      probe_steps config master_key now workers schedule ps
  end.
(** What is left when the given schedule is over: the answers on their way are read,
    then every probe that still waits runs to its end. *)
Definition rest (config : AppConfig) (master_key : string) (now : Z) (workers : nat) (ps : list Probe) : Prog (list Probe) :=
  let asked := List.filter (λ i, match ps !! i with Some p => is_asked p | None => false end) (seq 0 (length ps)) in
  probe_steps config master_key now workers (asked ++ flat_map (λ i, [i; i]) (seq 0 (length ps))) ps.
(** [asyncio.gather]: the results in the order of the arguments. *)
Definition gather (config : AppConfig) (master_key : string) (now : Z) (workers : nat) (schedule : list nat)
    (batch : list (Z * string)) : Prog (list CreditFetchResult) :=
  let! ps := probe_steps config master_key now workers schedule ((λ d, Waiting d.1 d.2) <$> batch) in
  let! ps := rest config master_key now workers ps in
  ret (omap (λ p, match p with Finished r => Some r | _ => None end) ps).

(** The body of the loop over the results, inside its [try]. *)
Definition apply_one (config : AppConfig) (now retry_m : Z) (result : CreditFetchResult) : Prog unit :=
  let key_id := cf_api_key_id result in
  let! t := query in
  match t_keys t !! key_id with
  | None => ret tt
  | Some key =>
      if match cf_kind result with DecryptFailed | Invalid => true | _ => false end then
        apply_credit_fetch_result key_id result config ;;! commit
      else if negb (k_is_active key) || terminal_status key then
        match k_next_refresh_at key with
        | Some _ => assign_key key_id (set_k_next_refresh_at None) ;;! commit
        | None => ret tt
        end
      else
        apply_credit_fetch_result key_id result config ;;!
        let! key := get_key key_id in
        (if negb (k_is_active key) || terminal_status key then
           assign_key key_id (set_k_next_refresh_at None)
         else match cf_kind result with
              | Success => ret tt
              | _ => assign_key key_id (set_k_next_refresh_at (Some (Aware (now + retry_m * minute))))
              end) ;;!
        commit
  end.

Fixpoint apply_each (config : AppConfig) (now retry_m : Z) (results : list CreditFetchResult) : Prog unit :=
  match results with
  | [] => ret tt
  | r :: results' =>
      catch_all (apply_one config now retry_m r) (λ _, rollback) ;;!
      apply_each config now retry_m results'
  end.

(** Closing a session drops what it has not committed. *)
Definition close : Prog unit := rollback.

Definition _apply_results_serial (config : AppConfig) (results : list CreditFetchResult) (now : Z)
    (retry_delay_minutes : option Z) : Prog unit :=
  let retry_m := Z.max (default (cm_retry_delay_minutes (cfg_credit_monitoring config)) retry_delay_minutes) 1 in
  finally (apply_each config now retry_m results) close.

(** The rows the query of a round returns. *)
Definition due_row (now : Z) (k : ApiKey) : bool :=
  k_is_active k && negb (str_in (k_status k) DISABLED_STATUSES) &&
  match k_next_refresh_at k with None => true | Some t => utc_us t <=? now end.
(** [due] and [clear_refresh_ids]: the split of those rows. *)
Definition due_keys (rows : list ApiKey) : list (Z * string) :=
  (λ k, (k_id k, k_api_key_ciphertext k)) <$> List.filter (λ k, negb (_is_disabled k)) rows.
Definition clear_ids (rows : list ApiKey) : list Z := k_id <$> List.filter _is_disabled rows.

(** workers, batch_size and retry_delay_minutes. *)
Definition batch_params (rt : option RuntimeScheduling) (config : AppConfig) : Z * Z * Z :=
  let cm := cfg_credit_monitoring config in
  let workers := Z.max (or_int (cm_workers cm) 4) 1 in
  let batch_size := Z.max (cm_batch_size cm) 1 in
  let retry_delay := Z.max (cm_retry_delay_minutes cm) 1 in
  match rt with
  | Some s => (Z.max (effective_credit_workers s workers) 1,
               Z.max (effective_credit_batch_size s batch_size) 1,
               Z.max (effective_credit_retry_delay_minutes s retry_delay) 1)
  | None => (workers, batch_size, retry_delay)
  end.

(** [for i in range(0, len(due), batch_size)]; [fuel] bounds the number of
    batches, and as many as there are keys is enough.  [schedule n] is the event loop's
    choice in the batch that leaves [n] keys. *)
Fixpoint batches (fuel : nat) (config : AppConfig) (master_key : string) (now : Z) (workers batch_size : nat)
    (retry_delay : Z) (schedule : nat → list nat) (due : list (Z * string)) : Prog unit :=
  match fuel, due with
  | O, _ | _, [] => ret tt
  | S fuel', _ =>
      let later := drop batch_size due in
      let! results := gather config master_key now workers (schedule (length later)) (take batch_size due) in
      _apply_results_serial config results now (Some retry_delay) ;;!
      batches fuel' config master_key now workers batch_size retry_delay schedule later
  end.

Definition cleanup_old_snapshots (config : AppConfig) : Prog unit :=
  let retention_days := cm_retention_days (cfg_credit_monitoring config) in
  if retention_days <=? 0 then ret tt
  else
    let! now := now_utc in
    let cutoff := now - retention_days * day in
    catch_all
      (let! t := query in
       let kept := filter (λ p : Z * CreditSnapshot, cutoff ≤ utc_us (s_snapshot_at p.2)) (t_snapshots t) in
       let deleted := Z.of_nat (size (t_snapshots t)) - Z.of_nat (size kept) in
       assign (set_t_snapshots kept) ;;!
       (if negb (deleted =? 0) then commit else ret tt))
      (λ _, rollback).

(** The update of [clear_refresh_ids]. *)
Definition clear_refresh (ids : list Z) : Prog unit :=
  match ids with
  | [] => ret tt
  | _ =>
      assign (λ t, set_t_keys
        ((λ k, if z_in (k_id k) ids then set_k_next_refresh_at None k else k) <$> t_keys t) t) ;;!
      catch_all commit (λ _, rollback)
  end.
Definition _refresh_once (schedule : nat → list nat) (rt : option RuntimeScheduling) (config : AppConfig)
    (master_key : string) : Prog unit :=
  let! ' (now, due) := finally
    (let! now := now_utc in
     let! t := query in
     let rows := List.filter (due_row now) (by_id (t_keys t)) in
     clear_refresh (clear_ids rows) ;;!
     ret (now, due_keys rows)) close in
  match due with
  | [] => ret tt
  | _ =>
      let '(workers, batch_size, retry_delay) := batch_params rt config in
      batches (length due) config master_key now (Z.to_nat workers) (Z.to_nat batch_size) retry_delay schedule due ;;!
      finally (cleanup_old_snapshots config) close
  end.

(** The loop of [credit_refresh_loop], for a given number of rounds before the
    stop event: a round that raises does not end it. *)
Fixpoint credit_refresh_loop (schedule : nat → nat → list nat) (rounds : nat) (rt : option RuntimeScheduling)
    (config : AppConfig) (master_key : string) : Prog unit :=
  match rounds with
  | O => ret tt
  | S n =>
      catch_all (_refresh_once (schedule n) rt config master_key) (λ _, ret tt) ;;!
      credit_refresh_loop schedule n rt config master_key
  end.
End CreditRefresh.
End CreditRefresh.
