(* ===== verification/CreditRefreshProps.v ===== *)
(** What the background refresh guarantees: every due key is asked about exactly
    once in a round, however the round is cut into batches and its probes interleave,
    with its own credential and never more than the configured number at a time; and
    what follows from asking without regard to the provider. *)

From S2P Require Import Prelude Effects PyText PyTime Json Models Config Env Transactions RuntimeSettings.
From S2P Require Import UrlUtil Security.
From S2P Require Import KeyPool CreditSchedule CreditFetcher CreditRefresh AdminRows Sim.
Import KeyPool CreditFetcher CreditRefresh.
Open Scope Z_scope.

Module CreditRefreshFacts.
Section CreditRefreshFacts.
Context {E : Env} (config : AppConfig) (master_key : string).
Notation wire := w_wire.

Lemma wire_add_snapshot k r p ps pe ok m : runs (same wire) (add_snapshot k r p ps pe ok m).
Proof. unfold add_snapshot, now_utc. runs_auto. Qed.
Lemma wire_schedule k : runs (same wire) (calculate_next_refresh_time k config).
Proof. unfold calculate_next_refresh_time, now_utc. runs_auto. Qed.
Lemma wire_apply id r : runs (same wire) (apply_credit_fetch_result id r config).
Proof.
  unfold apply_credit_fetch_result, assign_key, now_utc.
  runs_auto; try apply wire_add_snapshot; try apply wire_schedule; runs_auto.
Qed.
Lemma wire_apply_one now m r : runs (same wire) (apply_one config now m r).
Proof. unfold apply_one, assign_key. runs_auto; try apply wire_apply; runs_auto. Qed.

Lemma apply_each_spec now m rs : ∀ w,
  (apply_each config now m rs w).1 = Ok tt ∧ wire (apply_each config now m rs w).2 = wire w.
Proof.
  induction rs as [|r rs IH]; intros w; [done|]. cbn [apply_each].
  assert (∃ w1, catch_all (apply_one config now m r) (λ _, rollback) w = (Ok tt, w1) ∧ wire w1 = wire w)
    as (w1 & Hr & <-).
  { unfold catch_all, try_except. pose proof (wire_apply_one now m r w) as Ha. unfold same in Ha.
    destruct (apply_one config now m r w) as [[[]|e] w1]; simpl in Ha; [by eauto|].
    eexists. split; [reflexivity|done]. }
  rewrite (bind_run _ _ _ _ _ Hr). apply IH.
Qed.
Lemma apply_results_spec rs now m w :
  (_apply_results_serial config rs now m w).1 = Ok tt ∧
  wire (_apply_results_serial config rs now m w).2 = wire w.
Proof.
  unfold _apply_results_serial, finally. set (rm := Z.max _ _).
  pose proof (apply_each_spec now rm rs w) as [H1 H2].
  destruct (apply_each config now rm rs w) as [r w1]. simpl in *. by subst r.
Qed.

Section Probes.
Context (base : string) (version : option string) (now : Z).
Context (Hbase : strip_provider_version_suffix (fc_base_url (cfg_firecrawl config)) = Ok (base, version)).

(** The request about one key: none if the stored credential cannot be read. *)
Definition probes (due : Z * string) : list HttpRequest :=
  match decrypt_api_key master_key due.2 with
  | Ok plaintext => [probe_request base plaintext
      ("credit-refresh-" +:+ str_int due.1 +:+ "-" +:+ str_int (now / second))]
  | Raise _ => []
  end.

Lemma wire_read_response id t r : runs (same wire) (read_response id t r).
Proof. unfold read_response, read_payload, json_get, int_or_0. runs_auto. Qed.

Lemma send_spec id p rid w : ∃ a w', probe_send id p config rid w = (Ok a, w') ∧ wire w' = probe_request base p rid :: wire w.
Proof.
  unfold probe_send, bind at 1, of_res. rewrite Hbase.
  unfold bind at 1, now_utc, on_host, step. destruct (h_now (w_host w)) as [t h].
  unfold bind at 1, try_except, http_request, bind at 1 2 3, modify, on_host, step. simpl.
  destruct (h_http _ h) as [[resp| |msg] h']; simpl; eauto.
Qed.

Lemma decrypt_raises m c e : decrypt_api_key m c = Raise e → e = EInvalidTag ∨ ∃ s, e = EValueError s.
Proof. unfold decrypt_api_key, decrypt_with. repeat case_match; naive_solver. Qed.

(** The requests a probe has still to make. *)
Definition todo (p : Probe) : list HttpRequest := match p with Waiting id blob => probes (id, blob) | _ => [] end.

Lemma start_spec id blob w : ∃ p w', probe_start config master_key now id blob w = (Ok p, w') ∧
  wire w' = probes (id, blob) ++ wire w ∧ todo p = [] ∧ (∀ i c, p ≠ Waiting i c).
Proof.
  unfold probe_start, try_decrypt, probes. cbn [fst snd].
  destruct (decrypt_api_key master_key blob) as [p|e] eqn:Hd.
  - unfold bind, ret, catch_all, try_except. set (rid := "credit-refresh-" +:+ _).
    destruct (send_spec id p rid w) as (a & w' & -> & Hw). by eexists _, _.
  - destruct (decrypt_raises _ _ _ Hd) as [->|[s ->]]; by eexists _, _.
Qed.
Lemma end_spec id a w : ∃ r w', probe_end now id a w = (Ok r, w') ∧ wire w' = wire w.
Proof.
  unfold probe_end, catch_all, try_except, probe_receive. destruct a as [t [resp|r]]; [|by eexists _, _].
  simpl. pose proof (wire_read_response id t resp w) as Hr. unfold same in Hr.
  destruct (read_response id t resp w) as [[r|e] w']; simpl in Hr; by eexists _, _.
Qed.

(** *** What one turn of the event loop does to the probes of a batch *)
Definition turned (workers i : nat) (ps ps' : list Probe) : Prop :=
  length ps' = length ps ∧ (∀ j, j ≠ i → ps' !! j = ps !! j) ∧
  match ps !! i with
  | Some (Waiting _ _) =>
      if (taken ps <? workers)%nat then ∃ p, ps' !! i = Some p ∧ ∀ k c, p ≠ Waiting k c else ps' = ps
  | Some (Asked _ _) => ∃ r, ps' !! i = Some (Finished r)
  | _ => ps' = ps
  end.
Fixpoint turns (workers : nat) (schedule : list nat) (ps ps' : list Probe) : Prop :=
  match schedule with
  | [] => ps' = ps
  | i :: schedule => ∃ ps1, turned workers i ps ps1 ∧ turns workers schedule ps1 ps'
  end.

Lemma todo_insert i p p' ps : ps !! i = Some p →
  todo p ++ flat_map todo (<[i := p']> ps) ≡ₚ todo p' ++ flat_map todo ps.
Proof.
  intros Hi. rewrite <-(take_drop_middle ps i p Hi) at 2.
  rewrite insert_take_drop by (by eapply lookup_lt_Some). rewrite !flat_map_app. cbn [flat_map]. solve_Permutation.
Qed.
Lemma turned_insert workers i p p' ps : ps !! i = Some p →
  match p with
  | Waiting _ _ => (taken ps <? workers)%nat = true ∧ ∀ k c, p' ≠ Waiting k c
  | Asked _ _ => ∃ r, p' = Finished r
  | Finished _ => False
  end → turned workers i ps (<[i := p']> ps).
Proof.
  intros Hi Hp. assert (i < length ps)%nat as Hl by (by eapply lookup_lt_Some).
  unfold turned. rewrite Hi, length_insert. split_and!; [done|intros j Hj; by rewrite list_lookup_insert_ne|].
  destruct p; [destruct Hp as [-> Hp]|destruct Hp as [r ->]|done]; rewrite list_lookup_insert_eq by done; eauto.
Qed.

Lemma step_spec workers i ps w : ∃ ps' w' ws,
  probe_step config master_key now workers i ps w = (Ok ps', w') ∧ wire w' = ws ++ wire w ∧
  ws ++ flat_map todo ps' ≡ₚ flat_map todo ps ∧ turned workers i ps ps'.
Proof.
  unfold probe_step. destruct (ps !! i) as [[id blob|id a|r]|] eqn:Hi;
    [| |exists ps, w, []; split_and!; try done; unfold turned; by rewrite Hi..].
  - destruct (taken ps <? workers)%nat eqn:Hf;
      [|exists ps, w, []; split_and!; try done; unfold turned; by rewrite Hi, Hf].
    destruct (start_spec id blob w) as (p & w1 & Hs & Hw & Ht & Hne). rewrite (bind_run _ _ _ _ _ Hs).
    exists (<[i := p]> ps), w1, (probes (id, blob)). split_and!; [done|done| |by apply (turned_insert _ _ (Waiting id blob) p)].
    pose proof (todo_insert i _ p ps Hi) as Hp. rewrite Ht in Hp. done.
  - destruct (end_spec id a w) as (r & w1 & Hs & Hw). rewrite (bind_run _ _ _ _ _ Hs).
    exists (<[i := Finished r]> ps), w1, []. split_and!; [done|done| |by apply (turned_insert _ _ (Asked id a)); eauto].
    by rewrite <-(todo_insert i _ (Finished r) ps Hi).
Qed.
Lemma steps_spec workers schedule : ∀ ps w, ∃ ps' w' ws,
  probe_steps config master_key now workers schedule ps w = (Ok ps', w') ∧ wire w' = ws ++ wire w ∧
  ws ++ flat_map todo ps' ≡ₚ flat_map todo ps ∧ turns workers schedule ps ps'.
Proof.
  induction schedule as [|i schedule IH]; intros ps w; [by exists ps, w, []|]. cbn [probe_steps turns].
  destruct (step_spec workers i ps w) as (ps1 & w1 & ws1 & Hr & Hw1 & Hp1 & Ht). rewrite (bind_run _ _ _ _ _ Hr).
  destruct (IH ps1 w1) as (ps2 & w2 & ws2 & -> & Hw2 & Hp2 & Hts). exists ps2, w2, (ws2 ++ ws1).
  split_and!; [done|by rewrite Hw2, Hw1, app_assoc| |eauto]. rewrite <-Hp1, <-Hp2. solve_Permutation.
Qed.

(** *** The rest of a schedule finishes every probe *)
Definition asked_at (ps : list Probe) (i : nat) : Prop := ∃ id a, ps !! i = Some (Asked id a).
Definition done_at (ps : list Probe) (i : nat) : Prop := ∃ r, ps !! i = Some (Finished r).

Lemma turns_app workers a b ps ps' : turns workers (a ++ b) ps ps' ↔ ∃ ps1, turns workers a ps ps1 ∧ turns workers b ps1 ps'.
Proof.
  revert ps. induction a as [|i a IH]; intros ps; simpl; [naive_solver|]. setoid_rewrite IH. naive_solver.
Qed.
Lemma turned_other workers i j ps ps' : turned workers i ps ps' → j ≠ i → ps' !! j = ps !! j.
Proof. intros (_ & H & _). apply H. Qed.
Lemma turned_done workers i j ps ps' : turned workers i ps ps' → done_at ps j → done_at ps' j.
Proof.
  intros Ht [r Hr]. destruct (decide (j = i)) as [->|Hne]; [|exists r; by rewrite (turned_other _ _ _ _ _ Ht)].
  destruct Ht as (_ & _ & Ht). rewrite Hr in Ht. subst. by exists r.
Qed.
Lemma turned_asked workers i ps ps' : turned workers i ps ps' → asked_at ps i → done_at ps' i.
Proof. intros (_ & _ & Ht) (id & a & Ha). by rewrite Ha in Ht. Qed.
(** The answers on their way are read. *)
Lemma read_answers workers l : ∀ ps ps', NoDup l → Forall (asked_at ps) l → (∀ j, asked_at ps j → j ∈ l) →
  turns workers l ps ps' → (∀ j, ¬ asked_at ps' j) ∧ length ps' = length ps.
Proof.
  induction l as [|i l IH]; intros ps ps' Hnd Hl Hall Ht; simpl in Ht.
  { subst. split; [|done]. intros j Hj. by apply Hall, elem_of_nil in Hj. }
  destruct Ht as (ps1 & H1 & Ht). apply NoDup_cons in Hnd as [Hni Hnd]. apply Forall_cons in Hl as [Hi Hl].
  destruct (IH ps1 ps') as [Ha Hlen]; [done| | |done|split; [done|rewrite Hlen; apply H1]].
  - apply Forall_forall. intros j Hj. rewrite Forall_forall in Hl. destruct (Hl j Hj) as (id & a & Hja).
    exists id, a. rewrite (turned_other _ _ _ _ _ H1); [done|]. by intros ->.
  - intros j Hj. destruct (decide (j = i)) as [->|Hne].
    + destruct (turned_asked _ _ _ _ H1 Hi) as [r Hr], Hj as (id & a & Hja). congruence.
    + destruct Hj as (id & a & Hja). rewrite (turned_other _ _ _ _ _ H1) in Hja by done.
      assert (j ∈ i :: l) as [->|?]%elem_of_cons by (apply Hall; by exists id, a); done.
Qed.
Lemma none_taken ps : (∀ j, ¬ asked_at ps j) → taken ps = O.
Proof.
  intros Hn. unfold taken. destruct (List.filter is_asked ps) as [|p l] eqn:Hf; [done|]. exfalso.
  assert (p ∈ List.filter is_asked ps) as Hp by (rewrite Hf; by left).
  apply list_elem_of_In, List.filter_In in Hp as [Hp Ha]. apply list_elem_of_In, list_elem_of_lookup in Hp as [j Hj].
  destruct p; try done. apply (Hn j). by exists key_id, answer.
Qed.
(** With no answer on its way, a probe that is turned to twice is done. *)
Lemma two_turns workers i ps ps' : (0 < workers)%nat → (∀ j, ¬ asked_at ps j) → (i < length ps)%nat →
  turns workers [i; i] ps ps' → (∀ j, ¬ asked_at ps' j) ∧ done_at ps' i ∧ length ps' = length ps.
Proof.
  intros Hw Hn Hi (ps1 & H1 & ps2 & H2 & ->).
  assert (done_at ps2 i) as Hd.
  { pose proof (none_taken _ Hn) as Htk. destruct (lookup_lt_is_Some_2 _ _ Hi) as [p Hp].
    pose proof H1 as (_ & _ & H1i). rewrite Hp in H1i. destruct p as [id c|id a|r].
    - rewrite Htk, (proj2 (Nat.ltb_lt _ _) Hw) in H1i. destruct H1i as (p1 & Hp1 & Hne).
      destruct p1 as [id1 c1|id1 a1|r1]; [by destruct (Hne id1 c1)| |].
      + apply (turned_asked _ _ _ _ H2). by exists id1, a1.
      + apply (turned_done _ _ _ _ _ H2). by exists r1.
    - destruct (Hn i). by exists id, a.
    - apply (turned_done _ _ _ _ _ H2), (turned_done _ _ _ _ _ H1). by exists r. }
  split_and!; [|done|destruct H1 as [H1 _], H2 as [H2 _]; congruence].
  intros j (id & a & Hj). destruct (decide (j = i)) as [->|Hne]; [destruct Hd as [r Hr]; congruence|].
  rewrite (turned_other _ _ _ _ _ H2), (turned_other _ _ _ _ _ H1) in Hj by done. apply (Hn j). by exists id, a.
Qed.
Lemma turns_done workers l : ∀ ps ps' j, turns workers l ps ps' → done_at ps j → done_at ps' j.
Proof.
  induction l as [|i l IH]; intros ps ps' j; simpl; [by intros ->|]. intros (ps1 & H1 & Ht) Hd.
  eapply IH; [done|]. by eapply turned_done.
Qed.
Lemma one_after_the_other workers l : (0 < workers)%nat → ∀ ps ps',
  (∀ j, ¬ asked_at ps j) → Forall (λ i, i < length ps)%nat l →
  turns workers (flat_map (λ i, [i; i]) l) ps ps' → Forall (done_at ps') l.
Proof.
  intros Hw. induction l as [|i l IH]; intros ps ps' Hn Hl Ht; [done|]. apply Forall_cons in Hl as [Hi Hl].
  cbn [flat_map] in Ht. apply turns_app in Ht as (ps1 & H1 & Ht).
  destruct (two_turns workers i ps ps1 Hw Hn Hi H1) as (Hn1 & Hd & Hlen).
  apply Forall_cons. split; [by eapply turns_done|]. apply (IH ps1); [done| |done]. by rewrite Hlen.
Qed.
Lemma rest_finishes workers ps ps' : (0 < workers)%nat →
  turns workers (List.filter (λ i, match ps !! i with Some p => is_asked p | None => false end) (seq 0 (length ps)) ++
                 flat_map (λ i, [i; i]) (seq 0 (length ps))) ps ps' →
  flat_map todo ps' = [].
Proof.
  intros Hw Ht. apply turns_app in Ht as (ps1 & H1 & H2). set (asked := List.filter _ _) in H1.
  assert (∀ j, j ∈ asked ↔ asked_at ps j) as Hasked.
  { intros j. unfold asked, asked_at. rewrite list_elem_of_In, List.filter_In, in_seq. split.
    - intros [_ Hj]. destruct (ps !! j) as [[]|]; try done. eauto.
    - intros (id & a & Hj). split; [|by rewrite Hj]. apply lookup_lt_Some in Hj. lia. }
  assert (∃ len, length ps' = len ∧ len = length ps1) as (len & Hlen' & ->).
  { clear -H2. eexists. split; [done|]. revert H2. generalize (flat_map (λ i : nat, [i; i]) (seq 0 (length ps))) as l.
    intros l. revert ps1. induction l as [|i l IH]; intros ps1; simpl; [by intros ->|]. intros (ps2 & (Hl & _) & H).
    by rewrite (IH ps2 H). }
  destruct (read_answers workers asked ps ps1) as [Hn Hlen]; [..|done|].
  { apply NoDup_ListNoDup, List.NoDup_filter, NoDup_ListNoDup, NoDup_seq. }
  { apply Forall_forall. intros j Hj. by apply Hasked. }
  { intros j Hj. by apply Hasked. }
  assert (Forall (done_at ps') (seq 0 (length ps))) as Hd.
  { eapply one_after_the_other; [done|exact Hn| |exact H2]. apply Forall_forall. intros j Hj%list_elem_of_In%in_seq. lia. }
  rewrite Forall_forall in Hd. clear -Hd Hlen Hlen'.
  assert (∀ l, (∀ p, p ∈ l → todo p = []) → flat_map todo l = []) as Hnil.
  { intros l Hl. induction l as [|p l IH]; [done|]. cbn. rewrite (Hl p) by (by left). apply IH. intros q Hq. apply Hl. by right. }
  apply Hnil. intros p Hp. apply list_elem_of_lookup in Hp as [j Hj]. destruct (Hd j) as [r Hr].
  { apply list_elem_of_In, in_seq. apply lookup_lt_Some in Hj. lia. }
  rewrite Hj in Hr. by injection Hr as ->.
Qed.

Lemma gather_spec workers schedule batch w : (0 < workers)%nat → ∃ rs w' ws,
  gather config master_key now workers schedule batch w = (Ok rs, w') ∧ wire w' = ws ++ wire w ∧
  ws ≡ₚ flat_map probes batch.
Proof.
  intros Hw. unfold gather, rest.
  destruct (steps_spec workers schedule ((λ d, Waiting d.1 d.2) <$> batch) w) as (ps1 & w1 & ws1 & H1 & Hw1 & Hp1 & _).
  rewrite (bind_run _ _ _ _ _ H1).
  match goal with |- context [probe_steps _ _ _ _ ?l ps1] => destruct (steps_spec workers l ps1 w1)
    as (ps2 & w2 & ws2 & H2 & Hw2 & Hp2 & Ht) end.
  rewrite (bind_run _ _ _ _ _ H2). eexists _, w2, (ws2 ++ ws1). split_and!; [done|by rewrite Hw2, Hw1, app_assoc|].
  rewrite (rest_finishes _ _ _ Hw Ht), app_nil_r in Hp2.
  assert (flat_map todo ((λ d : Z * string, Waiting d.1 d.2) <$> batch) = flat_map probes batch) as <-.
  { clear. induction batch as [|[id blob] batch IH]; [done|]. cbn. by rewrite <-IH. }
  rewrite <-Hp1, <-Hp2. solve_Permutation.
Qed.

Lemma batches_spec workers size retry schedule : (0 < workers)%nat → (0 < size)%nat → ∀ fuel due w, (length due ≤ fuel)%nat →
  let run := batches fuel config master_key now workers size retry schedule due w in
  run.1 = Ok tt ∧ ∃ ws, wire run.2 = ws ++ wire w ∧ ws ≡ₚ flat_map probes due.
Proof.
  intros Hw Hs. induction fuel as [|fuel IH]; intros due w Hl.
  { destruct due; simpl in *; [|lia]. split; [done|]. by exists []. }
  destruct due as [|d due]; [split; [done|]; by exists []|]. cbn [batches].
  set (later := drop size (d :: due)).
  destruct (gather_spec workers (schedule (length later)) (take size (d :: due)) w Hw) as (rs & w1 & ws1 & Hrs & Hw1 & Hp1).
  rewrite (bind_run _ _ _ _ _ Hrs). destruct (apply_results_spec rs now (Some retry) w1) as [Ha Hw2].
  rewrite (bind_run _ _ w1 tt (_apply_results_serial config rs now (Some retry) w1).2) by (by apply run_eq).
  destruct (IH later (_apply_results_serial config rs now (Some retry) w1).2) as (H1 & ws2 & H2 & Hp2).
  { unfold later. rewrite length_drop. simpl in *. lia. }
  split; [exact H1|]. exists (ws2 ++ ws1). split; [by rewrite H2, Hw2, Hw1, app_assoc|].
  rewrite Hp2, Hp1, Permutation_app_comm, <-flat_map_app. unfold later. by rewrite take_drop.
Qed.
End Probes.
End CreditRefreshFacts.
End CreditRefreshFacts.

Module CreditRefreshTheorems.
Import CreditRefreshFacts.

(** The keys whose check is due: switched on, of a status that is not terminal, and with no
    time set for the next check or one that has come. *)
Definition due (now : Z) (k : ApiKey) : Prop :=
  k_is_active k = true ∧ lower (k_status k) ∉ DISABLED_STATUSES ∧
  match k_next_refresh_at k with None => True | Some t => utc_us t ≤ now end.
#[export] Instance due_dec now k : Decision (due now k).
Proof. unfold due. destruct (k_next_refresh_at k); apply _. Defined.

Lemma due_rows now l :
  due_keys (List.filter (due_row now) l) = (λ k, (k_id k, k_api_key_ciphertext k)) <$> filter (due now) l.
Proof.
  unfold due_keys. f_equal. induction l as [|k l IH]; [done|]. rewrite filter_cons. cbn [List.filter].
  assert (due now k ↔ due_row now k = true ∧ negb (_is_disabled k) = true) as Hd.
  { unfold due, due_row, _is_disabled, terminal_status.
    assert (str_in (k_status k) DISABLED_STATUSES = true → str_in (lower (k_status k)) DISABLED_STATUSES = true) as Hl.
    { rewrite !str_in_true. intros Hin. repeat (apply elem_of_cons in Hin as [->|Hin]; [by apply str_in_true|]).
      by apply elem_of_nil in Hin. }
    rewrite <-str_in_false. destruct (k_is_active k); [|simpl; naive_solver].
    destruct (str_in (lower (k_status k)) DISABLED_STATUSES) eqn:E1; [simpl; rewrite ?andb_false_r; naive_solver|].
    destruct (str_in (k_status k) DISABLED_STATUSES) eqn:E2; [by specialize (Hl eq_refl)|]. simpl.
    destruct (k_next_refresh_at k) as [t|]; [rewrite Z.leb_le|]; naive_solver. }
  destruct (due_row now k) eqn:E1; [cbn [List.filter]; destruct (negb (_is_disabled k)) eqn:E2|].
  - rewrite decide_True by (by apply Hd). by rewrite IH.
  - rewrite decide_False by (by intros [_ ?]%Hd). done.
  - rewrite decide_False by (by intros [? _]%Hd). done.
Qed.

Lemma wire_cleanup {E : Env} config w :
  (finally (cleanup_old_snapshots config) close w).1 = Ok tt ∧
  w_wire (finally (cleanup_old_snapshots config) close w).2 = w_wire w.
Proof.
  assert (∀ w, (cleanup_old_snapshots config w).1 = Ok tt ∧ w_wire (cleanup_old_snapshots config w).2 = w_wire w) as Hc.
  { intros w0. split.
    - unfold cleanup_old_snapshots. destruct (_ <=? 0); [done|]. unfold bind at 1, now_utc, on_host, step.
      destruct (h_now (w_host w0)). unfold catch_all, try_except. by destruct (bind query _ _) as [[[]|e] w1].
    - assert (runs (same w_wire) (cleanup_old_snapshots config)) as H; [|apply H].
      unfold cleanup_old_snapshots, now_utc. runs_auto. }
  destruct (Hc w) as [H1 H2]. unfold finally. destruct (cleanup_old_snapshots config w) as [r w1].
  simpl in *. subst r. done.
Qed.

(** C31. A round of the background refresh asks about every key whose check is due exactly
    once - each with its own credential, and none whose credential cannot be read - and
    about no other key, whatever the number of workers, the size of the batches, the
    order in which the event loop lets the probes run, the answers and the failures of
    the database while results are written; then it ends normally.  If the query for the
    keys fails, nothing is asked. *)
Theorem refresh_asks_once {E : Env} {OL : OrmLaws} schedule rt config master_key base version w :
  strip_provider_version_suffix (fc_base_url (cfg_firecrawl config)) = Ok (base, version) →
  let now := (h_now (w_host w)).1 in
  let request k plaintext := probe_request base plaintext
    ("credit-refresh-" +:+ str_int (k_id k) +:+ "-" +:+ str_int (now / 1000000)) in
  let asked k := match decrypt_api_key master_key (k_api_key_ciphertext k) with
                 | Ok plaintext => [request k plaintext]
                 | Raise _ => []
                 end in
  let run := _refresh_once schedule rt config master_key w in
  (run.1 = Ok tt ∧
   ∃ sent, w_wire run.2 = sent ++ w_wire w ∧
     sent ≡ₚ flat_map asked (filter (due now) (by_id (t_keys (view w))))) ∨
  (run.1 = Raise operational ∧ w_wire run.2 = w_wire w).
Proof.
  intros Hb now request asked run. subst run. unfold _refresh_once.
  assert (∀ ids w, (clear_refresh ids w).1 = Ok tt ∧ w_wire (clear_refresh ids w).2 = w_wire w) as Hclear.
  { intros ids w0. unfold clear_refresh. destruct ids as [|x l]; [done|]. unfold bind, assign, modify. simpl.
    match goal with |- context [catch_all commit _ ?x] => set (w1 := x) end.
    assert (w_wire w1 = w_wire w0) as Hw1 by done.
    assert (runs (same w_wire) commit) as Hc by runs_auto.
    specialize (Hc w1). unfold same in Hc. unfold catch_all, try_except. destruct (commit w1) as [[[]|e] w2]; simpl in Hc |- *.
    - split; [done|congruence].
    - split; [done|]. simpl. congruence. }
  match goal with |- context [finally ?m close] => set (first := m) end.
  assert (match finally first close w with
          | (Ok x, w1) => x = (now, due_keys (List.filter (due_row now) (by_id (t_keys (view w))))) ∧ w_wire w1 = w_wire w
          | (Raise e, w1) => e = operational ∧ w_wire w1 = w_wire w
          end) as Hfirst.
  { unfold finally, first, now_utc, on_host, step, bind at 1. unfold now. destruct (h_now (w_host w)) as [t h] eqn:Hh. simpl.
    set (w0 := set_w_host h w). unfold bind at 1. destruct (query_spec w0) as (_ & _ & Hq).
    assert (runs (same w_wire) query) as Hwire by runs_auto. specialize (Hwire w0). unfold same in Hwire.
    destruct (query w0) as [r w1]. simpl in *. destruct Hq as [->| ->]; [|done].
    set (rows := List.filter _ _). destruct (Hclear (clear_ids rows) w1) as [H1 H2]. unfold bind.
    destruct (clear_refresh (clear_ids rows) w1) as [r w2]. simpl in *. subst r. split; [done|]. simpl. by rewrite H2. }
  destruct (finally first close w) as [[[now' l]|e] w1] eqn:Hf.
  2: { right. destruct Hfirst as [-> Hw]. unfold bind. by rewrite Hf. }
  left. destruct Hfirst as [[= -> ->] Hw1]. rewrite (bind_run _ _ _ _ _ Hf). rewrite due_rows.
  set (keys := filter (due now) _).
  assert (flat_map (probes master_key base now) ((λ k, (k_id k, k_api_key_ciphertext k)) <$> keys) = flat_map asked keys) as Hfm.
  { clear. induction keys as [|k keys IH]; [done|]. cbn. by rewrite <-IH. }
  rewrite <-Hfm. set (l := fmap _ keys). destruct l as [|d l'] eqn:Hl.
  { split; [done|]. exists []. split; [exact Hw1|done]. }
  rewrite <-Hl. destruct (batch_params rt config) as [[workers size] retry] eqn:Hbp.
  assert (0 < workers ∧ 0 < size) as [Hpw Hps].
  { unfold batch_params in Hbp. destruct rt; injection Hbp as <- <- _; lia. }
  destruct (batches_spec config master_key base version now Hb (Z.to_nat workers) (Z.to_nat size) retry schedule
    ltac:(lia) ltac:(lia) (length l) l w1 (le_n _)) as (Hr & ws & Hws & Hp).
  match goal with |- context [bind (batches ?a ?b ?c ?d ?e ?f ?g ?h ?i) _ w1] =>
    rewrite (bind_run (batches a b c d e f g h i) _ w1 tt (batches a b c d e f g h i w1).2) by (by apply run_eq) end.
  destruct (wire_cleanup config (batches (length l) config master_key now (Z.to_nat workers) (Z.to_nat size) retry schedule l w1).2)
    as [Hc1 Hc2].
  split; [exact Hc1|]. exists ws. split; [|exact Hp]. by rewrite Hc2, Hws, Hw1.
Qed.

(** Never more probes are under way than there are workers. *)
Theorem at_most_workers_ask {E : Env} config master_key now workers i ps w ps' w' :
  probe_step config master_key now workers i ps w = (Ok ps', w') → (taken ps ≤ workers)%nat → (taken ps' ≤ workers)%nat.
Proof.
  assert (∀ p p', ps !! i = Some p →
    (taken (<[i := p']> ps) + (if is_asked p then 1 else 0) = taken ps + (if is_asked p' then 1 else 0))%nat) as Hins.
  { intros p p' Hi. rewrite <-(take_drop_middle ps i p Hi) at 2.
    rewrite insert_take_drop by (by eapply lookup_lt_Some). unfold taken.
    rewrite !List.filter_app, !length_app. cbn [List.filter]. destruct (is_asked p), (is_asked p'); simpl; lia. }
  unfold probe_step. intros Hr Hle. destruct (ps !! i) as [[id c|id a|r]|] eqn:Hi; try (by injection Hr as <- _).
  - destruct (taken ps <? workers)%nat eqn:Hlt; [|by injection Hr as <- _]. apply Nat.ltb_lt in Hlt.
    apply bind_ok in Hr as (p & w1 & _ & [= <- <-]). specialize (Hins _ p eq_refl). simpl in Hins. case_match; lia.
  - apply bind_ok in Hr as (r & w1 & _ & [= <- <-]). specialize (Hins _ (Finished r) eq_refl). simpl in Hins. lia.
Qed.

(** * Concrete inputs *)

Import Simulation.

Definition refresh_world (status : Z) : World :=
  sim_world (sim_tables [sim_key 7 "exa" None] []) [] [HttpReply (mkHttpResponse status [] "Unauthorized")].

(** The round does not look at the provider: the credential of an Exa key is sent to
    Firecrawl's credit endpoint, and Firecrawl's rejection takes the key out of
    service. *)
Theorem refresh_disables_foreign_keys :
  let w' := (_refresh_once (λ _, []) None default_AppConfig "master" (refresh_world 401)).2 in
  (λ k, (k_provider k, k_is_active k, k_status k)) <$> t_keys (durable w') !! 7 =
    Some ("exa", false, "invalid") ∧
  rq_url <$> w_wire w' = ["https://api.firecrawl.dev/v2/team/credit-usage"] ∧
  List.In ("Authorization", "Bearer fc-key-7") (List.concat (rq_headers <$> w_wire w')).
Proof. vm_compute. auto. Qed.

(** Four keys, one of them switched off and one with a credential that cannot be read; the
    probes of the first batch overlap, and the second of them is answered first. *)
Definition busy_world : World :=
  sim_world (sim_tables [sim_key 7 "exa" None; AdminRows.set_k_api_key_ciphertext "short" (sim_key 8 "firecrawl" None);
                         sim_key 9 "firecrawl" None; set_k_is_active false (sim_key 10 "firecrawl" None)] []) []
    [HttpReply (mkHttpResponse 429 [] ""); HttpReply (mkHttpResponse 503 [] "")].
Definition busy_schedule (later : nat) : list nat := [2; 0; 1; 0; 2]%nat.
Lemma refresh_asks_once_witness :
  let run := _refresh_once busy_schedule None default_AppConfig "master" busy_world in
  run.1 = Ok tt ∧ ∃ sent, w_wire run.2 = sent ∧ length sent = 2%nat.
Proof.
  intros run.
  destruct (refresh_asks_once busy_schedule None default_AppConfig "master" "https://api.firecrawl.dev" None
    busy_world) as [(H1 & sent & H2 & H3)|[H1 _]]; [vm_compute; reflexivity| |].
  - split; [exact H1|]. exists sent. split; [unfold run; rewrite H2; by rewrite app_nil_r|].
    rewrite H3. vm_compute. reflexivity.
  - exfalso. vm_compute in H1. discriminate H1.
Defined.
End CreditRefreshTheorems.
