(* ===== verification/Cleanup.v ===== *)
(** [app/db/cleanup.py]: removal of rows past their retention. *)

From S2P Require Import Prelude Effects PyText PyTime Models Config Env Sim Transactions.
Open Scope Z_scope.

Module Cleanup.
Section Cleanup.
Context {E : Env}.

Record CleanupResult := mkCleanupResult {
  request_logs_deleted : Z;
  audit_logs_deleted : Z;
  idempotency_records_deleted : Z
}.

(** [.filter(created_at < threshold).delete()] and its count. *)
Definition older {A} (created : A → DateTime) (threshold : Z) (m : gmap Z A) : gmap Z A :=
  filter (λ p : Z * A, utc_us (created p.2) < threshold) m.
Definition keep_rest {A} (gone m : gmap Z A) : gmap Z A := m ∖ gone.
Definition expired (now : Z) (m : gmap Z IdempotencyRecord) : gmap Z IdempotencyRecord :=
  filter (λ p : Z * IdempotencyRecord,
    match i_expires_at p.2 with Some t => utc_us t <? now | None => false end = true) m.

(** One [db.query(...).filter(...).delete()]; the rows that went. *)
Definition delete_where {A} (enabled : bool) (get : Tables → gmap Z A)
    (set : gmap Z A → Tables → Tables) (gone : gmap Z A → gmap Z A) : Prog (gmap Z A) :=
  if enabled then
    let! t := query in
    assign (λ t, set (keep_rest (gone (get t)) (get t)) t) ;;!
    ret (gone (get t))
  else ret ∅.

Definition cleanup_retention (config : AppConfig) (now : option Z) : Prog CleanupResult :=
  let! now := match now with Some t => ret t | None => now_utc end in
  let retention := ob_retention (cfg_observability config) in
  catch_all
    (let request_days := re_request_logs_days retention in
     let! gone_r := delete_where (request_days >? 0) t_request_logs set_t_request_logs
       (older rl_created_at (now - request_days * day)) in
     let audit_days := re_audit_logs_days retention in
     let! gone_a := delete_where (audit_days >? 0) t_audit_logs set_t_audit_logs
       (older a_created_at (now - audit_days * day)) in
     let! gone_i := delete_where true t_idempotency set_t_idempotency (expired now) in
     commit ;;!
     ret (mkCleanupResult (Z.of_nat (size gone_r)) (Z.of_nat (size gone_a)) (Z.of_nat (size gone_i))))
    (λ e, rollback ;;! raise e).
End Cleanup.
End Cleanup.

(** * Theorems *)

Import Cleanup.

Module CleanupFacts.
Lemma keep_rest_filter {A} (P : Z * A → Prop) `{!∀ x, Decision (P x)} (m : gmap Z A) i x :
  keep_rest (filter P m) m !! i = Some x ↔ m !! i = Some x ∧ ¬ P (i, x).
Proof.
  unfold keep_rest. rewrite lookup_difference_Some, map_lookup_filter_None. split.
  - intros [Hx [Hn|Hn]]; [congruence|]. split; [done|]. by apply Hn.
  - intros [Hx Hn]. split; [done|]. right. intros y Hy. congruence.
Qed.
Lemma keep_rest_size {A} (g m : gmap Z A) : g ⊆ m →
  Z.of_nat (size g) = Z.of_nat (size m) - Z.of_nat (size (keep_rest g m)).
Proof.
  intros Hg. unfold keep_rest. rewrite <-(map_difference_union g m Hg) at 1.
  rewrite map_size_disj_union by (by apply map_disjoint_difference_r1). lia.
Qed.

(** The rows of [m'] are those of [m] that a retention of [days] keeps at [now]. *)
Definition retained {A} (created : A → DateTime) (days now : Z) (m m' : gmap Z A) : Prop :=
  ∀ i x, m' !! i = Some x ↔ m !! i = Some x ∧ (days ≤ 0 ∨ now - days * day ≤ utc_us (created x)).
Definition count_removed {A} (m m' : gmap Z A) : Z := Z.of_nat (size m) - Z.of_nat (size m').

(** One of the two log tables. *)
Lemma logs_purged {A} (created : A → DateTime) days now (m : gmap Z A) :
  let g := if days >? 0 then older created (now - days * day) m else ∅ in
  let m' := if days >? 0 then keep_rest g m else m in
  retained created days now m m' ∧ Z.of_nat (size g) = count_removed m m'.
Proof.
  rewrite Z.gtb_ltb. unfold count_removed. destruct (Z.ltb_spec 0 days) as [Hd|Hd]; cbn zeta iota.
  - split; [|apply keep_rest_size, map_filter_subseteq].
    intros i x. unfold older. rewrite keep_rest_filter. simpl.
    split; intros [Hx Hr]; (split; [done|]); [right; lia|]. destruct Hr; lia.
  - split; [|rewrite map_size_empty; lia]. intros i x. split; [intros Hx; auto|by intros [Hx _]].
Qed.
Lemma records_purged now m :
  (∀ i x, keep_rest (expired now m) m !! i = Some x ↔ m !! i = Some x ∧
     match i_expires_at x with Some e => now ≤ utc_us e | None => True end) ∧
  Z.of_nat (size (expired now m)) = count_removed m (keep_rest (expired now m) m).
Proof.
  split; [|apply keep_rest_size, map_filter_subseteq].
  intros i x. unfold expired. rewrite keep_rest_filter. simpl.
  destruct (i_expires_at x) as [e|]; split; intros [Hx Hr]; (split; [done|]); try done.
  - apply not_true_is_false, Z.ltb_ge in Hr. lia.
  - apply Z.ltb_ge in Hr. by rewrite Hr.
Qed.

Section DeleteWhere.
Context {E : Env} {OL : OrmLaws}.

Lemma delete_where_spec {A} enabled (get : Tables → gmap Z A) set gone w :
  match delete_where enabled get set gone w with
  | (Ok g, w1) => durable w1 = durable w ∧ g = (if enabled then gone (get (view w)) else ∅) ∧
      view w1 = (if enabled then set (keep_rest g (get (view w))) (view w) else view w)
  | (Raise _, w1) => durable w1 = durable w
  end.
Proof.
  unfold delete_where. destruct enabled; [|done].
  unfold bind at 1. destruct (query_spec w) as (Hv & Hd & Hq). destruct (query w) as [r w1].
  cbn [fst snd] in Hv, Hd, Hq. destruct Hq as [->| ->]; [|done].
  match goal with |- context [assign ?g] => set (f := g); destruct (assign_spec f w1) as (Ha & Hva & Hda) end.
  rewrite (bind_run _ _ w1 tt (assign f w1).2) by (by apply run_eq). cbn [ret].
  rewrite Hda, Hva, Hd. unfold f. rewrite Hv. done.
Qed.
End DeleteWhere.
End CleanupFacts.

Module CleanupTheorems.
Import CleanupFacts.
Section CleanupTheorems.
Context {E : Env} {OL : OrmLaws}.

(** The clean-up removes exactly what is past its retention: request and audit logs
    older than their number of days (none where that is not positive) and expired
    idempotency records.  The counts it reports are the numbers of removed rows,
    no other table changes, and when it fails the database is as it was. *)
Theorem cleanup_exact config now w :
  clean w →
  let r := ob_retention (cfg_observability config) in
  let t := durable w in
  match cleanup_retention config (Some now) w with
  | (Ok res, w') =>
      let t' := durable w' in
      retained rl_created_at (re_request_logs_days r) now (t_request_logs t) (t_request_logs t') ∧
      retained a_created_at (re_audit_logs_days r) now (t_audit_logs t) (t_audit_logs t') ∧
      (∀ i x, t_idempotency t' !! i = Some x ↔ t_idempotency t !! i = Some x ∧
         match i_expires_at x with Some e => now ≤ utc_us e | None => True end) ∧
      request_logs_deleted res = count_removed (t_request_logs t) (t_request_logs t') ∧
      audit_logs_deleted res = count_removed (t_audit_logs t) (t_audit_logs t') ∧
      idempotency_records_deleted res = count_removed (t_idempotency t) (t_idempotency t') ∧
      t_keys t' = t_keys t ∧ t_clients t' = t_clients t ∧ t_snapshots t' = t_snapshots t ∧
      t_bindings t' = t_bindings t
  | (Raise _, w') => durable w' = durable w
  end.
Proof.
  intros Hc r t. unfold cleanup_retention. unfold bind at 1, ret at 1. fold r. unfold catch_all, try_except.
  unfold clean in Hc. fold t in Hc.
  unfold bind at 1. match goal with |- context [delete_where ?b ?g ?s ?f w] =>
    pose proof (delete_where_spec b g s f w) as H1; destruct (delete_where b g s f w) as [[g1|e] w1] end.
  2: { etrans; [apply rollback_spec|exact H1]. }
  unfold bind at 1. match goal with |- context [delete_where ?b ?g ?s ?f w1] =>
    pose proof (delete_where_spec b g s f w1) as H2; destruct (delete_where b g s f w1) as [[g2|e] w2] end.
  2: { etrans; [apply rollback_spec|]. rewrite H2. apply H1. }
  unfold bind at 1. match goal with |- context [delete_where ?b ?g ?s ?f w2] =>
    pose proof (delete_where_spec b g s f w2) as H3; destruct (delete_where b g s f w2) as [[g3|e] w3] end.
  2: { etrans; [apply rollback_spec|]. rewrite H3. etrans; [apply H2|apply H1]. }
  destruct H1 as (Hd1 & Hg1 & Hv1), H2 as (Hd2 & Hg2 & Hv2), H3 as (Hd3 & Hg3 & Hv3).
  unfold bind at 1. destruct (commit_spec w3) as [_ Hk]. destruct (commit w3) as [[[]|e] w4]; cbn [fst snd] in Hk.
  2: { etrans; [apply rollback_spec|]. destruct Hk as [-> _]. congruence. }
  destruct Hk as [Hk _]. cbn [ret]. rewrite Hk. cbn zeta.
  destruct (logs_purged rl_created_at (re_request_logs_days r) now (t_request_logs t)) as [HA HA'].
  destruct (logs_purged a_created_at (re_audit_logs_days r) now (t_audit_logs t)) as [HB HB'].
  destruct (records_purged now (t_idempotency t)) as [HC HC'].
  rewrite Hc in *. subst g1 g2 g3. rewrite Hv3, Hv2, Hv1.
  destruct (_ >? 0), (_ >? 0); simpl in *; split_and!; try assumption; try reflexivity.
Qed.
End CleanupTheorems.

(** * Concrete inputs *)

Import Simulation.

Definition cleanup_world : World :=
  sim_world (set_t_idempotency
    {[1 := mkIdempotencyRecord 1 5 "old" "h" "completed" None None (Aware (T0 - day)) (Some (Aware (T0 - 1)));
      2 := mkIdempotencyRecord 2 5 "new" "h" "completed" None None (Aware T0) (Some (Aware (T0 + day)))]}
    (sim_tables [] [sim_client 5 None 0])) [] [].
Lemma cleanup_exact_witness :
  match cleanup_retention default_AppConfig (Some T0) cleanup_world with
  | (Ok res, w') => idempotency_records_deleted res =
      count_removed (t_idempotency (durable cleanup_world)) (t_idempotency (durable w'))
  | (Raise _, w') => durable w' = durable cleanup_world
  end ∧
  (cleanup_retention default_AppConfig (Some T0) cleanup_world).1 = Ok (mkCleanupResult 0 0 1).
Proof.
  split; [|vm_compute; reflexivity].
  pose proof (cleanup_exact default_AppConfig T0 cleanup_world eq_refl) as Hx. cbv zeta in Hx.
  destruct (cleanup_retention default_AppConfig (Some T0) cleanup_world) as [[res|e] w']; [|exact Hx].
  destruct Hx as (_ & _ & _ & _ & _ & Hx & _). exact Hx.
Defined.
End CleanupTheorems.
