(* ===== verification/Forwarder.v ===== *)
(** [app/core/forwarder.py]: one request of a client, forwarded upstream with a key
    of the pool.  The outcome of every upstream response is attributed to the key
    or to the request; a key that is to blame is punished and another one tried,
    up to the client's retry budget.  A request for a resource that lives with a
    key (a pinned key) never changes keys.  Logging and metrics are left out. *)

From S2P Require Import Prelude Effects PyText PyTime Json Models Config Env RuntimeSettings UrlUtil.
From S2P Require Import CreditEstimator Security KeyPool CreditSchedule CreditFetcher.
Import KeyPool CreditFetcher.
Open Scope Z_scope.

Module Forwarder.

Definition DROP_REQUEST_HEADERS : list string :=
  ["authorization"; "x-api-key"; "host"; "connection"; "keep-alive"; "proxy-authenticate";
   "proxy-authorization"; "te"; "trailers"; "transfer-encoding"; "upgrade"; "x-forwarded-for";
   "x-forwarded-proto"; "x-forwarded-host"; "x-real-ip"].
Definition DROP_RESPONSE_HEADERS : list string :=
  ["connection"; "keep-alive"; "content-encoding"; "content-length"; "proxy-authenticate";
   "proxy-authorization"; "te"; "trailers"; "transfer-encoding"; "upgrade"; "set-cookie"].

Record ForwardResult := mkForwardResult {
  fw_response : HttpResponse;
  fw_upstream_status_code : option Z;
  fw_api_key_id : option Z;
  fw_retry_count : Z;
  fw_switch_reasons : list string;
  fw_selection_score : option Q
}.
Record KeyTestResult := mkKeyTestResult {
  kt_ok : bool;
  kt_upstream_status_code : option Z;
  kt_latency_ms : Z;
  kt_observed_status : string;
  kt_observed_cooldown_until : option DateTime
}.

(** [httpx.Headers(d).get(name)]: case-insensitive, repeated headers joined. *)
Definition header_get (name : string) (d : dict) : option string :=
  match List.filter (λ kv, String.eqb (lower kv.1) name) d with
  | [] => None
  | l => Some (join ", " (map snd l))
  end.

Definition _parse_retry_after (headers : dict) : option Z :=
  match header_get "retry-after" headers with
  | None => None
  | Some raw =>
      if String.eqb raw "" then None
      else match parse_int (strip raw) with Some seconds => Some (Z.max seconds 0) | None => None end
  end.

Definition SITE_OR_REQUEST_MARKERS : list string :=
  ["do not support this site"; "we do not support this site"; "site is not supported";
   "unsupported site"; "scrape_all_engines_failed"; "all scraping engines failed";
   "website is blocking"; "website is down"; "page doesn't exist"; "page does not exist";
   "requires authentication"; "url is invalid"; "invalid url"].
Definition INVALID_KEY_MARKERS : list string :=
  ["invalid token"; "unauthorized: invalid"; "invalid api key"; "invalid key"; "api key is invalid";
   "api key is missing"; "revoked"; "malformed token"].
Definition CREDIT_MARKERS : list string :=
  ["insufficient credit"; "insufficient credits"; "no credits"; "out of credits"; "credit limit";
   "payment required"; "not enough credits"; "exceeded your credit"; "credits exhausted"].
Definition REQUEST_STATUSES : list Z := [400; 404; 405; 408; 409; 413; 414; 415; 422].

Definition _upstream_error_blob (resp : HttpResponse) : string :=
  lower (slice_to 2048 (rs_content resp)).
Definition mentions (markers : list string) (text : string) : bool :=
  existsb (λ m, contains m text) markers.

Definition _looks_like_credit_error (resp : HttpResponse) : bool :=
  let code := rs_status resp in
  if code =? 402 then true
  else if (code <? 400) || (code >=? 500) then false
  else
    let text := _upstream_error_blob resp in
    if String.eqb text "" then false else mentions CREDIT_MARKERS text.
Definition _looks_like_site_or_request_error (resp : HttpResponse) : bool :=
  if mentions SITE_OR_REQUEST_MARKERS (_upstream_error_blob resp) then true
  else if z_in (rs_status resp) REQUEST_STATUSES then true else false.
Definition _looks_like_invalid_key (resp : HttpResponse) : bool :=
  if mentions INVALID_KEY_MARKERS (_upstream_error_blob resp) then true
  else if rs_status resp =? 401 then true else false.

(** The values [classify_upstream_outcome] returns. *)
Inductive Outcome := OutOk | OutCredit | OutRateLimit | OutInvalidKey | Out5xx | OutPassthrough.
#[global] Instance Outcome_eq_dec : EqDecision Outcome.
Proof. solve_decision. Defined.

Definition classify_upstream_outcome (resp : HttpResponse) : Outcome :=
  let code := rs_status resp in
  if (200 <=? code) && (code <? 300) then OutOk
  else if _looks_like_credit_error resp then OutCredit
  else if code =? 429 then OutRateLimit
  else if _looks_like_invalid_key resp then OutInvalidKey
  else if _looks_like_site_or_request_error resp then OutPassthrough
  else if code >=? 500 then Out5xx
  else OutPassthrough.

(** [provider_max] is only used for a client without the column's value, which the
    schema does not allow. *)
Definition _client_retry_budget (client : Client) (provider_max : Z) : Z :=
  Z.max (c_max_retries client) 0 + 1.

Definition set_if_present (name : string) (v : option string) (d : dict) : dict :=
  match v with Some s => if String.eqb s "" then d else dict_set name s d | None => d end.
Definition _sanitized_request_headers (in_headers : dict) (request_id : string) : dict :=
  let headers := [("x-request-id", request_id)] in
  let headers := set_if_present "accept" (header_get "accept" in_headers) headers in
  let headers := set_if_present "content-type" (header_get "content-type" in_headers) headers in
  set_if_present "user-agent" (header_get "user-agent" in_headers) headers.

Definition _to_fastapi_response (upstream : HttpResponse) : HttpResponse :=
  mkHttpResponse (rs_status upstream)
    (foldl (λ acc kv, if str_in (lower kv.1) DROP_RESPONSE_HEADERS then acc
                      else dict_set kv.1 kv.2 acc) [] (rs_headers upstream))
    (rs_content upstream).

(** The final filter over the outgoing headers. *)
Definition drop_request_headers (h : dict) : dict :=
  foldl (λ acc hk, if str_in (lower hk) DROP_REQUEST_HEADERS &&
                      negb (str_in (lower hk) ["authorization"; "x-api-key"])
                   then dict_pop hk acc else acc) h (dict_keys h).

(** The fields of the Forwarder object that never change. *)
Record Self := mkSelf {
  f_config : AppConfig;
  f_master_key : option string;
  f_runtime : option RuntimeScheduling;
  f_firecrawl_base_url : string;
  f_firecrawl_version : option string
}.
Definition init `{!Digests} (config : AppConfig) (secrets : Secrets) (rt : option RuntimeScheduling)
  : Res Self :=
  match strip_provider_version_suffix (fc_base_url (cfg_firecrawl config)) with
  | Ok (base, version) =>
      Ok (mkSelf config
            (match sec_master_key secrets with
             | Some m => if String.eqb m "" then None else Some (derive_master_key_bytes m)
             | None => None
             end) rt base version)
  | Raise e => Raise e
  end.

Definition provider_config (self : Self) (provider : string) : option ProviderConfig :=
  if String.eqb provider "exa" then Some (ps_exa (cfg_providers (f_config self))) else None.
Definition _provider_base_url (self : Self) (provider : string) : Res string :=
  if String.eqb provider "firecrawl" then Ok (f_firecrawl_base_url self)
  else match provider_config self provider with
       | Some prov =>
           if pr_enabled prov then Ok (rstrip_char "/"%char (pr_base_url prov))
           else Raise (EFcam (mkFcamError 400 "PROVIDER_NOT_CONFIGURED"
                         ("Provider '" +:+ provider +:+ "' is not configured or enabled") None))
       | None => Raise (EFcam (mkFcamError 400 "PROVIDER_NOT_CONFIGURED"
                         ("Provider '" +:+ provider +:+ "' is not configured or enabled") None))
       end.
Definition _provider_timeout (self : Self) (provider : string) : Z :=
  if String.eqb provider "firecrawl" then fc_timeout (cfg_firecrawl (f_config self))
  else match provider_config self provider with
       | Some prov => pr_timeout prov
       | None => fc_timeout (cfg_firecrawl (f_config self))
       end.
Definition _provider_max_retries (self : Self) (provider : string) : Z :=
  if String.eqb provider "firecrawl" then fc_max_retries (cfg_firecrawl (f_config self))
  else match provider_config self provider with
       | Some prov => pr_max_retries prov
       | None => fc_max_retries (cfg_firecrawl (f_config self))
       end.
Definition _provider_auth_header (self : Self) (provider plaintext : string) : dict :=
  if String.eqb provider "firecrawl" then [("authorization", "Bearer " +:+ plaintext)]
  else match provider_config self provider with
       | Some prov => if String.eqb (pr_auth_mode prov) "x-api-key" then [("x-api-key", plaintext)]
                      else [("authorization", "Bearer " +:+ plaintext)]
       | None => [("authorization", "Bearer " +:+ plaintext)]
       end.

Section Forwarder.
Context {E : Env} (self : Self).
Let config := f_config self.

(** * Writes to a key *)

Definition _disable_key_decrypt_failed (key_id : Z) : Prog unit :=
  commit_or_rollback (assign_key key_id (λ k, set_k_next_refresh_at None (set_k_is_active false
    (set_k_status "decrypt_failed" k)))).

Definition out_of_service (key : ApiKey) : bool :=
  negb (k_is_active key) || String.eqb (k_status key) "disabled".

Definition _mark_active (key_id : Z) : Prog unit :=
  let! key := get_key key_id in
  if out_of_service key then ret tt
  else commit_or_rollback (assign_key key_id (λ k, set_k_cooldown_until None (set_k_status "active" k))).

Definition _mark_cooling (key_id cooldown_seconds : Z) : Prog unit :=
  let! key := get_key key_id in
  if out_of_service key then ret tt
  else
    catch_all
      (let! now := now_utc in
       assign_key key_id (λ k, set_k_cooldown_until (Some (Aware (now + cooldown_seconds * second)))
         (set_k_status "cooling" k)) ;;!
       commit ;;!
       step (λ w, let '(_, c) := cd_set key_id cooldown_seconds (w_cooldown w) in (tt, set_w_cooldown c w)))
      (λ _, rollback).

Definition _disable_key (key_id : Z) : Prog unit :=
  commit_or_rollback (assign_key key_id (λ k, set_k_cached_remaining_credits (Some 0)
    (set_k_next_refresh_at None (set_k_is_active false (set_k_status "invalid" k))))).

Definition _record_failure (key_id : Z) (reason : string) (status_code : option Z) : Prog unit :=
  let! key := get_key key_id in
  if out_of_service key then ret tt
  else
    catch_all (record_failure key_id reason status_code) (λ _, ret tt) ;;!
    let! now := now_utc in
    let! failures := gets w_fwd_failures in
    let '(count, first_at) := default (0, now) (failures !! key_id) in
    let '(count, first_at) :=
      if inject_Z (fc_failure_window_seconds (cfg_firecrawl config)) <?q total_seconds (now - first_at)
      then (0, now) else (count, first_at) in
    let count := count + 1 in
    modify (λ w, set_w_fwd_failures (<[key_id := (count, first_at)]> (w_fwd_failures w)) w) ;;!
    if count <? fc_failure_threshold (cfg_firecrawl config) then ret tt
    else
      let cooldown := Z.max (fc_failed_cooldown_seconds (cfg_firecrawl config)) 1 in
      commit_or_rollback (assign_key key_id (λ k,
        set_k_cooldown_until (Some (Aware (now + cooldown * second))) (set_k_status "failed" k))).

Definition _consume_quota_on_success (client_id key_id : Z) : Prog unit :=
  catch_all
    (let! client := get_client client_id in
     (match c_daily_quota client with
      | Some _ => assign_client client_id (λ c, set_c_daily_usage (c_daily_usage c + 1) c)
      | None => ret tt
      end) ;;!
     let! now := now_utc in
     assign_client client_id (set_c_last_used_at (Some (Aware now))) ;;!
     assign_key key_id (λ k, set_k_total_requests (k_total_requests k + 1) k) ;;!
     let! now := now_utc in
     assign_key key_id (set_k_last_used_at (Some (Aware now))) ;;!
     commit)
    (λ _, rollback ;;! raise (EFcam db_unavailable)).

Definition _refresh_credits_on_4xx (key_id status_code : Z) (request_id : string) : Prog unit :=
  catch_all (record_failure key_id ("key_4xx_" +:+ str_int status_code) (Some status_code))
    (λ _, ret tt) ;;!
  catch_all
    (refresh_credits_after_4xx key_id (f_master_key self) config (Some request_id) ;;! ret tt)
    (λ _, ret tt).

Definition _record_upstream_success (key_id : option Z) : Prog unit :=
  match key_id with None => ret tt | Some id => catch_all (record_success id) (λ _, ret tt) end.

(** [try: key.cached_remaining_credits = 0; db.commit()  except: db.rollback()]. *)
Definition zero_credits (key_id : Z) : Prog unit :=
  commit_or_rollback (assign_key key_id (set_k_cached_remaining_credits (Some 0))).

(** * One exchange with the upstream *)

(** What stays the same during a request. *)
Record Call := mkCall {
  ca_request_id : string;
  ca_client_id : Z;
  ca_method : string;
  ca_path : string;
  ca_json : option Json;
  ca_provider : string;
  ca_master_key : string;
  ca_base_url : string;
  ca_safe_headers : dict;
  ca_total_attempts : Z
}.

Definition upstream_headers (c : Call) (plaintext : string) : dict :=
  drop_request_headers
    (dict_update (ca_safe_headers c) (_provider_auth_header self (ca_provider c) plaintext)).

Definition send (c : Call) (plaintext : string) : Prog HttpResponse :=
  http_request (mkHttpRequest (ca_base_url c) (ca_method c) (ca_path c)
    (upstream_headers c plaintext) (ca_json c)).

Definition rate_allow (key : ApiKey) : Prog (bool * Z) :=
  let! t := moment in
  let! r := step (λ w, let '(r, l) := rl_allow (str_int (k_id key)) (k_rate_limit_per_min key) t
                                       (w_key_limiter w) in (r, set_w_key_limiter l w)) in
  of_res r.
Definition acquire_slot (key : ApiKey) : Prog (option Lease) :=
  let! t := moment in
  let! r := step (λ w, let '(r, c) := cl_try_acquire (str_int (k_id key)) (k_max_concurrent key) t
                                        (w_key_conc w) in (r, set_w_key_conc c w)) in
  of_res r.
Definition release_slot (l : Lease) : Prog unit :=
  modify (λ w, set_w_key_conc (cl_release l (w_key_conc w)) w).

(** The [except httpx...] clauses around an exchange. *)
Definition transport_errors (c : Call) (key_id : Z) {A} (m : Prog A) : Prog A :=
  let base_url := ("base_url", JStr (fc_base_url (cfg_firecrawl config))) in
  let rest := [("attempts", JInt 1); ("method", JStr (ca_method c)); ("upstream_path", JStr (ca_path c))] in
  try_except m (λ e,
    match e with
    | EHttpTimeout =>
        Some (_record_failure key_id "timeout" None ;;!
              raise_detailed 504 "UPSTREAM_TIMEOUT" "Upstream timeout" None
                (JObj (base_url :: ("timeout_s", JInt (fc_timeout (cfg_firecrawl config))) :: rest)))
    | EHttpError msg =>
        Some (_record_failure key_id "http_error" None ;;!
              raise_detailed 503 "UPSTREAM_UNAVAILABLE" "Upstream unavailable" None
                (JObj (base_url :: rest ++ [("error", JStr msg)])))
    | _ => None
    end).

(** * After a 2xx response *)

(** The local estimate of the credits left; [true] when it changed the row. *)
Definition estimate_locally (c : Call) (key_id : Z) (resp : HttpResponse) : Prog bool :=
  let cm := cfg_credit_monitoring config in
  if cm_enabled cm && le_enabled (cm_local_estimation cm) && le_sync_on_request (cm_local_estimation cm)
     && negb (String.eqb (upper (ca_method c)) "GET")
  then
    catch_all
      (let endpoint := normalize_endpoint (ca_path c) in
       let! key := get_key key_id in
       match cost_lookup endpoint, k_cached_remaining_credits key with
       | Some _, Some old_remaining =>
           let content_type := lower (default "" (header_get "content-type" (rs_headers resp))) in
           let response_data :=
             if startswith "application/json" content_type then h_json_loads (rs_content resp) else None in
           let! cost := of_res (estimate_credit_cost endpoint response_data) in
           let new_remaining := Z.max 0 (old_remaining - cost) in
           if negb (new_remaining =? old_remaining) then
             assign_key key_id (set_k_cached_remaining_credits (Some new_remaining)) ;;! ret true
           else ret false
       | _, _ => ret false
       end)
      (λ _, ret false)
  else ret false.

Definition settle_success (c : Call) (key_id : Z) (last_api_key_id : option Z) (resp : HttpResponse)
  : Prog unit :=
  if (200 <=? rs_status resp) && (rs_status resp <? 300) then
    let! credit_changed := estimate_locally c key_id resp in
    (if String.eqb (qu_count_mode (cfg_quota config)) "success"
     then _consume_quota_on_success (ca_client_id c) key_id
     else if credit_changed then catch_all commit (λ _, rollback)
     else ret tt) ;;!
    _record_upstream_success last_api_key_id
  else ret tt.

(** * A pinned key *)

(** The local variables of [forward]. *)
Record Loop := mkLoop {
  lp_status : option Z;              (* last_upstream_status *)
  lp_key : option Z;                 (* last_api_key_id *)
  lp_error : option HttpResponse;    (* last_error_response *)
  lp_retry : Z;                      (* retry_count *)
  lp_tried : gset Z;                 (* tried_key_ids *)
  lp_switch : list string;           (* switch_reasons *)
  lp_score : option Q;               (* selection_score *)
  lp_attempts : Z;                   (* upstream_attempts *)
  lp_decrypt_failed : bool           (* decrypt_failed_seen *)
}.
Definition loop0 : Loop := mkLoop None None None 0 ∅ [] None 0 false.
Definition result_of (l : Loop) (resp : HttpResponse) (retry : Z) : ForwardResult :=
  mkForwardResult (_to_fastapi_response resp) (lp_status l) (lp_key l) retry (lp_switch l) (lp_score l).

(** [pinned] is the pinned key, if that is the one that was busy. *)
Definition all_keys_busy {A} (c : Call) (pinned : option Z) (retry : option Z) : Prog A :=
  raise_detailed 503 "ALL_KEYS_BUSY" "All keys busy or rate-limited" retry
    (JObj (("client_id", JInt (ca_client_id c)) ::
           match pinned with Some id => [("api_key_id", JInt id)] | None => [] end ++
           [("base_url", JStr (fc_base_url (cfg_firecrawl config))); ("attempts", JInt (ca_total_attempts c));
            ("method", JStr (ca_method c)); ("upstream_path", JStr (ca_path c))])).
Definition decrypt_failed_error {A} : Prog A :=
  raise_fcam 503 "KEY_DECRYPT_FAILED" "Failed to decrypt API key; check FCAM_MASTER_KEY" None.

(** Lines from [allow] to [finally]: the response of one pinned attempt. *)
Definition pinned_exchange (c : Call) (key_id : Z) : Prog HttpResponse :=
  let! key := get_key key_id in
  let! ' (allowed, retry_after) := rate_allow key in
  if negb allowed then all_keys_busy c (Some key_id) (Some retry_after)
  else
    let! lease := acquire_slot key in
    match lease with
    | None => all_keys_busy c (Some key_id) None
    | Some lease =>
        finally
          (transport_errors c key_id
            (let! plain := try_decrypt (ca_master_key c) (k_api_key_ciphertext key) in
             match plain with
             | inr _ => _disable_key_decrypt_failed key_id ;;! decrypt_failed_error
             | inl plaintext => send c plaintext
             end))
          (release_slot lease)
    end.

(** What follows the response; [Next] is the [continue]. *)
Definition pinned_outcome (c : Call) (key_id attempt : Z) (l : Loop) (resp : HttpResponse)
  : Prog (Ctl ForwardResult Loop) :=
  match classify_upstream_outcome resp with
  | OutRateLimit =>
      _refresh_credits_on_4xx key_id 429 (ca_request_id c) ;;!
      let cooldown := opt_or_int (_parse_retry_after (rs_headers resp))
        (rl_cooldown_seconds (cfg_rate_limit config)) in
      _mark_cooling key_id cooldown ;;!
      ret (if attempt >=? ca_total_attempts c - 1 then Return (result_of l resp (lp_retry l)) else Next l)
  | OutInvalidKey =>
      _refresh_credits_on_4xx key_id (rs_status resp) (ca_request_id c) ;;!
      _disable_key key_id ;;!
      ret (Return (result_of l resp (lp_retry l)))
  | Out5xx =>
      _record_failure key_id "upstream_5xx" (Some (rs_status resp)) ;;!
      ret (Return (result_of l resp (lp_retry l)))
  | OutCredit =>
      _refresh_credits_on_4xx key_id (rs_status resp) (ca_request_id c) ;;!
      zero_credits key_id ;;!
      settle_success c key_id (lp_key l) resp ;;!
      ret (Return (result_of l resp (lp_retry l)))
  | OutOk | OutPassthrough =>
      settle_success c key_id (lp_key l) resp ;;!
      ret (Return (result_of l resp (lp_retry l)))
  end.

Definition set_response (status : Z) (retry : Z) (l : Loop) : Loop :=
  mkLoop (Some status) (lp_key l) (lp_error l) retry (lp_tried l) (lp_switch l) (lp_score l)
    (lp_attempts l) (lp_decrypt_failed l).

(** [for attempt in range(total_attempts)], [n] iterations from [attempt] on. *)
Fixpoint pinned_loop (n : nat) (attempt : Z) (c : Call) (key_id : Z) (l : Loop)
  : Prog (Ctl ForwardResult Loop) :=
  match n with
  | O => ret (Next l)
  | S n' =>
      let! resp := pinned_exchange c key_id in
      let l := set_response (rs_status resp) (if attempt >? 0 then attempt else lp_retry l) l in
      let! r := pinned_outcome c key_id attempt l resp in
      match r with
      | Return res => ret (Return res)
      | Next l' => pinned_loop n' (attempt + 1) c key_id l'
      end
  end.

(** The lookup of the pinned key; [None] when the request goes to the pool. *)
Definition usable_pin (provider : string) (key : ApiKey) : bool :=
  negb (negb (k_is_active key) || str_in (k_status key) ["disabled"; "invalid"; "decrypt_failed"])
  && String.eqb (k_provider key) provider.
Definition pinned_key (provider : string) (pinned : option Z) : Prog (option Z) :=
  match pinned with
  | None => ret None
  | Some id =>
      let! t := catch_all query (λ _, raise (EFcam db_unavailable)) in
      match t_keys t !! id with
      | Some key => ret (if usable_pin provider key then Some id else None)
      | None => ret None
      end
  end.

(** * The pool *)

Definition set_selected (key_id : Z) (score : Q) (l : Loop) : Loop :=
  mkLoop (lp_status l) (Some key_id) (lp_error l) (lp_retry l) (lp_tried l) (lp_switch l) (Some score)
    (lp_attempts l) (lp_decrypt_failed l).
(** [tried_key_ids.add(key.id); retry_count += 1]. *)
Definition skip_key (key_id : Z) (l : Loop) : Loop :=
  mkLoop (lp_status l) (lp_key l) (lp_error l) (lp_retry l + 1) ({[key_id]} ∪ lp_tried l) (lp_switch l)
    (lp_score l) (lp_attempts l) (lp_decrypt_failed l).
Definition skip_undecryptable (key_id : Z) (l : Loop) : Loop :=
  mkLoop (lp_status l) (lp_key l) (lp_error l) (lp_retry l + 1) ({[key_id]} ∪ lp_tried l)
    (lp_switch l ++ ["decrypt_failed"]) (lp_score l) (lp_attempts l) true.
Definition count_attempt (status : Z) (l : Loop) : Loop :=
  mkLoop (Some status) (lp_key l) (lp_error l) (lp_retry l) (lp_tried l) (lp_switch l) (lp_score l)
    (lp_attempts l + 1) (lp_decrypt_failed l).
Definition blame_key (key_id : Z) (resp : HttpResponse) (l : Loop) : Loop :=
  mkLoop (lp_status l) (lp_key l) (Some resp) (lp_retry l + 1) ({[key_id]} ∪ lp_tried l) (lp_switch l)
    (lp_score l) (lp_attempts l) (lp_decrypt_failed l).

(** One exchange with a selected key: the response, or [None] when the key's
    ciphertext does not decrypt. *)
Definition pool_exchange (c : Call) (key : ApiKey) (lease : Lease) : Prog (option HttpResponse) :=
  finally
    (transport_errors c (k_id key)
      (let! plain := try_decrypt (ca_master_key c) (k_api_key_ciphertext key) in
       match plain with
       | inr _ => _disable_key_decrypt_failed (k_id key) ;;! ret None
       | inl plaintext => let! r := send c plaintext in ret (Some r)
       end))
    (release_slot lease).

(** The statements after the response. *)
Definition pool_outcome (c : Call) (key_id : Z) (l : Loop) (resp : HttpResponse)
  : Prog (Ctl ForwardResult Loop) :=
  let next l := if lp_attempts l >=? ca_total_attempts c
                then Return (result_of l resp (lp_retry l - 1)) else Next l in
  match classify_upstream_outcome resp with
  | OutRateLimit =>
      let sc := if (400 <=? rs_status resp) && (rs_status resp <? 500) then rs_status resp else 429 in
      _refresh_credits_on_4xx key_id sc (ca_request_id c) ;;!
      _mark_cooling key_id (opt_or_int (_parse_retry_after (rs_headers resp))
        (rl_cooldown_seconds (cfg_rate_limit config))) ;;!
      ret (next (blame_key key_id resp l))
  | OutCredit =>
      let sc := if (400 <=? rs_status resp) && (rs_status resp <? 500) then rs_status resp else 429 in
      _refresh_credits_on_4xx key_id sc (ca_request_id c) ;;!
      zero_credits key_id ;;!
      ret (next (blame_key key_id resp l))
  | OutInvalidKey =>
      _refresh_credits_on_4xx key_id (rs_status resp) (ca_request_id c) ;;!
      _disable_key key_id ;;!
      ret (next (blame_key key_id resp l))
  | Out5xx =>
      _record_failure key_id "upstream_5xx" (Some (rs_status resp)) ;;!
      ret (Return (result_of l resp (lp_retry l)))
  | OutOk | OutPassthrough =>
      settle_success c key_id (lp_key l) resp ;;!
      ret (Return (result_of l resp (lp_retry l)))
  end.

(** The [except FcamError] around the selection. *)
Definition selection_failed (l : Loop) (e : FcamError) : Prog (Ctl ForwardResult Loop) :=
  if lp_decrypt_failed l &&
     str_in (fe_code e) ["NO_KEY_CONFIGURED"; "ALL_KEYS_DISABLED"; "NO_KEY_AVAILABLE"; "ALL_KEYS_NO_CREDITS"]
  then decrypt_failed_error
  else match lp_error l with
       | Some resp =>
           if lp_attempts l >? 0 then ret (Return (result_of l resp (Z.max (lp_retry l - 1) 0)))
           else raise (EFcam e)
       | None => raise (EFcam e)
       end.

(** The body of the [while] once a key is selected. *)
Definition try_key (c : Call) (sel : SelectedKey) (l : Loop) : Prog (Ctl ForwardResult Loop) :=
  let key_id := sel_api_key sel in
  let l := set_selected key_id (sel_score sel) l in
  let! key := get_key key_id in
  let! ' (allowed, _) := rate_allow key in
  if negb allowed then ret (Next (skip_key key_id l))
  else
    let! lease := acquire_slot key in
    match lease with
    | None => ret (Next (skip_key key_id l))
    | Some lease =>
        let! resp := pool_exchange c key lease in
        match resp with
        | None => ret (Next (skip_undecryptable key_id l))
        | Some resp => pool_outcome c key_id (count_attempt (rs_status resp) l) resp
        end
    end.

(** One iteration of the [while]. *)
Definition pool_step (c : Call) (l : Loop) : Prog (Ctl ForwardResult Loop) :=
  let! selected := try_except
    (let! s := select (f_runtime self) config (ca_provider c) (lp_tried l) in ret (inl s))
    (λ e, match e with EFcam f => Some (ret (inr f)) | _ => None end) in
  match selected with
  | inr e => selection_failed l e
  | inl sel => try_key c sel l
  end.

(** [while upstream_attempts < total_attempts and selection_tries <
    max_selection_tries]; [tries] are the selections left. *)
Fixpoint pool_loop (tries : nat) (c : Call) (l : Loop) : Prog (Ctl ForwardResult Loop) :=
  match tries with
  | O => ret (Next l)
  | S tries' =>
      if lp_attempts l <? ca_total_attempts c then
        let! r := pool_step c l in
        match r with
        | Return res => ret (Return res)
        | Next l' => pool_loop tries' c l'
        end
      else ret (Next l)
  end.

Definition max_selection_tries (total_attempts : Z) : nat := Z.to_nat (Z.max (total_attempts * 20) 50).

(** The end of [forward], after the loop. *)
Definition exhausted (c : Call) (l : Loop) : Prog ForwardResult :=
  if lp_attempts l =? 0 then all_keys_busy c None None
  else match lp_error l with
       | Some resp => ret (result_of l resp (Z.max (lp_retry l - 1) 0))
       | None =>
           raise_detailed 503 "UPSTREAM_UNAVAILABLE" "Upstream unavailable" None
             (JObj [("client_id", JInt (ca_client_id c));
                    ("base_url", JStr (fc_base_url (cfg_firecrawl config)));
                    ("attempts", JInt (ca_total_attempts c));
                    ("method", JStr (ca_method c)); ("upstream_path", JStr (ca_path c));
                    ("last_upstream_status_code", nullable JInt (lp_status l)); ("last_api_key_id", nullable JInt (lp_key l))])
       end.

Definition from_pool (c : Call) (l : Loop) : Prog ForwardResult :=
  let! r := pool_loop (max_selection_tries (ca_total_attempts c)) c l in
  match r with Return res => ret res | Next l' => exhausted c l' end.

Definition set_pinned (key_id : Z) (l : Loop) : Loop :=
  mkLoop (lp_status l) (Some key_id) (lp_error l) (lp_retry l) (lp_tried l) (lp_switch l) (lp_score l)
    (lp_attempts l) (lp_decrypt_failed l).

Definition forward_call (c : Call) (pinned : option Z) : Prog ForwardResult :=
  let! pin := pinned_key (ca_provider c) pinned in
  match pin with
  | None => from_pool c loop0
  | Some id =>
      let! r := pinned_loop (Z.to_nat (ca_total_attempts c)) 0 c id (set_pinned id loop0) in
      match r with Return res => ret res | Next l => from_pool c l end
  end.

Definition forward (request_id : string) (client_id : Z) (method upstream_path : string)
    (json_body : option Json) (inbound_headers : dict) (pinned_api_key_id : option Z)
    (provider : string) : Prog ForwardResult :=
  match f_master_key self with
  | None => raise_fcam 503 "NOT_READY" "Master key not configured" None
  | Some master_key =>
      let! base_url := of_res (_provider_base_url self provider) in
      let! client := get_client client_id in
      forward_call (mkCall request_id client_id method upstream_path json_body provider master_key base_url
        (_sanitized_request_headers inbound_headers request_id)
        (_client_retry_budget client (_provider_max_retries self provider)))
        pinned_api_key_id
  end.
End Forwarder.
End Forwarder.
