(* ===== verification/Invariants.v ===== *)
(** Two kinds of invariants that hold across whole requests, proved once for every
    primitive statement and then by composition.

    [Inert p]: the component [p] of the state is one that only few operations
    write; everything else is shown to leave it alone ([runs (same p)]).

    [Stable P]: the property [P] of a key's row is one that no attribute write of
    the data plane can break.  [StableT P]: the same for a property of the tables;
    tables that have it, in the session and in the database, keep it through
    commits, failed commits and rollbacks ([runs (keepsT P)]). *)

From S2P Require Import Prelude Effects PyText PyTime Json Models Config Env RuntimeSettings CreditEstimator.
From S2P Require Import Security KeyPool CreditSchedule CreditFetcher Forwarder.
Import KeyPool CreditFetcher Forwarder.
Open Scope Z_scope.

(** * Components of the state that most code leaves alone *)

Section Inert.
Context {E : Env}.

Class Inert {X} (p : World → X) : Prop := {
  inert_host : ∀ v w, p (set_w_host v w) = p w;
  inert_db : ∀ v w, p (set_w_db v w) = p w;
  inert_limiter : ∀ v w, p (set_w_key_limiter v w) = p w;
  inert_cooldown : ∀ v w, p (set_w_cooldown v w) = p w;
  inert_nn : ∀ v w, p (set_w_nn_failures v w) = p w;
  inert_rr : ∀ v w, p (set_w_rr_cursor v w) = p w;
  inert_fwd : ∀ v w, p (set_w_fwd_failures v w) = p w;
  inert_refresh : ∀ v w, p (set_w_refresh_mono v w) = p w;
  inert_probe : ∀ r w, rq_base r = "" → p (set_w_wire (r :: w_wire w) w) = p w
}.

#[export] Instance inert_key_conc : Inert w_key_conc.
Proof. by split. Qed.
#[export] Instance inert_client_conc : Inert w_client_conc.
Proof. by split. Qed.

(** The requests sent to the upstream on behalf of clients, as opposed to the
    gateway's own credit probes (which name the full URL). *)
Definition sent (w : World) : nat :=
  length (List.filter (λ r, negb (String.eqb (rq_base r) "")) (w_wire w)).
#[export] Instance inert_sent : Inert sent.
Proof. split; try done. intros r w Hr. unfold sent. simpl. by rewrite Hr. Qed.

Section Frames.
Context {X} (p : World → X) `{Hp : !Inert p}.

Lemma in_host {A} (f : HostState → A * HostState) : runs (same p) (on_host f).
Proof. apply frame_on_host. intros. apply inert_host. Qed.
Lemma in_now : runs (same p) now_utc.
Proof. apply in_host. Qed.
Lemma in_mono : runs (same p) monotonic.
Proof. apply in_host. Qed.
Lemma in_random : runs (same p) random.
Proof. apply in_host. Qed.
Lemma in_assign f : runs (same p) (assign f).
Proof. apply frame_assign. intros. apply inert_db. Qed.
Lemma in_assign_key id f : runs (same p) (assign_key id f).
Proof. apply in_assign. Qed.
Lemma in_assign_client id f : runs (same p) (assign_client id f).
Proof. apply in_assign. Qed.
Lemma in_query : runs (same p) query.
Proof. apply frame_query. intros. apply inert_db. Qed.
Lemma in_flush : runs (same p) flush.
Proof. apply frame_flush. intros. apply inert_db. Qed.
Lemma in_commit : runs (same p) commit.
Proof. apply frame_commit. intros. apply inert_db. Qed.
Lemma in_rollback : runs (same p) rollback.
Proof. apply frame_rollback. intros. apply inert_db. Qed.
Hint Resolve in_host in_now in_mono in_random in_assign in_assign_key in_assign_client in_query
  in_flush in_commit in_rollback : effects.

Lemma in_moment : runs (same p) moment.
Proof. unfold moment. runs_auto. Qed.
Lemma in_commit_or_rollback m : runs (same p) m → runs (same p) (commit_or_rollback m).
Proof. intros Hm. unfold commit_or_rollback. runs_auto. Qed.
Lemma in_modify f : (∀ w, p (f w) = p w) → runs (same p) (modify f).
Proof. intros Hf w. apply Hf. Qed.
Lemma in_step {A} (f : World → A * World) : (∀ w, p (f w).2 = p w) → runs (same p) (step f).
Proof. intros Hf. apply runs_step. exact Hf. Qed.
Hint Resolve in_moment in_commit_or_rollback : effects.

Ltac writes := first
  [ apply in_modify; intros; first [apply inert_nn|apply inert_rr|apply inert_fwd|apply inert_refresh]
  | apply in_step; intros; repeat case_match; simplify_eq/=;
    first [apply inert_cooldown|apply inert_limiter|apply inert_rr|reflexivity] ].

(** The key pool. *)
Lemma in_record_success id : runs (same p) (record_success id).
Proof. unfold record_success. writes. Qed.
Lemma in_record_failure id r s : runs (same p) (record_failure id r s).
Proof. unfold record_failure. runs_auto; writes. Qed.
Lemma in_failure_count id h : runs (same p) (_failure_count id h).
Proof. unfold _failure_count. runs_auto; writes. Qed.
Lemma in_rpm_allows k : runs (same p) (_rpm_allows k).
Proof. unfold _rpm_allows. runs_auto. Qed.
Hint Resolve in_record_success in_record_failure in_failure_count in_rpm_allows : effects.
Lemma in_scan_credits pm now k s : runs (same p) (scan_credits pm now k s).
Proof. unfold scan_credits. runs_auto. Qed.
Hint Resolve in_scan_credits : effects.
Lemma in_scan_key pm now ex k s : runs (same p) (scan_key pm now ex k s).
Proof. unfold scan_key, cooldown_left. runs_auto; writes. Qed.
Hint Resolve in_scan_key : effects.
Lemma in_scan pm now ex ks : ∀ s, runs (same p) (scan pm now ex ks s).
Proof. induction ks as [|k ks IH]; intros s; simpl; runs_auto. Qed.
Lemma in_choose pm prov cs : runs (same p) (choose pm prov cs).
Proof. unfold choose, explore, exploit. runs_auto; writes. Qed.
Hint Resolve in_scan in_choose : effects.
Lemma in_select rt cfg prov ex : runs (same p) (select rt cfg prov ex).
Proof. unfold select. runs_auto. Qed.

(** Credits. *)
Lemma in_http_probe r : rq_base r = "" → runs (same p) (http_request r).
Proof.
  intros Hr. unfold http_request. runs_auto. apply in_modify. intros w. by apply inert_probe.
Qed.
Lemma in_json_get k j : runs (same p) (json_get k j).
Proof. unfold json_get. runs_auto. Qed.
Lemma in_int_or_0 v : runs (same p) (int_or_0 v).
Proof. unfold int_or_0. runs_auto. Qed.
Hint Resolve in_json_get in_int_or_0 : effects.
Lemma in_read_response id now r : runs (same p) (read_response id now r).
Proof. unfold read_response, read_payload. runs_auto. Qed.
Hint Resolve in_read_response : effects.
Lemma in_probe id pt cfg rid : runs (same p) (probe_credit_from_firecrawl id pt cfg rid).
Proof.
  unfold probe_credit_from_firecrawl, probe_send, probe_receive. runs_auto; [by apply in_http_probe|].
  injection H as <-. runs_auto.
Qed.
Lemma in_schedule k cfg : runs (same p) (calculate_next_refresh_time k cfg).
Proof. unfold calculate_next_refresh_time. runs_auto. Qed.
Lemma in_get_key id : runs (same p) (get_key id).
Proof. apply frame_get_key. Qed.
Hint Resolve in_probe in_schedule in_get_key : effects.
Lemma in_apply_result id r cfg : runs (same p) (apply_credit_fetch_result id r cfg).
Proof. unfold apply_credit_fetch_result, add_snapshot. runs_auto. Qed.
Lemma in_try_decrypt m c : runs (same p) (try_decrypt m c).
Proof. unfold try_decrypt. runs_auto. Qed.
Hint Resolve in_apply_result in_try_decrypt : effects.
Lemma in_refresh_after_4xx id m cfg rid : runs (same p) (refresh_credits_after_4xx id m cfg rid).
Proof.
  unfold refresh_credits_after_4xx, debounce_4xx, probe_credit_from_firecrawl_sync.
  runs_auto; try writes; apply in_commit_or_rollback; runs_auto.
Qed.
Hint Resolve in_refresh_after_4xx in_select : effects.

(** The forwarder, without the exchanges themselves. *)
Context (self : Self).
Lemma in_refresh_on_4xx id s rid : runs (same p) (_refresh_credits_on_4xx self id s rid).
Proof. unfold _refresh_credits_on_4xx. runs_auto. Qed.
Lemma in_disable id : runs (same p) (_disable_key id).
Proof. unfold _disable_key. runs_auto. Qed.
Lemma in_disable_decrypt id : runs (same p) (_disable_key_decrypt_failed id).
Proof. unfold _disable_key_decrypt_failed. runs_auto. Qed.
Lemma in_mark_cooling id s : runs (same p) (_mark_cooling id s).
Proof. unfold _mark_cooling. runs_auto. writes. Qed.
Lemma in_mark_active id : runs (same p) (_mark_active id).
Proof. unfold _mark_active. runs_auto. Qed.
Lemma in_fwd_failure id r s : runs (same p) (_record_failure self id r s).
Proof. unfold _record_failure. runs_auto; writes. Qed.
Lemma in_zero_credits id : runs (same p) (zero_credits id).
Proof. unfold zero_credits. runs_auto. Qed.
Lemma in_consume cid kid : runs (same p) (_consume_quota_on_success cid kid).
Proof. unfold _consume_quota_on_success. runs_auto. Qed.
Lemma in_upstream_success id : runs (same p) (_record_upstream_success id).
Proof. unfold _record_upstream_success. runs_auto. Qed.
Hint Resolve in_refresh_on_4xx in_disable in_disable_decrypt in_mark_cooling in_fwd_failure
  in_zero_credits in_consume in_upstream_success : effects.
Lemma in_estimate c kid resp : runs (same p) (estimate_locally self c kid resp).
Proof. unfold estimate_locally. runs_auto. Qed.
Hint Resolve in_estimate : effects.
Lemma in_settle c kid lk resp : runs (same p) (settle_success self c kid lk resp).
Proof. unfold settle_success. runs_auto. Qed.
Hint Resolve in_settle : effects.
Lemma in_pinned_outcome c kid a l resp : runs (same p) (pinned_outcome self c kid a l resp).
Proof. unfold pinned_outcome. runs_auto. Qed.
Lemma in_pool_outcome c kid l resp : runs (same p) (pool_outcome self c kid l resp).
Proof. unfold pool_outcome. runs_auto. Qed.
Lemma in_selection_failed l e : runs (same p) (selection_failed l e).
Proof. unfold selection_failed, decrypt_failed_error. runs_auto. Qed.
Lemma in_rate_allow k : runs (same p) (rate_allow k).
Proof. unfold rate_allow. runs_auto. writes. Qed.
Lemma in_pinned_key prov pin : runs (same p) (pinned_key prov pin).
Proof. unfold pinned_key. runs_auto. Qed.
Lemma in_exhausted c l : runs (same p) (exhausted self c l).
Proof. unfold exhausted, all_keys_busy. runs_auto. Qed.
End Frames.
End Inert.
#[export] Hint Resolve in_now in_mono in_random in_assign in_assign_key in_assign_client in_query
  in_flush in_commit in_rollback in_moment in_commit_or_rollback in_get_key in_try_decrypt in_select
  in_refresh_on_4xx in_disable in_disable_decrypt in_mark_cooling in_fwd_failure in_zero_credits in_consume
  in_upstream_success in_settle in_pinned_outcome in_pool_outcome in_selection_failed in_rate_allow
  in_pinned_key in_exhausted inert_key_conc inert_client_conc inert_sent : effects.

(** * Properties of a row that no request can break *)

Section Stable.
Context {E : Env} `{!OrmLaws}.

Class Stable (P : ApiKey → Prop) : Prop := {
  stable_status : ∀ v k, P k → P (set_k_status v k);
  stable_inactive : ∀ k, P k → P (set_k_is_active false k);
  stable_cooldown : ∀ v k, P k → P (set_k_cooldown_until v k);
  stable_refresh : ∀ v k, P k → P (set_k_next_refresh_at v k);
  stable_remaining : ∀ v k, P k → P (set_k_cached_remaining_credits v k);
  stable_plan : ∀ v k, P k → P (set_k_cached_plan_credits v k);
  stable_snapshot : ∀ v k, P k → P (set_k_last_credit_snapshot_id v k);
  stable_check : ∀ v k, P k → P (set_k_last_credit_check_at v k);
  stable_total : ∀ v k, P k → P (set_k_total_requests v k);
  stable_used : ∀ v k, P k → P (set_k_last_used_at v k)
}.

(** Out of service; and what makes the key what it is. *)
#[export] Instance stable_out : Stable (λ k, k_is_active k = false).
Proof. by split. Qed.
Definition identity (k : ApiKey) : Z * string * string * Z * Z :=
  (k_id k, k_provider k, k_api_key_ciphertext k, k_max_concurrent k, k_rate_limit_per_min k).
#[export] Instance stable_identity i : Stable (λ k, identity k = i).
Proof. by split. Qed.

(** The budgets of the clients, which no request writes. *)
Definition retries (t : Tables) : gmap Z Z := c_max_retries <$> t_clients t.
(** A property of the tables that survives a write to a key's row that no stable property
    of rows can notice, and writes elsewhere. *)
Class StableT (P : Tables → Prop) : Prop := {
  stable_key : ∀ i f t, P t → (∀ Q, Stable Q → ∀ k, Q k → Q (f k)) → P (set_t_keys (alter f i (t_keys t)) t);
  stable_elsewhere : ∀ t t', P t → t_keys t' = t_keys t → retries t' = retries t → P t'
}.

Definition row_has (P : ApiKey → Prop) (id : Z) (t : Tables) : Prop :=
  ∀ k, t_keys t !! id = Some k → P k.
#[export] Instance row_has_stable P `{!Stable P} id : StableT (row_has P id).
Proof.
  split.
  - intros i f t Ht Hf k. simpl. destruct (decide (i = id)) as [->|Hne].
    + rewrite lookup_alter_eq. intros (k0 & H0 & ->)%fmap_Some. apply Hf; [done|by apply Ht].
    + rewrite lookup_alter_ne by done. apply Ht.
  - intros t t' Ht Hk _ k. rewrite Hk. apply Ht.
Qed.
(** The rows store credentials among [S], each its own; the budgets are [m]. *)
Definition credentials_in (S : Z → string → Prop) (t : Tables) : Prop :=
  ∀ id k, t_keys t !! id = Some k → S id (k_api_key_ciphertext k).
#[export] Instance credentials_stable S : StableT (credentials_in S).
Proof.
  split.
  - intros i f t Ht Hf id k. simpl. intros [(-> & k0 & Hk & ->)|[_ Hk]]%lookup_alter_Some; [|by apply (Ht id)].
    apply (Hf (λ k, S id (k_api_key_ciphertext k))); [by split|by apply (Ht id)].
  - intros t t' Ht Hk _ id k. rewrite Hk. apply Ht.
Qed.
#[export] Instance retries_stable m : StableT (λ t, retries t = m).
Proof. split; [done|]. by intros t t' <-. Qed.

(** The tables have [P] in the session and in the database. *)
Definition heldT (P : Tables → Prop) (w : World) : Prop := P (view w) ∧ P (durable w).
Definition keepsT (P : Tables → Prop) (w w' : World) : Prop := heldT P w → heldT P w'.
#[export] Instance keepsT_preorder P : PreOrder (keepsT P).
Proof. split; [intros w Hw; exact Hw|]. intros w1 w2 w3 H1 H2 Hw. by apply H2, H1. Qed.
(** A row has [P]. *)
Definition held (P : ApiKey → Prop) (id : Z) : World → Prop := heldT (row_has P id).
Definition keeps (P : ApiKey → Prop) (id : Z) : relation World := keepsT (row_has P id).

Section Keeps.
Context (P : Tables → Prop) `{!StableT P}.
Notation K := (keepsT P).

Lemma ks_same_db w w' : w_db w' = w_db w → K w w'.
Proof. intros Hdb Hw. unfold heldT, view, durable in *. by rewrite Hdb. Qed.
Lemma ks_frame {A} (m : Prog A) : runs (same w_db) m → runs K m.
Proof. intros Hm w. by apply ks_same_db, Hm. Qed.
Lemma ks_host {A} (f : HostState → A * HostState) : runs K (on_host f).
Proof. by apply ks_frame, frame_on_host. Qed.
Lemma ks_now : runs K now_utc.
Proof. apply ks_host. Qed.
Lemma ks_mono : runs K monotonic.
Proof. apply ks_host. Qed.
Lemma ks_random : runs K random.
Proof. apply ks_host. Qed.
Lemma ks_moment : runs K moment.
Proof. unfold moment. apply runs_bind; [apply _|apply ks_mono|]. intros m.
  apply runs_bind; [apply _|apply ks_now|]. intros t. apply runs_ret. apply _. Qed.
Lemma ks_http r : runs K (http_request r).
Proof. by apply ks_frame, frame_http_request. Qed.
Lemma ks_modify f : (∀ w, w_db (f w) = w_db w) → runs K (modify f).
Proof. intros Hf w. by apply ks_same_db, Hf. Qed.
Lemma ks_step {A} (f : World → A * World) : (∀ w, w_db (f w).2 = w_db w) → runs K (step f).
Proof. intros Hf. apply runs_step. intros w. by apply ks_same_db, Hf. Qed.
Lemma ks_get_key i : runs K (get_key i).
Proof. apply ks_frame. apply frame_get_key. Qed.
Lemma ks_get_client i : runs K (get_client i).
Proof. apply ks_frame. apply frame_get_client. Qed.

Lemma ks_assign f : (∀ t, P t → P (f t)) → runs K (assign f).
Proof.
  intros Hf w [Hv Hd]. unfold heldT, view, durable in *. simpl.
  rewrite view_assign, durable_assign. split; [by apply Hf|done].
Qed.
Lemma ks_assign_key i f : (∀ Q, Stable Q → ∀ k, Q k → Q (f k)) → runs K (assign_key i f).
Proof. intros Hf. apply ks_assign. intros t Ht. by apply stable_key. Qed.
Lemma ks_assign_elsewhere f : (∀ t, t_keys (f t) = t_keys t ∧ retries (f t) = retries t) → runs K (assign f).
Proof. intros Hf. apply ks_assign. intros t Ht. destruct (Hf t). by apply (stable_elsewhere t). Qed.
Lemma alter_retries i f t : (∀ c, c_max_retries (f c) = c_max_retries c) →
  retries (set_t_clients (alter f i (t_clients t)) t) = retries t.
Proof.
  intros Hf. unfold retries. simpl. apply map_eq. intros j. rewrite !lookup_fmap.
  destruct (decide (i = j)) as [->|Hne]; [|by rewrite lookup_alter_ne].
  rewrite lookup_alter_eq. destruct (t_clients t !! j); [simpl; by rewrite Hf|done].
Qed.
Lemma ks_assign_client i f : (∀ c, c_max_retries (f c) = c_max_retries c) → runs K (assign_client i f).
Proof. intros Hf. apply ks_assign_elsewhere. intros t. split; [done|by apply alter_retries]. Qed.
Lemma ks_query : runs K query.
Proof.
  unfold query. apply runs_bind; [apply _| |intros []; [apply runs_gets|apply runs_raise]; apply _].
  apply runs_step. intros w Hh. unfold heldT, view, durable in *.
  pose proof (view_query (w_db w)) as Hv. pose proof (durable_query (w_db w)) as Hd.
  destruct (db_query (w_db w)) as [b s]. simpl in *. by rewrite Hv, Hd.
Qed.
Lemma ks_flush : runs K flush.
Proof.
  unfold flush. apply runs_bind; [apply _| |intros []; [apply runs_ret|apply runs_raise..]; apply _].
  apply runs_step. intros w Hh. unfold heldT, view, durable in *.
  pose proof (view_flush (w_db w)) as Hv. pose proof (durable_flush (w_db w)) as Hd.
  destruct (db_flush (w_db w)) as [b s]. simpl in *. by rewrite Hv, Hd.
Qed.
Lemma ks_commit : runs K commit.
Proof.
  unfold commit. apply runs_bind; [apply _| |intros []; [apply runs_ret|apply runs_raise..]; apply _].
  apply runs_step. intros w Hh. unfold heldT, view, durable in *.
  pose proof (view_commit (w_db w)) as Hv. pose proof (durable_commit (w_db w)) as Hd.
  destruct (db_commit (w_db w)) as [o s]. simpl in *. rewrite Hv, Hd. destruct Hh. by destruct o.
Qed.
Lemma ks_rollback : runs K rollback.
Proof.
  intros w [Hv Hd]. unfold heldT, view, durable in *. simpl. by rewrite view_rollback, durable_rollback.
Qed.
Hint Resolve ks_host ks_now ks_mono ks_random ks_moment ks_http ks_get_key ks_get_client
  ks_query ks_flush ks_commit ks_rollback : effects.

Lemma ks_commit_or_rollback m : runs K m → runs K (commit_or_rollback m).
Proof. intros Hm. unfold commit_or_rollback. runs_auto. Qed.
Hint Resolve ks_commit_or_rollback : effects.

Ltac stable := repeat (intros; first
  [ assumption | apply stable_status | apply stable_inactive | apply stable_cooldown | apply stable_refresh
  | apply stable_remaining | apply stable_plan | apply stable_snapshot | apply stable_check
  | apply stable_total | apply stable_used ]).
Ltac writes := first
  [ apply ks_assign_key; intros; solve [stable]
  | apply ks_assign_client; done
  | apply ks_assign_elsewhere; done
  | apply ks_modify; done
  | apply ks_step; intros; repeat case_match; by simplify_eq/=
  | apply ks_commit_or_rollback; first [apply ks_assign_key; intros; solve [stable] | solve [runs_auto]] ].
Ltac keeps_auto := repeat (runs_auto; try writes).

Lemma stable_reactivated Q : Stable Q → ∀ k, Q k → Q (reactivated k).
Proof. intros HQ k Hk. unfold reactivated. case_if; stable. Qed.

Lemma ks_record_success i : runs K (record_success i).
Proof. unfold record_success. keeps_auto. Qed.
Lemma ks_record_failure i r s : runs K (record_failure i r s).
Proof. unfold record_failure. keeps_auto. Qed.
Lemma ks_failure_count i h : runs K (_failure_count i h).
Proof. unfold _failure_count. keeps_auto. Qed.
Lemma ks_rpm_allows k : runs K (_rpm_allows k).
Proof. unfold _rpm_allows. keeps_auto. Qed.
Hint Resolve ks_record_success ks_record_failure ks_failure_count ks_rpm_allows : effects.
Lemma ks_scan_key pm now ex k s : runs K (scan_key pm now ex k s).
Proof.
  unfold scan_key, cooldown_left, scan_credits. keeps_auto.
  apply ks_assign_key, stable_reactivated.
Qed.
Hint Resolve ks_scan_key : effects.
Lemma ks_scan pm now ex kl : ∀ s, runs K (scan pm now ex kl s).
Proof. induction kl as [|k kl IH]; intros s; simpl; keeps_auto. Qed.
Lemma ks_choose pm prov cs : runs K (choose pm prov cs).
Proof. unfold choose, explore, exploit. keeps_auto. Qed.
Hint Resolve ks_scan ks_choose : effects.
Lemma ks_select rt cfg prov ex : runs K (select rt cfg prov ex).
Proof. unfold select. keeps_auto. Qed.

Lemma ks_json_get k j : runs K (json_get k j).
Proof. unfold json_get. keeps_auto. Qed.
Lemma ks_int_or_0 v : runs K (int_or_0 v).
Proof. unfold int_or_0. keeps_auto. Qed.
Hint Resolve ks_json_get ks_int_or_0 : effects.
Lemma ks_read_response i now r : runs K (read_response i now r).
Proof. unfold read_response, read_payload. keeps_auto. Qed.
Hint Resolve ks_read_response : effects.
Lemma ks_probe i pt cfg rid : runs K (probe_credit_from_firecrawl i pt cfg rid).
Proof. unfold probe_credit_from_firecrawl, probe_send, probe_receive. keeps_auto. simplify_eq. keeps_auto. Qed.
Lemma ks_schedule k cfg : runs K (calculate_next_refresh_time k cfg).
Proof. unfold calculate_next_refresh_time. keeps_auto. Qed.
Hint Resolve ks_probe ks_schedule : effects.
Lemma ks_add_snapshot i r pl a b ok m : runs K (add_snapshot i r pl a b ok m).
Proof. unfold add_snapshot. keeps_auto. Qed.
Hint Resolve ks_add_snapshot : effects.
Lemma ks_apply_result i r cfg : runs K (apply_credit_fetch_result i r cfg).
Proof. unfold apply_credit_fetch_result. keeps_auto. Qed.
Lemma ks_try_decrypt m c : runs K (try_decrypt m c).
Proof. unfold try_decrypt. keeps_auto. Qed.
Hint Resolve ks_apply_result ks_try_decrypt : effects.
Lemma ks_refresh_after_4xx i m cfg rid : runs K (refresh_credits_after_4xx i m cfg rid).
Proof.
  unfold refresh_credits_after_4xx, debounce_4xx, probe_credit_from_firecrawl_sync. keeps_auto.
Qed.
Hint Resolve ks_refresh_after_4xx ks_select : effects.

Context (self : Self).
Lemma ks_refresh_on_4xx i s rid : runs K (_refresh_credits_on_4xx self i s rid).
Proof. unfold _refresh_credits_on_4xx. keeps_auto. Qed.
Lemma ks_disable i : runs K (_disable_key i).
Proof. unfold _disable_key. keeps_auto. Qed.
Lemma ks_disable_decrypt i : runs K (_disable_key_decrypt_failed i).
Proof. unfold _disable_key_decrypt_failed. keeps_auto. Qed.
Lemma ks_mark_cooling i s : runs K (_mark_cooling i s).
Proof. unfold _mark_cooling. keeps_auto. Qed.
Lemma ks_mark_active i : runs K (_mark_active i).
Proof. unfold _mark_active. keeps_auto. Qed.
Lemma ks_fwd_failure i r s : runs K (_record_failure self i r s).
Proof. unfold _record_failure. keeps_auto. Qed.
Lemma ks_zero_credits i : runs K (zero_credits i).
Proof. unfold zero_credits. keeps_auto. Qed.
Lemma ks_consume ci ki : runs K (_consume_quota_on_success ci ki).
Proof. unfold _consume_quota_on_success. keeps_auto. Qed.
Lemma ks_upstream_success i : runs K (_record_upstream_success i).
Proof. unfold _record_upstream_success. keeps_auto. Qed.
Hint Resolve ks_refresh_on_4xx ks_disable ks_disable_decrypt ks_mark_cooling ks_fwd_failure
  ks_zero_credits ks_consume ks_upstream_success : effects.
Lemma ks_settle c ki lk resp : runs K (settle_success self c ki lk resp).
Proof. unfold settle_success, estimate_locally. keeps_auto. Qed.
Hint Resolve ks_settle : effects.
Lemma ks_rate_allow k : runs K (rate_allow k).
Proof. unfold rate_allow. keeps_auto. Qed.
Lemma ks_acquire k : runs K (acquire_slot k).
Proof. unfold acquire_slot. keeps_auto. Qed.
Lemma ks_release l : runs K (release_slot l).
Proof. unfold release_slot. keeps_auto. Qed.
Hint Resolve ks_rate_allow ks_acquire ks_release : effects.
Lemma ks_transport c i {A} (m : Prog A) : runs K m → runs K (transport_errors self c i m).
Proof.
  intros Hm. unfold transport_errors. apply runs_try_except; [apply _|done|].
  intros [] k; try done; intros [= <-]; keeps_auto.
Qed.
Hint Resolve ks_transport : effects.
Lemma ks_pinned_exchange c i : runs K (pinned_exchange self c i).
Proof.
  unfold pinned_exchange, all_keys_busy. keeps_auto. apply ks_transport.
  unfold send, decrypt_failed_error. keeps_auto.
Qed.
Lemma ks_pinned_outcome c i a l resp : runs K (pinned_outcome self c i a l resp).
Proof. unfold pinned_outcome. keeps_auto. Qed.
Hint Resolve ks_pinned_exchange ks_pinned_outcome : effects.
Lemma ks_pinned_loop n : ∀ a c i l, runs K (pinned_loop self n a c i l).
Proof. induction n as [|n IH]; intros; simpl; keeps_auto. Qed.
Lemma ks_pool_exchange c k le : runs K (pool_exchange self c k le).
Proof. unfold pool_exchange. keeps_auto. apply ks_transport. unfold send. keeps_auto. Qed.
Lemma ks_pool_outcome c i l resp : runs K (pool_outcome self c i l resp).
Proof. unfold pool_outcome. keeps_auto. Qed.
Hint Resolve ks_pinned_loop ks_pool_exchange ks_pool_outcome : effects.
Lemma ks_pool_step c l : runs K (pool_step self c l).
Proof.
  unfold pool_step, try_key, selection_failed, decrypt_failed_error. keeps_auto.
  destruct e; simplify_eq. keeps_auto.
Qed.
Hint Resolve ks_pool_step : effects.
Lemma ks_pool_loop n : ∀ c l, runs K (pool_loop self n c l).
Proof. induction n as [|n IH]; intros; simpl; keeps_auto. Qed.
Hint Resolve ks_pool_loop : effects.
Lemma ks_selection_failed l e : runs K (selection_failed l e).
Proof. unfold selection_failed, decrypt_failed_error. keeps_auto. Qed.
Lemma ks_pinned_key prov pin : runs K (pinned_key prov pin).
Proof. unfold pinned_key. keeps_auto. Qed.
Lemma ks_exhausted c l : runs K (exhausted self c l).
Proof. unfold exhausted, all_keys_busy. keeps_auto. Qed.
Hint Resolve ks_selection_failed ks_pinned_key ks_exhausted : effects.
Lemma ks_forward rid ci m path body hs pin prov :
  runs K (forward self rid ci m path body hs pin prov).
Proof. unfold forward, forward_call, from_pool. keeps_auto. Qed.
End Keeps.
End Stable.
#[export] Hint Resolve ks_host ks_get_client ks_query ks_commit ks_rollback ks_get_key ks_try_decrypt ks_select
  ks_disable_decrypt ks_mark_cooling ks_fwd_failure ks_rate_allow ks_pinned_outcome ks_pool_outcome ks_settle
  ks_upstream_success ks_refresh_on_4xx ks_zero_credits ks_selection_failed ks_pinned_key ks_exhausted : effects.
