(* ===== verification/ForwarderProps.v ===== *)
(** What forwarding guarantees: how responses are attributed, which headers go out
    and come back, that every concurrency slot taken is given back, that a call of
    [forward] costs at most the client's budget of upstream calls, that a pinned
    request stays with its key, and that nothing a request does can bring a key back
    into service or change what the key is. *)

From S2P Require Import Prelude Effects PyText PyTime Json Models Config Env RuntimeSettings CreditEstimator.
From S2P Require Import Security KeyPool KeyPoolProps CreditSchedule CreditFetcher Forwarder Invariants Sim.
Import KeyPool CreditFetcher Forwarder.
Open Scope Z_scope.

Module ForwarderFacts.

(** * Headers *)

Lemma dict_set_elem k v d x : x ∈ dict_set k v d → x = (k, v) ∨ x ∈ d.
Proof.
  induction d as [|[k' v'] d IH]; simpl.
  - intros ->%list_elem_of_singleton. by left.
  - case_if; intros [->|H]%elem_of_cons; auto; [right; by right|right; by left|].
    destruct (IH H) as [->|?]; [by left|right; by right].
Qed.
Lemma dict_set_in k v d : (k, v) ∈ dict_set k v d.
Proof.
  induction d as [|[k' v'] d IH]; simpl; [by apply list_elem_of_singleton|].
  case_if; [by left|by right].
Qed.
Lemma dict_update_elem e d x : x ∈ dict_update d e → x ∈ e ∨ x ∈ d.
Proof.
  unfold dict_update. revert d. induction e as [|[k v] e IH]; intros d; simpl; [by right|].
  intros [H|H]%IH; [left; by right|]. apply dict_set_elem in H as [->|H]; [left; by left|by right].
Qed.
Lemma dict_pop_elem k d x : x ∈ dict_pop k d → x ∈ d.
Proof. unfold dict_pop. rewrite !list_elem_of_In, filter_In. tauto. Qed.
Lemma dict_pop_keep k d x : x ∈ d → x.1 ≠ k → x ∈ dict_pop k d.
Proof.
  unfold dict_pop. rewrite !list_elem_of_In, filter_In. intros H Hne. split; [done|].
  apply negb_true_iff, String.eqb_neq. congruence.
Qed.

Definition kept_header (x : string * string) : Prop :=
  str_in (lower x.1) DROP_REQUEST_HEADERS && negb (str_in (lower x.1) ["authorization"; "x-api-key"]) = false.
Lemma drop_elem keys : ∀ d x,
  x ∈ foldl (λ acc hk, if str_in (lower hk) DROP_REQUEST_HEADERS &&
                          negb (str_in (lower hk) ["authorization"; "x-api-key"])
                       then dict_pop hk acc else acc) d keys → x ∈ d.
Proof.
  induction keys as [|k keys IH]; intros d x; cbn [foldl]; [done|]. intros H%IH.
  revert H. case_if; [apply dict_pop_elem|done].
Qed.
Lemma drop_keeps keys : ∀ d x, kept_header x → x ∈ d →
  x ∈ foldl (λ acc hk, if str_in (lower hk) DROP_REQUEST_HEADERS &&
                          negb (str_in (lower hk) ["authorization"; "x-api-key"])
                       then dict_pop hk acc else acc) d keys.
Proof.
  induction keys as [|k keys IH]; intros d x Hx Hd; cbn [foldl]; [done|]. apply IH; [done|].
  case_if; [|done]. apply dict_pop_keep; [done|]. intros <-. unfold kept_header in Hx. congruence.
Qed.

Lemma set_if_present_elem n v d x : x ∈ set_if_present n v d → x.1 = n ∨ x ∈ d.
Proof.
  unfold set_if_present. repeat case_match; try by right.
  intros [->|?]%dict_set_elem; [by left|by right].
Qed.
Definition SAFE_HEADERS : list string := ["x-request-id"; "accept"; "content-type"; "user-agent"].
Lemma sanitized_names hs rid x : x ∈ _sanitized_request_headers hs rid → In x.1 SAFE_HEADERS.
Proof.
  unfold _sanitized_request_headers.
  intros [Hx|[Hx|[Hx|Hx%list_elem_of_singleton]%set_if_present_elem]%set_if_present_elem]%set_if_present_elem;
    rewrite Hx; simpl; tauto.
Qed.

Lemma auth_header_one self prov pt :
  ∃ name v, _provider_auth_header self prov pt = [(name, v)] ∧
    (name = "authorization" ∧ v = "Bearer " +:+ pt ∨ name = "x-api-key" ∧ v = pt).
Proof. unfold _provider_auth_header. repeat case_match; eauto 10. Qed.

Section ForwarderFacts.
Context {E : Env} (self : Self).

(** * Slots *)

Section Slots.
Context `{!ConcurrencyLaws}.

(** As many slots in use after as before, for every key. *)
Definition balanced (w w' : World) : Prop :=
  conc_wf (w_key_conc w) →
  conc_wf (w_key_conc w') ∧
  ∀ k t, cl_current k t (w_key_conc w') = cl_current k t (w_key_conc w).
#[export] Instance balanced_preorder : PreOrder balanced.
Proof.
  split; [by intros w Hw|]. intros w1 w2 w3 H1 H2 Hw. destruct (H1 Hw) as [Hw2 H12].
  destruct (H2 Hw2) as [Hw3 H23]. split; [done|]. intros k t. by rewrite H23, H12.
Qed.
Lemma balanced_same {A} (m : Prog A) : runs (same w_key_conc) m → runs balanced m.
Proof. intros Hm w Hw. rewrite (Hm w). done. Qed.

(** [m] ends with the lease [l] released and nothing else changed. *)
Definition gives_back (l : Lease) (w w' : World) : Prop :=
  conc_wf (w_key_conc w) →
  conc_wf (w_key_conc w') ∧
  ∀ k t, cl_current k t (w_key_conc w') = cl_current k t (cl_release l (w_key_conc w)).
Lemma finally_gives_back {A} l (m : Prog A) :
  runs (same w_key_conc) m → runs (gives_back l) (finally m (release_slot l)).
Proof.
  intros Hm w Hw. unfold finally, release_slot, modify. specialize (Hm w).
  destruct (m w) as [r w1]. unfold same in Hm. simpl in *. rewrite Hm.
  split; [by apply release_wf|done].
Qed.
Lemma bind_gives_back {A B} l (m : Prog A) (f : A → Prog B) :
  runs (gives_back l) m → (∀ a, runs balanced (f a)) → runs (gives_back l) (bind m f).
Proof.
  intros Hm Hf w Hw. unfold bind. specialize (Hm w Hw).
  destruct (m w) as [[a|e] w1]; simpl in *; [|done]. destruct Hm as [Hw1 Hm].
  destruct (Hf a w1 Hw1) as [Hw2 Hf']. split; [done|]. intros k t. by rewrite Hf', Hm.
Qed.

Lemma acquire_slot_spec key w :
  conc_wf (w_key_conc w) →
  match acquire_slot key w with
  | (Ok (Some l), w1) => conc_wf (w_key_conc w1) ∧
      ∀ k t, cl_current k t (cl_release l (w_key_conc w1)) = cl_current k t (w_key_conc w)
  | (_, w1) => conc_wf (w_key_conc w1) ∧
      ∀ k t, cl_current k t (w_key_conc w1) = cl_current k t (w_key_conc w)
  end.
Proof.
  intros Hw. unfold acquire_slot.
  destruct (moment w) as [[t|e] w0] eqn:Hm.
  2:{ exfalso. revert Hm. unfold moment, monotonic, now_utc, bind. rewrite KeyPoolFacts.on_host_ok.
      rewrite KeyPoolFacts.on_host_ok. done. }
  assert (w_key_conc w0 = w_key_conc w) as H0.
  { pose proof (in_moment w_key_conc w) as Hc. by rewrite Hm in Hc. }
  unfold bind. rewrite Hm. unfold step, of_res. rewrite H0.
  destruct (cl_try_acquire (str_int (k_id key)) (k_max_concurrent key) t (w_key_conc w)) as [r c] eqn:Ha.
  pose proof (acquire_wf (str_int (k_id key)) (k_max_concurrent key) t _ Hw) as Hwf. rewrite Ha in Hwf.
  destruct r as [[l|]|e]; simpl in *; (split; [done|]); intros k' t'.
  - by eapply release_acquired.
  - by eapply refused_unchanged.
  - by eapply refused_unchanged.
Qed.

Lemma leased {B} key (k0 : Prog B) (m : Lease → Prog B) :
  runs balanced k0 → (∀ l, runs (gives_back l) (m l)) →
  runs balanced (bind (acquire_slot key) (λ lease, match lease with None => k0 | Some l => m l end)).
Proof.
  intros H0 Hm w Hw. unfold bind. pose proof (acquire_slot_spec key w Hw) as Ha.
  destruct (acquire_slot key w) as [[[l|]|e] w1]; destruct Ha as [Hw1 Ha]; simpl.
  - destruct (Hm l w1 Hw1) as [Hw2 Hl]. split; [done|]. intros k t. by rewrite Hl, Ha.
  - destruct (H0 w1 Hw1) as [Hw2 Hl]. split; [done|]. intros k t. by rewrite Hl, Ha.
  - done.
Qed.
End Slots.

Lemma in_send_conc c pt : runs (same w_key_conc) (send self c pt).
Proof. by apply frame_http_request. Qed.
Lemma in_transport {X} (p : World → X) `{!Inert p} c i {A} (m : Prog A) :
  runs (same p) m → runs (same p) (transport_errors self c i m).
Proof.
  intros Hm. unfold transport_errors. apply runs_try_except; [apply _|done|].
  intros [] k; try done; intros [= <-]; runs_auto.
Qed.

Section Balance.
Context `{!ConcurrencyLaws}.
Ltac bal := first [apply balanced_same; solve [runs_auto] | solve [runs_auto; apply balanced_same; runs_auto]].

Lemma pinned_exchange_balanced c i : runs balanced (pinned_exchange self c i).
Proof.
  unfold pinned_exchange. apply runs_bind; [apply _|bal|]. intros key.
  apply runs_bind; [apply _|bal|]. intros [[] ra]; simpl; [|unfold all_keys_busy; bal].
  apply leased; [unfold all_keys_busy; bal|]. intros l. apply finally_gives_back.
  apply (in_transport w_key_conc). unfold decrypt_failed_error. runs_auto.
Qed.
Lemma pinned_loop_balanced n : ∀ a c i l, runs balanced (pinned_loop self n a c i l).
Proof.
  induction n as [|n IH]; intros a c i l; simpl; [bal|].
  apply runs_bind; [apply _|apply pinned_exchange_balanced|]. intros resp.
  apply runs_bind; [apply _|bal|]. intros [r|l']; [bal|apply IH].
Qed.
Lemma pool_exchange_gives_back c k l : runs (gives_back l) (pool_exchange self c k l).
Proof.
  apply finally_gives_back. apply (in_transport w_key_conc). runs_auto.
Qed.
Lemma try_key_balanced c sel l : runs balanced (try_key self c sel l).
Proof.
  unfold try_key. apply runs_bind; [apply _|bal|]. intros key.
  apply runs_bind; [apply _|bal|]. intros [[] ra]; simpl; [|bal].
  apply leased; [bal|]. intros le. apply bind_gives_back; [apply pool_exchange_gives_back|].
  intros [resp|]; bal.
Qed.
Lemma pool_step_balanced c l : runs balanced (pool_step self c l).
Proof.
  unfold pool_step. apply runs_bind; [apply _| |intros [sel|e]; [apply try_key_balanced|bal]].
  apply balanced_same. runs_auto. destruct e; simplify_eq. runs_auto.
Qed.
Lemma pool_loop_balanced n : ∀ c l, runs balanced (pool_loop self n c l).
Proof.
  induction n as [|n IH]; intros c l; simpl; [bal|]. case_if; [|bal].
  apply runs_bind; [apply _|apply pool_step_balanced|]. intros [r|l']; [bal|apply IH].
Qed.
Lemma forward_balanced rid ci m path body hs pin prov :
  runs balanced (forward self rid ci m path body hs pin prov).
Proof.
  unfold forward, forward_call. case_match; [|bal].
  apply runs_bind; [apply _|bal|]. intros base. apply runs_bind; [apply _|bal|]. intros client.
  apply runs_bind; [apply _|bal|].
  assert (∀ c l, runs balanced (from_pool self c l)) as Hp.
  { intros c l. unfold from_pool. apply runs_bind; [apply _|apply pool_loop_balanced|].
    intros [r|l']; bal. }
  intros [id|]; [|apply Hp]. apply runs_bind; [apply _|apply pinned_loop_balanced|].
  intros [r|l']; [bal|apply Hp].
Qed.
End Balance.

(** * How many requests go out *)

Definition at_most (n : nat) (w w' : World) : Prop := (sent w' ≤ sent w + n)%nat.
Lemma same_at_most {A} (m : Prog A) n : runs (same sent) m → runs (at_most n) m.
Proof. intros Hm w. unfold at_most. rewrite (Hm w). lia. Qed.
Lemma bind_at_most {A B} (m : Prog A) (f : A → Prog B) n1 n2 :
  runs (at_most n1) m → (∀ a, runs (at_most n2) (f a)) → runs (at_most (n1 + n2)) (bind m f).
Proof.
  intros Hm Hf w. unfold bind, at_most in *. specialize (Hm w).
  destruct (m w) as [[a|e] w1]; simpl in *; [specialize (Hf a w1); simpl in Hf; lia|lia].
Qed.

Lemma send_one c pt : runs (at_most 1) (send self c pt).
Proof.
  intros w. unfold send, http_request, bind, modify, at_most. simpl. rewrite KeyPoolFacts.on_host_ok.
  set (r := mkHttpRequest _ _ _ _ _). assert (∀ v, sent (set_w_host v (set_w_wire (r :: w_wire w) w)) ≤ sent w + 1)%nat.
  { intros v. unfold sent; simpl. case_if; simpl; lia. }
  case_match; simpl; apply H.
Qed.
Lemma transport_one c i {A} (m : Prog A) : runs (at_most 1) m → runs (at_most 1) (transport_errors self c i m).
Proof.
  intros Hm w. unfold transport_errors, try_except. specialize (Hm w).
  destruct (m w) as [[a|e] w1]; [done|]. unfold at_most in *.
  assert (∀ k : Prog A, runs (same sent) k → sent (k w1).2 ≤ sent w + 1)%nat as Hk.
  { intros k Hk. rewrite (Hk w1). done. }
  destruct e; try done; simpl; (apply (Hk (bind _ _)); runs_auto).
Qed.
Lemma release_same l : runs (same sent) (release_slot l).
Proof. done. Qed.
Lemma acquire_same k : runs (same sent) (acquire_slot k).
Proof.
  unfold acquire_slot. runs_auto. apply runs_step. intros w. by repeat case_match; simplify_eq/=.
Qed.

(** An exchange that got no response because the key did not decrypt sent nothing. *)
Lemma pool_exchange_one c k l w :
  at_most 1 w (pool_exchange self c k l w).2 ∧
  ((pool_exchange self c k l w).1 = Ok None → sent (pool_exchange self c k l w).2 = sent w).
Proof.
  unfold pool_exchange, finally. set (m := transport_errors self c (k_id k) _).
  assert (at_most 1 w (m w).2 ∧ ((m w).1 = Ok None → sent (m w).2 = sent w)) as [H1 H2].
  2:{ pose proof (release_same l (m w).2) as Hr. destruct (m w) as [r w1]. simpl in *.
      unfold release_slot, modify in *. simpl in *. unfold at_most, same in *. by rewrite Hr. }
  split; [apply transport_one|].
  - apply (bind_at_most _ _ 0 1); [apply same_at_most; runs_auto|]. intros [pt|e].
    + apply (bind_at_most _ _ 1 0); [apply send_one|]. intros r. apply same_at_most. runs_auto.
    + apply same_at_most. runs_auto.
  - subst m. unfold transport_errors, try_except, bind.
    pose proof (in_try_decrypt sent (ca_master_key c) (k_api_key_ciphertext k) w) as Hd.
    destruct (try_decrypt (ca_master_key c) (k_api_key_ciphertext k) w) as [[[pt|e]|e] w1] eqn:Et.
    + destruct (send self c pt w1) as [[r|e] w2]; [done|]. destruct e; try done; simpl;
        (repeat case_match; done).
    + pose proof (in_disable_decrypt sent (k_id k) w1) as Hk. simpl in *.
      destruct (_disable_key_decrypt_failed (k_id k) w1) as [[u|e'] w2]; simpl in *.
      * intros _. unfold same in *. congruence.
      * destruct e'; try done; simpl; (repeat case_match; done).
    + destruct e; try done; simpl; (repeat case_match; done).
Qed.

Lemma pool_outcome_attempts c i l resp w :
  match pool_outcome self c i l resp w with
  | (Ok (Next l'), _) => lp_attempts l' = lp_attempts l ∧ lp_tried l' = {[i]} ∪ lp_tried l ∧ lp_key l' = lp_key l
  | _ => True
  end.
Proof.
  unfold pool_outcome. repeat (unfold bind; case_match; simplify_eq/=); try done; unfold ret in *;
    repeat case_match; simplify_eq/=; done.
Qed.

(** One iteration of the loop: the key tried, what is counted and what is sent. *)
Lemma try_key_spec c sel l w :
  at_most 1 w (try_key self c sel l w).2 ∧
  match try_key self c sel l w with
  | (Ok (Next l'), w') =>
      lp_tried l' = {[sel_api_key sel]} ∪ lp_tried l ∧ lp_key l' = Some (sel_api_key sel) ∧
      (lp_attempts l' = lp_attempts l ∧ sent w' = sent w ∨ lp_attempts l' = lp_attempts l + 1)
  | _ => True
  end.
Proof.
  unfold try_key, bind.
  pose proof (in_get_key sent (sel_api_key sel) w) as Hk.
  destruct (get_key (sel_api_key sel) w) as [[key|e] w1]; unfold at_most, same in *; simpl in *; [|lia].
  pose proof (in_rate_allow sent key w1) as Hr.
  destruct (rate_allow key w1) as [[[al ra]|e] w2]; simpl in *; unfold same in *; [|lia].
  destruct al; simpl; [|split; [lia|]; split_and!; try done; left; split; [done|congruence]].
  pose proof (acquire_same key w2) as Ha.
  destruct (acquire_slot key w2) as [[[le|]|e] w3]; simpl in *; unfold same in *;
    [|split; [lia|]; split_and!; try done; left; split; [done|congruence]|lia].
  destruct (pool_exchange_one c key le w3) as [H1 H2].
  destruct (pool_exchange self c key le w3) as [[[resp|]|e] w4]; simpl in *; unfold at_most in *.
  - pose proof (in_pool_outcome sent self c (sel_api_key sel)
      (count_attempt (rs_status resp) (set_selected (sel_api_key sel) (sel_score sel) l)) resp w4) as Ho.
    pose proof (pool_outcome_attempts c (sel_api_key sel)
      (count_attempt (rs_status resp) (set_selected (sel_api_key sel) (sel_score sel) l)) resp w4) as Ho'.
    destruct (pool_outcome self c _ _ resp w4) as [[[r|l']|e] w5]; simpl in *; unfold same in *;
      (split; [lia|]); try done.
    destruct Ho' as (-> & -> & ->). simpl. split_and!; try done. by right.
  - specialize (H2 eq_refl). split; [lia|]. split_and!; try done. left. split; [done|congruence].
  - split; [lia|done].
Qed.

Lemma select_or_error_same rt cfg prov ex :
  runs (same sent) (try_except (let! s := select rt cfg prov ex in ret (inl s))
    (λ e, match e with EFcam f => Some (ret (inr f)) | _ => None end)).
Proof. runs_auto. destruct e; simplify_eq. runs_auto. Qed.

Lemma pool_step_spec `{!OrmLaws, !MathLaws} c l w :
  at_most 1 w (pool_step self c l w).2 ∧
  match pool_step self c l w with
  | (Ok (Next l'), w') => ∃ id, id ∉ lp_tried l ∧ lp_tried l' = {[id]} ∪ lp_tried l ∧ lp_key l' = Some id ∧
      (lp_attempts l' = lp_attempts l ∧ sent w' = sent w ∨ lp_attempts l' = lp_attempts l + 1)
  | _ => True
  end.
Proof.
  pose proof (select_or_error_same (f_runtime self) (f_config self) (ca_provider c) (lp_tried l) w) as Hs.
  unfold pool_step. set (m := try_except _ _) in *. unfold bind.
  destruct (m w) as [[[sel|e]|e] w1] eqn:Ht; unfold same, at_most in *; simpl in *; [|clear Ht|lia].
  - assert (sel_api_key sel ∉ lp_tried l) as Hfresh.
    { revert Ht. subst m. unfold try_except, bind.
      destruct (select _ _ _ _ w) as [[sel'|e] w'] eqn:Hsel.
      - intros [= <- <-]. by eapply KeyPoolFacts.select_fresh.
      - destruct e; done. }
    destruct (try_key_spec c sel l w1) as [H1 H2].
    destruct (try_key self c sel l w1) as [[[r|l']|e] w2]; simpl in *; unfold at_most in *; (split; [lia|]); try done.
    destruct H2 as (Ht1 & Ht2 & Ht3). exists (sel_api_key sel). split_and!; try done.
    destruct Ht3 as [[? ?]|?]; [left; split; [done|congruence]|by right].
  - pose proof (in_selection_failed sent l e w1) as Hf. unfold same in Hf.
    assert (match selection_failed l e w1 with (Ok (Next _), _) => False | _ => True end) as Hn.
    { unfold selection_failed, decrypt_failed_error. repeat case_match; simplify_eq/=; done. }
    destruct (selection_failed l e w1) as [[[r|l']|e'] w2]; simpl in *; (split; [lia|]); done.
Qed.

Lemma pool_loop_sent `{!OrmLaws, !MathLaws} n : ∀ c l w,
  lp_attempts l ≤ ca_total_attempts c →
  Z.of_nat (sent (pool_loop self n c l w).2) ≤ Z.of_nat (sent w) + (ca_total_attempts c - lp_attempts l).
Proof.
  induction n as [|n IH]; intros c l w Hle; simpl; [lia|]. case_if; bool_prop; [|simpl; lia].
  unfold bind. destruct (pool_step_spec c l w) as [H1 H2].
  destruct (pool_step self c l w) as [[[r|l']|e] w1]; simpl in *; unfold at_most in *; [lia| |lia].
  destruct H2 as (id & _ & _ & _ & Ha). specialize (IH c l' w1 ltac:(lia)). lia.
Qed.
Lemma from_pool_sent `{!OrmLaws, !MathLaws} c l w :
  lp_attempts l ≤ ca_total_attempts c →
  Z.of_nat (sent (from_pool self c l w).2) ≤ Z.of_nat (sent w) + (ca_total_attempts c - lp_attempts l).
Proof.
  intros Hle. unfold from_pool, bind.
  pose proof (pool_loop_sent (max_selection_tries (ca_total_attempts c)) c l w Hle) as Hs.
  destruct (pool_loop self _ c l w) as [[[r|l']|e] w1]; simpl in *; try done.
  pose proof (in_exhausted sent self c l' w1) as He. unfold same in He. lia.
Qed.

(** * Pinned requests *)

Lemma pinned_exchange_one c i : runs (at_most 1) (pinned_exchange self c i).
Proof.
  unfold pinned_exchange.
  apply (bind_at_most _ _ 0 1); [apply same_at_most; runs_auto|]. intros key.
  apply (bind_at_most _ _ 0 1); [apply same_at_most; runs_auto|]. intros [[] ra]; simpl.
  2:{ apply same_at_most. unfold all_keys_busy. runs_auto. }
  apply (bind_at_most _ _ 0 1); [apply same_at_most, acquire_same|]. intros [le|].
  2:{ apply same_at_most. unfold all_keys_busy. runs_auto. }
  intros w. unfold finally. set (m := transport_errors self c i _).
  assert (at_most 1 w (m w).2) as H1.
  { apply transport_one. apply (bind_at_most _ _ 0 1); [apply same_at_most; runs_auto|].
    intros [pt|e]; [apply send_one|]. apply same_at_most. unfold decrypt_failed_error. runs_auto. }
  destruct (m w) as [r w1]. simpl in *. done.
Qed.

Lemma pinned_outcome_next c i a l resp w :
  match pinned_outcome self c i a l resp w with
  | (Ok (Next l'), _) => l' = l ∧ a < ca_total_attempts c - 1
  | (Ok (Return r), _) => fw_api_key_id r = lp_key l
  | _ => True
  end.
Proof.
  unfold pinned_outcome. repeat (unfold bind; case_match; simplify_eq/=); try done; unfold ret in *;
    repeat case_match; simplify_eq/=; try done; rewrite Z.geb_leb in *; bool_prop; split; (done || lia).
Qed.

(** The pinned loop sends at most once per iteration, answers for its key, and
    never leaves the request to the pool. *)
Lemma pinned_loop_spec n : ∀ a c i l w,
  a + Z.of_nat n = ca_total_attempts c → (0 < n)%nat → lp_key l = Some i →
  (sent (pinned_loop self n a c i l w).2 ≤ sent w + n)%nat ∧
  match pinned_loop self n a c i l w with
  | (Ok (Next _), _) => False
  | (Ok (Return r), _) => fw_api_key_id r = Some i
  | _ => True
  end.
Proof.
  induction n as [|n IH]; intros a c i l w Ha Hn Hl; [lia|]. simpl. unfold bind.
  pose proof (pinned_exchange_one c i w) as H1. unfold at_most in H1.
  destruct (pinned_exchange self c i w) as [[resp|e] w1]; simpl in *; [|split; [lia|done]].
  set (l1 := set_response _ _ l).
  pose proof (in_pinned_outcome sent self c i a l1 resp w1) as Ho. unfold same in Ho.
  pose proof (pinned_outcome_next c i a l1 resp w1) as Hx.
  destruct (pinned_outcome self c i a l1 resp w1) as [[[r|l2]|e] w2]; simpl in *.
  - split; [lia|]. by rewrite Hx.
  - destruct Hx as [-> Hlt]. destruct (IH (a + 1) c i l1 w2) as [Hs Hr]; [lia|lia|done|].
    split; [lia|exact Hr].
  - split; [lia|done].
Qed.
End ForwarderFacts.
End ForwarderFacts.

Module ForwarderTheorems.
Import ForwarderFacts.
Section ForwarderTheorems.
Context {E : Env} (self : Self).

(** C23. Responses are attributed by their status and wording, and a key is blamed
    only with a reason: for lack of credits on a 402 or a client error that says
    so, for its rate on a 429, as invalid on a 401 or when the body says the key
    is bad; a server error is charged to the upstream only when the body does
    not blame the key; and the three blaming statuses are never passed through. *)
Theorem attribution_exact resp :
  let status := rs_status resp in
  let text := _upstream_error_blob resp in
  match classify_upstream_outcome resp with
  | OutOk => 200 ≤ status < 300
  | OutCredit => status = 402 ∨ (400 ≤ status < 500 ∧ mentions CREDIT_MARKERS text = true)
  | OutRateLimit => status = 429
  | OutInvalidKey => status ≠ 429 ∧ (status = 401 ∨ mentions INVALID_KEY_MARKERS text = true)
  | Out5xx => 500 ≤ status ∧ mentions INVALID_KEY_MARKERS text = false
  | OutPassthrough => ¬ (200 ≤ status < 300) ∧ status ≠ 401 ∧ status ≠ 402 ∧ status ≠ 429 ∧
      mentions INVALID_KEY_MARKERS text = false
  end.
Proof.
  intros status text. unfold classify_upstream_outcome, _looks_like_credit_error,
    _looks_like_invalid_key, _looks_like_site_or_request_error.
  fold status text. rewrite !Z.geb_leb.
  destruct (mentions CREDIT_MARKERS text) eqn:E1, (mentions INVALID_KEY_MARKERS text) eqn:E2,
    (mentions SITE_OR_REQUEST_MARKERS text) eqn:E3;
    repeat case_if; bool_prop; simplify_eq; try done; try lia;
    (split_and!; try done; try lia; auto); repeat match goal with H : _ ∨ _ |- _ => destruct H end;
    bool_prop; try lia; auto.
Qed.

(** A server error whose body happens to contain one of the words for a bad key is
    attributed to the key, which [_disable_key] then takes out of service for
    good, although the wording is documented for 401 and 403 responses. *)
Theorem server_error_wording_blames_key resp :
  500 ≤ rs_status resp → mentions INVALID_KEY_MARKERS (_upstream_error_blob resp) = true →
  classify_upstream_outcome resp = OutInvalidKey.
Proof.
  intros Hs Hm. unfold classify_upstream_outcome, _looks_like_credit_error, _looks_like_invalid_key.
  rewrite Hm, !Z.geb_leb.
  assert (rs_status resp <? 300 = false) as -> by (apply Z.ltb_ge; lia).
  assert (rs_status resp =? 402 = false) as -> by (apply Z.eqb_neq; lia).
  assert (rs_status resp =? 429 = false) as -> by (apply Z.eqb_neq; lia).
  assert (500 <=? rs_status resp = true) as -> by (apply Z.leb_le; lia).
  by rewrite andb_false_r, orb_true_r.
Qed.

(** Nothing of the client's credentials goes upstream: whatever headers the client
    sent, the outgoing request carries only the four harmless ones and exactly the
    credential of the selected key, in the header the provider expects. *)
Theorem outbound_headers_safe c inbound plaintext x :
  ca_safe_headers c = _sanitized_request_headers inbound (ca_request_id c) →
  x ∈ upstream_headers self c plaintext →
  In x.1 SAFE_HEADERS ∨
  [x] = _provider_auth_header self (ca_provider c) plaintext ∧
  (x = ("authorization", "Bearer " +:+ plaintext) ∨ x = ("x-api-key", plaintext)).
Proof.
  intros Hs Hx. unfold upstream_headers, drop_request_headers in Hx. apply drop_elem in Hx.
  destruct (auth_header_one self (ca_provider c) plaintext) as (n & v & Ha & Hv). rewrite Ha in *.
  apply dict_update_elem in Hx as [->%list_elem_of_singleton|Hx].
  - right. split; [done|]. destruct Hv as [[-> ->]|[-> ->]]; [by left|by right].
  - left. rewrite Hs in Hx. by eapply sanitized_names.
Qed.

(** The credential does go out: the selected key's header is always among the
    outgoing ones. *)
Theorem outbound_credential_present c plaintext :
  ∃ x, _provider_auth_header self (ca_provider c) plaintext = [x] ∧ x ∈ upstream_headers self c plaintext.
Proof.
  destruct (auth_header_one self (ca_provider c) plaintext) as (n & v & Ha & Hv).
  exists (n, v). split; [done|]. unfold upstream_headers. rewrite Ha. apply drop_keeps.
  - destruct Hv as [[-> _]|[-> _]]; vm_compute; done.
  - simpl. apply dict_set_in.
Qed.

(** Hop-by-hop headers and cookies of the upstream stay with the gateway: every
    header of the client's response is one of the upstream's and not on the list
    of dropped ones; status and body are passed on unchanged. *)
Theorem response_headers_filtered resp :
  let r := _to_fastapi_response resp in
  rs_status r = rs_status resp ∧ rs_content r = rs_content resp ∧
  ∀ x, x ∈ rs_headers r → x ∈ rs_headers resp ∧ str_in (lower x.1) DROP_RESPONSE_HEADERS = false.
Proof.
  simpl. split; [done|]. split; [done|]. generalize (rs_headers resp) as hs.
  assert (∀ hs acc x, x ∈ foldl (λ acc kv, if str_in (lower kv.1) DROP_RESPONSE_HEADERS then acc
    else dict_set kv.1 kv.2 acc) acc hs →
    x ∈ acc ∨ (x ∈ hs ∧ str_in (lower x.1) DROP_RESPONSE_HEADERS = false)) as Hg.
  { induction hs as [|[k v] hs IH]; intros acc x; cbn [foldl]; [by left|].
    intros [H|[H1 H2]]%IH; [|right; split; [by right|done]].
    revert H. case_if; [by left|]. intros [->|?]%dict_set_elem; [|by left].
    right. split; [by left|done]. }
  intros hs x [H|H]%Hg; [by apply not_elem_of_nil in H|done].
Qed.

(** Every concurrency slot taken for a key is given back, however the request
    ends: after forwarding, answered or failed, as many slots of every key are in
    use as before. *)
Theorem forward_returns_slots `{!ConcurrencyLaws} rid ci m path body hs pin prov w k t :
  conc_wf (w_key_conc w) →
  cl_current k t (w_key_conc (forward self rid ci m path body hs pin prov w).2) =
  cl_current k t (w_key_conc w).
Proof. intros Hw. by apply (forward_balanced self rid ci m path body hs pin prov w Hw). Qed.

(** No request brings a key back into service: a key that is out of service in
    the session and in the database is out of service in both after any request,
    whatever the upstream answers and whichever commits fail. *)
Theorem forward_never_reactivates `{!OrmLaws} rid ci m path body hs pin prov w id :
  held (λ k, k_is_active k = false) id w →
  held (λ k, k_is_active k = false) id (forward self rid ci m path body hs pin prov w).2.
Proof. apply (ks_forward (row_has (λ k, k_is_active k = false) id) self). Qed.

(** No request changes what a key is: its id, provider, ciphertext and limits. *)
Theorem forward_keeps_identity `{!OrmLaws} rid ci m path body hs pin prov w id i :
  held (λ k, identity k = i) id w →
  held (λ k, identity k = i) id (forward self rid ci m path body hs pin prov w).2.
Proof. apply (ks_forward (row_has (λ k, identity k = i) id) self). Qed.

(** One call of [forward] costs at most the client's budget: whatever the pool looks
    like and the upstream answers, no more than [max_retries + 1] requests go out on
    the client's behalf, with or without a pinned key. *)
Theorem forward_within_budget `{!OrmLaws, !MathLaws} rid ci client m path body hs pin prov w :
  t_clients (view w) !! ci = Some client →
  Z.of_nat (sent (forward self rid ci m path body hs pin prov w).2) ≤
  Z.of_nat (sent w) + (Z.max (c_max_retries client) 0 + 1).
Proof.
  intros Hc. unfold forward. destruct (f_master_key self) as [mk|]; [|simpl; lia].
  unfold bind at 1, of_res. destruct (_provider_base_url self prov) as [base|e]; [|simpl; lia].
  unfold bind at 1, get_client, bind at 1, gets. rewrite Hc. simpl.
  set (c := mkCall _ _ _ _ _ _ _ _ _ _). unfold forward_call, bind at 1.
  pose proof (in_pinned_key sent prov pin w) as Hp. unfold same in Hp.
  assert (0 < ca_total_attempts c) as Hpos by (simpl; unfold _client_retry_budget; lia).
  change (Z.max (c_max_retries client) 0 + 1) with (ca_total_attempts c).
  change (ca_provider c) with prov. clearbody c.
  destruct (pinned_key prov pin w) as [[[id|]|e] w1]; simpl in Hp; [| |simpl; lia].
  - unfold bind. destruct (pinned_loop_spec self (Z.to_nat (ca_total_attempts c)) 0 c id
      (set_pinned id loop0) w1) as [Hs Hr]; [lia|lia|done|].
    destruct (pinned_loop self _ 0 c id _ w1) as [[[r|l]|e] w2]; simpl in *; [lia|done|lia].
  - pose proof (from_pool_sent self c loop0 w1 ltac:(simpl; lia)) as Hs. simpl lp_attempts in Hs. lia.
Qed.

(** A pinned request stays with its key: when the pinned key exists, is usable and
    belongs to the provider, an answer is an answer of that key, and the request
    is never handed to the pool. *)
Theorem pinned_request_stays `{!OrmLaws} c id key w r w' :
  t_keys (view w) !! id = Some key → usable_pin (ca_provider c) key = true → 0 < ca_total_attempts c →
  forward_call self c (Some id) w = (Ok r, w') → fw_api_key_id r = Some id.
Proof.
  intros Hk Hu Hpos Hf. unfold forward_call in Hf. apply bind_ok in Hf as (pin & w1 & Hp & Hf).
  assert (pin = Some id) as ->.
  { unfold pinned_key in Hp. apply bind_ok in Hp as (t & w2 & Ht & Hp).
    unfold catch_all, try_except, query, bind, step, gets in Ht. pose proof (view_query (w_db w)) as Hq.
    destruct (db_query (w_db w)) as [[] s]; simpl in *; [|done]. injection Ht as <- <-.
    unfold view in Hp. simpl in Hp. rewrite Hq in Hp. fold (view w) in Hp. rewrite Hk, Hu in Hp.
    by injection Hp as <- <-. }
  apply bind_ok in Hf as (c1 & w2 & Hl & Hf).
  destruct (pinned_loop_spec self (Z.to_nat (ca_total_attempts c)) 0 c id (set_pinned id loop0) w1)
    as [_ Hr]; [lia|lia|done|]. rewrite Hl in Hr. destruct c1 as [r1|l1]; [|done].
  by injection Hf as <- <-.
Qed.

Lemma assign_run f w : assign f w = (Ok tt, set_w_db (db_assign f (w_db w)) w).
Proof. done. Qed.

Lemma commit_durable `{!OrmLaws} w w' : commit w = (Ok tt, w') → durable w' = view w.
Proof.
  unfold commit, bind, step. pose proof (durable_commit (w_db w)) as Hd.
  destruct (db_commit (w_db w)) as [o s]. simpl in Hd.
  destruct o; [|done..]. intros [= <-]. unfold durable, view. simpl. exact Hd.
Qed.

(** Usage is counted exactly: when the accounting of a successful request goes
    through, the database has one more request on the key, and one more use on
    the client exactly if the client has a daily quota; otherwise the request is
    refused as database trouble. *)
Theorem success_counted_once `{!OrmLaws} ci ki client key w :
  t_clients (view w) !! ci = Some client → t_keys (view w) !! ki = Some key →
  match _consume_quota_on_success ci ki w with
  | (Ok _, w') => ∃ client' key', t_clients (durable w') !! ci = Some client' ∧
      t_keys (durable w') !! ki = Some key' ∧ k_total_requests key' = k_total_requests key + 1 ∧
      c_daily_usage client' = c_daily_usage client +
        (match c_daily_quota client with Some _ => 1 | None => 0 end)
  | (Raise e, _) => e = EFcam db_unavailable
  end.
Proof.
  intros Hc Hk. unfold _consume_quota_on_success, catch_all, try_except.
  set (body := bind (get_client ci) _).
  destruct (body w) as [[[]|e] w'] eqn:Hb; [|done].
  subst body. apply bind_ok in Hb as (c0 & w0 & H0 & Hb).
  unfold get_client, bind, gets in H0. rewrite Hc in H0. injection H0 as <- <-.
  apply bind_ok in Hb as ([] & w1 & H1 & Hb).
  apply bind_ok in Hb as (n1 & w2 & H2 & Hb). unfold now_utc in H2. rewrite KeyPoolFacts.on_host_ok in H2.
  injection H2 as <- <-.
  apply bind_ok in Hb as ([] & w3 & H3 & Hb). unfold assign_client in H3. rewrite assign_run in H3.
  injection H3 as <-.
  apply bind_ok in Hb as ([] & w4 & H4 & Hb). unfold assign_key in H4. rewrite assign_run in H4.
  injection H4 as <-.
  apply bind_ok in Hb as (n2 & w5 & H5 & Hb). unfold now_utc in H5. rewrite KeyPoolFacts.on_host_ok in H5.
  injection H5 as <- <-.
  apply bind_ok in Hb as ([] & w6 & H6 & Hb). unfold assign_key in H6. rewrite assign_run in H6.
  injection H6 as <-. apply commit_durable in Hb. rewrite Hb. unfold view. simpl.
  rewrite !view_assign. simpl.
  destruct (c_daily_quota client).
  - unfold assign_client in H1. rewrite assign_run in H1. injection H1 as <-. simpl.
    rewrite !view_assign. simpl. fold (view w). rewrite !lookup_alter_eq, Hc, Hk. simpl.
    eexists _, _. split_and!; done.
  - injection H1 as <-. fold (view w). rewrite !lookup_alter_eq, Hc, Hk. simpl.
    eexists _, _. split_and!; try done. simpl. lia.
Qed.
End ForwarderTheorems.

(** * Concrete inputs *)

Import Simulation.

Definition sim_self : Self := mkSelf default_AppConfig (Some "master") None "https://up" None.
Definition fwd_tables : Tables :=
  sim_tables [sim_key 1 "firecrawl" (Some 900); sim_key 2 "firecrawl" (Some 40);
              set_k_is_active false (sim_key 3 "firecrawl" None)] [sim_client 5 (Some 10) 2].
(** The best key is rate-limited, its credits are asked for, the other key answers. *)
Definition fwd_replies : list HttpOutcome :=
  [HttpReply (mkHttpResponse 429 [("Retry-After", "7")] "slow down");
   HttpReply (mkHttpResponse 200 [] "credits");
   HttpReply (mkHttpResponse 200 [("Set-Cookie", "s=1"); ("Content-Type", "text/plain")] "done")].
Definition fwd_world : World := sim_world fwd_tables [(1 # 2)%Q; (1 # 2)%Q] fwd_replies.
Definition fwd_run (pin : option Z) : Prog ForwardResult :=
  forward sim_self "req-1" 5 "POST" "/v1/scrape" (Some (JObj [])) [("Authorization", "Bearer client-token")]
    pin "firecrawl".

Lemma fwd_run_result : (fwd_run None fwd_world).1 =
  Ok (mkForwardResult (mkHttpResponse 200 [("Content-Type", "text/plain")] "done") (Some 200) (Some 2) 1 []
        (Some (40 * (55 # 100) * 1)%Q)).
Proof. vm_compute. reflexivity. Qed.

Lemma server_error_wording_blames_key_witness :
  let resp := mkHttpResponse 502 [] "TLS handshake failed: certificate revoked" in
  500 ≤ rs_status resp ∧ classify_upstream_outcome resp = OutInvalidKey.
Proof.
  split; [simpl; lia|]. apply server_error_wording_blames_key; [simpl; lia|vm_compute; reflexivity].
Defined.

Definition sim_call : Call :=
  mkCall "req-1" 5 "POST" "/v1/scrape" None "firecrawl" "master" "https://up"
    (_sanitized_request_headers [("Authorization", "Bearer client-token"); ("Accept", "*/*")] "req-1") 3.
Lemma outbound_headers_safe_witness :
  upstream_headers sim_self sim_call "fc-key-1" =
    [("x-request-id", "req-1"); ("accept", "*/*"); ("authorization", "Bearer fc-key-1")] ∧
  In "accept" SAFE_HEADERS.
Proof.
  split; [vm_compute; reflexivity|].
  destruct (outbound_headers_safe sim_self sim_call
    [("Authorization", "Bearer client-token"); ("Accept", "*/*")] "fc-key-1" ("accept", "*/*") eq_refl)
    as [H|[H _]].
  - right; left.
  - exact H.
  - discriminate H.
Defined.

Lemma forward_returns_slots_witness :
  cl_current "1" (mkMoment 1000 T0) (w_key_conc (fwd_run None fwd_world).2) =
  cl_current "1" (mkMoment 1000 T0) (w_key_conc fwd_world).
Proof. apply (@forward_returns_slots sim_env sim_self sim_conc_laws). apply sim_world_conc_wf. Defined.

Lemma forward_never_reactivates_witness :
  held (λ k, k_is_active k = false) 3 (fwd_run None fwd_world).2.
Proof.
  apply (@forward_never_reactivates sim_env sim_self sim_orm_laws). split; intros k H; vm_compute in H; injection H as <-; reflexivity.
Defined.
Lemma forward_keeps_identity_witness :
  held (λ k, identity k = (1, "firecrawl", enc_key "fc-key-1", 2, 10)) 1 (fwd_run None fwd_world).2.
Proof.
  apply (@forward_keeps_identity sim_env sim_self sim_orm_laws). split; intros k H; vm_compute in H; injection H as <-; reflexivity.
Defined.
Lemma forward_within_budget_witness :
  Z.of_nat (sent (fwd_run None fwd_world).2) ≤ Z.of_nat (sent fwd_world) + (Z.max 2 0 + 1).
Proof.
  apply (forward_within_budget sim_self "req-1" 5 (sim_client 5 (Some 10) 2)). reflexivity.
Defined.
Lemma pinned_request_stays_witness :
  ∃ r, (forward_call sim_self sim_call (Some 2) fwd_world).1 = Ok r ∧ fw_api_key_id r = Some 2.
Proof.
  eexists. split; [vm_compute; reflexivity|].
  apply (pinned_request_stays sim_self sim_call 2 (sim_key 2 "firecrawl" (Some 40)) fwd_world _
    (forward_call sim_self sim_call (Some 2) fwd_world).2); [reflexivity|reflexivity|simpl; lia|].
  apply run_eq. vm_compute. reflexivity.
Defined.
Lemma success_counted_once_witness :
  match _consume_quota_on_success 5 2 fwd_world with
  | (Ok _, w') => ∃ client' key', t_clients (durable w') !! 5 = Some client' ∧
      t_keys (durable w') !! 2 = Some key' ∧ k_total_requests key' = 0 + 1 ∧ c_daily_usage client' = 0 + 1
  | (Raise e, _) => e = EFcam db_unavailable
  end.
Proof.
  apply (success_counted_once 5 2 (sim_client 5 (Some 10) 2) (sim_key 2 "firecrawl" (Some 40)));
    vm_compute; reflexivity.
Defined.
End ForwarderTheorems.
