(* ===== verification/KeyTest.v ===== *)
(** [Forwarder.test_key] and [_test_key_exa]: the administrator's test of one key,
    which moves the key's status by what the upstream answers. *)

From S2P Require Import Prelude Effects PyText PyTime Json Models Config Env KeyPool CreditFetcher Forwarder.
Import KeyPool CreditFetcher Forwarder.
Open Scope Z_scope.

Module KeyTest.
Section KeyTest.
Context {E : Env} (self : Self).
Let config := f_config self.

(** The result as the key's row shows it now. *)
Definition observed (key_id : Z) (ok : bool) (status : option Z) (latency : Z) : Prog KeyTestResult :=
  let! key := get_key key_id in
  ret (mkKeyTestResult ok status latency (k_status key) (k_cooldown_until key)).

Definition latency_since (start : Q) : Prog Z :=
  let! t := monotonic in ret (int_of_float ((t - start) * 1000)).

Definition test_headers (provider request_id plaintext : string) : dict :=
  dict_update [("x-request-id", request_id); ("content-type", "application/json")]
    (_provider_auth_header self provider plaintext).

(** [for candidate_path in candidates: ...; if status not in {404, 405}: break]. *)
Fixpoint try_paths (base_url : string) (headers : dict) (body : Json) (paths : list string)
    (last : option HttpResponse) : Prog (option HttpResponse) :=
  match paths with
  | [] => ret last
  | path :: paths' =>
      let! resp := http_request (mkHttpRequest base_url "POST" path headers (Some body)) in
      if z_in (rs_status resp) [404; 405] then try_paths base_url headers body paths' (Some resp)
      else ret (Some resp)
  end.

Definition candidates : list string :=
  match f_firecrawl_version self with
  | Some v => if String.eqb v "v1" then ["/v1/scrape"; "/v2/scrape"] else ["/v2/scrape"; "/v1/scrape"]
  | None => ["/v2/scrape"; "/v1/scrape"]
  end.

(** The [try] of a test: a response and the latency, or the result of a test that
    got none. *)
Definition exchange (key_id : Z) (master_key provider request_id : string)
    (ask : string → dict → Prog (option HttpResponse)) : Prog (HttpResponse * Z + KeyTestResult) :=
  let! start := monotonic in
  let failed (reason : string) : Prog (HttpResponse * Z + KeyTestResult) :=
    _record_failure self key_id reason None ;;!
    let! latency := latency_since start in
    let! r := observed key_id false None latency in ret (inr r) in
  try_except
    (let! key := get_key key_id in
     let! plain := try_decrypt master_key (k_api_key_ciphertext key) in
     match plain with
     | inr _ =>
         _disable_key_decrypt_failed key_id ;;!
         let! latency := latency_since start in
         let! r := observed key_id false None latency in ret (inr r)
     | inl plaintext =>
         let! base_url := of_res (_provider_base_url self provider) in
         let! resp := ask base_url (test_headers provider request_id plaintext) in
         let! latency := latency_since start in
         match resp with
         | Some resp => ret (inl (resp, latency))
         | None => raise (EOther "AssertionError")
         end
     end)
    (λ e, match e with
          | EHttpTimeout => Some (failed "timeout")
          | EHttpError _ => Some (failed "http_error")
          | _ => None
          end).

Definition cooldown_of (resp : HttpResponse) : Z :=
  opt_or_int (_parse_retry_after (rs_headers resp)) (rl_cooldown_seconds (cfg_rate_limit config)).

Definition _test_key_exa (key_id : Z) (master_key provider request_id : string) : Prog KeyTestResult :=
  let! r := exchange key_id master_key provider request_id (λ base_url headers,
    let! resp := http_request (mkHttpRequest base_url "POST" "/search" headers
      (Some (JObj [("query", JStr "test"); ("numResults", JInt 1)]))) in
    ret (Some resp)) in
  match r with
  | inr result => ret result
  | inl (resp, latency) =>
      let status := rs_status resp in
      if (200 <=? status) && (status <? 300) then
        _mark_active key_id ;;! observed key_id true (Some status) latency
      else
        (if status =? 429 then _mark_cooling key_id (cooldown_of resp) else ret tt) ;;!
        (if decide (classify_upstream_outcome resp = OutInvalidKey) then _disable_key key_id else ret tt) ;;!
        (if status >=? 500 then _record_failure self key_id "upstream_5xx" (Some status) else ret tt) ;;!
        observed key_id false (Some status) latency
  end.

Definition test_key (request_id : string) (key_id : Z) (mode test_url : string) : Prog KeyTestResult :=
  match f_master_key self with
  | None => raise_fcam 503 "NOT_READY" "Master key not configured" None
  | Some master_key =>
      let! key := get_key key_id in
      let provider := or_str (k_provider key) "firecrawl" in
      if negb (String.eqb mode "scrape")
      then raise_fcam 400 "VALIDATION_ERROR" "Unsupported test mode" None
      else if String.eqb provider "exa" then _test_key_exa key_id master_key provider request_id
      else
        let! r := exchange key_id master_key provider request_id (λ base_url headers,
          try_paths base_url headers (JObj [("url", JStr test_url)]) candidates None) in
        match r with
        | inr result => ret result
        | inl (resp, latency) =>
            let status := rs_status resp in
            (if (200 <=? status) && (status <? 300) then _mark_active key_id
             else if status =? 429 then _mark_cooling key_id (cooldown_of resp)
             else if decide (classify_upstream_outcome resp = OutInvalidKey) then _disable_key key_id
             else if status >=? 500 then _record_failure self key_id "upstream_5xx" (Some status)
             else ret tt) ;;!
            observed key_id ((200 <=? status) && (status <? 300)) (Some status) latency
        end
  end.
End KeyTest.
End KeyTest.
