(* ===== verification/Idempotency.v ===== *)
(** [app/core/idempotency.py]: a client's request with an idempotency key runs at
    most once; later requests with the key are answered from the stored response.
    The unique constraint on (client, key) decides who runs.  Serialisation
    (json, base64, sha256) is the class [Codecs]. *)

From S2P Require Import Prelude Effects PyText PyTime Json Models Config Env KeyPool.
Open Scope Z_scope.

Class Codecs := {
  json_dumps : Json → string;            (* json.dumps(x, ensure_ascii=False) *)
  canonical_dumps : Json → string;       (* json.dumps(x, sort_keys=True, separators=(",", ":")) *)
  sha256_hex : string → string;
  b64encode : string → string;
  b64decode : string → option string     (* None: binascii.Error *)
}.

(** Decoding undoes encoding, for values whose dictionaries have distinct keys. *)
Class CodecLaws `{!Host, !Codecs} := {
  loads_dumps : ∀ j, well_keyed j → h_json_loads (json_dumps j) = Some j;
  dumps_nonempty : ∀ j, json_dumps j ≠ "";
  b64_round_trip : ∀ s, b64decode (b64encode s) = Some s
}.

Module Idempotency.
Section Idempotency.
Context {E : Env} `{!Codecs}.

Definition _hash_request (method endpoint : string) (payload : Json) : string :=
  sha256_hex (canonical_dumps
    (JObj [("method", JStr (upper method)); ("endpoint", JStr endpoint); ("payload", payload)])).

Definition headers_json (h : dict) : Json := JObj ((λ kv : string * string, (kv.1, JStr kv.2)) <$> h).
Definition response_json (response : HttpResponse) : Json :=
  JObj [("v", JInt 1); ("headers", headers_json (dict_update [] (rs_headers response)));
        ("body_b64", JStr (b64encode (rs_content response)))].

Definition _serialize_response (response : HttpResponse) (max_bytes : Z) : Res (Z * string) :=
  if slen (rs_content response) >? max_bytes
  then Raise (EFcam (mkFcamError 413 "REQUEST_TOO_LARGE" "Response too large to store" None))
  else Ok (rs_status response, json_dumps (response_json response)).

(** [str(v)] of a header value. *)
Definition header_text (j : Json) : string := match j with JStr s => s | _ => h_str j end.
(** [data.get("v") != 1]: 1.0 and True are equal to 1. *)
Definition is_one (j : option Json) : bool :=
  match j with
  | Some (JInt n) => n =? 1
  | Some (JFloat q) => Qeq_bool q 1
  | Some (JBool b) => b
  | _ => false
  end.
Definition or_json (j : option Json) (d : Json) : Json :=
  match j with Some v => if truthy v then v else d | None => d end.

Definition _deserialize_response (status_code : Z) (response_body : string) : Res HttpResponse :=
  let invalid : Res HttpResponse :=
    Raise (EFcam (mkFcamError 503 "DB_UNAVAILABLE" "Invalid idempotency record" None)) in
  match h_json_loads response_body with
  | Some (JObj data) =>
      if negb (is_one (obj_get "v" data)) then invalid
      else match or_json (obj_get "headers" data) (JObj []), or_json (obj_get "body_b64" data) (JStr "") with
           | JObj headers, JStr body_b64 =>
               match b64decode body_b64 with
               | Some body => Ok (mkHttpResponse status_code
                                    ((λ kv : string * Json, (kv.1, header_text kv.2)) <$> headers) body)
               | None => invalid
               end
           | _, _ => invalid
           end
  | _ => invalid
  end.

Definition db_down {A} : Prog A := raise (EFcam KeyPool.db_unavailable).

Definition _cleanup_expired (client_id now : Z) : Prog unit :=
  commit_or_rollback
    (query ;;!
     assign (λ t, set_t_idempotency
       (filter (λ p : Z * IdempotencyRecord,
          negb ((i_client_id p.2 =? client_id) &&
                match i_expires_at p.2 with Some e => utc_us e <? now | None => false end) = true)
          (t_idempotency t)) t)).

Definition find_record (client_id : Z) (key : string) (t : Tables) : option IdempotencyRecord :=
  List.find (λ r, (i_client_id r =? client_id) && String.eqb (i_idempotency_key r) key)
    (by_id (t_idempotency t)).

(** [db.delete(existing); db.commit()], a failure being the 503. *)
Definition delete_record (id : Z) : Prog unit :=
  catch_all (assign (λ t, set_t_idempotency (delete id (t_idempotency t)) t) ;;! commit)
    (λ _, rollback ;;! db_down).

Definition stale_after (config : AppConfig) : Z :=
  Z.min (Z.max (id_ttl_seconds (cfg_idempotency config) / 12) 30) 120 * second.

(** What an existing record means for the request; [None] is the record to be
    taken over. *)
Definition judge (config : AppConfig) (now : Z) (request_hash : string) (existing : IdempotencyRecord)
  : option (Res HttpResponse) :=
  if match i_expires_at existing with Some e => utc_us e <? now | None => false end then None
  else if negb (String.eqb (i_request_hash existing) request_hash) then
    Some (Raise (EFcam (mkFcamError 409 "IDEMPOTENCY_KEY_CONFLICT" "Idempotency key conflict" None)))
  else
    match i_response_status_code existing, i_response_body existing with
    | Some status, Some body =>
        if String.eqb (i_status existing) "completed" && negb (String.eqb body "")
        then Some (_deserialize_response status body)
        else if String.eqb (i_status existing) "in_progress" &&
                (stale_after config <? now - utc_us (i_created_at existing)) then None
        else Some (Raise (EFcam (mkFcamError 409 "IDEMPOTENCY_IN_PROGRESS"
                           "Idempotent request in progress" (Some 1))))
    | _, _ =>
        if String.eqb (i_status existing) "in_progress" &&
           (stale_after config <? now - utc_us (i_created_at existing)) then None
        else Some (Raise (EFcam (mkFcamError 409 "IDEMPOTENCY_IN_PROGRESS"
                           "Idempotent request in progress" (Some 1))))
    end.

(** [db.add(record); db.commit(); db.refresh(record)]. *)
Definition insert_record (client_id : Z) (key request_hash : string) (expires_at : Z) : Prog Z :=
  let! created := now_utc in
  let! id := gets (λ w, db_next_id (w_db w)) in
  assign (λ t, set_t_idempotency (<[id := mkIdempotencyRecord id client_id key request_hash
    "in_progress" None None (Aware created) (Some (Aware expires_at))]> (t_idempotency t)) t) ;;!
  commit ;;!
  query ;;!
  ret id.

(** The [try] around it: [None] goes to the clause for IntegrityError. *)
Definition try_insert (client_id : Z) (key request_hash : string) (expires_at : Z) : Prog (option Z) :=
  try_except
    (let! id := insert_record client_id key request_hash expires_at in ret (Some id))
    (λ e, match e with
          | EIntegrity => Some (ret None)
          | EFcam _ => None
          | _ => Some (rollback ;;! db_down)
          end).

(** The outcome of [start_or_replay]: a new context, a replayed response, or
    neither (idempotency not used). *)
Inductive Start := Fresh (record_id : Z) | Replay (response : HttpResponse) | Unused.

Definition required (config : AppConfig) (endpoint : string) : bool :=
  str_in endpoint (List.filter (λ e, negb (String.eqb e "")) (map strip (id_require_on (cfg_idempotency config)))).

(** The part after the arguments are checked.  [depth] is Python's recursion limit;
    two levels are enough (see the theorems). *)
Fixpoint begin (depth : nat) (config : AppConfig) (client_id : Z) (key request_hash : string) : Prog Start :=
  match depth with
  | O => raise (EOther "RecursionError")
  | S depth' =>
      let! now := now_utc in
      _cleanup_expired client_id now ;;!
      let expires_at := now + Z.max (id_ttl_seconds (cfg_idempotency config)) 1 * second in
      let! r := try_insert client_id key request_hash expires_at in
      match r with
      | Some id => ret (Fresh id)
      | None =>
          rollback ;;!
          let! t := query in
          match find_record client_id key t with
          | None => db_down
          | Some existing =>
              match judge config now request_hash existing with
              | Some (Ok response) => ret (Replay response)
              | Some (Raise e) => raise e
              | None => delete_record (i_id existing) ;;! begin depth' config client_id key request_hash
              end
          end
      end
  end.

Definition start_or_replay (depth : nat) (config : AppConfig) (client_id : Z)
    (idempotency_key : option string) (endpoint method : string) (payload : Json) : Prog Start :=
  if negb (id_enabled (cfg_idempotency config)) then ret Unused
  else
    let key := default "" idempotency_key in
    if required config endpoint && String.eqb key ""
    then raise_fcam 400 "IDEMPOTENCY_KEY_REQUIRED" "Idempotency key required" None
    else if String.eqb key "" then ret Unused
    else begin depth config client_id key (_hash_request method endpoint payload).

Definition complete (config : AppConfig) (ctx : option Z) (response : HttpResponse) : Prog unit :=
  match ctx with
  | None => ret tt
  | Some record_id =>
      if negb (id_enabled (cfg_idempotency config)) then ret tt
      else
        catch_all
          (let! t := query in
           match t_idempotency t !! record_id with
           | None => ret tt
           | Some _ =>
               let! ' (status_code, body) := of_res (_serialize_response response
                 (Z.max (id_max_response_bytes (cfg_idempotency config)) 1)) in
               assign (λ t, set_t_idempotency (alter (λ r,
                 set_i_response_body (Some body) (set_i_response_status_code (Some status_code)
                   (set_i_status "completed" r))) record_id (t_idempotency t)) t) ;;!
               commit
           end)
          (λ _, rollback)
  end.
End Idempotency.
End Idempotency.
