(* ===== verification/IdempotencyProps.v ===== *)
(** What idempotency guarantees: the decision of [begin] is a function of the
    record the database holds for the key, a request is started only while no
    live record exists and then holds the only record of its key, the recursion
    ends at the second level, and a completed request is replayed as it was. *)

From S2P Require Import Prelude Effects PyText PyTime Json Models Config Env Transactions KeyPool Idempotency.
From S2P Require Import Sim.
Import Idempotency.
Open Scope Z_scope.

Module IdempotencyFacts.
Section Records.
Context (cid : Z) (key : string).
Notation slot := (cid, key).

(** The constraints of the schema, and rows stored under their primary key. *)
Definition sound (t : Tables) : Prop :=
  constraints_hold t ∧ ∀ i r, t_idempotency t !! i = Some r → i_id r = i.

Lemma slot_match r : (i_client_id r =? cid) && String.eqb (i_idempotency_key r) key = true ↔ idem_slot r = slot.
Proof. rewrite andb_true_iff, Z.eqb_eq, String.eqb_eq. unfold idem_slot. naive_solver. Qed.
Lemma find_record_some t r :
  find_record cid key t = Some r → ∃ i, t_idempotency t !! i = Some r ∧ idem_slot r = slot.
Proof. apply (find_by_some _ _ _ slot_match). Qed.
Lemma find_record_none t i r :
  find_record cid key t = None → t_idempotency t !! i = Some r → idem_slot r ≠ slot.
Proof. apply (find_by_none _ _ _ slot_match). Qed.

Lemma sound_filter P `{!∀ x, Decision (P x)} t :
  sound t → sound (set_t_idempotency (filter P (t_idempotency t)) t).
Proof.
  intros [Hc Hk]. split; [apply constraints_fewer_records; [apply map_filter_subseteq|done]|]; simpl.
  intros i r [Hi _]%map_lookup_filter_Some. by apply Hk.
Qed.
Lemma sound_delete i t : sound t → sound (set_t_idempotency (delete i (t_idempotency t)) t).
Proof.
  intros [Hc Hk]. split; [apply constraints_fewer_records; [apply delete_subseteq|done]|]; simpl.
  intros j r [_ Hj]%lookup_delete_Some. by apply Hk.
Qed.
End Records.

Section Begin.
Context {E : Env} {OL : OrmLaws} `{!Codecs} (config : AppConfig) (cid : Z) (key hash : string).
Implicit Types w : World.

Definition trouble (e : Exn) : Prop := e = EFcam KeyPool.db_unavailable ∨ e = operational.
(** The request has been started as record [id], the only one of its key. *)
Definition started (id : Z) (t : Tables) : Prop :=
  constraints_hold t ∧ ∃ r, t_idempotency t !! id = Some r ∧ idem_slot r = (cid, key) ∧
    i_request_hash r = hash ∧ i_status r = "in_progress".
(** The session at the start of a request of an existing client. *)
Definition ready w : Prop := clean w ∧ sound (durable w) ∧ is_Some (t_clients (durable w) !! cid).

Definition live_at (now : Z) (r : IdempotencyRecord) : Prop :=
  match i_expires_at r with Some e => now ≤ utc_us e | None => True end.

(** Cleaning up removes only expired records of the client. *)
Lemma cleanup_spec now w : ready w →
  let m := _cleanup_expired cid now in
  (m w).1 = Ok tt ∧ ready (m w).2 ∧
  (∀ i r, t_idempotency (durable (m w).2) !! i = Some r → t_idempotency (durable w) !! i = Some r) ∧
  (∀ i r, t_idempotency (durable w) !! i = Some r → live_at now r →
          t_idempotency (durable (m w).2) !! i = Some r).
Proof.
  intros (Hc & Hs & Hcl) m. destruct (edit_spec _ w Hc : let m := _cleanup_expired cid now in _) as (H1 & H2 & H3).
  fold m in H1, H2, H3. unfold ready. split; [done|].
  destruct H3 as [[H3 _]|H3]; rewrite H3; [|by auto].
  split; [split_and!; [done|by apply sound_filter|done]|]. simpl. split.
  - intros i r [Hi _]%map_lookup_filter_Some. done.
  - intros i r Hi Hl. apply map_lookup_filter_Some. split; [done|]. simpl. unfold live_at in Hl.
    destruct (i_expires_at r) as [e|]; rewrite ?andb_false_r; [|done].
    assert (utc_us e <? now = false) as -> by (apply Z.ltb_ge; lia). by rewrite andb_false_r.
Qed.

Lemma now_spec w : ∃ w', now_utc w = (Ok (h_now (w_host w)).1, w') ∧ w_db w' = w_db w.
Proof. destruct (on_host_db h_now w) as (w' & H1 & _ & _ & H2). eauto. Qed.

(** The insertion: it succeeds only if the key has no record, and violates the
    constraint only if it has one. *)
Lemma insert_record_spec expires_at w : ready w →
  match insert_record cid key hash expires_at w with
  | (Ok id, w') => find_record cid key (durable w) = None ∧ started id (durable w')
  | (Raise e, w') => e = EIntegrity ∧ durable w' = durable w ∧ find_record cid key (durable w) ≠ None ∨
                     e = operational
  end.
Proof.
  intros (Hc & [Hcs Hk] & Hcl). unfold insert_record. destruct (now_spec w) as (w1 & Hn & Hd).
  rewrite (bind_run _ _ _ _ _ Hn). unfold bind at 1, gets. rewrite <-bind_assoc.
  set (created := (h_now (w_host w)).1). set (id := db_next_id (w_db w1)).
  match goal with |- context [assign ?g] => set (f := g) end.
  assert (view w1 = durable w) as Hv by (unfold view; rewrite Hd; exact Hc).
  assert (t_idempotency (durable w) !! id = None) as Hid.
  { rewrite <-Hv. apply next_id_fresh. }
  assert (∀ r, find_record cid key (durable w) = Some r → ¬ constraints_hold (f (view w1))) as Hdup.
  { intros r Hf Hu'. rewrite Hv in Hu'. apply find_record_some in Hf as (i & Hi & Hs).
    refine (proj1 (constraints_new_record _ id cid _ Hcs Hid Hcl _) Hu' i r Hi Hs). done. }
  pose proof (assign_commit_spec f w1) as Ha. unfold bind at 1.
  destruct ((assign f ;;! commit)%fcam w1) as [[[]|e] w2].
  - destruct Ha as (Ha1 & Ha2 & Ha3). unfold bind. destruct (query_spec w2) as (_ & Hq & Hr).
    destruct (query w2) as [r w3]; simpl in *. destruct Hr as [->| ->]; [|by right].
    split.
    + destruct (find_record cid key (durable w)) as [r'|] eqn:Hf; [|done]. by destruct (Hdup r').
    + unfold started. rewrite Hq, Ha2. split; [done|]. eexists.
      split; [apply lookup_insert_eq|done].
  - destruct Ha as [Ha [[-> Hv']| ->]]; [|by right]. left. split; [done|].
    split; [unfold durable in *; congruence|]. intros Hf. apply Hv'. rewrite Hv.
    refine (proj2 (constraints_new_record _ id cid _ Hcs Hid Hcl _) _); [done|]. intros j b Hj. by eapply find_record_none.
Qed.
Lemma try_insert_spec expires_at w : ready w →
  match try_insert cid key hash expires_at w with
  | (Ok (Some id), w') => find_record cid key (durable w) = None ∧ started id (durable w')
  | (Ok None, w') => durable w' = durable w ∧ find_record cid key (durable w) ≠ None
  | (Raise e, _) => trouble e
  end.
Proof.
  intros Hw. pose proof (insert_record_spec expires_at w Hw) as Hi.
  unfold try_insert, try_except, bind. destruct (insert_record cid key hash expires_at w) as [[id|e] w'].
  - done.
  - destruct Hi as [(-> & H2 & H3)| ->]; simpl; [done|]. by left.
Qed.
Lemma delete_record_spec id w : ready w →
  match delete_record id w with
  | (Ok _, w') => ready w' ∧ t_idempotency (durable w') = delete id (t_idempotency (durable w))
  | (Raise e, _) => trouble e
  end.
Proof.
  intros (Hc & Hs & Hcl). unfold delete_record, catch_all, try_except.
  match goal with |- context [assign ?g] => pose proof (assign_commit_spec g w) as Ha;
    destruct ((assign g ;;! commit)%fcam w) as [[[]|e] w1] end.
  - unfold clean in Hc. rewrite Hc in Ha. destruct Ha as (H1 & H2 & _). unfold ready, clean.
    rewrite H1, H2. split; [split_and!; [done|by apply sound_delete|done]|done].
  - by left.
Qed.

(** What follows the clean-up. *)
Definition claim (d : nat) (now : Z) : Prog Start :=
  let! r := try_insert cid key hash (now + Z.max (id_ttl_seconds (cfg_idempotency config)) 1 * second) in
  match r with
  | Some id => ret (Fresh id)
  | None =>
      rollback ;;!
      let! t := query in
      match find_record cid key t with
      | None => db_down
      | Some existing =>
          match judge config now hash existing with
          | Some (Ok response) => ret (Replay response)
          | Some (Raise e) => raise e
          | None => delete_record (i_id existing) ;;! begin d config cid key hash
          end
      end
  end.
Lemma begin_claim d w : ready w →
  let now := (h_now (w_host w)).1 in
  ∃ w1, begin (S d) config cid key hash w = claim d now w1 ∧ ready w1 ∧
    (∀ i r, t_idempotency (durable w1) !! i = Some r → t_idempotency (durable w) !! i = Some r) ∧
    (∀ i r, t_idempotency (durable w) !! i = Some r → live_at now r →
            t_idempotency (durable w1) !! i = Some r).
Proof.
  intros Hw now. destruct (now_spec w) as (w1 & Hn & Hd).
  assert (ready w1) as Hw1 by (unfold ready, clean, view, durable in *; by rewrite Hd).
  destruct (cleanup_spec now w1 Hw1) as (H1 & H2 & H3).
  exists (_cleanup_expired cid now w1).2. split.
  - cbn [begin]. rewrite (bind_run _ _ _ _ _ Hn). fold now.
    rewrite (bind_run _ _ w1 tt (_cleanup_expired cid now w1).2); [reflexivity|by apply run_eq].
  - split; [done|]. unfold durable in H3. rewrite Hd in H3. exact H3.
Qed.

Lemma judge_dead now r : judge config now hash r ≠ None → live_at now r.
Proof.
  unfold judge, live_at. destruct (i_expires_at r) as [e|]; [|done].
  destruct (utc_us e <? now) eqn:He; [done|]. intros _. apply Z.ltb_ge in He. lia.
Qed.

(** With no record of the key the request is started, at the first level. *)
Lemma begin_absent d w : ready w → find_record cid key (durable w) = None →
  match begin (S d) config cid key hash w with
  | (Ok (Fresh id), w') => started id (durable w')
  | (Ok _, _) => False
  | (Raise e, _) => trouble e
  end.
Proof.
  intros Hw Hf. destruct (begin_claim d w Hw) as (w1 & -> & Hw1 & Hsub & _).
  assert (find_record cid key (durable w1) = None) as Hf1.
  { destruct (find_record cid key (durable w1)) as [r|] eqn:Hr; [|done].
    apply find_record_some in Hr as (i & Hi & Hs). by destruct (find_record_none _ _ _ i r Hf (Hsub _ _ Hi)). }
  unfold claim, bind at 1. match goal with |- context [try_insert _ _ _ ?x] =>
    pose proof (try_insert_spec x w1 Hw1) as Ht; destruct (try_insert cid key hash x w1) as [[[id|]|e] w2] end.
  - by destruct Ht.
  - by destruct Ht.
  - done.
Qed.

(** The decision, from the record in the database. *)
Lemma begin_decides d w :
  ready w →
  let now := (h_now (w_host w)).1 in
  let stored r := ∃ i, t_idempotency (durable w) !! i = Some r ∧ idem_slot r = (cid, key) in
  match begin (S (S d)) config cid key hash w with
  | (Ok (Fresh id), w') => (∀ r, stored r → judge config now hash r = None) ∧
                           started id (durable w')
  | (Ok (Replay resp), _) => ∃ r, stored r ∧ judge config now hash r = Some (Ok resp)
  | (Ok Unused, _) => False
  | (Raise e, _) => trouble e ∨ ∃ r, stored r ∧ judge config now hash r = Some (Raise e)
  end.
Proof.
  intros Hw now stored. destruct (begin_claim (S d) w Hw) as (w1 & -> & Hw1 & Hsub & Hlive).
  fold now in Hlive |- *. unfold claim. unfold bind at 1.
  match goal with |- context [try_insert _ _ _ ?x] => pose proof (try_insert_spec x w1 Hw1) as Ht;
    destruct (try_insert cid key hash x w1) as [[[id|]|e] w2] end.
  - destruct Ht as [Hf Hst]. split; [|done]. intros r (i & Hi & Hs).
    destruct (judge config now hash r) eqn:Hj; [|done]. exfalso.
    apply (find_record_none _ _ _ i r Hf); [|done]. apply Hlive; [done|].
    apply (judge_dead). congruence.
  - destruct Ht as [Hd Hf]. destruct (rollback_spec w2) as (Hr & Hv & Hd').
    rewrite (bind_run _ _ w2 tt (rollback w2).2) by (by apply run_eq). unfold bind at 1.
    destruct (query_spec (rollback w2).2) as (Hq1 & Hq2 & Hq3). rewrite Hv, Hd', Hd in *.
    destruct (query (rollback w2).2) as [rq w3]. simpl in Hq1, Hq2, Hq3.
    destruct Hq3 as [->| ->]; [|by left; right].
    destruct (find_record cid key (durable w1)) as [r|] eqn:Hr1; [|done].
    assert (ready w3) as Hw3 by (unfold ready, clean; rewrite Hq1, Hq2; split; [done|apply Hw1]).
    apply find_record_some in Hr1 as (i & Hi & Hs).
    assert (stored r) as Hst by (exists i; split; [by apply Hsub|done]).
    destruct (judge config now hash r) as [[resp|e]|] eqn:Hj; [by exists r|by right; exists r|].
    unfold bind. pose proof (delete_record_spec (i_id r) w3 Hw3) as Hdel.
    destruct (delete_record (i_id r) w3) as [[[]|e] w4]; [|by left].
    destruct Hdel as [Hw4 Hdel].
    assert (i_id r = i) as Hid by (by apply Hw1). rewrite Hid, Hq2 in Hdel.
    assert (find_record cid key (durable w4) = None) as Hn.
    { destruct (find_record cid key (durable w4)) as [r'|] eqn:Hr'; [|done]. exfalso.
      apply find_record_some in Hr' as (j & Hj' & Hs'). rewrite Hdel in Hj'.
      apply lookup_delete_Some in Hj' as [Hne Hj']. apply Hne.
      destruct Hw1 as (_ & [[_ _ _ Hu] _] & _). by apply (Hu i j r r'); [..|congruence]. }
    pose proof (begin_absent d w4 Hw4 Hn) as Hb.
    destruct (begin (S d) config cid key hash w4) as [[[id|resp|]|e] w5]; [|done|done|by left].
    split; [|done]. intros r' (j & Hj' & Hs').
    destruct (judge config now hash r') eqn:Hjr; [|done]. exfalso.
    assert (t_idempotency (durable w1) !! j = Some r') as Hj1.
    { apply Hlive; [done|]. apply (judge_dead). congruence. }
    assert (i = j) as <-; [|congruence].
    destruct Hw1 as (_ & [[_ _ _ Hu] _] & _). by apply (Hu i j r r'); [..|congruence].
  - by left.
Qed.
End Begin.

(** * Stored responses *)

Lemma dict_set_keys k v d x : x ∈ (dict_set k v d).*1 → x = k ∨ x ∈ d.*1.
Proof.
  induction d as [|[k' v'] d IH]; simpl; [by intros ->%list_elem_of_singleton; left|].
  case_if; simpl; rewrite !elem_of_cons; intros [->|Hx]; [auto..|]. destruct (IH Hx); auto.
Qed.
Lemma dict_set_nodup k v d : NoDup d.*1 → NoDup (dict_set k v d).*1.
Proof.
  induction d as [|[k' v'] d IH]; simpl; intros Hd; [apply NoDup_singleton|].
  apply NoDup_cons in Hd as [Hn Hd]. case_if; simpl; bool_prop; subst; apply NoDup_cons; split; auto.
  intros [->|Hx]%dict_set_keys; [done|done].
Qed.
Lemma dict_update_nodup e d : NoDup d.*1 → NoDup (dict_update d e).*1.
Proof.
  unfold dict_update. revert d. induction e as [|[k v] e IH]; intros d Hd; simpl; [done|].
  by apply IH, dict_set_nodup.
Qed.

Section Stored.
Context {E : Env} `{!Codecs} {CL : CodecLaws} (config : AppConfig).

Lemma response_json_keyed resp : well_keyed (response_json resp).
Proof.
  unfold response_json. simpl. split.
  - by apply (bool_decide_unpack _); vm_compute.
  - split_and!; try done.
    + rewrite <-list_fmap_compose. apply dict_update_nodup. simpl. apply NoDup_nil_2.
    + generalize (dict_update [] (rs_headers resp)) as d. induction d as [|kv d IH]; simpl; auto.
Qed.
Lemma stored_response resp :
  _deserialize_response (rs_status resp) (json_dumps (response_json resp)) =
  Ok (mkHttpResponse (rs_status resp) (dict_update [] (rs_headers resp)) (rs_content resp)).
Proof.
  unfold _deserialize_response. rewrite loads_dumps by apply response_json_keyed.
  unfold response_json. cbn [obj_get String.eqb Ascii.eqb Bool.eqb is_one]. simpl.
  set (h := dict_update [] (rs_headers resp)).
  assert (or_json (Some (headers_json h)) (JObj []) = headers_json h) as Hh.
  { unfold or_json, headers_json. simpl. destruct h; done. }
  simpl in Hh. rewrite Hh. unfold headers_json.
  assert (∀ s, (if negb (String.eqb s "") then JStr s else JStr "") = JStr s) as Hb.
  { intros s. destruct (String.eqb_spec s ""); simpl; congruence. }
  rewrite Hb, b64_round_trip. do 2 f_equal. rewrite <-list_fmap_compose.
  rewrite <-(list_fmap_id h) at 2. apply list_fmap_ext. intros _ [k v] _. done.
Qed.

(** Completing a request stores what [judge] replays, or leaves the database alone. *)
Lemma complete_stores {OL : OrmLaws} id r resp w :
  clean w → t_idempotency (durable w) !! id = Some r → id_enabled (cfg_idempotency config) = true →
  slen (rs_content resp) ≤ Z.max (id_max_response_bytes (cfg_idempotency config)) 1 →
  let w1 := (complete config (Some id) resp w).2 in
  durable w1 = durable w ∨
  ∃ r', t_idempotency (durable w1) !! id = Some r' ∧ idem_slot r' = idem_slot r ∧
    ∀ now, live_at now r → judge config now (i_request_hash r) r' =
      Some (Ok (mkHttpResponse (rs_status resp) (dict_update [] (rs_headers resp)) (rs_content resp))).
Proof.
  intros Hc Hi He Hm. destruct (complete config (Some id) resp w) as [rr w1] eqn:Hcm. cbn [snd].
  unfold complete in Hcm. rewrite He in Hcm. cbn [negb] in Hcm.
  unfold catch_all, try_except, bind at 1 in Hcm. destruct (query_spec w) as (Hv & Hd & Hq).
  destruct (query w) as [rq wq]. simpl in Hv, Hd, Hq.
  pose proof (λ w, proj2 (proj2 (rollback_spec w))) as Hrb.
  destruct Hq as [->| ->].
  2: { left. pose proof (Hrb wq) as Hr. rewrite Hcm, Hd in Hr. done. }
  rewrite Hc, Hi in Hcm. unfold _serialize_response in Hcm. rewrite Z.gtb_ltb in Hcm.
  assert (_ <? _ = false) as Hsize by (apply Z.ltb_ge; exact Hm). rewrite Hsize in Hcm.
  unfold bind at 1, of_res in Hcm.
  match type of Hcm with context [assign ?g] => pose proof (assign_commit_spec g wq) as Ha;
    destruct ((assign g ;;! commit)%fcam wq) as [[[]|e] w2] end.
  - destruct Ha as (_ & Hd2 & _). right. injection Hcm as _ <-. rewrite Hd2, Hv, Hc. simpl.
    rewrite lookup_alter_eq, Hi. simpl. eexists. split; [done|]. split; [done|].
    intros now Hl. unfold judge, live_at in *. simpl.
    assert (match i_expires_at r with Some e => utc_us e <? now | None => false end = false) as ->.
    { destruct (i_expires_at r); [apply Z.ltb_ge; lia|done]. }
    rewrite String.eqb_refl. simpl. destruct (String.eqb_spec (json_dumps (response_json resp)) "") as [Hn|_];
      [by apply dumps_nonempty in Hn|]. simpl. by rewrite stored_response.
  - left. pose proof (Hrb w2) as Hr. rewrite Hcm in Hr. destruct Ha as [Ha _]. rewrite Ha, Hd in Hr. done.
Qed.
End Stored.
End IdempotencyFacts.

Module IdempotencyTheorems.
Import IdempotencyFacts.
Section IdempotencyTheorems.
Context {E : Env} {OL : OrmLaws} `{!Codecs} (config : AppConfig).

(** What there is to know of a stored record at the time of a request. *)
Definition expired (now : Z) (r : IdempotencyRecord) : Prop := ∃ e, i_expires_at r = Some e ∧ utc_us e < now.
(** Begun longer ago than a twelfth of the time to live, which is taken to be at least 30
    seconds and at most 120, and not completed. *)
Definition abandoned (now : Z) (r : IdempotencyRecord) : Prop :=
  i_status r = "in_progress" ∧
  Z.min (Z.max (id_ttl_seconds (cfg_idempotency config) / 12) 30) 120 * 1000000 < now - utc_us (i_created_at r).
Definition answered (r : IdempotencyRecord) (status : Z) (body : string) : Prop :=
  i_status r = "completed" ∧ i_response_status_code r = Some status ∧ i_response_body r = Some body ∧ body ≠ "".

Lemma deserialize_raises status body e : _deserialize_response status body = Raise e →
  e = EFcam (mkFcamError 503 "DB_UNAVAILABLE" "Invalid idempotency record" None).
Proof. unfold _deserialize_response. repeat case_match; congruence. Qed.

Lemma judge_spec now hash r :
  match judge config now hash r with
  | None => expired now r ∨ i_request_hash r = hash ∧ abandoned now r
  | Some v =>
      ¬ expired now r ∧
      match v with
      | Ok resp => i_request_hash r = hash ∧
          ∃ status body, answered r status body ∧ _deserialize_response status body = Ok resp
      | Raise e =>
          i_request_hash r ≠ hash ∧
            e = EFcam (mkFcamError 409 "IDEMPOTENCY_KEY_CONFLICT" "Idempotency key conflict" None) ∨
          i_request_hash r = hash ∧ (¬ ∃ status body, answered r status body) ∧ ¬ abandoned now r ∧
            e = EFcam (mkFcamError 409 "IDEMPOTENCY_IN_PROGRESS" "Idempotent request in progress" (Some 1)) ∨
          i_request_hash r = hash ∧ (∃ status body, answered r status body ∧ _deserialize_response status body = Raise e) ∧
            e = EFcam (mkFcamError 503 "DB_UNAVAILABLE" "Invalid idempotency record" None)
      end
  end.
Proof.
  assert (match i_expires_at r with Some e => utc_us e <? now | None => false end = true ↔ expired now r) as He.
  { unfold expired. destruct (i_expires_at r) as [e|]; [rewrite Z.ltb_lt|]; naive_solver. }
  assert ((String.eqb (i_status r) "in_progress" && (stale_after config <? now - utc_us (i_created_at r))) = true ↔
          abandoned now r) as Ha.
  { unfold abandoned. by rewrite andb_true_iff, String.eqb_eq, Z.ltb_lt. }
  unfold judge. destruct (match i_expires_at r with Some e => _ | None => _ end); [left; by apply He|].
  assert (¬ expired now r) as Hlive by (intros ?%He; done). clear He.
  destruct (String.eqb_spec (i_request_hash r) hash) as [Hh|Hh]; simpl; [|by split; [|left]].
  assert ((∃ status body, answered r status body) ∨
    match (if String.eqb (i_status r) "in_progress" && (stale_after config <? now - utc_us (i_created_at r)) then None
           else Some (@Raise HttpResponse (EFcam (mkFcamError 409 "IDEMPOTENCY_IN_PROGRESS" "Idempotent request in progress" (Some 1))))) with
    | None => expired now r ∨ i_request_hash r = hash ∧ abandoned now r
    | Some _ => ¬ abandoned now r
    end) as Hrest.
  { right. destruct (_ && _); [right; split; [done|by apply Ha]|]. by intros ?%Ha. }
  unfold answered in *.
  destruct (i_response_status_code r) as [status|], (i_response_body r) as [body|];
    [destruct (String.eqb_spec (i_status r) "completed"), (String.eqb_spec body ""); cbn [andb negb]|..];
    try (destruct Hrest as [(? & ? & ? & ? & ? & ?)|Hrest]; [congruence|];
         destruct (_ && _); [done|]; split; [done|]; right; left; split_and!; [done| |done..];
         intros (? & ? & ? & ? & ? & ?); congruence).
  assert (i_status r = "completed" ∧ Some status = Some status ∧ Some body = Some body ∧ body ≠ "") as Hd by done.
  destruct (_deserialize_response status body) as [resp|x] eqn:Hds; (split; [done|]).
  - split; [done|]. by exists status, body.
  - right. right. split_and!; [done|by exists status, body|by eapply deserialize_raises].
Qed.

(** C6. What becomes of an idempotent request is decided by the record the database holds for
    the client's key, if there is one.  The request is started only if there is none, or
    the one there is has expired, or belongs to the same request (same content) and has
    been abandoned; then its record is the only one of the key.  A response is replayed
    only from a record that has not expired, for the same content, completed with a
    response, and it is the stored one.  Otherwise the record has not expired and it is
    for other content (409, conflict), or for the same content and neither answered nor
    abandoned (409, in progress), or its response cannot be read (503); or there was
    trouble with the database.  The recursion ends at the second level. *)
Theorem idempotency_decision d cid key hash w :
  ready cid w →
  let now := (h_now (w_host w)).1 in
  let stored r := ∃ i, t_idempotency (durable w) !! i = Some r ∧ idem_slot r = (cid, key) in
  match begin (S (S d)) config cid key hash w with
  | (Ok (Fresh id), w') =>
      (∀ r, stored r → expired now r ∨ i_request_hash r = hash ∧ abandoned now r) ∧
      started cid key hash id (durable w')
  | (Ok (Replay resp), _) =>
      ∃ r status body, stored r ∧ ¬ expired now r ∧ i_request_hash r = hash ∧ answered r status body ∧
        _deserialize_response status body = Ok resp
  | (Ok Unused, _) => False
  | (Raise e, _) =>
      trouble e ∨
      ∃ r, stored r ∧ ¬ expired now r ∧
        (i_request_hash r ≠ hash ∧
           e = EFcam (mkFcamError 409 "IDEMPOTENCY_KEY_CONFLICT" "Idempotency key conflict" None) ∨
         i_request_hash r = hash ∧ (¬ ∃ status body, answered r status body) ∧ ¬ abandoned now r ∧
           e = EFcam (mkFcamError 409 "IDEMPOTENCY_IN_PROGRESS" "Idempotent request in progress" (Some 1)) ∨
         i_request_hash r = hash ∧ (∃ status body, answered r status body ∧ _deserialize_response status body = Raise e) ∧
           e = EFcam (mkFcamError 503 "DB_UNAVAILABLE" "Invalid idempotency record" None))
  end.
Proof.
  intros Hw now stored. pose proof (begin_decides config cid key hash d w Hw) as Hb. cbv zeta in Hb. fold now in Hb.
  destruct (begin _ config cid key hash w) as [[[id|resp|]|e] w'].
  - destruct Hb as [Hb Hs]. split; [|done]. intros r Hr. pose proof (judge_spec now hash r) as Hj. by rewrite (Hb r Hr) in Hj.
  - destruct Hb as (r & Hr & Hj). pose proof (judge_spec now hash r) as Hs. rewrite Hj in Hs.
    destruct Hs as (? & ? & status & body & ? & ?). by exists r, status, body.
  - done.
  - destruct Hb as [?|(r & Hr & Hj)]; [by left|right]. pose proof (judge_spec now hash r) as Hs. rewrite Hj in Hs.
    by exists r.
Qed.

(** C11. A completed request is replayed: once the response has been stored, every
    later request of the client with the key and the same content, until the
    record expires, is answered with the status, headers and body of the stored
    response (or fails with database trouble), and never runs again. *)
Theorem completed_is_replayed {CL : CodecLaws} d id r cid key resp w w2 :
  clean w → t_idempotency (durable w) !! id = Some r → idem_slot r = (cid, key) →
  id_enabled (cfg_idempotency config) = true →
  slen (rs_content resp) ≤ Z.max (id_max_response_bytes (cfg_idempotency config)) 1 →
  let w1 := (complete config (Some id) resp w).2 in
  durable w1 ≠ durable w → ready cid w2 → durable w2 = durable w1 → live_at (h_now (w_host w2)).1 r →
  match begin (S (S d)) config cid key (i_request_hash r) w2 with
  | (Ok (Replay x), _) =>
      x = mkHttpResponse (rs_status resp) (dict_update [] (rs_headers resp)) (rs_content resp)
  | (Ok _, _) => False
  | (Raise e, _) => trouble e
  end.
Proof.
  intros Hc Hi Hs He Hm w1 Hne Hw2 Hd2 Hl.
  destruct (complete_stores config id r resp w Hc Hi He Hm) as [H1|(r' & Hr' & Hs' & Hj)]; [done|].
  fold w1 in Hr'. rewrite <-Hd2 in Hr'. specialize (Hj _ Hl).
  pose proof (begin_decides config cid key (i_request_hash r) d w2 Hw2) as Hb. cbv zeta in Hb.
  assert (∀ x, (∃ i, t_idempotency (durable w2) !! i = Some x ∧ idem_slot x = (cid, key)) → x = r') as Hu.
  { intros x (i & Hx & Hsx). destruct Hw2 as (_ & [[_ _ _ Hu] _] & _).
    assert (i = id) as -> by (apply (Hu i id x r'); congruence). congruence. }
  destruct (begin _ config cid key (i_request_hash r) w2) as [[[id'|x|]|e] w3].
  - destruct Hb as [Hb _]. rewrite Hb in Hj; [done|]. exists id. split; [done|congruence].
  - destruct Hb as (x' & Hx'%Hu & Hjx). congruence.
  - done.
  - destruct Hb as [Hb|(x' & Hx'%Hu & Hjx)]; [done|congruence].
Qed.
End IdempotencyTheorems.

(** * Concrete inputs *)

Import Simulation.

#[local] Instance sim_codecs : Codecs := {|
  json_dumps := sim_json_dumps; canonical_dumps := sim_json_dumps; sha256_hex s := s;
  b64encode s := s; b64decode := Some
|}.
#[local] Instance sim_codec_laws : CodecLaws.
Proof. split; [intros j _; apply sim_loads_dumps|done|done]. Qed.

Definition sim_record (created : Z) : IdempotencyRecord :=
  mkIdempotencyRecord 4 5 "k-1" "hash" "in_progress" None None (Aware created) (Some (Aware (T0 + day))).
Definition idem_tables (r : IdempotencyRecord) : Tables :=
  set_t_idempotency {[4 := r]} (sim_tables [] [sim_client 5 None 0]).
Lemma idem_tables_sound r : i_id r = 4 → constraintsb (idem_tables r) = true → sound (idem_tables r).
Proof.
  intros Hr Hc. split; [by apply constraintsb_spec|]. simpl.
  intros i r' [<- <-]%lookup_singleton_Some. done.
Qed.

(** An abandoned request is taken over, one that is still running is not. *)
Lemma idempotency_decision_witness :
  let run created := begin 2 default_AppConfig 5 "k-1" "hash" (sim_world (idem_tables (sim_record created)) [] []) in
  (run (T0 - hour)).1 = Ok (Fresh 6) ∧ started 5 "k-1" "hash" 6 (durable (run (T0 - hour)).2) ∧
  ¬ ∃ id, (run T0).1 = Ok (Fresh id).
Proof.
  intros run.
  assert (∀ c, ready 5 (sim_world (idem_tables (sim_record c)) [] [])) as Hw.
  { intros c. split_and!; [reflexivity| |by eexists]. apply idem_tables_sound; reflexivity. }
  pose proof (idempotency_decision default_AppConfig 0 5 "k-1" "hash" _ (Hw (T0 - hour))) as H1.
  pose proof (idempotency_decision default_AppConfig 0 5 "k-1" "hash" _ (Hw T0)) as H2.
  assert ((run (T0 - hour)).1 = Ok (Fresh 6)) as Hr by (vm_compute; reflexivity).
  split; [exact Hr|]. cbv zeta in H1, H2. fold (run (T0 - hour)) in H1. fold (run T0) in H2. split.
  - destruct (run (T0 - hour)) as [r w']. simpl in Hr. rewrite Hr in H1. exact (proj2 H1).
  - intros [id Hid]. destruct (run T0) as [r w']. simpl in Hid. rewrite Hid in H2.
    destruct H2 as [H2 _]. specialize (H2 (sim_record T0)).
    destruct H2 as [(e & He & Hlt)|(_ & _ & Hlt)]; [exists 4; split; reflexivity| |].
    + injection He as <-. vm_compute in Hlt. discriminate Hlt.
    + vm_compute in Hlt. discriminate Hlt.
Defined.

Definition sim_answer : HttpResponse := mkHttpResponse 200 [("content-type", "text/plain")] "done".
Lemma completed_is_replayed_witness :
  let w := sim_world (idem_tables (sim_record T0)) [] [] in
  let w1 := (complete default_AppConfig (Some 4) sim_answer w).2 in
  match begin 2 default_AppConfig 5 "k-1" "hash" (sim_world (durable w1) [] []) with
  | (Ok (Replay x), _) => x = sim_answer
  | (Ok _, _) => False
  | (Raise e, _) => trouble e
  end.
Proof.
  intros w w1.
  apply (completed_is_replayed default_AppConfig 0 4 (sim_record T0) 5 "k-1" sim_answer w
           (sim_world (durable w1) [] [])); try reflexivity.
  - vm_compute. discriminate.
  - intros Heq. apply (f_equal (λ t, i_status <$> t_idempotency t !! 4)) in Heq. vm_compute in Heq. discriminate Heq.
  - split_and!; [reflexivity| |by eexists]. change (sound (durable w1)).
    assert (durable w1 = idem_tables (default (sim_record T0) (t_idempotency (durable w1) !! 4))) as ->
      by (vm_compute; reflexivity).
    apply idem_tables_sound; vm_compute; reflexivity.
  - vm_compute. discriminate.
Defined.
End IdempotencyTheorems.
