(* ===== verification/ResourceBinding.v ===== *)
(** [app/core/resource_binding.py]: which upstream key a client's resource (a crawl
    job, a batch, ...) was created with, so that later requests about it use the
    same key. *)

From S2P Require Import Prelude Effects PyText PyTime Models Env.
Open Scope Z_scope.

Module ResourceBinding.
Section ResourceBinding.
Context {E : Env}.

Definition _as_utc (dt : option DateTime) : option Z := utc_us <$> dt.

(** The lookup of both functions: client, type and id as they are stored. *)
Definition find_binding (client_id : Z) (resource_type rid : string) (t : Tables)
  : option UpstreamResourceBinding :=
  List.find (λ b, (b_client_id b =? client_id) &&
                  String.eqb (b_resource_type b) (slice_to 32 resource_type) &&
                  String.eqb (b_resource_id b) (slice_to 128 rid))
    (by_id (t_bindings t)).

Definition new_binding (id client_id api_key_id : Z) (resource_type rid : string) (now : Z)
    (expires_at : option Z) : UpstreamResourceBinding :=
  mkUpstreamResourceBinding id client_id api_key_id (slice_to 32 resource_type) (slice_to 128 rid)
    (Aware now) (Aware <$> expires_at).

(** [new_expires_at is not None and (existing is None or existing < new)]. *)
Definition extends (existing new : option Z) : bool :=
  match new with
  | None => false
  | Some n => match existing with None => true | Some e => e <? n end
  end.

Definition bind_resource (client_id api_key_id : Z) (resource_type resource_id : string)
    (ttl_seconds : option Z) : Prog unit :=
  let rid := strip resource_id in
  if String.eqb rid "" then ret tt
  else
    let! now := now_utc in
    let expires_at := match ttl_seconds with
                      | Some ttl => if ttl =? 0 then None else Some (now + ttl * second)
                      | None => None
                      end in
    let! id := gets (λ w, db_next_id (w_db w)) in
    let! inserted := try_except
      (assign (λ t, set_t_bindings
         (<[id := new_binding id client_id api_key_id resource_type rid now expires_at]> (t_bindings t)) t) ;;!
       commit ;;! ret true)
      (λ e, match e with
            | EIntegrity => Some (ret false)
            | _ => Some (rollback ;;! ret true)
            end) in
    if inserted : bool then ret tt
    else
      rollback ;;!
      let! t := query in
      match find_binding client_id resource_type rid t with
      | None => ret tt
      | Some existing =>
          if negb (b_api_key_id existing =? api_key_id) then ret tt
          else if extends (_as_utc (b_expires_at existing)) expires_at then
            assign (λ t, set_t_bindings (alter (set_b_expires_at (Aware <$> expires_at))
              (b_id existing) (t_bindings t)) t) ;;!
            catch_all commit (λ _, rollback)
          else ret tt
      end.

Definition lookup_bound_key_id (client_id : Z) (resource_type resource_id : string) : Prog (option Z) :=
  let rid := strip resource_id in
  if String.eqb rid "" then ret None
  else
    let! t := catch_all (let! t := query in ret (Some t)) (λ _, ret None) in
    match t with
    | None => ret None
    | Some t =>
        match find_binding client_id resource_type rid t with
        | None => ret None
        | Some record =>
            match _as_utc (b_expires_at record) with
            | Some expires_at =>
                let! now := now_utc in
                if expires_at <? now then
                  catch_all
                    (assign (λ t, set_t_bindings (delete (b_id record) (t_bindings t)) t) ;;! commit)
                    (λ _, rollback) ;;!
                  ret None
                else ret (Some (b_api_key_id record))
            | None => ret (Some (b_api_key_id record))
            end
        end
    end.
End ResourceBinding.
End ResourceBinding.
