(* ===== verification/ResourceBindingProps.v ===== *)
(** What resource bindings guarantee: no binding is ever redirected to another key,
    and a stored binding is found until it expires. *)

From S2P Require Import Prelude Effects PyText PyTime Models Env Transactions ResourceBinding Sim.
Import ResourceBinding.
Open Scope Z_scope.

Module BindingFacts.
Definition slot_of (cid : Z) (rt rid : string) : Z * string * string :=
  (cid, slice_to 32 rt, slice_to 128 (strip rid)).

Lemma binding_match cid rt rid b :
  (b_client_id b =? cid) && String.eqb (b_resource_type b) (slice_to 32 rt) &&
    String.eqb (b_resource_id b) (slice_to 128 (strip rid)) = true ↔ bind_slot b = slot_of cid rt rid.
Proof. rewrite !andb_true_iff, Z.eqb_eq, !String.eqb_eq. unfold bind_slot, slot_of.
  split; [intros [[-> ->] ->]|intros [= -> -> ->]]; done. Qed.

Section Bind.
Context {E : Env} {OL : OrmLaws}.

(** Every binding of [t] is in [t'], for the same resource and key. *)
Definition kept (t t' : Tables) : Prop :=
  ∀ i b, t_bindings t !! i = Some b →
    ∃ b', t_bindings t' !! i = Some b' ∧ bind_slot b' = bind_slot b ∧ b_api_key_id b' = b_api_key_id b.
Lemma kept_refl t : kept t t.
Proof. intros i b Hb. eauto. Qed.
Lemma kept_eq t t' : t = t' → kept t t'.
Proof. intros ->. apply kept_refl. Qed.

Lemma commit_caught_durable w :
  durable (catch_all commit (λ _, rollback) w).2 = durable w ∨
  durable (catch_all commit (λ _, rollback) w).2 = view w.
Proof.
  unfold catch_all, try_except. destruct (commit_spec w) as [_ Hc].
  destruct (commit w) as [[[]|e] w1]; simpl in Hc; [by right; destruct Hc|].
  left. destruct (rollback_spec w1) as (_ & _ & ->). apply Hc.
Qed.

Definition expiry (now : Z) (ttl : option Z) : option Z :=
  match ttl with Some ttl => if ttl =? 0 then None else Some (now + ttl * second) | None => None end.
(** The effect of binding: nothing, the new binding, or a later expiry of a binding
    to the same key. *)
Definition bound (cid key : Z) (rt rid : string) (ttl : option Z) (now : Z) (t t' : Tables) : Prop :=
  t' = t ∨
  (∃ id, t_bindings t !! id = None ∧ constraints_hold t' ∧
     t' = set_t_bindings (<[id := new_binding id cid key rt (strip rid) now (expiry now ttl)]> (t_bindings t)) t) ∨
  (∃ i e, find_binding cid rt (strip rid) t ≠ None ∧ t' = set_t_bindings (alter (set_b_expires_at e) i (t_bindings t)) t).

Lemma bind_resource_spec cid key rt rid ttl w : clean w →
  bound cid key rt rid ttl (h_now (w_host w)).1 (durable w) (durable (bind_resource cid key rt rid ttl w).2).
Proof.
  intros Hc. unfold bind_resource. destruct (String.eqb (strip rid) ""); [by left|].
  destruct (on_host_db h_now w) as (w1 & Hn & Hv1 & Hd1 & Hdb1). rewrite (bind_run _ _ _ _ _ Hn).
  set (now := (h_now (w_host w)).1). unfold bind at 1, gets. fold (expiry now ttl).
  set (id := db_next_id (w_db w1)).
  assert (t_bindings (durable w) !! id = None) as Hid.
  { rewrite <-Hc, <-Hv1. apply next_id_fresh. }
  match goal with |- context [assign ?g] => set (f := g); pose proof (assign_commit_spec f w1) as Ha end.
  unfold bind at 1, try_except. rewrite <-bind_assoc. unfold bind at 1. rewrite Hv1, Hd1 in Ha. unfold clean in Hc. rewrite Hc in Ha.
  destruct ((assign f ;;! commit)%fcam w1) as [[[]|e] w2].
  - destruct Ha as (_ & Ha & Hk). right. left. exists id. simpl. rewrite Ha. done.
  - destruct Ha as [Ha He]. destruct He as [[-> _]| ->]; simpl.
    2: { left. destruct (rollback_spec w2) as (_ & _ & Hr). etrans; [exact Hr|done]. }
    destruct (rollback_spec w2) as (_ & Hrv & Hrd). rewrite Ha in Hrv, Hrd.
    rewrite (bind_run _ _ w2 tt (rollback w2).2) by done.
    unfold bind at 1. destruct (query_spec (rollback w2).2) as (Hqv & Hqd & Hq).
    rewrite Hrv in Hqv, Hq. rewrite Hrd in Hqd.
    destruct (query (rollback w2).2) as [rq w3]. cbn [fst snd] in Hqv, Hqd, Hq.
    destruct Hq as [->| ->]; [|by left].
    destruct (find_binding cid rt (strip rid) (durable w)) as [b|] eqn:Hfb; [|by left].
    case_if; [by left|]. case_if; [|by left].
    match goal with |- context [assign ?g] => set (g' := g); pose proof (assign_spec g' w3) as (H1 & H2 & H3) end.
    rewrite (bind_run _ _ w3 tt (assign g' w3).2) by done.
    destruct (commit_caught_durable (assign g' w3).2) as [->| ->]; [left; congruence|].
    right. right. rewrite H2, Hqv. eexists _, _. split; [|reflexivity]. congruence.
Qed.
End Bind.
End BindingFacts.

Module BindingTheorems.
Import BindingFacts.
Section BindingTheorems.
Context {E : Env} {OL : OrmLaws}.

(** A resource stays with the key it was created with: whatever is bound later, by
    whichever client and key, every binding in the database remains, for the same
    client, resource and key. *)
Theorem bindings_are_never_redirected cid key rt rid ttl w :
  clean w → kept (durable w) (durable (bind_resource cid key rt rid ttl w).2).
Proof.
  intros Hc. destruct (bind_resource_spec cid key rt rid ttl w Hc) as [->|[(id & Hn & _ & ->)|(i & e & _ & ->)]].
  - apply kept_refl.
  - intros i b Hb. exists b. simpl. rewrite lookup_insert_ne by congruence. done.
  - intros j b Hb. simpl. destruct (decide (i = j)) as [->|].
    + rewrite lookup_alter_eq, Hb. simpl. eauto.
    + rewrite lookup_alter_ne by done. eauto.
Qed.

(** A stored binding is found: after a resource has been bound, later lookups by the
    client for the resource name the key it was bound with, until the binding
    expires. *)
Theorem bound_resource_is_found cid key rt rid ttl w w2 :
  clean w → strip rid ≠ "" → find_binding cid rt (strip rid) (durable w) = None →
  let w1 := (bind_resource cid key rt rid ttl w).2 in
  durable w1 ≠ durable w → clean w2 → durable w2 = durable w1 → (db_query (w_db w2)).1 = true →
  match expiry (h_now (w_host w)).1 ttl with
  | Some e => (h_now (w_host (query w2).2)).1 ≤ e
  | None => True
  end →
  (lookup_bound_key_id cid rt rid w2).1 = Ok (Some key).
Proof.
  intros Hc Hrid Hfree w1 Hne Hc2 Hd2 Hq Hexp.
  destruct (bind_resource_spec cid key rt rid ttl w Hc) as [H1|[(id & Hn & Hk & H1)|(i & e & H1 & _)]].
  - done.
  - fold w1 in H1, Hk. rewrite <-Hd2 in H1, Hk. unfold lookup_bound_key_id.
    destruct (String.eqb_spec (strip rid) "") as [|_]; [done|].
    set (b := new_binding id cid key rt (strip rid) _ _) in H1.
    assert (find_binding cid rt (strip rid) (view w2) = Some b) as Hf.
    { rewrite Hc2. apply (find_by_unique _ _ _ (binding_match cid rt rid) _ id); [apply Hk| |done].
      rewrite H1. apply lookup_insert_eq. }
    rewrite (bind_run _ _ w2 (Some (view w2)) (query w2).2).
    2: { unfold catch_all, try_except, query, bind, step, gets. pose proof (view_query (w_db w2)) as Hv.
         destruct (db_query (w_db w2)) as [ok s]. simpl in *. subst ok. unfold view. simpl. by rewrite Hv. }
    rewrite Hf. unfold b. simpl. destruct (expiry (h_now (w_host w)).1 ttl) as [e|]; simpl; [|done].
    destruct (on_host_db h_now (query w2).2) as (w3 & Hn3 & _). unfold now_utc. rewrite (bind_run _ _ _ _ _ Hn3).
    assert (e <? (h_now (w_host (query w2).2)).1 = false) as -> by (apply Z.ltb_ge; lia). done.
  - by rewrite Hfree in H1.
Qed.
End BindingTheorems.

(** * Concrete inputs *)

Import Simulation.

Definition bind_world : World :=
  sim_world (sim_tables [sim_key 2 "firecrawl" None] [sim_client 5 None 0]) [] [].
Definition after_bind : World := sim_world (durable (bind_resource 5 2 "crawl" " job-1 " (Some 60) bind_world).2) [] [].

Lemma bound_resource_is_found_witness :
  (lookup_bound_key_id 5 "crawl" "job-1 " after_bind).1 = Ok (Some 2).
Proof.
  apply (bound_resource_is_found 5 2 "crawl" "job-1 " (Some 60) bind_world after_bind); try reflexivity.
  - vm_compute. discriminate.
  - intros Heq. apply (f_equal (λ t, b_api_key_id <$> t_bindings t !! 6)) in Heq. vm_compute in Heq. discriminate Heq.
  - vm_compute. discriminate.
Defined.
Lemma bindings_are_never_redirected_witness :
  ∃ b, t_bindings (durable (bind_resource 5 9 "crawl" "job-1" None after_bind).2) !! 6 = Some b ∧ b_api_key_id b = 2.
Proof.
  destruct (bindings_are_never_redirected 5 9 "crawl" "job-1" None after_bind eq_refl 6
    (new_binding 6 5 2 "crawl" "job-1" T0 (Some (T0 + 60 * second)))) as (b & Hb & _ & Hk).
  - vm_compute. reflexivity.
  - exists b. split; [exact Hb|exact Hk].
Defined.
End BindingTheorems.
