(* ===== verification/Deps.v ===== *)
(** [app/api/deps.py] and the time-zone helpers of [app/core/time.py]: who may
    call, and what a client is allowed to do at once, per minute and per day. *)

From S2P Require Import Prelude Effects PyText PyTime Json Models Config Env Security KeyPool.
Open Scope Z_scope.

(** [zoneinfo]: the offset from UTC of a zone at an instant, in microseconds;
    [None] for a name without a zone (it raises). *)
Class ZoneInfo := { zone_offset : string → Z → option Z }.

(** The parts of a FastAPI request the dependencies read. *)
Record Request := mkRequest {
  req_method : string;
  req_path : string;
  req_query : string;
  req_headers : dict;               (* lower-case names *)
  req_client_host : option string;
  req_id : string                   (* request.state.request_id *)
}.
Definition req_header (name : string) (r : Request) : option string := dict_get name (req_headers r).

Module Deps.

Definition _bearer_token (authorization : option string) : option string :=
  match authorization with
  | None => None
  | Some a =>
      if String.eqb a "" then None
      else match split_once " "%char a with
           | (_, None) => None
           | (scheme, Some rest) =>
               if negb (String.eqb (lower scheme) "bearer") then None
               else let token := strip rest in if String.eqb token "" then None else Some token
           end
  end.

(** The caller's address as the allow list sees it. *)
Definition admin_host (config : AppConfig) (request : Request) : string :=
  let client_host := default "" (req_client_host request) in
  if sv_trust_proxy_headers (cfg_server config) then
    let xff := strip (nth 0 (split_char ","%char (default "" (req_header "x-forwarded-for" request))) "") in
    if String.eqb xff "" then client_host else xff
  else client_host.

Definition require_admin (config : AppConfig) (secrets : Secrets) (request : Request) : Res unit :=
  let admin_token := default "" (sec_admin_token secrets) in
  if String.eqb admin_token "" then
    Raise (EFcam (mkFcamError 503 "NOT_READY" "Admin token not configured" None))
  else
    let allowlist := as_ip_allowlist (se_admin (cfg_security config)) in
    if negb (match allowlist with [] => true | _ => false end) &&
       negb (str_in (admin_host config request) allowlist)
    then Raise (EFcam (mkFcamError 403 "ADMIN_FORBIDDEN" "Admin access denied from this address" None))
    else match _bearer_token (req_header "authorization" request) with
         | Some token =>
             match constant_time_equals token admin_token with
             | Ok true => Ok tt
             | Ok false => Raise (EFcam (mkFcamError 401 "ADMIN_UNAUTHORIZED" "Missing or invalid admin token" None))
             | Raise e => Raise e
             end
         | None => Raise (EFcam (mkFcamError 401 "ADMIN_UNAUTHORIZED" "Missing or invalid admin token" None))
         end.

Section Deps.
Context {E : Env} `{!Digests, !ZoneInfo}.

Definition find_client (token_hash : string) (t : Tables) : option Client :=
  List.find (λ c, String.eqb (c_token_hash c) token_hash) (by_id (t_clients t)).

(** The authenticated client's id. *)
Definition require_client (secrets : Secrets) (request : Request) : Prog Z :=
  let master_key := default "" (sec_master_key secrets) in
  if String.eqb master_key "" then raise_fcam 503 "NOT_READY" "Master key not configured" None
  else match _bearer_token (req_header "authorization" request) with
       | None => raise_fcam 401 "CLIENT_UNAUTHORIZED" "Missing or invalid client token" None
       | Some token =>
           let token_hash := hmac_sha256_hex (derive_master_key_bytes master_key) token in
           let! t := catch_all query (λ _, raise (EFcam KeyPool.db_unavailable)) in
           match find_client token_hash t with
           | None => raise_fcam 401 "CLIENT_UNAUTHORIZED" "Missing or invalid client token" None
           | Some client =>
               if negb (c_is_active client) then raise_fcam 403 "CLIENT_DISABLED" "Client disabled" None
               else ret (c_id client)
           end
       end.

(** Wall-clock time in a zone, in microseconds. *)
Definition local_now (tz_name : string) : Prog Z :=
  let! now := now_utc in
  if String.eqb (upper tz_name) "UTC" then ret now
  else match zone_offset tz_name now with
       | Some off => ret (now + off)
       | None => raise (EOther "ZoneInfoNotFoundError")
       end.
Definition today_in_timezone (tz_name : string) : Prog Z :=
  let! now := local_now tz_name in ret (now / day).
Definition seconds_until_next_midnight (tz_name : string) : Prog Z :=
  let! now := local_now tz_name in
  let next_midnight := (now / day + 1) * day in
  ret (Z.max (int_seconds (next_midnight - now)) 0).

Definition release_client (l : Lease) : Prog unit :=
  modify (λ w, set_w_client_conc (cl_release l (w_client_conc w)) w).

(** The daily quota of the client, in its [try]. *)
Definition quota_check (config : AppConfig) (client_id : Z) (lease : Lease) : Prog unit :=
  if negb (qu_enable_quota_check (cfg_quota config)) then ret tt
  else
    let! client := get_client client_id in
    match c_daily_quota client with
    | None => ret tt
    | Some quota =>
        try_except
          (let! today := today_in_timezone (qu_timezone (cfg_quota config)) in
           let dirty := negb (bool_decide (c_quota_reset_at client = Some today)) in
           (if dirty then assign_client client_id (λ c, set_c_quota_reset_at (Some today) (set_c_daily_usage 0 c))
            else ret tt) ;;!
           let! client := get_client client_id in
           if quota <=? c_daily_usage client then
             let! retry := seconds_until_next_midnight (qu_timezone (cfg_quota config)) in
             (if dirty then catch_all commit (λ _, rollback) else ret tt) ;;!
             release_client lease ;;!
             raise_fcam 429 "CLIENT_QUOTA_EXCEEDED" "Client quota exceeded" (Some retry)
           else if dirty then commit else ret tt)
          (λ e, match e with
                | EFcam _ => None
                | _ => Some (release_client lease ;;! raise (EFcam KeyPool.db_unavailable))
                end)
    end.

(** [enforce_client_governance] around a handler: the generator up to its [yield],
    the handler, and the [finally]. *)
Definition with_governance {A} (config : AppConfig) (client_id : Z) (handler : Prog A) : Prog A :=
  let! client := get_client client_id in
  let! t := moment in
  let! r := step (λ w, let '(r, c) := cl_try_acquire (str_int (c_id client)) (c_max_concurrent client) t
                                        (w_client_conc w) in (r, set_w_client_conc c w)) in
  let! lease := of_res r in
  match lease with
  | None => raise_fcam 429 "CLIENT_CONCURRENCY_LIMITED" "Client concurrency limited" None
  | Some lease =>
      let! t := moment in
      let! r := step (λ w, let '(r, l) := rl_allow (str_int (c_id client)) (c_rate_limit_per_min client) t
                                            (w_client_limiter w) in (r, set_w_client_limiter l w)) in
      let! ' (allowed, retry_after) := of_res r in
      if negb allowed then
        release_client lease ;;!
        raise_fcam 429 "CLIENT_RATE_LIMITED" "Client rate limited" (Some retry_after)
      else
        quota_check config client_id lease ;;!
        finally handler (release_client lease)
  end.
End Deps.
End Deps.
