(* ===== verification/DepsProps.v ===== *)
(** What the admission of clients guarantees: who is let in, that the concurrency
    slot of a request is given back on every path (and the one on which it is not),
    and that the daily quota is enforced. *)

From S2P Require Import Prelude Effects PyText PyTime Json Models Config Env Transactions Security KeyPool.
From S2P Require Import Deps Sim.
Import Deps.
Open Scope Z_scope.

Module DepsFacts.
Section DepsFacts.
Context {E : Env} `{!ZoneInfo}.
Notation slots := w_client_conc.

Lemma moment_ok w : ∃ t w', moment w = (Ok t, w') ∧ slots w' = slots w ∧ w_client_limiter w' = w_client_limiter w ∧
  w_db w' = w_db w.
Proof.
  unfold moment, bind, monotonic, now_utc, on_host, step. destruct (h_mono (w_host w)) as [m h1]. simpl.
  destruct (h_now h1) as [t h2]. simpl. eauto 6.
Qed.
(** Reading the local time changes the host only, and fails only for want of the zone. *)
Lemma local_now_spec tz w :
  slots (local_now tz w).2 = slots w ∧ w_db (local_now tz w).2 = w_db w ∧
  ∀ e, (local_now tz w).1 = Raise e → e = EOther "ZoneInfoNotFoundError".
Proof.
  unfold local_now, now_utc, on_host, bind, step. destruct (h_now (w_host w)) as [t h]. simpl.
  repeat case_match; simpl; (split_and!; [done|done|]); intros e He; naive_solver.
Qed.
Lemma today_spec tz w :
  slots (today_in_timezone tz w).2 = slots w ∧ w_db (today_in_timezone tz w).2 = w_db w ∧
  ∀ e, (today_in_timezone tz w).1 = Raise e → e = EOther "ZoneInfoNotFoundError".
Proof.
  unfold today_in_timezone, bind. pose proof (local_now_spec tz w) as Hl.
  destruct (local_now tz w) as [[n|e] w1]; simpl in *; (split_and!; [apply Hl|apply Hl|]); [done|apply Hl].
Qed.
(** The time to wait is less than a day. *)
Lemma midnight_spec tz w :
  slots (seconds_until_next_midnight tz w).2 = slots w ∧ w_db (seconds_until_next_midnight tz w).2 = w_db w ∧
  match (seconds_until_next_midnight tz w).1 with
  | Ok n => 0 ≤ n ≤ 86400
  | Raise e => e = EOther "ZoneInfoNotFoundError"
  end.
Proof.
  unfold seconds_until_next_midnight, bind. pose proof (local_now_spec tz w) as Hl.
  destruct (local_now tz w) as [[n|e] w1]; simpl in *; [|naive_solver].
  split_and!; [naive_solver|naive_solver|lia|].
  assert (0 ≤ (n / day + 1) * day - n ≤ day) as Hd.
  { pose proof (Z.div_mod n day ltac:(done)) as H1. pose proof (Z.mod_pos_bound n day ltac:(done)) as H2. lia. }
  apply Z.max_lub; [|lia]. unfold int_seconds.
  transitivity (Z.quot day second); [|done]. apply Z.quot_le_mono; [done|lia].
Qed.
Lemma commit_slots w :
  slots (commit w).2 = slots w ∧ ∀ e, (commit w).1 = Raise e → ∀ f, e ≠ EFcam f.
Proof.
  unfold commit, bind, step. destruct (db_commit (w_db w)) as [[] s]; simpl; split; try done; naive_solver.
Qed.

Lemma get_client_ok cid client w : t_clients (view w) !! cid = Some client → get_client cid w = (Ok client, w).
Proof. intros Hc. unfold get_client, bind, gets. by rewrite Hc. Qed.

(** The usage that counts on the day [today]. *)
Definition usage_on (today : Z) (c : Client) : Z :=
  if decide (c_quota_reset_at c = Some today) then c_daily_usage c else 0.
Definition quota_exceeded (e : FcamError) : Prop :=
  fe_status e = 429 ∧ fe_code e = "CLIENT_QUOTA_EXCEEDED" ∧
  ∃ n, fe_retry_after e = Some n ∧ 0 ≤ n ≤ 86400.

(** The reset of the counter at the start of a day. *)
Lemma reset_spec {OL : OrmLaws} cid client today w :
  t_clients (view w) !! cid = Some client →
  let dirty := negb (bool_decide (c_quota_reset_at client = Some today)) in
  let m := if dirty then assign_client cid (λ c, set_c_quota_reset_at (Some today) (set_c_daily_usage 0 c))
           else ret tt in
  ∃ w' client', m w = (Ok tt, w') ∧ slots w' = slots w ∧ t_clients (view w') !! cid = Some client' ∧
    c_quota_reset_at client' = Some today ∧ c_daily_usage client' = usage_on today client.
Proof.
  intros Hc dirty m. subst dirty m. unfold usage_on. case_bool_decide as Hd; simpl.
  - exists w, client. rewrite decide_True by done. done.
  - eexists _, _. split; [reflexivity|]. unfold view. simpl. rewrite view_assign. simpl.
    rewrite lookup_alter_eq. fold (view w). rewrite Hc. simpl. rewrite decide_False by done. done.
Qed.

Lemma quota_check_spec {OL : OrmLaws} config cid client q lease w :
  qu_enable_quota_check (cfg_quota config) = true →
  t_clients (view w) !! cid = Some client → c_daily_quota client = Some q →
  match quota_check config cid lease w with
  | (Ok _, w') => slots w' = slots w ∧
      ∃ today client', (today_in_timezone (qu_timezone (cfg_quota config)) w).1 = Ok today ∧
        t_clients (view w') !! cid = Some client' ∧ c_quota_reset_at client' = Some today ∧
        c_daily_usage client' = usage_on today client ∧ usage_on today client < q
  | (Raise e, w') => slots w' = cl_release lease (slots w) ∧
      (e = EFcam KeyPool.db_unavailable ∨
       ∃ f today, e = EFcam f ∧ quota_exceeded f ∧
         (today_in_timezone (qu_timezone (cfg_quota config)) w).1 = Ok today ∧ q ≤ usage_on today client)
  end.
Proof.
  intros He Hc Hq. unfold quota_check. rewrite He. cbn [negb].
  rewrite (bind_run _ _ _ _ _ (get_client_ok _ _ _ Hc)), Hq. unfold try_except, bind at 1.
  destruct (today_spec (qu_timezone (cfg_quota config)) w) as (Hs1 & Hd1 & He1).
  destruct (today_in_timezone _ w) as [[today|e] w1]; simpl in Hs1, Hd1, He1.
  2: { rewrite (He1 e eq_refl). simpl. rewrite Hs1. auto. }
  assert (view w1 = view w) as Hv1 by (unfold view; by rewrite Hd1). rewrite <-Hv1 in Hc.
  destruct (reset_spec cid client today w1 Hc) as (w2 & client' & Hr & Hs2 & Hc2 & Hday & Hus).
  rewrite (bind_run _ _ _ _ _ Hr). clear Hr.
  rewrite (bind_run _ _ _ _ _ (get_client_ok _ _ _ Hc2)), Hus, <-Hs1, <-Hs2.
  destruct (q <=? usage_on today client) eqn:Hlim; [apply Z.leb_le in Hlim|apply Z.leb_gt in Hlim].
  - unfold bind at 1. destruct (midnight_spec (qu_timezone (cfg_quota config)) w2) as (Hs3 & _ & Hn).
    destruct (seconds_until_next_midnight _ w2) as [[n|e] w3]; simpl in Hs3, Hn.
    2: { subst e. simpl. rewrite Hs3. auto. }
    unfold bind at 1.
    match goal with |- context [(if ?b then catch_all commit (λ _, rollback) else ret tt) w3] =>
      assert (∃ w4, (if b : bool then catch_all commit (λ _, rollback) else ret tt) w3 = (Ok tt, w4) ∧
                    slots w4 = slots w3) as (w4 & -> & Hs4) end.
    { case_if; [|by eauto]. unfold catch_all, try_except. destruct (commit_slots w3) as [Hcs _].
      destruct (commit w3) as [[[]|e] w4]; simpl in *; [by eauto|]. eexists. split; [reflexivity|]. done. }
    simpl. rewrite Hs4, Hs3. split; [done|]. right. eexists _, today. split; [done|].
    split; [|done]. unfold quota_exceeded. split_and!; [done|done|by eexists].
  - destruct (negb _) eqn:Hdirty.
    2: { split; [done|]. eexists today, client'. rewrite Hus. auto. }
    pose proof (commit_spec w2) as [Hcv _]. destruct (commit_slots w2) as [Hcs Hce].
    destruct (commit w2) as [[[]|e] w3]; simpl in Hcs, Hce, Hcv.
    + split; [done|]. exists today, client'. rewrite Hcv, Hus. auto.
    + assert (∀ f, e ≠ EFcam f) as Hne by (by apply Hce). destruct e; simpl; try (rewrite Hcs; by auto).
      by destruct (Hne e).
Qed.

Lemma quota_check_slots {OL : OrmLaws} config cid client lease w :
  t_clients (view w) !! cid = Some client →
  match quota_check config cid lease w with
  | (Ok _, w') => slots w' = slots w
  | (Raise _, w') => slots w' = cl_release lease (slots w)
  end.
Proof.
  intros Hc. destruct (qu_enable_quota_check (cfg_quota config)) eqn:He.
  2: { unfold quota_check. by rewrite He. }
  destruct (c_daily_quota client) as [q|] eqn:Hq.
  - pose proof (quota_check_spec config cid client q lease w He Hc Hq) as Hs.
    destruct (quota_check config cid lease w) as [[]]; naive_solver.
  - unfold quota_check. rewrite He. cbn [negb]. by rewrite (bind_run _ _ _ _ _ (get_client_ok _ _ _ Hc)), Hq.
Qed.
Lemma quota_then_handler {OL : OrmLaws} {CL : ConcurrencyLaws} {A} config cid client lease (handler : Prog A) w k t :
  t_clients (view w) !! cid = Some client → runs (same slots) handler →
  cl_current k t (slots ((quota_check config cid lease ;;! finally handler (release_client lease))%fcam w).2) =
  cl_current k t (cl_release lease (slots w)).
Proof.
  intros Hc Hh. unfold bind. pose proof (quota_check_slots config cid client lease w Hc) as Hq.
  destruct (quota_check config cid lease w) as [[[]|e] w1]; simpl; [|by rewrite Hq].
  unfold finally, release_client, modify. specialize (Hh w1). unfold same in Hh.
  destruct (handler w1) as [r w2]. simpl in *. by rewrite Hh, Hq.
Qed.
End DepsFacts.
End DepsFacts.

Module DepsTheorems.
Import DepsFacts.
Section DepsTheorems.
Context {E : Env} `{!ZoneInfo}.

(** The slot a client's request occupies is given back on every path: admitted and
    answered, admitted and failed, or turned away for its rate or its quota or
    because of the database, as many slots of every client are in use after the
    request as before, provided the rate limiter itself does not fail. *)
Theorem governance_returns_slot {OL : OrmLaws} {CL : ConcurrencyLaws} {A} config cid client (handler : Prog A) w k t :
  conc_wf (w_client_conc w) → t_clients (view w) !! cid = Some client →
  (∀ key rate t l, ∃ x, (rl_allow key rate t l).1 = Ok x) → runs (same w_client_conc) handler →
  cl_current k t (w_client_conc (with_governance config cid handler w).2) = cl_current k t (w_client_conc w).
Proof.
  intros Hw Hc Hrl Hh. unfold with_governance. rewrite (bind_run _ _ _ _ _ (get_client_ok _ _ _ Hc)).
  destruct (moment_ok w) as (t1 & w1 & Hm & Hs1 & _ & Hd1). rewrite (bind_run _ _ _ _ _ Hm).
  unfold bind at 1, step, of_res. rewrite Hs1.
  destruct (cl_try_acquire (str_int (c_id client)) (c_max_concurrent client) t1 (w_client_conc w))
    as [[[lease|]|e] c1] eqn:Ha; unfold bind at 1; cbn [snd].
  2: by apply (refused_unchanged _ _ _ _ _ _ k t Ha). 
  2: by apply (refused_unchanged _ _ _ _ _ _ k t Ha).
  rewrite <-(release_acquired _ _ _ _ _ _ k t Hw Ha).
  set (w2 := set_w_client_conc c1 w1). change c1 with (w_client_conc w2).
  assert (t_clients (view w2) !! cid = Some client) as Hc2 by (unfold view in *; simpl; by rewrite Hd1).
  clearbody w2. destruct (moment_ok w2) as (t2 & w3 & Hm2 & Hs3 & _ & Hd3). rewrite (bind_run _ _ _ _ _ Hm2).
  rewrite <-Hs3. assert (t_clients (view w3) !! cid = Some client) as Hc3 by (unfold view in *; by rewrite Hd3).
  unfold bind at 1. destruct (Hrl (str_int (c_id client)) (c_rate_limit_per_min client) t2 (w_client_limiter w3))
    as [[allowed retry] Hx].
  destruct (rl_allow _ _ t2 (w_client_limiter w3)) as [r l]. simpl in Hx. subst r. unfold bind at 1.
  destruct allowed; cbn [negb]; [|done].
  exact (quota_then_handler config cid client lease handler (set_w_client_limiter l w3) k t Hc3 Hh).
Qed.

(** When the rate limiter fails (the Redis one raises while Redis is down) the slot
    is not given back: the request ends with the limiter's error and the client
    still holds the slot it took. *)
Theorem limiter_failure_keeps_slot {A} config cid client (handler : Prog A) w t w1 lease c1 e :
  t_clients (view w) !! cid = Some client → moment w = (Ok t, w1) →
  cl_try_acquire (str_int (c_id client)) (c_max_concurrent client) t (w_client_conc w) = (Ok (Some lease), c1) →
  (∀ key rate t l, rl_allow key rate t l = (Raise e, l)) →
  (with_governance config cid handler w).1 = Raise e ∧
  w_client_conc (with_governance config cid handler w).2 = c1.
Proof.
  intros Hc Hm Ha Hrl. unfold with_governance. rewrite (bind_run _ _ _ _ _ (get_client_ok _ _ _ Hc)).
  rewrite (bind_run _ _ _ _ _ Hm). destruct (moment_ok w) as (t' & w1' & Hm' & Hs1 & _ & _).
  rewrite Hm in Hm'. injection Hm' as <- <-.
  unfold bind, step, of_res. rewrite Hs1, Ha.
  destruct (moment_ok (set_w_client_conc c1 w1)) as (t2 & w2 & Hm2 & Hs2 & _ & _). rewrite Hm2, Hrl. done.
Qed.


(** C33. A client is let in only with a token whose keyed hash is stored for it, and
    only while it is active; nothing is written while deciding. *)
Theorem client_admitted `{!Digests} {OL : OrmLaws} secrets request w id w' :
  require_client secrets request w = (Ok id, w') →
  ∃ master token client,
    sec_master_key secrets = Some master ∧ _bearer_token (req_header "authorization" request) = Some token ∧
    (∃ i, t_clients (view w) !! i = Some client) ∧ c_id client = id ∧ c_is_active client = true ∧
    c_token_hash client = hmac_sha256_hex (derive_master_key_bytes master) token ∧
    view w' = view w ∧ durable w' = durable w.
Proof.
  unfold require_client. destruct (sec_master_key secrets) as [master|]; simpl; [|done].
  case_if; [done|]. destruct (_bearer_token _) as [token|]; [|done].
  intros (t & w1 & Hq & Hf)%bind_ok. destruct (query_spec w) as (Hv & Hd & Hr).
  unfold catch_all, try_except in Hq. destruct (query w) as [r w2]. simpl in *.
  destruct Hr as [->| ->]; [|done]. injection Hq as <- <-.
  destruct (find_client _ (view w)) as [client|] eqn:Hfc; [|done].
  destruct (c_is_active client) eqn:Hact; [|done]. injection Hf as <- <-.
  unfold find_client in Hfc. apply find_some in Hfc as [Hin Heq%String.eqb_eq].
  apply list_elem_of_In, elem_of_by_id in Hin. eexists _, _, _. split_and!; try done.
Qed.

(** What [require_admin] asks for before it looks at the token: a configured
    token, and an address on the allow list if there is one. *)
Definition admin_reachable (config : AppConfig) (secrets : Secrets) (request : Request) (admin : string) : Prop :=
  sec_admin_token secrets = Some admin ∧ admin ≠ "" ∧
  (as_ip_allowlist (se_admin (cfg_security config)) = [] ∨
   In (admin_host config request) (as_ip_allowlist (se_admin (cfg_security config)))).

(** Its answer once the request is that far. *)
Definition compared (token : option string) (admin : string) : Res unit :=
  match token with
  | Some t =>
      if is_ascii t && is_ascii admin then
        if String.eqb t admin then Ok tt
        else Raise (EFcam (mkFcamError 401 "ADMIN_UNAUTHORIZED" "Missing or invalid admin token" None))
      else Raise ETypeError
  | None => Raise (EFcam (mkFcamError 401 "ADMIN_UNAUTHORIZED" "Missing or invalid admin token" None))
  end.
Definition refused_early (r : Res unit) : Prop :=
  ∃ f, r = Raise (EFcam f) ∧ In (fe_status f, fe_code f) [(503, "NOT_READY"); (403, "ADMIN_FORBIDDEN")].

Lemma require_admin_cases config secrets request :
  (∃ admin, admin_reachable config secrets request admin ∧
     require_admin config secrets request = compared (_bearer_token (req_header "authorization" request)) admin) ∨
  ((∀ admin, ¬ admin_reachable config secrets request admin) ∧
   refused_early (require_admin config secrets request)).
Proof.
  unfold require_admin, constant_time_equals, refused_early.
  destruct (sec_admin_token secrets) as [a|] eqn:Hs; simpl.
  2: { right. split; [intros x (Hx & _); congruence|]. eexists. split; [done|]. by left. }
  destruct (String.eqb_spec a "") as [->|Hne].
  { right. split; [intros x (Hx & Hn & _); congruence|]. eexists. split; [done|]. by left. }
  destruct (negb _ && _) eqn:Hl; [right|left].
  - split; [|eexists; split; [done|]; by right; left].
    intros x (_ & _ & Hin). apply andb_true_iff in Hl as [H1%negb_true_iff H2%negb_true_iff].
    destruct Hin as [Hin|Hin]; [by rewrite Hin in H1|].
    unfold str_in in H2. apply not_true_iff_false in H2. apply H2, existsb_exists.
    eexists. split; [exact Hin|apply String.eqb_refl].
  - exists a. split.
    + split_and!; [done..|]. apply andb_false_iff in Hl as [Hl%negb_false_iff|Hl%negb_false_iff].
      * left. by destruct (as_ip_allowlist _).
      * right. unfold str_in in Hl. apply existsb_exists in Hl as (x & Hx & ->%String.eqb_eq). done.
    + unfold compared. destruct (_bearer_token _) as [t|]; [|done].
      destruct (is_ascii t && is_ascii a); [|done]. by destruct (String.eqb t a).
Qed.

(** C34. The administration is open exactly to requests that carry the configured token,
    if that is ASCII text, as a bearer token and come from an address on the
    allow list, if there is one; without a configured token nobody is let in.
    A bearer token that is not ASCII text is not refused as a wrong one would be:
    comparing it raises TypeError (and so does every comparison when the configured
    token is not ASCII); every other request is refused with an error of the
    gateway's own. *)
Theorem admin_admitted_exactly config secrets request :
  let token := _bearer_token (req_header "authorization" request) in
  (require_admin config secrets request = Ok tt ↔
     ∃ admin, admin_reachable config secrets request admin ∧ token = Some admin ∧ is_ascii admin = true) ∧
  (require_admin config secrets request = Raise ETypeError ↔
     ∃ admin t, admin_reachable config secrets request admin ∧ token = Some t ∧
       (is_ascii t = false ∨ is_ascii admin = false)) ∧
  (require_admin config secrets request ≠ Ok tt → require_admin config secrets request ≠ Raise ETypeError →
   ∃ f, require_admin config secrets request = Raise (EFcam f) ∧
     In (fe_status f, fe_code f)
       [(503, "NOT_READY"); (403, "ADMIN_FORBIDDEN"); (401, "ADMIN_UNAUTHORIZED")]).
Proof.
  intros token.
  assert (∀ a b, admin_reachable config secrets request a → admin_reachable config secrets request b → a = b) as Hu.
  { intros a b (Ha & _) (Hb & _). congruence. }
  destruct (require_admin_cases config secrets request) as [(a & Ha & ->)|(Hn & f & -> & Hf)]; fold token.
  - destruct token as [t|]; unfold compared; [destruct (is_ascii t && is_ascii a) eqn:Has|].
    + apply andb_true_iff in Has as [Ht Has]. destruct (String.eqb_spec t a) as [->|Hta].
      * split_and!; try done; [naive_solver|split; [done|]].
        intros (b & u & Hb & [= <-] & ?). rewrite (Hu b a) in * by done. naive_solver congruence.
      * split_and!; [split; [done|]|split; [done|]|eexists; split; [done|]; simpl; tauto].
        -- intros (b & Hb & [= <-] & _). by rewrite (Hu a t) in Hta.
        -- intros (b & u & Hb & [= <-] & ?). rewrite (Hu b a) in * by done. naive_solver congruence.
    + split_and!; [split; [done|]|split; [intros _|done]|done].
      * intros (b & Hb & [= <-] & He). by rewrite (Hu a t), He in Has.
      * exists a, t. apply andb_false_iff in Has. done.
    + split_and!; [split; [done|]; naive_solver|split; [done|]; naive_solver|].
      eexists; split; [done|]; simpl; tauto.
  - split_and!; [split; [done|]; naive_solver|split; [done|]; naive_solver|].
    intros _ _. exists f. split; [done|]. simpl in *. tauto.
Qed.
End DepsTheorems.

(** * Concrete inputs *)

Import Simulation.

#[local] Instance utc_only : ZoneInfo := {| zone_offset _ _ := None |}.
#[local] Instance toy_digests : Digests := {|
  sha256 s := s; hmac_sha256 k m := if String.eqb m "fcam-token" then "hash-5" else ""; urlsafe_b64decode _ := None
|}.
(** Three of a quota of three used today; a new day for the other client. *)
Definition dep_client (id : Z) (reset : Z) : Client :=
  set_c_quota_reset_at (Some reset) (set_c_daily_usage 3 (sim_client id (Some 3) 0)).
Definition dep_world : World :=
  sim_world (sim_tables [] [dep_client 5 (T0 / day); dep_client 6 (T0 / day - 1)]) [] [].

Lemma governance_returns_slot_witness :
  cl_current "6" (mkMoment 1000 T0)
    (w_client_conc (with_governance default_AppConfig 6 (raise (A := unit) ETypeError) dep_world).2) =
  cl_current "6" (mkMoment 1000 T0) (w_client_conc dep_world).
Proof.
  apply (@governance_returns_slot sim_env utc_only sim_orm_laws sim_conc_laws) with (client := dep_client 6 (T0 / day - 1)).
  - apply sim_world_client_wf.
  - reflexivity.
  - exact sim_allow_total.
  - apply runs_raise. apply same_preorder.
Defined.

Definition broken_env : Env := {|
  env_host := sim_host; env_orm := sim_session; env_conc := @env_conc sim_env;
  env_cool := @env_cool sim_env;
  env_rate := {| Limiter := unit; rl_peek := None; rl_allow _ _ _ l := (Raise (EFcam KeyPool.db_unavailable), l) |}
|}.
Definition broken_world : @World broken_env :=
  @mkWorld broken_env (w_host dep_world) (w_db dep_world) tt (w_key_conc dep_world) tt (w_client_conc dep_world)
    tt ∅ ∅ ∅ ∅ [].
Lemma limiter_failure_keeps_slot_witness :
  let run := @with_governance broken_env utc_only unit default_AppConfig 6 (ret tt) broken_world in
  run.1 = Raise (EFcam KeyPool.db_unavailable) ∧
  @cl_current (@env_conc sim_env) "6" (mkMoment 1000 T0) (@w_client_conc broken_env run.2) = 1.
Proof.
  intros run.
  destruct (@limiter_failure_keeps_slot broken_env utc_only unit default_AppConfig 6 (dep_client 6 (T0 / day - 1))
    (ret tt) broken_world (mkMoment 1000 T0) (@moment broken_env broken_world).2 0%nat
    (cl_try_acquire "6" 10 (mkMoment 1000 T0) (w_client_conc dep_world)).2 (EFcam KeyPool.db_unavailable))
    as [H1 H2]; [reflexivity..|]. split; [exact H1|]. unfold run. rewrite H2. reflexivity.
Defined.


Definition auth_secrets : Secrets := mkSecrets None (Some "master").
Definition auth_request : Request :=
  mkRequest "POST" "/api/scrape" "" [("authorization", "Bearer fcam-token")] None "req-1".
Definition auth_world : World :=
  sim_world (sim_tables [] [sim_client 5 None 0]) [] [].
Lemma client_admitted_witness :
  (require_client auth_secrets auth_request auth_world).1 = Ok 5 ∧
  ∃ token client, _bearer_token (Some "Bearer fcam-token") = Some token ∧ c_is_active client = true ∧
    c_token_hash client = hmac_sha256_hex (derive_master_key_bytes "master") token.
Proof.
  assert ((require_client auth_secrets auth_request auth_world).1 = Ok 5) as Hr by (vm_compute; reflexivity).
  split; [exact Hr|].
  destruct (client_admitted auth_secrets auth_request auth_world 5
    (require_client auth_secrets auth_request auth_world).2 (run_eq _ _ _ Hr))
    as (master & token & client & Hm & Ht & _ & _ & Ha & Hh & _).
  injection Hm as <-. exists token, client. split; [exact Ht|]. split; [exact Ha|exact Hh].
Defined.
End DepsTheorems.
