(* ===== verification/Errors.v ===== *)
(** [app/errors.py]: how an exception becomes a response.  Requests under a proxy
    path get Firecrawl's error shape, others the gateway's own.  A handler also leaves
    the error on [request.state] for the request log. *)

From S2P Require Import Prelude Effects PyText Json Models.
Open Scope Z_scope.

Record JSONResponse := mkJSONResponse {
  jr_status : Z;
  jr_body : Json;
  jr_headers : dict
}.

Definition error_headers (request_id : string) (retry_after : option Z) : dict :=
  match retry_after with
  | Some r => dict_set "Retry-After" (str_int r) [("X-Request-Id", request_id)]
  | None => [("X-Request-Id", request_id)]
  end.

(** [details] is null in the body when there are none. *)
Definition _json_error (request_id : string) (status_code : Z) (code message : string)
    (details : option Json) (retry_after : option Z) : JSONResponse :=
  mkJSONResponse status_code
    (JObj [("request_id", JStr request_id);
           ("error", JObj [("code", JStr code); ("message", JStr message); ("details", default JNull details)])])
    (error_headers request_id retry_after).

Definition build_error_response (request_id : string) (exc : FcamError) : JSONResponse :=
  _json_error request_id (fe_status exc) (fe_code exc) (fe_message exc)
    (fe_details exc) (fe_retry_after exc).

Definition _firecrawl_json_error (request_id : string) (status_code : Z) (code : option string)
    (message : string) (retry_after : option Z) : JSONResponse :=
  mkJSONResponse status_code
    (JObj ([("success", JBool false); ("error", JStr message)] ++
           match code with Some c => if String.eqb c "" then [] else [("code", JStr c)] | None => [] end))
    (error_headers request_id retry_after).

Definition is_proxy_path (path : string) : bool :=
  startswith "/api/" path || startswith "/v1/" path || startswith "/v2/" path || startswith "/exa/" path.

Definition build_proxy_error_response (request_id : string) (exc : FcamError) : JSONResponse :=
  _firecrawl_json_error request_id (fe_status exc) (Some (fe_code exc)) (fe_message exc) (fe_retry_after exc).

(** What a handler leaves on [request.state]. *)
Record ErrorState := mkErrorState { es_code : string; es_details : Json }.
Definition fcam_error_state (exc : FcamError) : ErrorState :=
  mkErrorState (fe_code exc)
    (JObj [("code", JStr (fe_code exc)); ("message", JStr (fe_message exc));
           ("details", default JNull (fe_details exc)); ("retry_after", nullable JInt (fe_retry_after exc))]).
Definition error_state (code message : string) (details : list (string * Json)) : ErrorState :=
  mkErrorState code (JObj [("code", JStr code); ("message", JStr message); ("details", JObj details)]).

(** The four handlers [register_exception_handlers] installs; [errors] is
    [RequestValidationError.errors()], a list of dictionaries. *)
Inductive Failure :=
  | FailFcam (e : FcamError)
  | FailValidation (errors : list (list (string * Json)))
  | FailHttp (status : Z)               (* starlette HTTPException *)
  | FailUnexpected (class : string).    (* any other Exception *)

Definition _handle_fcam_error (path request_id : string) (exc : FcamError) : ErrorState * JSONResponse :=
  (fcam_error_state exc,
   if is_proxy_path path then build_proxy_error_response request_id exc
   else build_error_response request_id exc).
(** [{k: v for k, v in e.items() if k != "input"}] for each error. *)
Definition safe_errors (errors : list (list (string * Json))) : list Json :=
  (λ e, JObj (List.filter (λ kv, negb (String.eqb kv.1 "input")) e)) <$> errors.
Definition _handle_validation_error (path request_id : string) (errors : list (list (string * Json)))
  : ErrorState * JSONResponse :=
  (error_state "VALIDATION_ERROR" "Validation error" [("errors", JList (take 20 (safe_errors errors)))],
   if is_proxy_path path
   then _firecrawl_json_error request_id 400 (Some "VALIDATION_ERROR") "Invalid request parameters" None
   else _json_error request_id 400 "VALIDATION_ERROR" "Validation error"
          (Some (JObj [("errors", JList (safe_errors errors))])) None).
Definition _handle_http_exception (path request_id : string) (status : Z) : ErrorState * JSONResponse :=
  let code := if status =? 404 then "NOT_FOUND" else "INTERNAL_ERROR" in
  let message := if status =? 404 then "Not found" else "HTTP error" in
  (error_state code message [("status_code", JInt status)],
   if is_proxy_path path then _firecrawl_json_error request_id status (Some code) message None
   else _json_error request_id status code message None None).
Definition _handle_unexpected (path request_id class : string) : ErrorState * JSONResponse :=
  (error_state "INTERNAL_ERROR" "Internal error" [("exception_type", JStr class)],
   if is_proxy_path path
   then _firecrawl_json_error request_id 500 (Some "UNKNOWN_ERROR")
          "An unexpected error occurred on the server." None
   else _json_error request_id 500 "INTERNAL_ERROR" "Internal error" None None).

Definition handle (path request_id : string) (f : Failure) : ErrorState * JSONResponse :=
  match f with
  | FailFcam e => _handle_fcam_error path request_id e
  | FailValidation errors => _handle_validation_error path request_id errors
  | FailHttp s => _handle_http_exception path request_id s
  | FailUnexpected class => _handle_unexpected path request_id class
  end.

(** The code an error body carries, whichever shape it has. *)
Definition body_code (j : Json) : option string :=
  match j with
  | JObj o =>
      match obj_get "error" o with
      | Some (JObj e) => match obj_get "code" e with Some (JStr c) => Some c | _ => None end
      | _ => match obj_get "code" o with Some (JStr c) => Some c | _ => None end
      end
  | _ => None
  end.

(** Every failure is reported with the request's id, and a refusal of the gateway
    with its own status, code and waiting time, in the shape its path calls for: no
    handler loses or changes them. *)
Theorem failures_reported path request_id f :
  let r := (handle path request_id f).2 in
  dict_get "X-Request-Id" (jr_headers r) = Some request_id ∧
  (∀ e, f = FailFcam e → fe_code e ≠ "" →
     jr_status r = fe_status e ∧ body_code (jr_body r) = Some (fe_code e) ∧
     dict_get "Retry-After" (jr_headers r) = str_int <$> fe_retry_after e).
Proof.
  intros r. subst r. split.
  - destruct f as [e|errors|s|class]; simpl;
      unfold build_proxy_error_response, build_error_response; case_if; try done; simpl; unfold error_headers;
      destruct (fe_retry_after e); done.
  - intros e -> He. apply String.eqb_neq in He. simpl. case_if; simpl.
    + rewrite He. unfold error_headers. by destruct (fe_retry_after e).
    + unfold error_headers. by destruct (fe_retry_after e).
Qed.
