(* ===== verification/Middleware.v ===== *)
(** [app/middleware.py]: the checks every request passes before it reaches an
    endpoint, the translation of refusals into responses and the request id.  The
    request log and the classes around an application are in [RequestLog.v]. *)

From S2P Require Import Prelude Effects PyText Json Models Config Env Deps Errors.
Open Scope Z_scope.

Module Middleware.

Definition request_id_char (c : Ascii.ascii) : bool :=
  is_alnum c || Ascii.eqb c "_"%char || Ascii.eqb c "-"%char.
Definition _is_valid_request_id (value : string) : bool :=
  (8 <=? slen value) && (slen value <=? 64) && string_forallb request_id_char value.

(** [incoming if valid else uuid4().hex]; [fresh] is the new identifier. *)
Definition choose_request_id (incoming : option string) (fresh : string) : string :=
  match incoming with
  | Some v => if negb (String.eqb v "") && _is_valid_request_id v then v else fresh
  | None => fresh
  end.

(** The prefix of the proxied paths. *)
Definition api_prefix (path : string) : option string :=
  if startswith "/api/" path then Some "/api/"
  else if startswith "/v1/" path then Some "/v1/"
  else if startswith "/v2/" path then Some "/v2/"
  else None.
Definition after_prefix (prefix path : string) : string := slice_from (String.length prefix) path.

Definition _infer_api_endpoint (path : string) : option string :=
  match (match api_prefix path with
         | Some p => Some p
         | None => if startswith "/exa/" path then Some "/exa/" else None
         end) with
  | None => None
  | Some prefix =>
      let suffix := strip_char "/"%char (after_prefix prefix path) in
      if String.eqb suffix "" then Some "unknown"
      else
        let '(first, rest) := split_once "/"%char suffix in
        if String.eqb prefix "/exa/" then
          Some (if String.eqb first "" then "unknown" else "exa_" +:+ slice_to 32 first)
        else if String.eqb first "crawl" then
          Some (match rest with Some _ => "crawl_status" | None => "crawl" end)
        else Some (if String.eqb first "" then "unknown" else slice_to 32 first)
  end.

Record Limits := mkLimits {
  l_max_body_bytes : Z;
  l_allowed_api_paths : list string;
  l_allowed_exa_paths : list string;
  l_stream_body_limit : bool
}.
Definition init_limits (max_body : Z) (api exa : list string) (stream : bool) : Limits :=
  mkLimits max_body (map (strip_char "/"%char) api) (map (strip_char "/"%char) exa) stream.

Definition too_large (max_b : Z) : FcamError :=
  mkFcamErrorWith 413 "REQUEST_TOO_LARGE" "Request body too large" None
    (Some (JObj [("max_body_bytes", JInt max_b)])).
Definition path_not_allowed : FcamError := mkFcamError 404 "PATH_NOT_ALLOWED" "Path not allowed" None.

(** [async for chunk in request.stream()], stopping at the first byte too many. *)
Fixpoint read_chunks (max_b total : Z) (acc : string) (chunks : list string) : Res string :=
  match chunks with
  | [] => Ok acc
  | chunk :: chunks' =>
      if String.eqb chunk "" then read_chunks max_b total acc chunks'
      else
        let total := total + slen chunk in
        if total >? max_b then Raise (EFcam (too_large max_b))
        else read_chunks max_b total (acc +:+ chunk) chunks'
  end.
Definition _read_body_limited (l : Limits) (chunks : list string) : Res string :=
  if negb (l_stream_body_limit l) then
    let body := foldl (λ a c, a +:+ c) "" chunks in
    if slen body >? l_max_body_bytes l then Raise (EFcam (too_large (l_max_body_bytes l))) else Ok body
  else read_chunks (l_max_body_bytes l) 0 "" chunks.

Definition first_segment (prefix path : string) : string := (split_once "/"%char (after_prefix prefix path)).1.

(** [RequestLimitsMiddleware.dispatch]: the body the rest of the application sees,
    or the refusal.  [chunks] is what the client sends. *)
Definition request_limits (l : Limits) (request : Request) (chunks : list string) : Res string :=
  let path := req_path request in
  let prefix := api_prefix path in
  if match prefix with
     | Some p => negb (str_in (first_segment p path) (l_allowed_api_paths l))
     | None => false
     end then Raise (EFcam path_not_allowed)
  else if startswith "/exa/" path && negb (match l_allowed_exa_paths l with [] => true | _ => false end)
          && negb (str_in (first_segment "/exa/" path) (l_allowed_exa_paths l))
  then Raise (EFcam path_not_allowed)
  else
    let is_proxy := match prefix with Some _ => true | None => startswith "/exa/" path end in
    if str_in (req_method request) ["GET"; "HEAD"] then Ok (foldl (λ a c, a +:+ c) "" chunks)
    else
      let declared : Res unit :=
        match req_header "content-length" request with
        | None => Ok tt
        | Some v =>
            if String.eqb v "" then Ok tt
            else match parse_int v with
                 | None => Raise (EFcam (mkFcamError 400 "VALIDATION_ERROR" "Invalid Content-Length" None))
                 | Some length => if length >? l_max_body_bytes l then Raise (EFcam (too_large (l_max_body_bytes l))) else Ok tt
                 end
        end in
      match declared with
      | Raise e => Raise e
      | Ok _ =>
          match _read_body_limited l chunks with
          | Raise e => Raise e
          | Ok body =>
              if String.eqb body "" then Ok body
              else if is_proxy &&
                      negb (contains "application/json" (default "" (req_header "content-type" request)))
              then Raise (EFcam (mkFcamError 415 "UNSUPPORTED_MEDIA_TYPE"
                                   "Only application/json is supported" None))
              else Ok body
          end
      end.

(** [FcamErrorMiddleware.dispatch] around the rest of the application: a refusal
    becomes a response, any other exception passes. *)
Definition fcam_errors {W} (request : Request) (next : M W JSONResponse) : M W JSONResponse :=
  try_except next (λ e,
    match e with
    | EFcam f => Some (ret (if is_proxy_path (req_path request)
                            then build_proxy_error_response (req_id request) f
                            else build_error_response (req_id request) f))
    | _ => None
    end).
End Middleware.

Import Middleware.

Lemma read_chunks_spec max_b chunks : ∀ total acc body,
  slen acc ≤ total → read_chunks max_b total acc chunks = Ok body →
  body = foldl (λ a c, a +:+ c) acc chunks ∧ (slen body ≤ Z.max max_b (slen acc)).
Proof.
  induction chunks as [|c chunks IH]; intros total acc body Ht H; simpl in H.
  { injection H as <-. split; [done|lia]. }
  simpl. case_match eqn:Hc.
  - bool_prop. subst c. destruct (IH _ _ _ Ht H) as [-> Hb]. split; [|done].
    by rewrite string_app_nil_r.
  - rewrite Z.gtb_ltb in H. case_match eqn:Hm; [done|]. bool_prop.
    destruct (IH (total + slen c) (acc +:+ c) body) as [-> Hb]; [rewrite slen_app; lia|done|].
    split; [done|]. rewrite slen_app in Hb. lia.
Qed.

(** C32. What gets past the limits is within them: a request that is not refused has,
    if it is for a proxied API, an allowed first path segment (below /exa/ if the
    allow list for that prefix is not empty), its body is the whole of what the
    client sent, and unless it is a GET or HEAD that body is not longer than the
    limit, whether or not the client declared its length, and is declared as
    JSON if it is not empty and the request is for a proxied API. *)
Theorem request_limits_enforced l request chunks body :
  let path := req_path request in
  0 ≤ l_max_body_bytes l →
  request_limits l request chunks = Ok body →
  (∀ p, api_prefix path = Some p → In (first_segment p path) (l_allowed_api_paths l)) ∧
  (startswith "/exa/" path = true → l_allowed_exa_paths l ≠ [] →
     In (first_segment "/exa/" path) (l_allowed_exa_paths l)) ∧
  body = foldl (λ a c, a +:+ c) "" chunks ∧
  (str_in (req_method request) ["GET"; "HEAD"] = false →
     slen body ≤ l_max_body_bytes l ∧
     (api_prefix path ≠ None ∨ startswith "/exa/" path = true → body ≠ "" →
      contains "application/json" (default "" (req_header "content-type" request)) = true)).
Proof.
  intros path Hmax H. unfold request_limits in H. fold path in H.
  case_match eqn:Hp; [done|]. split.
  { intros p Hpre. rewrite Hpre in Hp. bool_prop. by apply list_elem_of_In, str_in_true. }
  case_match eqn:Hx; [done|]. split.
  { intros He Hne. rewrite He in Hx. destruct (l_allowed_exa_paths l) eqn:Hl; [done|].
    rewrite <-Hl in *. simpl in Hx. by apply list_elem_of_In, str_in_true, negb_false_iff. }
  case_match eqn:Hm; [simplify_eq; done|].
  case_match; [|done]. case_match eqn:Hr; [|done].
  assert (a0 = body) as -> by (repeat case_match; simplify_eq; done).
  assert (body = foldl (λ a c, a +:+ c) "" chunks ∧ slen body ≤ l_max_body_bytes l) as [-> Hb].
  { clear H. unfold _read_body_limited in Hr. case_match eqn:Hs.
    - rewrite Z.gtb_ltb in Hr. case_match; simplify_eq. bool_prop. done.
    - destruct (read_chunks_spec _ _ 0 "" body ltac:(done) Hr) as [-> Hb]. split; [done|].
      simpl in Hb. unfold slen at 2 in Hb. simpl in Hb. lia. }
  split; [done|]. intros _. split; [done|]. intros Hproxy Hne. set (b := foldl _ _ _) in *.
  apply String.eqb_neq in Hne. rewrite Hne in H. case_match eqn:Hj; [done|].
  destruct (api_prefix path); [simpl in Hj; by apply negb_false_iff|].
  destruct Hproxy as [|Hproxy]; [done|]. rewrite Hproxy in Hj. simpl in Hj. by apply negb_false_iff.
Qed.

Lemma request_limits_enforced_witness :
  let l := init_limits 10 ["scrape"; "/crawl/"] ["search"] true in
  let r path := mkRequest "POST" path "" [("content-type", "application/json")] None "req-1" in
  slen "{}  " ≤ 10 ∧ In "search" ["search"] ∧ In "crawl" ["scrape"; "crawl"].
Proof.
  pose (l := init_limits 10 ["scrape"; "/crawl/"] ["search"] true).
  pose (r path := mkRequest "POST" path "" [("content-type", "application/json")] None "req-1").
  split_and!.
  - apply (request_limits_enforced l (r "/v1/crawl") ["{}"; ""; "  "] "{}  "); [done|vm_compute; reflexivity..].
  - apply (request_limits_enforced l (r "/exa/search/x") ["{}"; ""; "  "] "{}  ");
      [done|vm_compute; reflexivity|vm_compute; reflexivity|done].
  - apply (request_limits_enforced l (r "/v1/crawl/7") ["{}"; ""; "  "] "{}  ") with (p := "/v1/");
      [done|vm_compute; reflexivity|vm_compute; reflexivity].
Defined.
