(* ===== verification/JsonText.v ===== *)
(** What [json.dumps(x, ensure_ascii=False)] writes, and how [bytes.decode] reads text
    that is not valid UTF-8. *)

From S2P Require Import Prelude PyText Json.

(** [float.__repr__], which depends on the platform's floating-point numbers. *)
Class FloatText := { float_repr : Q → string }.

(** A character code below 0x20 as [\u00XX]. *)
Definition hex_digit (n : N) : Ascii.ascii := Ascii.ascii_of_N (if N.ltb n 10 then 48 + n else 87 + n).
Definition unicode_escape (n : N) : string :=
  "\u00" +:+ String (hex_digit (N.div n 16)) (String (hex_digit (N.modulo n 16)) "").
Definition escape_char (c : Ascii.ascii) : string :=
  let n := code c in
  if N.eqb n 34 then "\" +:+ String c ""
  else if N.eqb n 92 then "\\"
  else if N.eqb n 10 then "\n"
  else if N.eqb n 13 then "\r"
  else if N.eqb n 9 then "\t"
  else if N.eqb n 12 then "\f"
  else if N.eqb n 8 then "\b"
  else if N.ltb n 32 then unicode_escape n
  else String c "".
Fixpoint escape (s : string) : string :=
  match s with EmptyString => EmptyString | String c s' => escape_char c +:+ escape s' end.
Definition quote_mark : string := String (Ascii.ascii_of_N 34) "".
Definition json_quote (s : string) : string := quote_mark +:+ escape s +:+ quote_mark.

Fixpoint dumps `{!FloatText} (j : Json) : string :=
  match j with
  | JNull => "null"
  | JBool b => if b then "true" else "false"
  | JInt n => str_int n
  | JFloat q => float_repr q
  | JStr s => json_quote s
  | JList l => "[" +:+ join ", " (map dumps l) +:+ "]"
  | JObj o => "{" +:+ join ", " (map (λ '(k, v), json_quote k +:+ ": " +:+ dumps v) o) +:+ "}"
  end.

(** The ranges of the bytes that must follow a first byte of UTF-8; [None] for a byte
    that cannot come first. *)
Definition utf8_tail (c : Ascii.ascii) : option (list (N * N)) :=
  let any := (128, 191)%N in
  if between 0 127 c then Some []
  else if between 194 223 c then Some [any]
  else if between 224 224 c then Some [(160, 191)%N; any]
  else if between 237 237 c then Some [(128, 159)%N; any]
  else if between 225 239 c then Some [any; any]
  else if between 240 240 c then Some [(144, 191)%N; any; any]
  else if between 241 243 c then Some [any; any; any]
  else if between 244 244 c then Some [(128, 143)%N; any; any]
  else None.
(** U+FFFD. *)
Definition replacement : string :=
  String (Ascii.ascii_of_N 239) (String (Ascii.ascii_of_N 191) (String (Ascii.ascii_of_N 189) "")).

(** [body.decode("utf-8", errors="replace")], as UTF-8 again: [seen] are the bytes of a
    sequence begun, [need] what it still needs. *)
Fixpoint decode_from (seen : string) (need : list (N * N)) (s : string) : string :=
  match s with
  | EmptyString => if String.eqb seen "" then "" else replacement
  | String c s' =>
      let start := match utf8_tail c with
                   | Some [] => String c (decode_from "" [] s')
                   | Some need => decode_from (String c "") need s'
                   | None => replacement +:+ decode_from "" [] s'
                   end in
      match need with
      | [] => start
      | (lo, hi) :: need' =>
          if between lo hi c then
            match need' with
            | [] => seen +:+ String c (decode_from "" [] s')
            | _ => decode_from (seen +:+ String c "") need' s'
            end
          else replacement +:+ start
      end
  end.
Definition decode_replace (body : string) : string := decode_from "" [] body.

Example dumps_1 `{!FloatText} :
  dumps (JObj [("a", JList [JInt 1; JNull; JBool true]); ("b", JStr "x\y"); ("c", JObj [])])
  = "{" +:+ json_quote "a" +:+ ": [1, null, true], " +:+ json_quote "b" +:+ ": " +:+ json_quote "x\y" +:+ ", "
    +:+ json_quote "c" +:+ ": {}}".
Proof. vm_compute. reflexivity. Qed.
Example decode_1 :
  decode_replace (String "a" (String (Ascii.ascii_of_N 228) (String (Ascii.ascii_of_N 184) (String "b" ""))))
  = "a" +:+ replacement +:+ "b".
Proof. vm_compute. reflexivity. Qed.
