(* ===== verification/Redact.v ===== *)
(** [app/core/redact.py]: taking credentials out of what is logged.  The two regular
    expressions are patterns of the fragment of Python's [re] they use (character
    classes, greedy repetition of a class, word boundaries), matched by backtracking as
    [re] does. *)

From S2P Require Import Prelude PyText Json.

(** [\w] beyond the ASCII range, where Unicode decides. *)
Class UnicodeTables := { wide_word : Ascii.ascii → bool }.

(** * Regular expressions *)

Section Regex.
Context `{!UnicodeTables}.

Definition is_word (c : Ascii.ascii) : bool :=
  is_alnum c || Ascii.eqb c "_" || (N.leb 128 (code c) && wide_word c).

Inductive ReItem :=
  | One (p : Ascii.ascii → bool)                  (* one character of a class *)
  | Many (least : nat) (p : Ascii.ascii → bool)   (* p{least,}, greedy *)
  | WordEdge.                                     (* \b *)
Notation Pattern := (list ReItem).

Definition word_at (c : option Ascii.ascii) : bool := match c with Some c => is_word c | None => false end.
Definition head (s : string) : option Ascii.ascii := match s with String c _ => Some c | EmptyString => None end.
Definition edge (prev : option Ascii.ascii) (s : string) : bool := xorb (word_at prev) (word_at (head s)).

(** As many characters of the class as there are, then the rest of the pattern [k];
    if that fails, one fewer, but never fewer than [least]. *)
Fixpoint greedy (p : Ascii.ascii → bool) (k : option Ascii.ascii → string → option nat) (least : nat)
    (prev : option Ascii.ascii) (s : string) : option nat :=
  let stop := match least with O => k prev s | S _ => None end in
  match s with
  | String c s' =>
      if p c then match greedy p k (pred least) (Some c) s' with Some n => Some (S n) | None => stop end
      else stop
  | EmptyString => stop
  end.

(** The length of the match at the start of [s]; [prev] is the character before. *)
Fixpoint match_here (pat : Pattern) (prev : option Ascii.ascii) (s : string) : option nat :=
  match pat with
  | [] => Some O
  | One p :: pat =>
      match s with
      | String c s' => if p c then S <$> match_here pat (Some c) s' else None
      | EmptyString => None
      end
  | Many least p :: pat => greedy p (match_here pat) least prev s
  | WordEdge :: pat => if edge prev s then match_here pat prev s else None
  end.

(** [pattern.search(s)] finds something. *)
Fixpoint search (pat : Pattern) (prev : option Ascii.ascii) (s : string) : bool :=
  (if match_here pat prev s then true else false) ||
  match s with String c s' => search pat (Some c) s' | EmptyString => false end.

(** [pattern.sub(repl, s)] for a pattern without empty matches: [skip] characters of
    the last match are still to be passed over. *)
Fixpoint sub (pat : Pattern) (repl : string) (skip : nat) (prev : option Ascii.ascii) (s : string) : string :=
  match s with
  | EmptyString => EmptyString
  | String c s' =>
      match skip with
      | S skip => sub pat repl skip (Some c) s'
      | O => match match_here pat prev s with
             | Some (S n) => repl +:+ sub pat repl n (Some c) s'
             | _ => String c (sub pat repl O (Some c) s')
             end
      end
  end.

(** * The patterns *)

Definition ignore_case (c d : Ascii.ascii) : bool := Ascii.eqb (lower_char c) (lower_char d).
Definition is_any (chars : string) (c : Ascii.ascii) : bool := string_existsb (Ascii.eqb c) chars.
(** [[a-z0-9._\-~+/]], whatever the case. *)
Definition token_char (c : Ascii.ascii) : bool := is_alnum c || is_any "._-~+/" c.

Definition _BEARER_RE : Pattern :=
  [WordEdge; One (ignore_case "b"); One (ignore_case "e"); One (ignore_case "a"); One (ignore_case "r");
   One (ignore_case "e"); One (ignore_case "r"); Many 1 is_space; Many 1 token_char; Many 0 (Ascii.eqb "=");
   WordEdge].
Definition _FIRECRAWL_KEY_RE : Pattern :=
  [WordEdge; One (Ascii.eqb "f"); One (Ascii.eqb "c"); One (Ascii.eqb "-"); Many 8 is_alnum; WordEdge].

Definition REDACTED : string := "[REDACTED]".
Definition redact_text (text : string) : string :=
  let redacted := sub _BEARER_RE ("Bearer " +:+ REDACTED) 0 None text in
  sub _FIRECRAWL_KEY_RE ("fc-" +:+ REDACTED) 0 None redacted.

(** [redact_data]; the values are JSON. *)
Fixpoint redact_data (sensitive_keys : list string) (value : Json) : Json :=
  match value with
  | JObj o =>
      JObj (map (λ '(k, v), (k, if str_in (lower k) sensitive_keys then JStr REDACTED
                                else redact_data sensitive_keys v)) o)
  | JList l => JList (map (redact_data sensitive_keys) l)
  | JStr s => JStr (redact_text s)
  | v => v
  end.
End Regex.
Notation Pattern := (list ReItem).

(** ASCII text: nothing beyond is a word character. *)
Definition ascii_tables : UnicodeTables := {| wide_word := λ _, false |}.

Example redact_text_1 :
  @redact_text ascii_tables "GET Authorization: bEArer  abc.d-ef==; fc-0123abcd, fc-short xfc-0123abcd Bearer fc-0123abcd."
  = "GET Authorization: Bearer [REDACTED]==; fc-[REDACTED], fc-short xfc-0123abcd Bearer [REDACTED].".
Proof. vm_compute. reflexivity. Qed.
