(* ===== verification/RedactProps.v ===== *)
(** What redaction leaves: no text that either pattern would still find, and no value
    under a sensitive key.  A match is described by the shape of the text
    ([bearer_shape], [key_shape]), and [sub_clean] shows once for both passes that a
    substitution makes no new matches. *)

From S2P Require Import Prelude PyText Json Redact.

Section Regex.
Context {UT : UnicodeTables}.
Implicit Types s a b m r : string.

Fixpoint last_of (prev : option Ascii.ascii) (a : string) : option Ascii.ascii :=
  match a with EmptyString => prev | String c a' => last_of (Some c) a' end.
Lemma last_of_app a b : ∀ prev, last_of prev (a +:+ b) = last_of (last_of prev a) b.
Proof. induction a as [|c a IH]; intros prev; [done|]. apply IH. Qed.
Lemma last_of_forall p a : ∀ prev, string_forallb p a = true → a ≠ "" →
  ∃ c, last_of prev a = Some c ∧ p c = true.
Proof.
  induction a as [|c a IH]; intros prev Ha Hne; [done|]. simpl in Ha. bool_prop.
  destruct a as [|d a]; [by exists c|]. by apply (IH (Some c)).
Qed.

Lemma string_app_assoc a b c : (a +:+ b) +:+ c = a +:+ b +:+ c.
Proof. induction a as [|x a IH]; [done|]. change (String x ((a +:+ b) +:+ c) = String x (a +:+ b +:+ c)). by rewrite IH. Qed.
Lemma string_forallb_app p a b : string_forallb p (a +:+ b) = string_forallb p a && string_forallb p b.
Proof.
  induction a as [|c a IH]; [done|].
  change (p c && string_forallb p (a +:+ b) = p c && string_forallb p a && string_forallb p b).
  by rewrite IH, andb_assoc.
Qed.

(** ** What a match is *)

Lemma greedy_spec p k least : ∀ s prev,
  is_Some (greedy p k least prev s) ↔
  ∃ a b, s = a +:+ b ∧ (least ≤ String.length a)%nat ∧ string_forallb p a = true ∧ is_Some (k (last_of prev a) b).
Proof.
  intros s. revert least.
  induction s as [|c s IH]; intros least prev; simpl.
  - split.
    + intros H. destruct least; [|by destruct H]. by exists "", "".
    + intros ([|] & b & E & Hl & _ & Hk); [|done]. simpl in *. by destruct least; [destruct b|lia].
  - assert (is_Some (match least with O => k prev (String c s) | S _ => None end) ↔
            least = O ∧ is_Some (k prev (String c s))) as Hstop.
    { destruct least; split; [done|by intros []|by intros []|by intros []]. }
    destruct (p c) eqn:Hc.
    + transitivity (is_Some (greedy p k (pred least) (Some c) s) ∨ (least = O ∧ is_Some (k prev (String c s)))).
      { destruct (greedy p k (pred least) (Some c) s); [split; eauto|]. rewrite Hstop.
        split; [by right|]. intros [[]|]; done. }
      rewrite IH. split.
      * intros [(a & b & -> & Hl & Ha & Hk)|[-> Hk]].
        -- exists (String c a), b. simpl. rewrite Hc. split_and!; [done|lia|done|done].
        -- exists "", (String c s). by split_and!.
      * intros ([|c' a] & b & E & Hl & Ha & Hk); simpl in *.
        -- right. change ("" +:+ b) with b in E. subst b. destruct least; [done|lia].
        -- left. injection E as -> ->. bool_prop. exists a, b. split_and!; [done|lia|done|done].
    + rewrite Hstop. split.
      * intros [-> Hk]. exists "", (String c s). by split_and!.
      * intros ([|c' a] & b & E & Hl & Ha & Hk); simpl in *.
        -- change ("" +:+ b) with b in E. subst b. destruct least; [done|lia].
        -- injection E as -> ->. by rewrite Hc in Ha.
Qed.

Definition matches (pat : Pattern) (prev : option Ascii.ascii) (s : string) : Prop := is_Some (match_here pat prev s).

Lemma matches_one p pat prev s :
  matches (One p :: pat) prev s ↔ ∃ c s', s = String c s' ∧ p c = true ∧ matches pat (Some c) s'.
Proof.
  unfold matches. simpl. destruct s as [|c s]; [split; [by intros []|by intros (? & ? & ? & _)]|].
  destruct (p c) eqn:Hc.
  - rewrite fmap_is_Some. split; [eauto|]. by intros (? & ? & [= <- <-] & _ & ?).
  - split; [by intros []|]. intros (? & ? & [= <- <-] & ? & ?). congruence.
Qed.
Lemma matches_edge pat prev s : matches (WordEdge :: pat) prev s ↔ edge prev s = true ∧ matches pat prev s.
Proof. unfold matches. simpl. destruct (edge prev s); split; [done|by intros []|by intros []|by intros []]. Qed.
Lemma matches_many least p pat prev s :
  matches (Many least p :: pat) prev s ↔
  ∃ a b, s = a +:+ b ∧ (least ≤ String.length a)%nat ∧ string_forallb p a = true ∧ matches pat (last_of prev a) b.
Proof. apply greedy_spec. Qed.
Lemma matches_nil prev s : matches [] prev s ↔ True.
Proof. split; [done|]. by eexists. Qed.

Lemma search_spec pat s : ∀ prev,
  search pat prev s = true ↔ ∃ a b, s = a +:+ b ∧ matches pat (last_of prev a) b.
Proof.
  induction s as [|c s IH]; intros prev; simpl; rewrite orb_true_iff.
  - split.
    + intros [H|]; [|done]. exists "", "". split; [done|]. unfold matches. simpl. by destruct (match_here pat prev "").
    + intros ([|] & b & E & H); [|done]. simpl in *. change ("" +:+ b) with b in E. subst b. left.
      destruct H as [n Hn]. by rewrite Hn.
  - rewrite IH. split.
    + intros [H|(a & b & -> & H)].
      * exists "", (String c s). split; [done|]. unfold matches. simpl.
        by destruct (match_here pat prev (String c s)).
      * by exists (String c a), b.
    + intros ([|d a] & b & E & H); simpl in *.
      * change ("" +:+ b) with b in E. subst b. left. destruct H as [n Hn]. by rewrite Hn.
      * injection E as -> ->. right. eauto.
Qed.

(** Where a pattern ends in a boundary, so does its match. *)
Lemma match_ends pat : ∀ prev s n, match_here (pat ++ [WordEdge]) prev s = Some n →
  ∃ m r, s = m +:+ r ∧ String.length m = n ∧ edge (last_of prev m) r = true.
Proof.
  induction pat as [|[p|least p|] pat IH]; intros prev s n H; simpl in H.
  - destruct (edge prev s) eqn:He; [|done]. injection H as <-. by exists "", s.
  - destruct s as [|c s]; [done|]. destruct (p c); [|done].
    apply fmap_Some in H as (n' & H & ->). destruct (IH _ _ _ H) as (m & r & -> & <- & He).
    by exists (String c m), r.
  - revert least prev n H. induction s as [|c s IHs]; intros least prev n H; simpl in H.
    { destruct least; [|done]. by apply IH. }
    assert (match least with O => match_here (pat ++ [WordEdge]) prev (String c s) | S _ => None end = Some n →
            ∃ m r, String c s = m +:+ r ∧ String.length m = n ∧ edge (last_of prev m) r = true) as Hstop.
    { destruct least; [|done]. apply IH. }
    destruct (p c); [|by apply Hstop].
    destruct (greedy p (match_here (pat ++ [WordEdge])) (Nat.pred least) (Some c) s) as [n'|] eqn:Hg;
      [|by apply Hstop].
    injection H as <-. destruct (IHs _ _ _ Hg) as (m & r & -> & <- & He). by exists (String c m), r.
  - destruct (edge prev s); [|done]. by apply IH.
Qed.

(** ** Substitution makes no new matches *)

Lemma head_append a b : a ≠ "" → head (a +:+ b) = head a.
Proof. by destruct a. Qed.

Section Sub.
Context (pat : Pattern) (repl : string) (first : Ascii.ascii → bool).
(** Matches begin at a word boundary with a character of [first], and so does the
    replacement. *)
Context (Hstart : ∀ prev s n, match_here pat prev s = Some n →
  ∃ c s', s = String c s' ∧ first c = true ∧ word_at prev = false ∧ n ≠ O).
Context (Hfirst : ∀ c, first c = true → is_word c = true).
Context (Hrepl : ∃ c r, repl = String c r ∧ first c = true).

Lemma sub_cases prev s :
  (∃ c s', s = String c s' ∧ match_here pat prev (String c s') = None ∧
     sub pat repl 0 prev (String c s') = String c (sub pat repl 0 (Some c) s')) ∨
  (matches pat prev s ∧ ∃ rest, sub pat repl 0 prev s = repl +:+ rest) ∨
  s = "".
Proof.
  destruct s as [|c s]; [by right; right|]. simpl.
  destruct (match_here pat prev (String c s)) as [n|] eqn:Hm.
  - right. left. split; [by exists n|]. destruct (Hstart _ _ _ Hm) as (? & ? & _ & _ & _ & Hn).
    destruct n as [|n]; [done|]. by eexists.
  - left. exists c, s. split_and!; [done..|]. by rewrite Hm.
Qed.

Lemma head_sub prev s : word_at (head (sub pat repl 0 prev s)) = word_at (head s).
Proof.
  destruct (sub_cases prev s) as [(c & s' & -> & _ & ->)|[[[n Hm] [rest ->]]| ->]]; [done| |done].
  destruct (Hstart _ _ _ Hm) as (c & s' & -> & Hc & _). destruct Hrepl as (d & r & -> & Hd).
  simpl. by rewrite !Hfirst.
Qed.

(** A run in the output is a run of the input, or a replacement begins in it. *)
Lemma sub_run a : ∀ prev s b, sub pat repl 0 prev s = a +:+ b →
  (∃ s', s = a +:+ s' ∧ b = sub pat repl 0 (last_of prev a) s') ∨
  (∃ a1 a2 s1 rest, a = a1 +:+ a2 ∧ a2 ≠ "" ∧ s = a1 +:+ s1 ∧ matches pat (last_of prev a1) s1 ∧
     a2 +:+ b = repl +:+ rest).
Proof.
  induction a as [|c a IH]; intros prev s b E.
  { left. exists s. split; [done|]. by symmetry. }
  destruct (sub_cases prev s) as [(d & s' & -> & _ & E')|[[Hm [rest E']]| ->]]; [rewrite E' in E..|done].
  - injection E as -> E. destruct (IH _ _ _ E) as [(s1 & -> & ->)|(a1 & a2 & s1 & rest & -> & Hne & -> & Hm & Er)].
    + left. by exists s1.
    + right. by exists (String c a1), a2, s1, rest.
  - right. by exists "", (String c a), s, rest.
Qed.

(** No replacement begins where the character does not allow it, or after a word
    character. *)
Fixpoint steady (prev : option Ascii.ascii) (a : string) : bool :=
  match a with
  | EmptyString => true
  | String c a' => (word_at prev || negb (first c)) && steady (Some c) a'
  end.
Lemma steady_app a b : ∀ prev, steady prev (a +:+ b) = steady prev a && steady (last_of prev a) b.
Proof.
  induction a as [|c a IH]; intros prev; [done|].
  change (steady prev (String c a +:+ b)) with ((word_at prev || negb (first c)) && steady (Some c) (a +:+ b)).
  rewrite IH. simpl. by rewrite andb_assoc.
Qed.
Lemma steady_not_first p a : (∀ c, p c = true → first c = false) → ∀ prev, string_forallb p a = true → steady prev a = true.
Proof.
  intros Hp. induction a as [|c a IH]; intros prev Ha; [done|]. simpl in *. bool_prop.
  rewrite (Hp c), orb_true_r by done. by apply IH.
Qed.
Lemma steady_word p a prev : (∀ c, p c = true → is_word c = true) → word_at prev = true →
  string_forallb p a = true → steady prev a = true.
Proof.
  intros Hp. revert prev. induction a as [|c a IH]; intros prev Hw Ha; [done|]. simpl in *. bool_prop.
  rewrite Hw. apply IH; [|done]. by apply Hp.
Qed.
Lemma sub_steady a prev s b : steady prev a = true → sub pat repl 0 prev s = a +:+ b →
  ∃ s', s = a +:+ s' ∧ b = sub pat repl 0 (last_of prev a) s'.
Proof.
  intros Hst E. destruct (sub_run a prev s b E) as [?|(a1 & a2 & s1 & rest & -> & Hne & -> & [n Hm] & Er)]; [done|].
  exfalso. rewrite steady_app in Hst. apply andb_prop in Hst as [_ Hst].
  destruct (Hstart _ _ _ Hm) as (_ & _ & _ & _ & Hp & _). destruct Hrepl as (d & r & E' & Hd). rewrite E' in Er.
  destruct a2 as [|c a2]; [done|]. injection Er as -> _. simpl in Hst. by rewrite Hp, Hd in Hst.
Qed.

(** The matches of another pattern [q] (or of [pat] itself), by their shape. *)
Context (q : Pattern) (shape : string → Prop) (ok : option Ascii.ascii → string → Prop).
Context (Hends : ∃ pat', pat = pat' ++ [WordEdge]).
Context (Hq : ∀ prev s, matches q prev s ↔ word_at prev = false ∧ shape s).
Context (Hqhead : ∀ s, shape s → word_at (head s) = true).
Context (Hok : ∀ prev c s, ok prev (String c s) → ok (Some c) s).
Context (Hkept : ∀ prev c s, ok prev (String c s) → word_at prev = false →
  match_here pat prev (String c s) = None → ¬ shape (String c (sub pat repl 0 (Some c) s))).
Context (Hinside : ∀ u v rest, repl = u +:+ v → v ≠ "" → ¬ shape (v +:+ rest)).
Context (Hlast : ∀ prev, word_at (last_of prev repl) = false).

Lemma search_append a b : ∀ prev, (∀ u v, a = u +:+ v → v ≠ "" → ¬ shape (v +:+ b)) →
  search q (last_of prev a) b = false → search q prev (a +:+ b) = false.
Proof.
  induction a as [|c a IH]; intros prev Ha Hb; [done|].
  change (String c a +:+ b) with (String c (a +:+ b)). simpl. apply orb_false_iff. split.
  - destruct (match_here q prev (String c (a +:+ b))) as [n|] eqn:Hm; [|done].
    assert (matches q prev (String c (a +:+ b))) as [_ Hs]%Hq by (by exists n).
    destruct (Ha "" (String c a)); done.
  - apply IH; [|done]. intros u v -> Hv. by apply (Ha (String c u) v).
Qed.

Lemma sub_clean_from s : ∀ skip prev prev', ok prev s →
  (∃ m r, s = m +:+ r ∧ String.length m = skip ∧
     (word_at prev' = false → word_at (head r) = true → word_at (last_of prev m) = false)) →
  search q prev' (sub pat repl skip prev s) = false.
Proof.
  assert (∀ prev', search q prev' "" = false) as Hnil.
  { intros prev'. simpl. rewrite orb_false_r. destruct (match_here q prev' "") eqn:Hm; [|done].
    assert (matches q prev' "") as [_ Hs]%Hq by (by eexists). by apply Hqhead in Hs. }
  induction s as [|c s IH]; intros skip prev prev' Hs (m & r & E & <- & Hj); [by apply Hnil|].
  destruct m as [|d m]; simpl.
  - change ("" +:+ r) with r in E. subst r. simpl in Hj.
    destruct (match_here pat prev (String c s)) as [n|] eqn:Hm.
    + destruct (Hstart _ _ _ Hm) as (_ & _ & _ & _ & _ & Hn). destruct n as [|n]; [done|].
      destruct Hends as [pat' Ep]. rewrite Ep in Hm. destruct (match_ends _ _ _ _ Hm) as (m & r & E & Hl & He).
      apply search_append; [intros u v; apply Hinside|]. apply IH; [by eapply Hok|].
      destruct m as [|d m]; [done|]. injection E as -> ->. injection Hl as <-. exists m, r. split_and!; [done..|].
      intros _ Hr. simpl in He. unfold edge in He. rewrite Hr in He.
      by destruct (word_at (last_of (Some d) m)).
    + apply orb_false_iff. split.
      * destruct (match_here q prev' _) eqn:Hm'; [|done]. exfalso.
        assert (matches q prev' (String c (sub pat repl 0 (Some c) s))) as [Hp Hsh]%Hq by (by eexists).
        apply (Hkept prev c s); [done| |done|done]. apply Hj; [done|]. by apply Hqhead in Hsh.
      * apply IH; [by eapply Hok|]. exists "", s. by split_and!.
  - injection E as -> ->. apply IH; [by eapply Hok|]. exists m, r. by split_and!.
Qed.
Lemma sub_clean prev s : ok prev s → search q prev (sub pat repl 0 prev s) = false.
Proof. intros Hs. apply sub_clean_from; [done|]. by exists "", s. Qed.
End Sub.

(** ** The two patterns *)

Ltac by_chars c := destruct c as [[] [] [] [] [] [] [] []]; vm_compute; done.

Lemma alnum_word c : is_alnum c = true → is_word c = true.
Proof. intros H. unfold is_word. by rewrite H. Qed.
Lemma ignore_case_b c : ignore_case "b" c = true → is_word c = true ∧ token_char c = true.
Proof. by_chars c. Qed.
Lemma eqb_f c : Ascii.eqb "f" c = true → is_word c = true.
Proof. intros <-%Ascii.eqb_eq. done. Qed.
Lemma lower_char_letter c d : lower_char c = d → is_lower d = true → is_alnum c = true.
Proof. intros <-. by_chars c. Qed.
Lemma space_not_word c : is_space c = true → is_word c = false.
Proof. by_chars c. Qed.
Lemma space_not_b c : is_space c = true → ignore_case "b" c = false.
Proof. by_chars c. Qed.

Lemma last_of_some prev prev' a : a ≠ "" → last_of prev a = last_of prev' a.
Proof. by destruct a. Qed.

Definition bearer_shape (s : string) : Prop :=
  ∃ x w t e b, s = x +:+ w +:+ t +:+ e +:+ b ∧ lower x = "bearer" ∧
    w ≠ "" ∧ string_forallb is_space w = true ∧ t ≠ "" ∧ string_forallb token_char t = true ∧
    string_forallb (Ascii.eqb "=") e = true ∧ edge (last_of (last_of None t) e) b = true.
Definition key_shape (s : string) : Prop :=
  ∃ a b, s = "fc-" +:+ a +:+ b ∧ (8 ≤ String.length a)%nat ∧ string_forallb is_alnum a = true ∧
    edge (last_of None a) b = true.

Lemma nonempty_length a : (1 ≤ String.length a)%nat ↔ a ≠ "".
Proof. destruct a; simpl; split; (done || lia). Qed.

Lemma edge_word prev c s : is_word c = true → edge prev (String c s) = true ↔ word_at prev = false.
Proof. intros H. unfold edge. simpl. rewrite H. by destruct (word_at prev). Qed.

Lemma bearer_word x : lower x = "bearer" → string_forallb is_alnum x = true ∧ last_of None x ≠ None ∧ word_at (head x) = true.
Proof.
  intros H. do 6 (destruct x as [|? x]; [done|]). destruct x; [|done]. unfold lower in H. simpl in H.
  injection H as H1 H2 H3 H4 H5 H6. simpl.
  rewrite (lower_char_letter _ _ H1), (lower_char_letter _ _ H2), (lower_char_letter _ _ H3),
    (lower_char_letter _ _ H4), (lower_char_letter _ _ H5), (lower_char_letter _ _ H6) by done.
  split_and!; [done..|]. by apply alnum_word, (lower_char_letter _ _ H1).
Qed.

Lemma bearer_matches prev s : matches _BEARER_RE prev s ↔ word_at prev = false ∧ bearer_shape s.
Proof.
  unfold _BEARER_RE. rewrite matches_edge. split.
  - intros [He H].
    apply matches_one in H as (c1 & ? & -> & ? & H). apply matches_one in H as (c2 & ? & -> & ? & H).
    apply matches_one in H as (c3 & ? & -> & ? & H). apply matches_one in H as (c4 & ? & -> & ? & H).
    apply matches_one in H as (c5 & ? & -> & ? & H). apply matches_one in H as (c6 & ? & -> & ? & H).
    apply matches_many in H as (w & ? & -> & Hw1 & Hw & H).
    apply matches_many in H as (t & ? & -> & Ht1 & Ht & H).
    apply matches_many in H as (e & b & -> & _ & Hee & H).
    apply matches_edge in H as [Hb _]. apply nonempty_length in Hw1, Ht1.
    split; [|].
    { apply edge_word in He; [done|]. by apply ignore_case_b. }
    exists (String c1 (String c2 (String c3 (String c4 (String c5 (String c6 "")))))), w, t, e, b.
    split_and!; try done.
    + repeat match goal with H : ignore_case _ _ = true |- _ => apply Ascii.eqb_eq in H end.
      unfold lower. cbn [string_map].
      repeat match goal with H : lower_char _ = lower_char _ |- _ => rewrite <-H; clear H end. reflexivity.
    + by rewrite (last_of_some None (last_of (Some c6) w)).
  - intros (Hp & x & w & t & e & b & -> & Hx & Hw1 & Hw & Ht1 & Ht & Hee & Hb).
    destruct (bearer_word x Hx) as (_ & _ & Hh). 
    do 6 (destruct x as [|? x]; [done|]). destruct x; [|done]. unfold lower in Hx. simpl in Hx.
    injection Hx as H1 H2 H3 H4 H5 H6. split.
    { by apply edge_word. }
    do 6 (apply matches_one; eexists _, _; split; [reflexivity|]; split; [apply Ascii.eqb_eq; symmetry; etrans; [eassumption|reflexivity]|]).
    apply matches_many. exists w, (t +:+ e +:+ b). split_and!; [done|by apply nonempty_length|done|].
    apply matches_many. exists t, (e +:+ b). split_and!; [done|by apply nonempty_length|done|].
    apply matches_many. exists e, b. split_and!; [done|lia|done|].
    apply matches_edge. split; [|by apply matches_nil].
    by rewrite (last_of_some _ None t).
Qed.

Lemma key_matches prev s : matches _FIRECRAWL_KEY_RE prev s ↔ word_at prev = false ∧ key_shape s.
Proof.
  unfold _FIRECRAWL_KEY_RE. rewrite matches_edge. split.
  - intros [He H].
    apply matches_one in H as (c1 & ? & -> & <-%Ascii.eqb_eq & H).
    apply matches_one in H as (c2 & ? & -> & <-%Ascii.eqb_eq & H).
    apply matches_one in H as (c3 & ? & -> & <-%Ascii.eqb_eq & H).
    apply matches_many in H as (a & b & -> & Hl & Ha & H). apply matches_edge in H as [Hb _].
    split; [by apply edge_word in He|]. exists a, b. split_and!; [done..|].
    rewrite (last_of_some None (Some "-"%char)); [done|]. by destruct a; [simpl in Hl; lia|].
  - intros (Hp & a & b & -> & Hl & Ha & Hb). split; [by apply edge_word|].
    do 3 (apply matches_one; eexists _, _; split; [reflexivity|]; split; [reflexivity|]).
    apply matches_many. exists a, b. split_and!; [done..|]. apply matches_edge. split; [|by apply matches_nil].
    rewrite (last_of_some _ None); [done|]. by destruct a; [simpl in Hl; lia|].
Qed.

(** ** The two passes *)

Lemma bearer_start prev s n : match_here _BEARER_RE prev s = Some n →
  ∃ c s', s = String c s' ∧ ignore_case "b" c = true ∧ word_at prev = false ∧ n ≠ O.
Proof.
  intros Hm. assert (matches _BEARER_RE prev s) as [Hp _]%bearer_matches by (by exists n).
  unfold _BEARER_RE in Hm. cbn [match_here] in Hm. destruct (edge prev s); [|done]. destruct s as [|c s]; [done|].
  destruct (ignore_case "b" c) eqn:Hc; [|done]. apply fmap_Some in Hm as (k & _ & ->).
  exists c, s. by split_and!.
Qed.
Lemma key_start prev s n : match_here _FIRECRAWL_KEY_RE prev s = Some n →
  ∃ c s', s = String c s' ∧ Ascii.eqb "f" c = true ∧ word_at prev = false ∧ n ≠ O.
Proof.
  intros Hm. assert (matches _FIRECRAWL_KEY_RE prev s) as [Hp _]%key_matches by (by exists n).
  unfold _FIRECRAWL_KEY_RE in Hm. cbn [match_here] in Hm. destruct (edge prev s); [|done]. destruct s as [|c s]; [done|].
  destruct (Ascii.eqb "f" c) eqn:Hc; [|done]. apply fmap_Some in Hm as (k & _ & ->).
  exists c, s. by split_and!.
Qed.
Lemma bearer_head s : bearer_shape s → word_at (head s) = true.
Proof.
  intros (x & w & t & e & b & -> & Hx & _). destruct (bearer_word x Hx) as (_ & _ & Hh).
  rewrite head_append; [done|]. by destruct x.
Qed.
Lemma key_head s : key_shape s → word_at (head s) = true.
Proof. intros (a & b & -> & _). done. Qed.

Lemma bearer_repl : ∃ c r, "Bearer " +:+ REDACTED = String c r ∧ ignore_case "b" c = true.
Proof. by eexists _, _. Qed.
Lemma key_repl : ∃ c r, "fc-" +:+ REDACTED = String c r ∧ Ascii.eqb "f" c = true.
Proof. by eexists _, _. Qed.

(** What a text of the bearer shape has after its first character. *)
Lemma bearer_shape_cons c s : bearer_shape (String c s) → ∃ x w t e b,
  s = x +:+ w +:+ t +:+ e +:+ b ∧ lower (String c x) = "bearer" ∧
  w ≠ "" ∧ string_forallb is_space w = true ∧ t ≠ "" ∧ string_forallb token_char t = true ∧
  string_forallb (Ascii.eqb "=") e = true ∧ edge (last_of (last_of None t) e) b = true.
Proof.
  intros (x & w & t & e & b & E & Hx & H). destruct x as [|d x]; [done|].
  injection E as <- ->. by exists x, w, t, e, b.
Qed.

Lemma token_append a b : string_forallb token_char a = true → string_forallb token_char b = true →
  string_forallb token_char (a +:+ b) = true.
Proof. intros Ha Hb. by rewrite string_forallb_app, Ha, Hb. Qed.
Lemma alnum_token a : string_forallb is_alnum a = true → string_forallb token_char a = true.
Proof.
  induction a as [|c a IH]; [done|]. simpl. intros H. bool_prop. unfold token_char. rewrite H. by apply IH.
Qed.
Lemma append_nonempty a b : b ≠ "" → a +:+ b ≠ "".
Proof. by destruct a. Qed.

(** A substitution keeps the bearer shape only where it was: a token cut short by a
    replacement was longer before. *)
Lemma bearer_kept pat repl first prev c s :
  (∀ prev s n, match_here pat prev s = Some n →
    ∃ c s', s = String c s' ∧ first c = true ∧ word_at prev = false ∧ n ≠ O) →
  (∀ c, first c = true → is_word c = true) → (∃ c r, repl = String c r ∧ first c = true) →
  (∀ c, is_space c = true → first c = false) → first "="%char = false →
  (∀ prev s, matches pat prev s → ∃ y b, s = y +:+ b ∧ y ≠ "" ∧ string_forallb token_char y = true ∧
     edge (last_of None y) b = true) →
  bearer_shape (String c (sub pat repl 0 (Some c) s)) → word_at prev = false → bearer_shape (String c s).
Proof.
  intros Hstart Hfirst Hrepl Hspace Heq Hregion (x & w & t & e & b & E & Hx & Hw1 & Hw & Ht1 & Ht & He & Hb)%bearer_shape_cons Hp.
  destruct (bearer_word _ Hx) as (Hletters & _ & Hc). simpl in Hletters, Hc. apply andb_prop in Hletters as [_ Hletters].
  rewrite <-string_app_assoc in E.
  destruct (sub_steady pat repl first Hstart Hrepl (x +:+ w) (Some c) s (t +:+ e +:+ b)) as (s' & -> & E'); [|done|].
  { rewrite steady_app. apply andb_true_iff. split.
    - apply (steady_word first is_alnum); [apply alnum_word|done|done].
    - by apply (steady_not_first first is_space). }
  symmetry in E'.
  destruct (sub_run pat repl first Hstart t _ _ _ E') as [(s1 & -> & E1)|(t1 & t2 & s1 & rest & -> & Ht2 & -> & Hm & _)].
  - symmetry in E1. destruct (sub_steady pat repl first Hstart Hrepl e (last_of (last_of (Some c) (x +:+ w)) t) s1 b) as (s2 & -> & ->); [|done|].
    { apply (steady_not_first first (Ascii.eqb "=")); [|done]. by intros ? <-%Ascii.eqb_eq. }
    exists (String c x), w, t, e, s2. rewrite string_app_assoc. split_and!; try done.
    unfold edge in *. by rewrite (head_sub pat repl first Hstart Hfirst Hrepl) in Hb.
  - destruct (Hregion _ _ Hm) as (y & b' & -> & Hy & Hty & Hyb).
    exists (String c x), w, (t1 +:+ y), "", b'. rewrite !string_app_assoc. split_and!; try done.
    + by apply append_nonempty.
    + apply token_append; [|done]. rewrite string_forallb_app in Ht. by apply andb_prop in Ht as [].
    + simpl. rewrite last_of_app. by rewrite (last_of_some _ None).
Qed.

Lemma bearer_region prev s : matches _BEARER_RE prev s → ∃ y b, s = y +:+ b ∧ y ≠ "" ∧
  string_forallb token_char y = true ∧ edge (last_of None y) b = true.
Proof.
  intros [_ (x & w & t & e & b & -> & Hx & Hw1 & Hw & _)]%bearer_matches.
  destruct (bearer_word _ Hx) as (Hl & _ & _). assert (x ≠ "") as Hne by (by destruct x).
  exists x, (w +:+ t +:+ e +:+ b). split_and!; [done|done|by apply alnum_token|].
  destruct (last_of_forall _ _ None Hl Hne) as (c & -> & Hc). destruct w as [|d w]; [done|].
  simpl in Hw. bool_prop. unfold edge. simpl. by rewrite (alnum_word c), space_not_word.
Qed.
Lemma key_region prev s : matches _FIRECRAWL_KEY_RE prev s → ∃ y b, s = y +:+ b ∧ y ≠ "" ∧
  string_forallb token_char y = true ∧ edge (last_of None y) b = true.
Proof.
  intros [_ (a & b & -> & Hl & Ha & Hb)]%key_matches. exists ("fc-" +:+ a), b. split_and!; [done|done| |].
  - apply token_append; [done|by apply alnum_token].
  - change (edge (last_of (Some "-"%char) a) b = true). rewrite (last_of_some _ None); [done|].
    by destruct a; [simpl in Hl; lia|].
Qed.

Lemma append_cases c s u v : String c s = u +:+ v → v = String c s ∨ ∃ u', s = u' +:+ v.
Proof. destruct u as [|d u]; [by left|]. intros E. right. exists u. by injection E. Qed.

(** A pattern finds nothing that begins in a replacement. *)
Ltac no_match spec :=
  let E := fresh in let Hs := fresh in
  intros E ? Hs;
  match type of Hs with _ (?v +:+ ?rest) =>
    destruct (proj2 (spec None (v +:+ rest)) (conj eq_refl Hs)) as [? ?]; clear Hs
  end;
  repeat (apply append_cases in E as [->|[? E]];
    [match goal with H : match_here _ _ _ = Some _ |- _ => vm_compute in H; discriminate H end|]);
  match type of E with _ = ?u +:+ _ => by destruct u end.
Lemma bearer_not_in_bearer u v rest : "Bearer " +:+ REDACTED = u +:+ v → v ≠ "" → ¬ bearer_shape (v +:+ rest).
Proof. no_match bearer_matches. Qed.
Lemma bearer_not_in_key u v rest : "fc-" +:+ REDACTED = u +:+ v → v ≠ "" → ¬ bearer_shape (v +:+ rest).
Proof. no_match bearer_matches. Qed.
Lemma key_not_in_key u v rest : "fc-" +:+ REDACTED = u +:+ v → v ≠ "" → ¬ key_shape (v +:+ rest).
Proof. no_match key_matches. Qed.

Lemma unmatched pat prev s : match_here pat prev s = None → ¬ matches pat prev s.
Proof. intros H [n Hn]. congruence. Qed.
Lemma search_false pat prev s : search pat prev s = false → ¬ matches pat prev s.
Proof.
  intros H Hm. assert (search pat prev s = true); [|congruence]. apply search_spec. by exists "", s.
Qed.
Lemma search_tail pat prev c s : search pat prev (String c s) = false → search pat (Some c) s = false.
Proof. simpl. intros H. by apply orb_false_iff in H as []. Qed.

Lemma bearer_pass_clean s : search _BEARER_RE None (sub _BEARER_RE ("Bearer " +:+ REDACTED) 0 None s) = false.
Proof.
  apply (sub_clean _BEARER_RE _ (ignore_case "b") bearer_start _BEARER_RE bearer_shape (λ _ _, True)).
  - by eexists [_; _; _; _; _; _; _; _; _; _].
  - apply bearer_matches.
  - apply bearer_head.
  - done.
  - intros prev c s' _ Hp Hm Hs. apply (unmatched _ _ _ Hm), bearer_matches. split; [done|].
    apply (bearer_kept _BEARER_RE _ (ignore_case "b") prev c s' bearer_start
      (λ c H, proj1 (ignore_case_b c H)) bearer_repl space_not_b eq_refl bearer_region Hs Hp).
  - apply bearer_not_in_bearer.
  - done.
Qed.
Lemma key_pass_keeps_bearers_out s : search _BEARER_RE None s = false →
  search _BEARER_RE None (sub _FIRECRAWL_KEY_RE ("fc-" +:+ REDACTED) 0 None s) = false.
Proof.
  apply (sub_clean _FIRECRAWL_KEY_RE _ (Ascii.eqb "f") key_start _BEARER_RE bearer_shape
    (λ prev s, search _BEARER_RE prev s = false)).
  - by eexists [_; _; _; _; _].
  - apply bearer_matches.
  - apply bearer_head.
  - apply search_tail.
  - intros prev c s' Hs Hp _ Hsh. apply (search_false _ _ _ Hs), bearer_matches. split; [done|].
    apply (bearer_kept _FIRECRAWL_KEY_RE _ (Ascii.eqb "f") prev c s' key_start eqb_f key_repl); [|done|apply key_region|done..].
    intros d Hd. apply Ascii.eqb_neq. by intros <-.
  - apply bearer_not_in_key.
Qed.
Lemma key_pass_clean s : search _FIRECRAWL_KEY_RE None (sub _FIRECRAWL_KEY_RE ("fc-" +:+ REDACTED) 0 None s) = false.
Proof.
  apply (sub_clean _FIRECRAWL_KEY_RE _ (Ascii.eqb "f") key_start _FIRECRAWL_KEY_RE key_shape (λ _ _, True)).
  - by eexists [_; _; _; _; _].
  - apply key_matches.
  - apply key_head.
  - done.
  - intros prev c s' _ Hp Hm (a & b & E & Hl & Ha & Hb).
    apply (unmatched _ _ _ Hm), key_matches. split; [done|].
    injection E as -> E. change (sub _FIRECRAWL_KEY_RE ("fc-" +:+ REDACTED) 0 (Some "f"%char) s' = "c-" +:+ (a +:+ b)) in E.
    destruct (sub_steady _ _ (Ascii.eqb "f") key_start key_repl "c-" (Some "f"%char) s' _ eq_refl E) as (s1 & -> & E1).
    symmetry in E1.
    destruct (sub_run _ _ (Ascii.eqb "f") key_start a _ _ _ E1) as [(s2 & -> & ->)|(a1 & a2 & s2 & rest & -> & _ & -> & [n Hn] & Er)].
    + exists a, s2. split_and!; [done..|]. unfold edge in *.
      by rewrite (head_sub _ _ (Ascii.eqb "f") key_start eqb_f key_repl) in Hb.
    + exfalso. destruct (key_start _ _ _ Hn) as (_ & _ & _ & _ & Hw & _). rewrite string_forallb_app in Ha.
      apply andb_prop in Ha as [Ha1 Ha2]. destruct a1 as [|d a1].
      * destruct a2 as [|? [|? [|? a2]]]; [by (simpl in Hl; lia)..|]. injection Er as -> -> -> _. done.
      * destruct (last_of_forall _ _ (last_of (Some "f"%char) "c-") Ha1) as (e & He & Hae); [done|].
        rewrite He in Hw. simpl in Hw. by rewrite (alnum_word e) in Hw.
  - apply key_not_in_key.
  - done.
Qed.

(** Nothing is left that either pattern would find. *)
Lemma redact_text_clean text :
  search _BEARER_RE None (redact_text text) = false ∧ search _FIRECRAWL_KEY_RE None (redact_text text) = false.
Proof. split; [apply key_pass_keeps_bearers_out, bearer_pass_clean|apply key_pass_clean]. Qed.

Lemma sub_nothing pat repl s : ∀ prev, search pat prev s = false → sub pat repl 0 prev s = s.
Proof.
  induction s as [|c s IH]; intros prev H; [done|]. pose proof (search_false _ _ _ H) as Hm.
  apply search_tail in H. simpl. destruct (match_here pat prev (String c s)) eqn:E; [|by rewrite IH].
  destruct Hm. by eexists.
Qed.
Lemma redact_text_fixed text : redact_text text = text ↔
  search _BEARER_RE None text = false ∧ search _FIRECRAWL_KEY_RE None text = false.
Proof.
  split; [intros <-; apply redact_text_clean|]. intros [Hb Hk]. unfold redact_text.
  by rewrite !sub_nothing by (rewrite ?sub_nothing by done; done).
Qed.

(** ** Values *)

Definition clean_text (s : string) : bool :=
  negb (search _BEARER_RE None s) && negb (search _FIRECRAWL_KEY_RE None s).
(** No credential in any text that is a value, and nothing but the mark under a
    sensitive name; the names of the members of objects are not looked at. *)
Fixpoint clean_values (sensitive_keys : list string) (j : Json) : bool :=
  match j with
  | JStr s => clean_text s
  | JList l => forallb (clean_values sensitive_keys) l
  | JObj o => forallb (λ '(k, v), if str_in (lower k) sensitive_keys
                                  then match v with JStr s => String.eqb s REDACTED | _ => false end
                                  else clean_values sensitive_keys v) o
  | _ => true
  end.

Lemma clean_text_fixed s : clean_text s = true ↔ redact_text s = s.
Proof. unfold clean_text. rewrite redact_text_fixed, andb_true_iff, !negb_true_iff. done. Qed.

Lemma map_fixed {A} (f : A → A) l : Forall (λ x, f x = x) l ↔ map f l = l.
Proof.
  induction l as [|x l IH]; simpl; [done|]. rewrite Forall_cons, IH. split; [by intros [-> ->]|by intros [= ? ?]].
Qed.

Lemma redact_data_clean sensitive_keys value : clean_values sensitive_keys (redact_data sensitive_keys value) = true.
Proof.
  induction value as [|b|n|q|s|l IH|o IH] using Json_nested_ind; simpl; try done.
  - apply clean_text_fixed, redact_text_fixed, redact_text_clean.
  - apply forallb_forall. intros x (y & <- & Hy)%in_map_iff. rewrite Forall_forall in IH.
    by apply IH, list_elem_of_In.
  - apply forallb_forall. intros x ([k v] & <- & Hy)%in_map_iff. rewrite Forall_forall in IH.
    apply list_elem_of_In, IH in Hy. destruct (str_in (lower k) sensitive_keys); done.
Qed.

(** C16. The values of redacted data hold no credential: no text that is a value in it, at
    any depth, contains what either pattern looks for, and under a sensitive name
    stands only the mark.  Nothing else changes: data is left as it is exactly if
    its values are clean already, so that redacting twice is redacting once, and
    the names of the members of an object stay as they are, even a name that
    reads like a credential. *)
Theorem redaction_leaves_no_credentials sensitive_keys value :
  clean_values sensitive_keys (redact_data sensitive_keys value) = true ∧
  (redact_data sensitive_keys value = value ↔ clean_values sensitive_keys value = true) ∧
  (∀ o, value = JObj o → ∃ o', redact_data sensitive_keys value = JObj o' ∧ map fst o' = map fst o).
Proof.
  assert (∀ v, clean_values sensitive_keys v = true → redact_data sensitive_keys v = v) as Hfix.
  { intros v. induction v as [|b|n|q|s|l IH|o IH] using Json_nested_ind; simpl; intros Hc; try done.
    - by apply clean_text_fixed in Hc as ->.
    - f_equal. apply map_fixed. rewrite Forall_forall in IH |- *. intros x Hx. apply IH; [done|].
      apply (proj1 (forallb_forall _ _) Hc), list_elem_of_In, Hx.
    - f_equal. apply map_fixed. rewrite Forall_forall in IH |- *. intros [k v] Hx. f_equal.
      specialize (IH _ Hx). apply list_elem_of_In in Hx. apply (proj1 (forallb_forall _ _) Hc) in Hx.
      destruct (str_in (lower k) sensitive_keys); [|by apply IH].
      destruct v as [| | | |s| |]; try done. by apply String.eqb_eq in Hx as ->. }
  split_and!; [apply redact_data_clean|split; [intros <-; apply redact_data_clean|apply Hfix]|].
  intros o ->. eexists. split; [done|]. rewrite map_map. apply map_ext. by intros [k v].
Qed.

(** A key in the place of a member's name is kept; the same text as a value is not. *)
Example names_are_not_redacted :
  redact_data [] (JObj [("fc-0123456789abcdef", JStr "fc-0123456789abcdef")]) =
  JObj [("fc-0123456789abcdef", JStr "fc-[REDACTED]")].
Proof. reflexivity. Qed.
End Regex.
