(* ===== verification/KeyImport.v ===== *)
(** [app/core/key_import.py]: the text an administrator pastes to import keys, one
    account per line, and [app/core/batch_clients.py]: the batch actions on
    clients. *)

From S2P Require Import Prelude Effects PyText PyTime IsoFormat Models.
Open Scope Z_scope.

Module KeyImport.

Record ParsedKeyLine := mkParsedKeyLine {
  pk_line_no : Z;
  pk_raw : string;
  pk_api_key : string;
  pk_account_username : option string;
  pk_account_password : option string;
  pk_account_verified_at : option DateTime
}.
Record ParseFailure := mkParseFailure {
  pf_line_no : Z;
  pf_raw : string;
  pf_message : string
}.

(** [^\d{4}-\d{2}-\d{2}$]. *)
Definition date_only (s : string) : bool :=
  match take_digits 4 0 s with
  | Some (_, s) =>
      match expect "-"%char s with
      | Some s =>
          match take_digits 2 0 s with
          | Some (_, s) =>
              match expect "-"%char s with
              | Some s => match take_digits 2 0 s with Some (_, r) => String.eqb r "" | None => false end
              | None => false
              end
          | None => false
          end
      | None => false
      end
  | None => false
  end.
(** [s.replace(" ", "T", 1)]. *)
Fixpoint space_to_T (s : string) : string :=
  match s with
  | EmptyString => EmptyString
  | String c s' => if Ascii.eqb c " "%char then String "T"%char s' else String c (space_to_T s')
  end.

Definition _parse_datetime_utc (raw : string) : Res DateTime :=
  let s := strip raw in
  if String.eqb s "" then Raise (EValueError "empty datetime")
  else
    let s :=
      if date_only s then s +:+ "T00:00:00+00:00"
      else if endswith "Z" s then slice_to (String.length s - 1) s +:+ "+00:00"
      else if contains " " s && negb (contains "T" s) && negb (contains "+" s) then space_to_T s
      else s in
    match fromisoformat s with
    | Some dt => Ok (as_utc dt)
    | None => Raise (EValueError ("Invalid isoformat string: '" +:+ s +:+ "'"))
    end.

Definition TAB : Ascii.ascii := Ascii.ascii_of_N 9.
Definition _split_fields (line : string) : list string :=
  map strip
    (if contains "|" line then split_char "|"%char line
     else if contains (String TAB "") line then split_char TAB line
     else if contains "," line then split_char ","%char line
     else split_space line).

(** [str.splitlines()], on the ASCII line boundaries. *)
Definition is_eol (c : Ascii.ascii) : bool := between 10 13 c || between 28 30 c.
Fixpoint splitlines_go (cur : string) (s : string) : list string :=
  match s with
  | EmptyString => if String.eqb cur "" then [] else [cur]
  | String c s' =>
      if is_eol c then
        match s' with
        | String d s'' =>
            if Ascii.eqb c (Ascii.ascii_of_N 13) && Ascii.eqb d (Ascii.ascii_of_N 10)
            then cur :: splitlines_go "" s'' else cur :: splitlines_go "" s'
        | EmptyString => [cur]
        end
      else splitlines_go (cur +:+ String c "") s'
  end.
Definition splitlines (s : string) : list string := splitlines_go "" s.

(** [(x or "").strip() or None]. *)
Definition blank_to_none (x : option string) : option string :=
  let s := strip (default "" x) in if String.eqb s "" then None else Some s.

(** The fields of a line by their number: username, password, key, verified. *)
Definition read_fields (parts : list string) : Res (option string * option string * string * option DateTime) :=
  match parts with
  | [k] => Ok (None, None, k, None)
  | [u; k] => Ok (Some u, None, k, None)
  | [u; p; k] => Ok (Some u, Some p, k, None)
  | [u; p; k; v] =>
      if String.eqb v "" then Ok (Some u, Some p, k, None)
      else match _parse_datetime_utc v with
           | Ok dt => Ok (Some u, Some p, k, Some dt)
           | Raise e => Raise e
           end
  | _ => Raise (EValueError "expect 1/2/3/4 fields per line")
  end.

Definition parse_line (line_no : Z) (raw line : string) : ParsedKeyLine + ParseFailure :=
  let failed (msg : string) := inr (mkParseFailure line_no raw msg) in
  match read_fields (List.filter (λ p, negb (String.eqb p "")) (_split_fields line)) with
  | Raise (EValueError msg) => failed msg
  | Raise _ => failed ""
  | Ok (u, p, k, v) =>
      let api_key := strip k in
      if slen api_key <? 8 then failed "api_key too short"
      else inl (mkParsedKeyLine line_no raw api_key (blank_to_none u) (blank_to_none p) v)
  end.

Definition skipped (raw : string) : bool :=
  let line := strip raw in String.eqb line "" || startswith "#" line.

Fixpoint parse_lines (line_no : Z) (lines : list string) : list ParsedKeyLine * list ParseFailure :=
  match lines with
  | [] => ([], [])
  | raw :: lines' =>
      let '(items, failures) := parse_lines (line_no + 1) lines' in
      if skipped raw then (items, failures)
      else match parse_line line_no raw (strip raw) with
           | inl item => (item :: items, failures)
           | inr f => (items, f :: failures)
           end
  end.
Definition parse_keys_text (text : string) : list ParsedKeyLine * list ParseFailure :=
  parse_lines 1 (splitlines text).
End KeyImport.

Module BatchClients.
(** [list(dict.fromkeys(ids))]. *)
Fixpoint dedup_go (seen : list Z) (ids : list Z) : list Z :=
  match ids with
  | [] => []
  | i :: ids' => if z_in i seen then dedup_go seen ids' else i :: dedup_go (i :: seen) ids'
  end.
Definition deduplicate_client_ids (ids : list Z) : list Z := dedup_go [] ids.

Definition apply_batch_action_to_client (action : string) (client : Client) : Res Client :=
  if String.eqb action "enable" then Ok (set_c_status "active" (set_c_is_active true client))
  else if String.eqb action "disable" then Ok (set_c_status "disabled" (set_c_is_active false client))
  else if String.eqb action "delete" then Ok (set_c_status "deleted" (set_c_is_active false client))
  else Raise (EValueError ("Unknown batch action: " +:+ action)).
End BatchClients.

Import KeyImport BatchClients.

Lemma parse_lines_spec lines : ∀ n items failures,
  parse_lines n lines = (items, failures) →
  (∀ item, item ∈ items → lines !! Z.to_nat (pk_line_no item - n) = Some (pk_raw item) ∧ n ≤ pk_line_no item
     ∧ 8 ≤ slen (pk_api_key item) ∧ skipped (pk_raw item) = false) ∧
  (∀ f, f ∈ failures → lines !! Z.to_nat (pf_line_no f - n) = Some (pf_raw f) ∧ n ≤ pf_line_no f
     ∧ skipped (pf_raw f) = false) ∧
  (length items + length failures)%nat = length (List.filter (λ r, negb (skipped r)) lines).
Proof.
  induction lines as [|raw lines IH]; intros n items failures H; simpl in H.
  { injection H as <- <-. split_and!; [by intros ? ?%not_elem_of_nil..|done]. }
  destruct (parse_lines (n + 1) lines) as [its fs] eqn:Hp.
  destruct (IH _ _ _ Hp) as (Hi & Hf & Hl).
  assert (∀ m, n + 1 ≤ m → (raw :: lines) !! Z.to_nat (m - n) = lines !! Z.to_nat (m - (n + 1))) as Hsh.
  { intros m Hm. replace (Z.to_nat (m - n)) with (S (Z.to_nat (m - (n + 1)))) by lia. done. }
  assert (∀ item, item ∈ its → (raw :: lines) !! Z.to_nat (pk_line_no item - n) = Some (pk_raw item) ∧
    n ≤ pk_line_no item ∧ 8 ≤ slen (pk_api_key item) ∧ skipped (pk_raw item) = false) as Hi'.
  { intros item Hin. destruct (Hi _ Hin) as (H1 & H2 & H3). rewrite Hsh by lia. split_and!; tauto || lia. }
  assert (∀ f, f ∈ fs → (raw :: lines) !! Z.to_nat (pf_line_no f - n) = Some (pf_raw f) ∧
    n ≤ pf_line_no f ∧ skipped (pf_raw f) = false) as Hf'.
  { intros f Hin. destruct (Hf _ Hin) as (H1 & H2 & H3). rewrite Hsh by lia. split_and!; tauto || lia. }
  assert ((raw :: lines) !! Z.to_nat (n - n) = Some raw) as H0 by by rewrite Z.sub_diag.
  simpl. destruct (skipped raw) eqn:Hs; simpl; [by simplify_eq|].
  destruct (parse_line n raw (strip raw)) as [item|f] eqn:Hpl; simplify_eq; unfold parse_line in Hpl.
  - split_and!; [|done|simpl; lia]. intros item' [-> |Hin]%elem_of_cons; [|by apply Hi'].
    repeat case_match; simplify_eq; simpl in *; bool_prop; split_and!; done || lia.
  - split_and!; [done| |simpl; lia]. intros f' [-> |Hin]%elem_of_cons; [|by apply Hf'].
    repeat case_match; simplify_eq; simpl in *; bool_prop; split_and!; done || lia.
Qed.

(** No line of an import is lost and none is made up: every line that is neither
    blank nor a comment gives one imported key or one reported failure, each of
    them carries the number and the text of its line, and an imported key is at
    least eight characters long. *)
Theorem import_accounts_for_every_line text :
  let '(items, failures) := parse_keys_text text in
  let lines := splitlines text in
  (length items + length failures)%nat = length (List.filter (λ r, negb (skipped r)) lines) ∧
  (∀ item, item ∈ items → lines !! Z.to_nat (pk_line_no item - 1) = Some (pk_raw item) ∧
     8 ≤ slen (pk_api_key item)) ∧
  (∀ f, f ∈ failures → lines !! Z.to_nat (pf_line_no f - 1) = Some (pf_raw f)).
Proof.
  unfold parse_keys_text. destruct (parse_lines 1 (splitlines text)) as [items failures] eqn:H.
  destruct (parse_lines_spec _ _ _ _ H) as (Hi & Hf & Hl). split; [done|]. split.
  - intros item Hin. destruct (Hi _ Hin) as (? & ? & ? & _). done.
  - intros f Hin. by destruct (Hf _ Hin).
Qed.

Example import_example :
  let '(items, failures) := parse_keys_text "# keys
fc-12345678
user@x|pw|fc-abcdefgh|2026-01-15

short" in
  map pk_api_key items = ["fc-12345678"; "fc-abcdefgh"] ∧ map pf_line_no failures = [5].
Proof. vm_compute. split; reflexivity. Qed.
