(* ===== verification/DataPlane.v ===== *)
(** The data-plane endpoints: [app/api/data_plane.py] (the gateway's own paths),
    [app/api/firecrawl_compat.py] (Firecrawl v1 paths) and [app/api/exa_compat.py].
    Each handler is the body of the endpoint; [serve] runs it behind the
    dependencies every endpoint declares.  What a handler leaves on
    [request.state] for the request log is part of its result. *)

From S2P Require Import Prelude Effects PyText Json Models Config Env Security KeyPool Forwarder Idempotency.
From S2P Require Import Deps.
Import Forwarder Idempotency Deps.
Open Scope Z_scope.

(** What a handler returns and the [request.state] fields it sets. *)
Record Handled := mkHandled {
  hd_response : HttpResponse;
  hd_endpoint : option string;    (* None: not set *)
  hd_api_key_id : option Z;
  hd_retry_count : Z;
  hd_switch_reasons : option (list string);
  hd_selection_score : option Q
}.
Definition handled (endpoint : string) (r : ForwardResult) : Handled :=
  mkHandled (fw_response r) (Some endpoint) (fw_api_key_id r) (fw_retry_count r) (Some (fw_switch_reasons r))
    (fw_selection_score r).

Section Endpoints.
Context {E : Env} `{!Digests, !ZoneInfo, !Codecs} (self : Self).
(** Python's recursion limit, for [start_or_replay]. *)
Context (depth : nat).
Let config := f_config self.

Definition forward_to (request : Request) (client_id : Z) (method path : string) (body : option Json)
    (provider : string) : Prog ForwardResult :=
  forward self (req_id request) client_id method path body (req_headers request) None provider.

(** The shape of the endpoints without idempotency. *)
Definition relay (request : Request) (client_id : Z) (method path : string) (body : option Json)
    (provider endpoint : string) : Prog Handled :=
  let! result := forward_to request client_id method path body provider in
  ret (handled endpoint result).

(** The shape of the endpoints that create something upstream. *)
Definition idempotent (request : Request) (client_id : Z) (endpoint : string) (payload : Json)
    (run : Prog ForwardResult) : Prog Handled :=
  let! start := start_or_replay depth config client_id (req_header "x-idempotency-key" request)
    endpoint "POST" payload in
  match start with
  | Replay response => ret (mkHandled response (Some endpoint) None 0 None None)
  | Fresh _ | Unused =>
      let ctx := match start with Fresh id => Some id | _ => None end in
      let! result := run in
      complete config ctx (fw_response result) ;;!
      ret (handled endpoint result)
  end.

(** A second try on another path when the first is not known upstream. *)
Definition with_fallback (request : Request) (client_id : Z) (primary fallback : string) (payload : Json)
  : Prog ForwardResult :=
  let! result := forward_to request client_id "POST" primary (Some payload) "firecrawl" in
  if z_in (rs_status (fw_response result)) [404; 405]
  then forward_to request client_id "POST" fallback (Some payload) "firecrawl"
  else ret result.

Definition _path_and_query (request : Request) : string :=
  if String.eqb (req_query request) "" then req_path request
  else req_path request +:+ "?" +:+ req_query request.

(** The dependencies of an endpoint, then its handler. *)
Definition serve (secrets : Secrets) (request : Request) (handler : Z → Prog Handled) : Prog Handled :=
  let! client_id := require_client secrets request in
  with_governance config client_id (handler client_id).
End Endpoints.

Module DataPlane.
Section Handlers.
Context {E : Env} `{!Digests, !ZoneInfo, !Codecs} (self : Self) (depth : nat).

Definition scrape (request : Request) (payload : Json) (client_id : Z) : Prog Handled :=
  relay self request client_id "POST" "/v1/scrape" (Some payload) "firecrawl" "scrape".
Definition crawl (request : Request) (payload : Json) (client_id : Z) : Prog Handled :=
  idempotent self depth request client_id "crawl" payload
    (forward_to self request client_id "POST" "/v1/crawl" (Some payload) "firecrawl").
Definition crawl_status (request : Request) (crawl_id : string) (client_id : Z) : Prog Handled :=
  relay self request client_id "GET" ("/v1/crawl/" +:+ crawl_id) None "firecrawl" "crawl_status".
Definition search (request : Request) (payload : Json) (client_id : Z) : Prog Handled :=
  relay self request client_id "POST" "/v1/search" (Some payload) "firecrawl" "search".
Definition agent (request : Request) (payload : Json) (client_id : Z) : Prog Handled :=
  idempotent self depth request client_id "agent" payload
    (with_fallback self request client_id "/v2/agent" "/v1/agent" payload).
End Handlers.
End DataPlane.

Module FirecrawlCompat.
Section Handlers.
Context {E : Env} `{!Digests, !ZoneInfo, !Codecs} (self : Self) (depth : nat).

Definition scrape (request : Request) (payload : Json) (client_id : Z) : Prog Handled :=
  relay self request client_id "POST" (_path_and_query request) (Some payload) "firecrawl" "scrape".
Definition crawl (request : Request) (payload : Json) (client_id : Z) : Prog Handled :=
  idempotent self depth request client_id "crawl" payload
    (forward_to self request client_id "POST" (_path_and_query request) (Some payload) "firecrawl").
Definition crawl_status (request : Request) (client_id : Z) : Prog Handled :=
  relay self request client_id "GET" (_path_and_query request) None "firecrawl" "crawl_status".
Definition search (request : Request) (payload : Json) (client_id : Z) : Prog Handled :=
  relay self request client_id "POST" (_path_and_query request) (Some payload) "firecrawl" "search".
Definition upstream_primary (request : Request) : string :=
  if String.eqb (req_query request) "" then "/v2/agent" else "/v2/agent?" +:+ req_query request.
Definition agent (request : Request) (payload : Json) (client_id : Z) : Prog Handled :=
  idempotent self depth request client_id "agent" payload
    (with_fallback self request client_id (upstream_primary request) (_path_and_query request) payload).
End Handlers.
End FirecrawlCompat.

Module ExaCompat.
Section Handlers.
Context {E : Env} (self : Self).

Definition _upstream_path (request : Request) : string :=
  let path := req_path request in
  let path := if startswith "/exa" path then slice_from 4 path else path in
  let path := if startswith "/" path then path else "/" +:+ path in
  if String.eqb (req_query request) "" then path else path +:+ "?" +:+ req_query request.

Definition exa_search (request : Request) (payload : Json) (client_id : Z) : Prog Handled :=
  relay self request client_id "POST" (_upstream_path request) (Some payload) "exa" "exa_search".
Definition exa_find_similar (request : Request) (payload : Json) (client_id : Z) : Prog Handled :=
  relay self request client_id "POST" (_upstream_path request) (Some payload) "exa" "exa_findSimilar".
Definition exa_contents (request : Request) (payload : Json) (client_id : Z) : Prog Handled :=
  relay self request client_id "POST" (_upstream_path request) (Some payload) "exa" "exa_contents".
Definition exa_answer (request : Request) (payload : Json) (client_id : Z) : Prog Handled :=
  relay self request client_id "POST" (_upstream_path request) (Some payload) "exa" "exa_answer".
End Handlers.
End ExaCompat.
