(* ===== verification/SimApp.v ===== *)
(** The concrete environment of Sim.v completed for whole requests: digests, codecs and
    time zones, a configured forwarder and a client with a token. *)

From S2P Require Import Prelude Effects PyText PyTime Json Models Config Env RuntimeSettings Security.
From S2P Require Import Forwarder.
From S2P Require Import Idempotency Deps Sim.
Import Forwarder Deps Simulation.
Open Scope Z_scope.

Module SimApp.
#[export] Instance app_zones : ZoneInfo := {| zone_offset _ _ := None |}.
#[export] Instance app_digests : Digests := {|
  sha256 s := s; hmac_sha256 k m := k +:+ "/" +:+ m; urlsafe_b64decode _ := None
|}.
#[export] Instance app_codecs : Codecs := {|
  json_dumps := sim_json_dumps; canonical_dumps := sim_json_dumps; sha256_hex s := s;
  b64encode s := s; b64decode := Some
|}.
#[export] Instance app_codec_laws : CodecLaws.
Proof. split; [intros j _; apply sim_loads_dumps|done|done]. Qed.

Definition app_self : Self := mkSelf default_AppConfig (Some "master") None "https://up" None.
Definition app_secrets : Secrets := mkSecrets (Some "admin-token") (Some "master").

(** Client number [id], whose token is [fcam-<id>]. *)
Definition app_client (id : Z) : Client :=
  mkClient id ("client-" +:+ str_int id) (hmac_sha256_hex "master" ("fcam-" +:+ str_int id)) None true None 0 None
    60 10 2 (Naive 0) None "active".
Definition app_request (method path : string) : Request :=
  mkRequest method path "" [("authorization", "Bearer fcam-5"); ("cookie", "session=1"); ("accept", "*/*")]
    (Some "10.0.0.1") "req-0001".
Definition app_tables : Tables :=
  sim_tables [sim_key 1 "firecrawl" (Some 900); sim_key 2 "firecrawl" (Some 40);
              set_k_status "disabled" (set_k_is_active false (sim_key 3 "firecrawl" None))] [app_client 5].
Definition app_world (replies : list HttpOutcome) : World := sim_world app_tables [(1 # 2)%Q; (1 # 2)%Q] replies.
End SimApp.
