(* ===== verification/FirecrawlV2.v ===== *)
(** [app/api/firecrawl_v2_compat.py]: the endpoints under [/v2], which know about jobs.
    A request that creates something upstream binds the new resource to the key
    that created it; a request about a resource goes to that key; where Firecrawl
    has two spellings of a path, the second is tried after a 404 or 405.  The
    handlers are followed by the table of routes they are declared under. *)

From S2P Require Import Prelude Effects PyText Json Models Config Env Security KeyPool Forwarder Idempotency.
From S2P Require Import ResourceBinding Deps DataPlane.
Import Forwarder Idempotency ResourceBinding Deps.
Open Scope Z_scope.

Module FirecrawlV2.

Definition _with_query (request : Request) (path : string) : string :=
  if String.eqb (req_query request) "" then path else path +:+ "?" +:+ req_query request.
Definition _path_and_query (request : Request) : string := _with_query request (req_path request).

Section Handlers.
Context {E : Env} `{!Digests, !ZoneInfo, !Codecs} (self : Self) (depth : nat).

Definition _extract_id_from_response (response : HttpResponse) : option string :=
  if (rs_status response <? 200) || (rs_status response >=? 300) then None
  else
    let content_type := default "" (header_get "content-type" (rs_headers response)) in
    if negb (contains "application/json" (lower content_type)) then None
    else if String.eqb (rs_content response) "" then None
    else match h_json_loads (rs_content response) with
         | Some (JObj data) =>
             match obj_get "id" data with
             | Some (JStr resource_id) =>
                 if String.eqb (strip resource_id) "" then None else Some (strip resource_id)
             | _ => None
             end
         | _ => None
         end.

Definition _maybe_bind_created_resource (client_id : Z) (resource_type : string) (result : ForwardResult)
  : Prog unit :=
  match _extract_id_from_response (fw_response result), fw_api_key_id result with
  | Some resource_id, Some api_key_id =>
      catch_all (bind_resource client_id api_key_id resource_type resource_id None) (λ _, ret tt)
  | _, _ => ret tt
  end.

Definition _forward_with_fallback (request : Request) (client_id : Z) (method primary_path : string)
    (fallback_path : option string) (payload : option Json) (pinned_api_key_id : option Z)
  : Prog ForwardResult :=
  let ask path := forward self (req_id request) client_id method path payload (req_headers request)
                    pinned_api_key_id "firecrawl" in
  let! result := ask primary_path in
  match fallback_path with
  | Some path => if z_in (rs_status (fw_response result)) [404; 405] then ask path else ret result
  | None => ret result
  end.

(** ** The shapes of the handlers *)

(** Forwarded as it is, by any key. *)
Definition plain (request : Request) (client_id : Z) (endpoint : option string) (method path : string)
    (payload : option Json) : Prog Handled :=
  let! r := _forward_with_fallback request client_id method path None payload None in
  ret (mkHandled (fw_response r) endpoint (fw_api_key_id r) (fw_retry_count r) (Some (fw_switch_reasons r))
         (fw_selection_score r)).
(** Forwarded by any key; what it creates is bound to the key. *)
Definition creating (request : Request) (client_id : Z) (resource_type method path : string)
    (fallback : option string) (payload : option Json) : Prog ForwardResult :=
  let! result := _forward_with_fallback request client_id method path fallback payload None in
  _maybe_bind_created_resource client_id resource_type result ;;!
  ret result.
(** Forwarded by the key the resource is bound to. *)
Definition on_resource (request : Request) (client_id : Z) (endpoint resource_type resource_id : string)
    (method path : string) (fallback : option string) (payload : option Json) : Prog Handled :=
  let! pinned := lookup_bound_key_id client_id resource_type resource_id in
  let! result := _forward_with_fallback request client_id method path fallback payload pinned in
  ret (handled endpoint result).

(** ** The handlers *)

Definition crawl (request : Request) (payload : Json) (client_id : Z) : Prog Handled :=
  idempotent self depth request client_id "crawl" payload
    (creating request client_id "crawl" "POST" (_with_query request "/v2/crawl")
       (Some (_with_query request "/v2/crawl/start")) (Some payload)).
Definition crawl_start (request : Request) (payload : Json) (client_id : Z) : Prog Handled :=
  idempotent self depth request client_id "crawl" payload
    (creating request client_id "crawl" "POST" (_with_query request "/v2/crawl")
       (Some (_with_query request "/v2/crawl/start")) (Some payload)).
Definition crawl_active (request : Request) (client_id : Z) : Prog Handled :=
  plain request client_id (Some "crawl_active") "GET" (_with_query request "/v2/crawl/active") None.
Definition crawl_params_preview (request : Request) (payload : Json) (client_id : Z) : Prog Handled :=
  plain request client_id (Some "crawl_params_preview") "POST"
    (_with_query request "/v2/crawl/params-preview") (Some payload).
Definition crawl_status (request : Request) (job_id : string) (client_id : Z) : Prog Handled :=
  on_resource request client_id "crawl_status" "crawl" job_id "GET"
    (_with_query request ("/v2/crawl/" +:+ job_id))
    (Some (_with_query request ("/v2/crawl/status/" +:+ job_id))) None.
Definition crawl_status_alias (request : Request) (job_id : string) (client_id : Z) : Prog Handled :=
  on_resource request client_id "crawl_status" "crawl" job_id "GET"
    (_with_query request ("/v2/crawl/" +:+ job_id))
    (Some (_with_query request ("/v2/crawl/status/" +:+ job_id))) None.
Definition agent (request : Request) (payload : Json) (client_id : Z) : Prog Handled :=
  idempotent self depth request client_id "agent" payload
    (creating request client_id "agent" "POST" (_path_and_query request) None (Some payload)).
Definition batch_scrape (request : Request) (payload : Json) (client_id : Z) : Prog Handled :=
  let! result := creating request client_id "batch_scrape" "POST" (_with_query request "/v2/batch/scrape")
    (Some (_with_query request "/v2/batch/scrape/start")) (Some payload) in
  ret (handled "batch" result).
Definition batch_scrape_start (request : Request) (payload : Json) (client_id : Z) : Prog Handled :=
  let! result := creating request client_id "batch_scrape" "POST" (_with_query request "/v2/batch/scrape")
    (Some (_with_query request "/v2/batch/scrape/start")) (Some payload) in
  ret (handled "batch" result).
Definition batch_scrape_status (request : Request) (job_id : string) (client_id : Z) : Prog Handled :=
  on_resource request client_id "batch" "batch_scrape" job_id "GET"
    (_with_query request ("/v2/batch/scrape/" +:+ job_id))
    (Some (_with_query request ("/v2/batch/scrape/status/" +:+ job_id))) None.
Definition batch_scrape_status_alias (request : Request) (job_id : string) (client_id : Z) : Prog Handled :=
  on_resource request client_id "batch" "batch_scrape" job_id "GET"
    (_with_query request ("/v2/batch/scrape/" +:+ job_id))
    (Some (_with_query request ("/v2/batch/scrape/status/" +:+ job_id))) None.
Definition crawl_delete (request : Request) (job_id : string) (client_id : Z) : Prog Handled :=
  on_resource request client_id "crawl" "crawl" job_id "DELETE"
    (_with_query request ("/v2/crawl/" +:+ job_id)) None None.
Definition crawl_errors (request : Request) (job_id : string) (client_id : Z) : Prog Handled :=
  on_resource request client_id "crawl_status" "crawl" job_id "GET"
    (_with_query request ("/v2/crawl/" +:+ job_id +:+ "/errors")) None None.
Definition batch_scrape_errors (request : Request) (job_id : string) (client_id : Z) : Prog Handled :=
  on_resource request client_id "batch" "batch_scrape" job_id "GET"
    (_with_query request ("/v2/batch/scrape/" +:+ job_id +:+ "/errors")) None None.
Definition batch_scrape_delete (request : Request) (job_id : string) (client_id : Z) : Prog Handled :=
  on_resource request client_id "batch" "batch_scrape" job_id "DELETE"
    (_with_query request ("/v2/batch/scrape/" +:+ job_id)) None None.
Definition agent_status (request : Request) (job_id : string) (client_id : Z) : Prog Handled :=
  on_resource request client_id "agent" "agent" job_id "GET"
    (_with_query request ("/v2/agent/" +:+ job_id)) None None.
Definition agent_delete (request : Request) (job_id : string) (client_id : Z) : Prog Handled :=
  on_resource request client_id "agent" "agent" job_id "DELETE"
    (_with_query request ("/v2/agent/" +:+ job_id)) None None.
Definition browser_create (request : Request) (payload : option Json) (client_id : Z) : Prog Handled :=
  let! result := creating request client_id "browser" "POST" (_with_query request "/v2/browser") None payload in
  ret (handled "browser" result).
Definition browser_list (request : Request) (client_id : Z) : Prog Handled :=
  plain request client_id (Some "browser") "GET" (_with_query request "/v2/browser") None.
Definition browser_execute (request : Request) (session_id : string) (payload : Json) (client_id : Z)
  : Prog Handled :=
  on_resource request client_id "browser" "browser" session_id "POST"
    (_with_query request ("/v2/browser/" +:+ session_id +:+ "/execute")) None (Some payload).
Definition browser_delete (request : Request) (session_id : string) (client_id : Z) : Prog Handled :=
  on_resource request client_id "browser" "browser" session_id "DELETE"
    (_with_query request ("/v2/browser/" +:+ session_id)) None None.
Definition extract (request : Request) (payload : Json) (client_id : Z) : Prog Handled :=
  let! result := creating request client_id "extract" "POST" (_with_query request "/v2/extract") None
    (Some payload) in
  ret (handled "extract" result).
Definition extract_status (request : Request) (job_id : string) (client_id : Z) : Prog Handled :=
  on_resource request client_id "extract" "extract" job_id "GET"
    (_with_query request ("/v2/extract/" +:+ job_id)) None None.
Definition scrape (request : Request) (payload : Json) (client_id : Z) : Prog Handled :=
  plain request client_id (Some "scrape") "POST" (_with_query request "/v2/scrape") (Some payload).
Definition search (request : Request) (payload : Json) (client_id : Z) : Prog Handled :=
  plain request client_id (Some "search") "POST" (_with_query request "/v2/search") (Some payload).
Definition map_urls (request : Request) (payload : Json) (client_id : Z) : Prog Handled :=
  plain request client_id (Some "map") "POST" (_with_query request "/v2/map") (Some payload).
Definition team_credit_usage (request : Request) (client_id : Z) : Prog Handled :=
  plain request client_id (Some "team_credit_usage") "GET" (_with_query request "/v2/team/credit-usage") None.
Definition team_queue_status (request : Request) (client_id : Z) : Prog Handled :=
  plain request client_id (Some "team_queue_status") "GET" (_with_query request "/v2/team/queue-status") None.
Definition team_credit_usage_historical (request : Request) (client_id : Z) : Prog Handled :=
  plain request client_id (Some "team_credit_usage_historical") "GET"
    (_with_query request "/v2/team/credit-usage/historical") None.
Definition team_token_usage (request : Request) (client_id : Z) : Prog Handled :=
  plain request client_id (Some "team_token_usage") "GET" (_with_query request "/v2/team/token-usage") None.
Definition team_token_usage_historical (request : Request) (client_id : Z) : Prog Handled :=
  plain request client_id (Some "team_token_usage_historical") "GET"
    (_with_query request "/v2/team/token-usage/historical") None.
Definition passthrough_get (request : Request) (client_id : Z) : Prog Handled :=
  plain request client_id None "GET" (_path_and_query request) None.
Definition passthrough_post (request : Request) (payload : option Json) (client_id : Z) : Prog Handled :=
  plain request client_id None "POST" (_path_and_query request) payload.
Definition passthrough_delete (request : Request) (client_id : Z) : Prog Handled :=
  plain request client_id None "DELETE" (_path_and_query request) None.
End Handlers.
End FirecrawlV2.
