(* ===== verification/RequestLog.v ===== *)
(** The request log of [app/middleware.py]: what the endpoints and error handlers leave
    on [request.state], the error details kept of it (redacted and bounded), the row
    written for each request, and [RequestIdMiddleware], which does this around the
    whole application. *)

From S2P Require Import Prelude PyText Json JsonText Redact Effects PyTime Models Config Env Security Deps.
From S2P Require Import Errors Middleware.
From S2P Require Import Idempotency DataPlane.
Import Deps Middleware.
Open Scope Z_scope.

(** The attributes of [request.state] the log reads; [None] when not set. *)
Record ReqState := mkReqState {
  st_request_id : string;
  st_client_id : option Z;
  st_api_key_id : option Z;
  st_endpoint : option string;
  st_retry_count : Z;
  st_error_code : option string;
  st_error_details : option Json;
  st_switch_reasons : option (list string);
  st_selection_score : option Q
}.
Definition state0 (request_id : string) : ReqState :=
  mkReqState request_id None None None 0 None None None None.
Definition set_error (e : ErrorState) (st : ReqState) : ReqState :=
  mkReqState (st_request_id st) (st_client_id st) (st_api_key_id st) (st_endpoint st) (st_retry_count st)
    (Some (es_code e)) (Some (es_details e)) (st_switch_reasons st) (st_selection_score st).
Definition set_client (client_id : Z) (st : ReqState) : ReqState :=
  mkReqState (st_request_id st) (Some client_id) (st_api_key_id st) (st_endpoint st) (st_retry_count st)
    (st_error_code st) (st_error_details st) (st_switch_reasons st) (st_selection_score st).
(** What an endpoint sets after the forward. *)
Definition set_handled (h : Handled) (st : ReqState) : ReqState :=
  mkReqState (st_request_id st) (st_client_id st) (hd_api_key_id h) (hd_endpoint h) (hd_retry_count h)
    (st_error_code st) (st_error_details st) (hd_switch_reasons h) (hd_selection_score h).

(** The counters' labels, [RequestMetrics]. *)
Record RequestMetrics := mkRequestMetrics {
  rm_endpoint : string;
  rm_method : string;
  rm_status_code : Z;
  rm_latency_ms : Z;
  rm_client_id : option Z
}.

Definition _DEFAULT_SENSITIVE_KEYS : list string :=
  ["authorization"; "api_key"; "token"; "password"; "secret"; "master_key"].
Definition _MAX_ERROR_DETAILS_CHARS : Z := 2000.
Definition _MAX_ERROR_BODY_PREVIEW_BYTES : nat := 8192.

Section Details.
Context `{!UnicodeTables, !FloatText}.

(** The start of [base]: the code and the message, if there are any. *)
Definition base_entries (safe : Json) : list (string * Json) :=
  match safe with
  | JObj o => omap (λ k, pair k <$> obj_get k o) ["code"; "message"]
  | _ => []
  end.
(** [base] with its message cut to 400 characters. *)
Definition details_base (safe : Json) : list (string * Json) :=
  let base := obj_set "truncated" (JBool true) (base_entries safe) in
  match obj_get "message" base with
  | None | Some JNull => base
  | Some msg =>
      let msg_text := match msg with JStr s => s | _ => dumps msg end in
      if slen msg_text >? 400
      then obj_set "message_truncated" (JBool true) (obj_set "message" (JStr (slice_to 400 msg_text)) base)
      else obj_set "message" (JStr msg_text) base
  end.
(** [for _ in range(5)]: ever shorter previews. *)
Fixpoint try_previews (n : nat) (base : list (string * Json)) (text : string) (preview_len : Z) : option string :=
  match n with
  | O => None
  | S n =>
      let dumped := dumps (JObj (obj_set "preview" (JStr (slice_to (Z.to_nat preview_len) text)) base)) in
      if slen dumped <=? _MAX_ERROR_DETAILS_CHARS then Some dumped
      else try_previews n base text (Z.max (preview_len * 6 / 10) 0)
  end.
Definition _dump_error_details (value : option Json) : option string :=
  match value with
  | None => None
  | Some value =>
      let safe := redact_data _DEFAULT_SENSITIVE_KEYS value in
      let text := dumps safe in
      Some (if slen text <=? _MAX_ERROR_DETAILS_CHARS then text
            else
              let base := details_base safe in
              match try_previews 5 base text (Z.min (slen text) _MAX_ERROR_DETAILS_CHARS) with
              | Some dumped => dumped
              | None =>
                  let dumped_base := dumps (JObj base) in
                  if slen dumped_base <=? _MAX_ERROR_DETAILS_CHARS then dumped_base
                  else dumps (JObj [("truncated", JBool true)])
              end)
  end.

(** ** Upstream error responses *)

Definition error_response_details `{!Host} (status_code : Z) (content_type body : string) : list (string * Json) :=
  let details := [("status_code", JInt status_code); ("content_type", JStr content_type);
                  ("body_bytes", JInt (slen body))] in
  if String.eqb body "" then details
  else
    let truncated := slen body >? Z.of_nat _MAX_ERROR_BODY_PREVIEW_BYTES in
    let details := details ++
      [("body_preview", JStr (decode_replace (slice_to _MAX_ERROR_BODY_PREVIEW_BYTES body)));
       ("body_truncated", JBool truncated)] in
    if contains "application/json" (lower content_type) && negb truncated then
      match h_json_loads body with Some j => details ++ [("body_json", j)] | None => details end
    else details.

(** The response that replaces a streamed one: its body has been read, and its length
    is stated anew. *)
Definition rebuilt (response : HttpResponse) : HttpResponse :=
  mkHttpResponse (rs_status response)
    (dict_set "content-length" (str_int (slen (rs_content response)))
       (dict_pop "content-length" (rs_headers response)))
    (rs_content response).

Definition _maybe_capture_error_from_response `{!Host} (st : ReqState) (response : HttpResponse)
  : ReqState * HttpResponse :=
  match st_error_code st with
  | Some _ => (st, response)
  | None =>
      if rs_status response <? 400 then (st, response)
      else
        let response := rebuilt response in
        let content_type := strip (default "" (dict_get "content-type" (rs_headers response))) in
        (set_error (mkErrorState "UPSTREAM_HTTP_ERROR"
           (JObj [("code", JStr "UPSTREAM_HTTP_ERROR"); ("message", JStr "Upstream returned error response");
                  ("details", JObj (error_response_details (rs_status response) content_type (rs_content response)))]))
           st, response)
  end.
End Details.

(** ** The row *)

Section Log.
Context {E : Env} `{!UnicodeTables, !FloatText}.

(** [request.state.error_details] with what the scheduler did. *)
Definition raw_details (st : ReqState) : list (string * Json) :=
  let raw := match st_error_details st with
             | Some (JObj o) => o
             | Some JNull | None => []
             | Some v => [("value", v)]
             end in
  let raw := match st_switch_reasons st with
             | Some (x :: l) => obj_set "switch_reasons" (JList (JStr <$> (x :: l))) raw
             | _ => raw
             end in
  match st_selection_score st with Some q => obj_set "selection_score" (JFloat q) raw | None => raw end.

Definition log_row (request : Request) (st : ReqState) (endpoint : string) (status_code : option Z)
    (response_time_ms : Z) (id now : Z) : RequestLog :=
  mkRequestLog id (or_str (st_request_id st) "-") (st_client_id st) (st_api_key_id st) endpoint (req_method request)
    status_code (Some response_time_ms)
    ((λ s, (200 <=? s) && (s <? 300)) <$> status_code) (st_retry_count st) (st_error_code st)
    (_dump_error_details (match raw_details st with [] => None | raw => Some (JObj raw) end))
    (req_header "x-idempotency-key" request) (Aware now).

(** [with SessionLocal() as db]: a session of its own, which shows what the database
    holds. *)
Definition own_session {A} (m : Prog A) : Prog A := rollback ;;! finally m rollback.

(** [getattr(request.state, "endpoint", None) or _infer_api_endpoint(path)]. *)
Definition log_endpoint (request : Request) (st : ReqState) : option string :=
  match st_endpoint st with
  | Some e => if String.eqb e "" then _infer_api_endpoint (req_path request) else Some e
  | None => _infer_api_endpoint (req_path request)
  end.

Definition _persist_request_log (request : Request) (st : ReqState) (status_code : option Z) (response_time_ms : Z)
  : Prog (option string) :=
  match log_endpoint request st with
  | None => ret None
  | Some endpoint =>
      catch_all
        (own_session
           (catch_all
              (let! now := now_utc in
               let! id := gets (λ w, db_next_id (w_db w)) in
               assign (λ t, set_t_request_logs
                 (<[id := log_row request st endpoint status_code response_time_ms id now]> (t_request_logs t)) t) ;;!
               commit)
              (λ e, rollback ;;! raise e)))
        (λ _, ret tt) ;;!
      ret (Some endpoint)
  end.

(** [RequestIdMiddleware.dispatch] around the rest of the application, [call_next];
    [fresh] is [uuid4().hex].  The result is the response and what is counted. *)
Definition RequestIdMiddleware_dispatch (fresh : string) (request : Request)
    (call_next : ReqState → Prog (HttpResponse * ReqState)) : Prog (HttpResponse * option RequestMetrics) :=
  let request_id := choose_request_id (req_header "x-request-id" request) fresh in
  let! start := monotonic in
  let! ' (response, st) := call_next (state0 request_id) in
  let response := mkHttpResponse (rs_status response) (dict_set "x-request-id" request_id (rs_headers response))
                    (rs_content response) in
  let '(st, response) := _maybe_capture_error_from_response st response in
  let! stop := monotonic in
  let latency_ms := int_of_float ((stop - start) * 1000) in
  let! endpoint := _persist_request_log request st (Some (rs_status response)) latency_ms in
  ret (response,
       (λ e, mkRequestMetrics e (req_method request) (rs_status response) latency_ms (st_client_id st)) <$> endpoint).

(** ** Under the middleware: an endpoint of the data plane with its dependencies *)

(** [starlette.responses.Response] stores header names in lower case; a JSON response
    is written without spaces. *)
Definition sent (r : HttpResponse) : HttpResponse :=
  mkHttpResponse (rs_status r) ((λ kv, (lower kv.1, kv.2)) <$> rs_headers r) (rs_content r).
Definition json_response (compact : Json → string) (r : JSONResponse) : HttpResponse :=
  sent (mkHttpResponse (jr_status r) (jr_headers r) (compact (jr_body r))).

(** [ExceptionMiddleware] with the handler of [FcamError]; other exceptions pass to the
    outside. *)
Definition handling (compact : Json → string) (request : Request) (st : ReqState)
    (m : Prog (HttpResponse * ReqState)) : Prog (HttpResponse * ReqState) :=
  try_except m (λ e,
    match e with
    | EFcam f => let '(es, r) := _handle_fcam_error (req_path request) (st_request_id st) f in
                 Some (ret (json_response compact r, set_error es st))
    | _ => None
    end).
Definition endpoint_app `{!Digests, !ZoneInfo} (config : AppConfig) (secrets : Secrets) (compact : Json → string)
    (request : Request) (handler : Z → Prog Handled) (st : ReqState) : Prog (HttpResponse * ReqState) :=
  finally
    (handling compact request st
      (let! client_id := require_client secrets request in
       let st := set_client client_id st in
       handling compact request st
         (let! h := with_governance config client_id (handler client_id) in
          ret (sent (hd_response h), set_handled h st))))
    rollback.

(** ** The stack of [create_app] *)

(** [FcamErrorMiddleware.dispatch]: what the limits refuse. *)
Definition FcamErrorMiddleware_dispatch (compact : Json → string) (request : Request)
    (call_next : ReqState → Prog (HttpResponse * ReqState)) (st : ReqState) : Prog (HttpResponse * ReqState) :=
  try_except (call_next st) (λ e,
    match e with
    | EFcam f => Some (ret (json_response compact
                              (if is_proxy_path (req_path request)
                               then build_proxy_error_response (st_request_id st) f
                               else build_error_response (st_request_id st) f),
                            set_error (fcam_error_state f) st))
    | _ => None
    end).
(** [RequestLimitsMiddleware.dispatch]; [call_next] gets the body that was read. *)
Definition RequestLimitsMiddleware_dispatch (l : Limits) (request : Request) (chunks : list string)
    (call_next : string → ReqState → Prog (HttpResponse * ReqState)) (st : ReqState)
  : Prog (HttpResponse * ReqState) :=
  let! body := of_res (request_limits l request chunks) in call_next body st.
(** The middleware in the order they are added, the last one outermost. *)
Definition middleware_stack (l : Limits) (fresh : string) (compact : Json → string) (request : Request)
    (chunks : list string) (app : string → ReqState → Prog (HttpResponse * ReqState))
  : Prog (HttpResponse * option RequestMetrics) :=
  RequestIdMiddleware_dispatch fresh request
    (FcamErrorMiddleware_dispatch compact request (RequestLimitsMiddleware_dispatch l request chunks app)).
End Log.
