(* ===== verification/RequestLogProps.v ===== *)
(** The request log: error details stay within their bound, and each response is
    logged once, as it was sent. *)

From S2P Require Import Prelude PyText Json JsonText Redact Effects PyTime Models Config Env Security Deps.
From S2P Require Import Errors Middleware.
From S2P Require Import Idempotency DataPlane RequestLog Forwarder Sim SimApp.
Import Deps Middleware.
Open Scope Z_scope.

Module RequestLogTheorems.
Section Details.
Context {UT : UnicodeTables} {FT : FloatText}.

Lemma try_previews_bounded n base text : ∀ len t, try_previews n base text len = Some t →
  slen t ≤ _MAX_ERROR_DETAILS_CHARS.
Proof.
  induction n as [|n IH]; intros len t H; [done|]. cbn [try_previews] in H. case_match eqn:Hl.
  - injection H as <-. by apply Z.leb_le.
  - by apply IH in H.
Qed.

#[local] Arguments try_previews : simpl never.
Lemma or_base_bounded previews base t :
  (∀ d, previews = Some d → slen d ≤ _MAX_ERROR_DETAILS_CHARS) →
  t = (match previews with
       | Some dumped => dumped
       | None => if slen (dumps (JObj base)) <=? _MAX_ERROR_DETAILS_CHARS then dumps (JObj base)
                 else dumps (JObj [("truncated", JBool true)])
       end) →
  slen t ≤ 2000.
Proof.
  change 2000 with _MAX_ERROR_DETAILS_CHARS. intros Hp ->. destruct previews as [d|]; [by apply Hp|].
  destruct (slen (dumps (JObj base)) <=? _) eqn:H; [by apply Z.leb_le|]. vm_compute. done.
Qed.
Lemma details_bounded value t : _dump_error_details value = Some t → slen t ≤ 2000.
Proof.
  destruct value as [value|]; [|done]. unfold _dump_error_details. cbv zeta. intros [= <-].
  destruct (slen (dumps (redact_data _DEFAULT_SENSITIVE_KEYS value)) <=? _) eqn:H1.
  - by apply Z.leb_le in H1.
  - eapply or_base_bounded; [|reflexivity]. apply try_previews_bounded.
Qed.

(** The error details of the log are bounded whatever the error is: every value has
    details, they are never longer than 2000 characters, and a value whose redacted
    text fits is kept whole. *)
Theorem error_details_bounded value :
  let text := dumps (redact_data _DEFAULT_SENSITIVE_KEYS value) in
  ∃ t, _dump_error_details (Some value) = Some t ∧ slen t ≤ 2000 ∧ (t = text ↔ slen text ≤ 2000).
Proof.
  intros text. eexists. split; [reflexivity|].
  match goal with |- slen ?t ≤ _ ∧ _ => assert (slen t ≤ 2000) as Hb by exact (details_bounded (Some value) _ eq_refl) end.
  split; [exact Hb|]. split; [by intros <-|]. intros Ht.
  change _MAX_ERROR_DETAILS_CHARS with 2000. fold text. by rewrite (proj2 (Z.leb_le _ _) Ht).
Qed.
End Details.

Section Log.
Context {E : Env} {OL : OrmLaws} {UT : UnicodeTables} {FT : FloatText}.

Lemma monotonic_run w : ∃ q w', monotonic w = (Ok q, w') ∧ w_db w' = w_db w.
Proof. unfold monotonic, on_host, step. destruct (h_mono (w_host w)) as [q h]. by eexists _, _. Qed.
Lemma now_run w : ∃ t w', now_utc w = (Ok t, w') ∧ w_db w' = w_db w.
Proof. unfold now_utc, on_host, step. destruct (h_now (w_host w)) as [q h]. by eexists _, _. Qed.
Lemma rollback_run w : ∃ w', rollback w = (Ok tt, w') ∧ view w' = durable w ∧ durable w' = durable w.
Proof.
  eexists. split; [reflexivity|]. unfold view, durable. simpl. by rewrite view_rollback, durable_rollback.
Qed.

(** The tables with one more row in the log. *)
Definition logged (id : Z) (row : RequestLog) (t : Tables) : Tables :=
  set_t_request_logs (<[id := row]> (t_request_logs t)) t.

(** What became of the row: it is in the database, or the database refused it. *)
Definition row_kept (row : Z → Z → RequestLog) (w w' : World) : Prop :=
  ∃ id now, t_request_logs (durable w) !! id = None ∧
    (durable w' = logged id (row id now) (durable w) ∨
     durable w' = durable w ∧ ∃ s, db_view s = logged id (row id now) (durable w) ∧ (db_commit s).1 ≠ Committed).

Lemma persist_run request st status ms w :
  ∃ w', _persist_request_log request st status ms w = (Ok (log_endpoint request st), w') ∧
    match log_endpoint request st with
    | None => w' = w
    | Some e => row_kept (log_row request st e status ms) w w'
    end.
Proof.
  unfold _persist_request_log. destruct (log_endpoint request st) as [e|]; [|by exists w].
  unfold own_session. destruct (rollback_run w) as (w1 & Hr1 & Hv1 & Hd1).
  destruct (now_run w1) as (now & w2 & Hnow & Hdb2).
  set (id := db_next_id (w_db w2)). set (row := log_row request st e status ms id now).
  set (s := db_assign (logged id row) (w_db w2)).
  assert (db_view (w_db w2) = durable w) as Hv2 by (rewrite Hdb2; done).
  assert (db_durable (w_db w2) = durable w) as Hd2 by (rewrite Hdb2; done).
  assert (db_view s = logged id row (durable w)) as Hvs by (unfold s; by rewrite view_assign, Hv2).
  assert (t_request_logs (durable w) !! id = None) as Hid.
  { rewrite <-Hv2. by destruct (next_id_fresh (w_db w2)) as (_ & _ & _ & _ & _ & ? & _). }
  pose proof (durable_commit s) as Hc. assert (db_durable s = durable w) as Hds by (unfold s; by rewrite durable_assign).
  unfold catch_all, try_except, finally, bind. rewrite Hr1, Hnow. cbn [gets modify assign ret raise].
  fold id. fold row. change (set_w_db _ w2) with (set_w_db s w2). unfold commit, bind, step. cbn [w_db set_w_db].
  destruct (db_commit s) as [[] s'] eqn:Es; cbn [ret raise fst snd] in *.
  - eexists. split; [reflexivity|]. exists id, now. split; [done|]. left.
    unfold durable at 1. simpl. by rewrite durable_rollback, Hc.
  - eexists. split; [reflexivity|]. exists id, now. split; [done|]. right. split.
    + unfold durable at 1. simpl. by rewrite !durable_rollback, Hc.
    + exists s. by rewrite Es.
  - eexists. split; [reflexivity|]. exists id, now. split; [done|]. right. split.
    + unfold durable at 1. simpl. by rewrite !durable_rollback, Hc.
    + exists s. by rewrite Es.
Qed.

Lemma bind_pair_run {A B C} (m : Prog (A * B)) (f : A → B → Prog C) w a b w' :
  m w = (Ok (a, b), w') → bind m (λ x, match x with (a, b) => f a b end) w = f a b w'.
Proof. unfold bind. by intros ->. Qed.

Lemma capture_status st response : let '(st', response') := _maybe_capture_error_from_response st response in
  rs_status response' = rs_status response ∧ rs_content response' = rs_content response ∧
  st_request_id st' = st_request_id st ∧ st_client_id st' = st_client_id st ∧ st_api_key_id st' = st_api_key_id st ∧
  st_retry_count st' = st_retry_count st ∧ st_endpoint st' = st_endpoint st ∧
  (400 ≤ rs_status response → st_error_code st' ≠ None) ∧
  (∀ k, k ≠ "content-length" → dict_get k (rs_headers response') = dict_get k (rs_headers response)).
Proof.
  unfold _maybe_capture_error_from_response. destruct (st_error_code st) as [c|] eqn:Hc.
  { split_and!; try done. by rewrite Hc. }
  destruct (rs_status response <? 400) eqn:Hs.
  { split_and!; try done. apply Z.ltb_lt in Hs. lia. }
  split_and!; try done. intros k Hk. unfold rebuilt. simpl.
  by rewrite dict_get_set_ne, dict_get_pop_ne by done.
Qed.

(** A run of the middleware, given how the application ended: an exception passes
    and nothing is written; a response is passed on, and logged if its path is one of the
    data plane. *)
Definition logs_it (request : Request) (id : string) (inner : Res (HttpResponse * ReqState) * World)
    (outer : Res (HttpResponse * option RequestMetrics) * World) : Prop :=
  match inner with
  | (Raise e, w1) => outer = (Raise e, w1)
  | (Ok (response0, st), w1) =>
      st_request_id st = id →
      ∃ response metrics w', outer = (Ok (response, metrics), w') ∧
        rs_status response = rs_status response0 ∧ rs_content response = rs_content response0 ∧
        dict_get "x-request-id" (rs_headers response) = Some id ∧
        match log_endpoint request st with
        | None => durable w' = durable w1
        | Some endpoint =>
            ∃ row : Z → Z → RequestLog, row_kept row w1 w' ∧ ∀ i now,
              rl_request_id (row i now) = id ∧ rl_client_id (row i now) = st_client_id st ∧
              rl_api_key_id (row i now) = st_api_key_id st ∧ rl_endpoint (row i now) = endpoint ∧
              rl_method (row i now) = req_method request ∧
              rl_status_code (row i now) = Some (rs_status response) ∧
              rl_success (row i now) = Some ((200 <=? rs_status response) && (rs_status response <? 300)) ∧
              rl_retry_count (row i now) = st_retry_count st ∧
              (400 ≤ rs_status response → rl_error_message (row i now) ≠ None) ∧
              (∀ t, rl_error_details (row i now) = Some t → slen t ≤ 2000)
        end
  end.

(** C18. Each response is logged once, as it is sent, and logging never gets in its way.
    When the application answers, the middleware passes on its status and body under
    the request's id, whatever becomes of the log; for a path of the data plane it
    writes one new row and changes nothing else in the database, unless the database
    refuses that row, and the row has the id, the client, the key, the status, whether
    it was a success, and for every status from 400 on an error code, with details of
    at most 2000 characters.  When an exception leaves the application, the request
    leaves no row. *)
Theorem responses_are_logged fresh request call_next w :
  fresh ≠ "" →
  let id := choose_request_id (req_header "x-request-id" request) fresh in
  logs_it request id (call_next (state0 id) (monotonic w).2) (RequestIdMiddleware_dispatch fresh request call_next w).
Proof.
  intros Hfresh id. unfold RequestIdMiddleware_dispatch, logs_it. fold id.
  destruct (monotonic_run w) as (q & w0 & Hq & _). rewrite (bind_run _ _ _ _ _ Hq). rewrite Hq. cbn [snd].
  destruct (call_next (state0 id) w0) as [[[response0 st]|e] w1] eqn:Hcall.
  2:{ unfold bind at 1. by rewrite Hcall. }
  rewrite (bind_pair_run _ _ _ _ _ _ Hcall).
  set (response1 := mkHttpResponse _ _ _).
  pose proof (capture_status st response1) as Hcap.
  destruct (_maybe_capture_error_from_response st response1) as [st' response] eqn:Ecap.
  destruct Hcap as (Hs & Hb & Hid & Hcl & Hk & Hretry & Hep & Herr & Hhd).
  destruct (monotonic_run w1) as (q2 & w2 & Hq2 & Hdb2). rewrite (bind_run _ _ _ _ _ Hq2).
  set (ms := int_of_float _).
  destruct (persist_run request st' (Some (rs_status response)) ms w2) as (w3 & Hp & Hrow).
  rewrite (bind_run _ _ _ _ _ Hp). cbn [ret]. intros Hst.
  assert (durable w2 = durable w1) as Hd by (unfold durable; by rewrite Hdb2).
  assert (log_endpoint request st' = log_endpoint request st) as Hle by (unfold log_endpoint; by rewrite Hep).
  rewrite Hle in Hrow |- *.
  eexists _, _, _. split; [reflexivity|]. split_and!; [done|done| |].
  { rewrite Hhd by done. subst response1. simpl. by rewrite dict_get_set. }
  destruct (log_endpoint request st) as [endpoint|]; [|by subst w3].
  exists (log_row request st' endpoint (Some (rs_status response)) ms). split.
  { unfold row_kept in *. by rewrite Hd in Hrow. }
  intros i now. unfold log_row. cbn [rl_request_id rl_client_id rl_api_key_id rl_endpoint rl_method rl_status_code
    rl_success rl_retry_count rl_error_message rl_error_details].
  split_and!; try done.
  - rewrite Hid, Hst. unfold or_str. destruct (String.eqb_spec id "") as [Hnil|]; [|done].
    exfalso. revert Hnil. unfold id, choose_request_id. destruct (req_header _ _) as [v|]; [|done].
    destruct (negb (String.eqb v "") && _is_valid_request_id v) eqn:Hv; [|done].
    intros ->. by simpl in Hv.
  - rewrite Hs. exact Herr.
  - apply details_bounded.
Qed.
End Log.

Import Simulation SimApp.
#[local] Existing Instance ascii_tables.
#[local] Instance demo_floats : FloatText := {| float_repr := str_int ∘ int_of_float |}.

(** A client scrapes a page, and the upstream fails: the answer is passed on, and the log
    has its row. *)
Definition demo_request : Request := app_request "POST" "/v1/scrape".
Definition demo_app : ReqState → Prog (HttpResponse * ReqState) :=
  FcamErrorMiddleware_dispatch dumps demo_request
    (RequestLimitsMiddleware_dispatch (init_limits 100 ["scrape"] [] true) demo_request []
       (λ _, endpoint_app default_AppConfig app_secrets dumps demo_request
               (FirecrawlCompat.scrape app_self demo_request (JObj [("url", JStr "https://a")])))).
Definition demo_world : World :=
  app_world [HttpReply (mkHttpResponse 502 [("content-type", "text/plain")] "Bearer abcdef failed")].

Lemma responses_are_logged_witness :
  logs_it demo_request "id-1" (demo_app (state0 "id-1") (monotonic demo_world).2)
    (RequestIdMiddleware_dispatch "id-1" demo_request demo_app demo_world) ∧
  (λ p, (rl_request_id p.2, rl_client_id p.2, rl_status_code p.2, rl_error_message p.2)) <$>
    map_to_list (t_request_logs (durable (RequestIdMiddleware_dispatch "id-1" demo_request demo_app demo_world).2))
  = [("id-1", Some 5, Some 502, Some "UPSTREAM_HTTP_ERROR")].
Proof.
  split; [apply (responses_are_logged "id-1" demo_request demo_app demo_world); done|].
  vm_compute. reflexivity.
Defined.

(** The endpoint of a path under [/exa/] may not fit the column of the log, [String(32)]. *)
Example long_exa_endpoint :
  slen <$> Middleware._infer_api_endpoint "/exa/abcdefghijklmnopqrstuvwxyz0123456789" = Some 36.
Proof. vm_compute. reflexivity. Qed.
End RequestLogTheorems.
