(* ===== verification/V2Routes.v ===== *)
(** The routes of [/v2]: the templates under which [firecrawl_v2_compat.py] declares its
    handlers, in the order of the declarations, and the theorem that every declared
    path reaches its own handler, although fixed paths, paths with a job id and the
    catch-all overlap.  Matching a path against a template is the framework's, the
    class [PathTemplates]. *)

From S2P Require Import Prelude Effects PyText Json Models Config Env Security Forwarder Idempotency.
From S2P Require Import ResourceBinding Deps DataPlane FirecrawlV2 Middleware Sim SimApp.
Import Forwarder FirecrawlV2.
Open Scope Z_scope.

Module V2Routes.

(** A template, by the parts between its slashes: [crawl], [{job_id}], or
    [{path:path}] at the end. *)
Inductive Seg :=
  | Lit (s : string)
  | Param
  | Rest.
Notation template := (list Seg).

(** A path parameter is a part of the path; it is not empty. *)
Definition is_param (x : string) : Prop := x ≠ "" ∧ string_existsb (Ascii.eqb "/"%char) x = false.
(** What FastAPI documents: the parts [segs] of a path are an instance of a template,
    with the parameters [xs]. *)
Inductive fits : template → list string → list string → Prop :=
  | fits_end : fits [] [] []
  | fits_lit s t segs xs : fits t segs xs → fits (Lit s :: t) (s :: segs) xs
  | fits_param x t segs xs : x ≠ "" → fits t segs xs → fits (Param :: t) (x :: segs) (x :: xs)
  | fits_rest segs : segs ≠ [] → fits [Rest] segs [join "/" segs].

(** The parts of a path, after its leading slash. *)
Definition segments (path : string) : list string := split_char "/"%char (slice_from 1 path).
Class PathTemplates := { template_match : template → string → option (list string) }.
Class PathTemplateLaws `{!PathTemplates} := {
  template_match_spec : ∀ t path xs,
    startswith "/" path = true → template_match t path = Some xs ↔ fits t (segments path) xs
}.

Section Table.
Context {E : Env} `{!Digests, !ZoneInfo, !Codecs} (self : Self) (depth : nat).

(** The parts of an endpoint's declaration; the handler gets the path parameters
    and the parsed body, if there is one. *)
Record Route := mkRoute {
  rt_method : string;
  rt_template : template;
  rt_handler : Request → list string → option Json → Z → Prog Handled
}.

(** [payload: Any = Body(...)]. *)
Definition body_required (f : Json → Z → Prog Handled) (payload : option Json) (client_id : Z) : Prog Handled :=
  match payload with
  | Some p => f p client_id
  | None => raise (EOther "RequestValidationError")
  end.
(** A handler with one path parameter. *)
Definition with_param (f : string → Z → Prog Handled) (xs : list string) (client_id : Z) : Prog Handled :=
  f (nth 0 xs "") client_id.

Definition post_body (t : template) (f : Request → Json → Z → Prog Handled) : Route :=
  mkRoute "POST" (Lit "v2" :: t) (λ rq _ p, body_required (f rq) p).
Definition get_plain (t : template) (f : Request → Z → Prog Handled) : Route :=
  mkRoute "GET" (Lit "v2" :: t) (λ rq _ _, f rq).
Definition on_param (method : string) (t : template) (f : Request → string → Z → Prog Handled) : Route :=
  mkRoute method (Lit "v2" :: t) (λ rq xs _, with_param (f rq) xs).

(** The routes before the catch-alls. *)
Definition declared_routes : list Route := [
  post_body [Lit "crawl"] (crawl self depth);
  post_body [Lit "crawl"; Lit "start"] (crawl_start self depth);
  get_plain [Lit "crawl"; Lit "active"] (crawl_active self);
  post_body [Lit "crawl"; Lit "params-preview"] (crawl_params_preview self);
  on_param "GET" [Lit "crawl"; Param] (crawl_status self);
  on_param "GET" [Lit "crawl"; Lit "status"; Param] (crawl_status_alias self);
  post_body [Lit "agent"] (agent self depth);
  post_body [Lit "batch"; Lit "scrape"] (batch_scrape self);
  post_body [Lit "batch"; Lit "scrape"; Lit "start"] (batch_scrape_start self);
  on_param "GET" [Lit "batch"; Lit "scrape"; Param] (batch_scrape_status self);
  on_param "GET" [Lit "batch"; Lit "scrape"; Lit "status"; Param] (batch_scrape_status_alias self);
  on_param "DELETE" [Lit "crawl"; Param] (crawl_delete self);
  on_param "GET" [Lit "crawl"; Param; Lit "errors"] (crawl_errors self);
  on_param "GET" [Lit "batch"; Lit "scrape"; Param; Lit "errors"] (batch_scrape_errors self);
  on_param "DELETE" [Lit "batch"; Lit "scrape"; Param] (batch_scrape_delete self);
  on_param "GET" [Lit "agent"; Param] (agent_status self);
  on_param "DELETE" [Lit "agent"; Param] (agent_delete self);
  mkRoute "POST" [Lit "v2"; Lit "browser"] (λ rq _ p, browser_create self rq p);
  get_plain [Lit "browser"] (browser_list self);
  mkRoute "POST" [Lit "v2"; Lit "browser"; Param; Lit "execute"]
    (λ rq xs p, body_required (λ p, with_param (λ x, browser_execute self rq x p) xs) p);
  on_param "DELETE" [Lit "browser"; Param] (browser_delete self);
  post_body [Lit "extract"] (extract self);
  on_param "GET" [Lit "extract"; Param] (extract_status self);
  post_body [Lit "scrape"] (scrape self);
  post_body [Lit "search"] (search self);
  post_body [Lit "map"] (map_urls self);
  get_plain [Lit "team"; Lit "credit-usage"] (team_credit_usage self);
  get_plain [Lit "team"; Lit "queue-status"] (team_queue_status self);
  get_plain [Lit "team"; Lit "credit-usage"; Lit "historical"] (team_credit_usage_historical self);
  get_plain [Lit "team"; Lit "token-usage"] (team_token_usage self);
  get_plain [Lit "team"; Lit "token-usage"; Lit "historical"] (team_token_usage_historical self)
].
Definition catch_alls : list Route := [
  get_plain [Rest] (passthrough_get self);
  mkRoute "POST" [Lit "v2"; Rest] (λ rq _ p, passthrough_post self rq p);
  mkRoute "DELETE" [Lit "v2"; Rest] (λ rq _ _, passthrough_delete self rq)
].
Definition router : list Route := declared_routes ++ catch_alls.

(** The first route, in the order of declaration, for the method and the path. *)
Fixpoint resolve `{!PathTemplates} (routes : list Route) (method path : string) : option (Route * list string) :=
  match routes with
  | [] => None
  | r :: routes' =>
      if String.eqb (rt_method r) method then
        match template_match (rt_template r) path with
        | Some xs => Some (r, xs)
        | None => resolve routes' method path
        end
      else resolve routes' method path
  end.

(** A request to the router; without a route the framework answers 404 or 405. *)
Definition dispatch `{!PathTemplates} (secrets : Secrets) (request : Request) (payload : option Json)
  : Prog Handled :=
  match resolve router (req_method request) (req_path request) with
  | Some (r, xs) => serve self secrets request (rt_handler r request xs payload)
  | None => raise (EOther "HTTPException")
  end.
End Table.
End V2Routes.

(** * Theorems *)

Import Forwarder FirecrawlV2 V2Routes.

Module V2RoutesFacts.

(** ** Paths and their parts *)

Definition slash_free (s : string) : Prop := string_existsb (Ascii.eqb "/"%char) s = false.

Lemma split_char_slash_free s : slash_free s → split_char "/"%char s = [s].
Proof.
  induction s as [|c s IH]; [done|]. unfold slash_free. cbn [string_existsb]. intros [H1 H2]%orb_false_iff.
  cbn [split_char]. rewrite H1, IH by done. done.
Qed.
Lemma split_char_app s r : slash_free s →
  split_char "/"%char (s +:+ String "/"%char r) = s :: split_char "/"%char r.
Proof.
  induction s as [|c s IH]; [done|]. unfold slash_free. cbn [string_existsb]. intros [H1 H2]%orb_false_iff.
  change (String c s +:+ String "/" r) with (String c (s +:+ String "/" r)).
  cbn [split_char]. by rewrite H1, IH.
Qed.
Lemma split_join segs : segs ≠ [] → Forall slash_free segs → split_char "/"%char (join "/" segs) = segs.
Proof.
  induction segs as [|s [|s' segs] IH]; [done|intros _ [Hs _]%Forall_cons; by apply split_char_slash_free|].
  intros _ [Hs Hr]%Forall_cons.
  change (join "/" (s :: s' :: segs)) with (s +:+ String "/" (join "/" (s' :: segs))).
  rewrite split_char_app by done. by rewrite IH.
Qed.

(** ** Templates *)

Fixpoint match_parts (t : list Seg) (segs : list string) : option (list string) :=
  match t, segs with
  | [], [] => Some []
  | Lit s :: t', s' :: segs' => if String.eqb s s' then match_parts t' segs' else None
  | Param :: t', x :: segs' =>
      if String.eqb x "" then None else (x ::.) <$> match_parts t' segs'
  | [Rest], _ :: _ => Some [join "/" segs]
  | _, _ => None
  end.
Lemma match_parts_spec t segs xs : match_parts t segs = Some xs ↔ fits t segs xs.
Proof.
  split.
  - revert segs xs. induction t as [|[s| |] t IH]; intros [|x segs] xs; simpl; try done.
    + intros [= <-]. constructor.
    + destruct (String.eqb_spec s x) as [->|]; [|done]. intros H. constructor. by apply IH.
    + destruct (String.eqb_spec x ""); [done|]. intros (ys & H & ->)%fmap_Some. constructor; [done|]. by apply IH.
    + by destruct t.
    + destruct t; [|done]. intros [= <-]. by constructor.
  - induction 1 as [|s t segs xs _ IH|x t segs xs Hx _ IH|segs Hs]; simpl.
    + done.
    + by rewrite String.eqb_refl.
    + apply String.eqb_neq in Hx. by rewrite Hx, IH.
    + by destruct segs.
Qed.

Section Match.
Context `{!PathTemplates, !PathTemplateLaws}.

Lemma template_match_parts t segs : segs ≠ [] → Forall slash_free segs →
  template_match t ("/" +:+ join "/" segs) = match_parts t segs.
Proof.
  intros Hn Hs. apply option_eq. intros xs. rewrite template_match_spec by (simpl; by destruct (join "/" segs)).
  unfold segments. change (slice_from 1 ("/" +:+ join "/" segs)) with (join "/" segs).
  by rewrite split_join, match_parts_spec.
Qed.

Context {E : Env} `{!Digests, !ZoneInfo, !Codecs}.
Lemma resolve_parts (routes : list Route) m segs : segs ≠ [] → Forall slash_free segs →
  resolve routes m ("/" +:+ join "/" segs) =
  (fix go routes := match routes with
   | [] => None
   | r :: routes' => if String.eqb (rt_method r) m then
       match match_parts (rt_template r) segs with Some xs => Some (r, xs) | None => go routes' end
       else go routes'
   end) routes.
Proof.
  intros Hn Hs. induction routes as [|r routes IH]; [done|]. cbn [resolve].
  by rewrite template_match_parts, IH.
Qed.
End Match.

(** ** Which templates cannot match the same path *)

(** Parts that occur as fixed ones where another template has a job id. *)
Definition reserved : list string := ["active"; "status"].
(** What a job id may be without being taken for such a part. *)
Definition job_id_ok (x : string) : Prop := is_param x ∧ ∀ s, In s reserved → x ≠ s.

(** No path of [t] with proper job ids matches [t']. *)
Fixpoint apart (t' t : list Seg) : bool :=
  match t', t with
  | [], _ :: _ | _ :: _, [] => true
  | Lit a :: t1, Lit b :: t2 => negb (String.eqb a b) || apart t1 t2
  | Lit a :: t1, Param :: t2 => str_in a reserved || apart t1 t2
  | Param :: t1, Lit _ :: t2 | Param :: t1, Param :: t2 => apart t1 t2
  | _, _ => false
  end.
Definition plain_seg (s : Seg) : bool :=
  match s with Lit l => negb (string_existsb (Ascii.eqb "/"%char) l) | Param => true | Rest => false end.

Lemma apart_sound t' : ∀ t segs xs,
  apart t' t = true → forallb plain_seg t' = true → forallb plain_seg t = true →
  fits t segs xs → Forall job_id_ok xs → match_parts t' segs = None.
Proof.
  induction t' as [|[a| |] t' IH]; intros t segs xs Ha Hp' Hp Hf Hx; simpl in Hp'; bool_prop; try done;
    destruct Hf as [|b t segs xs Hf|x t segs xs Hne Hf|segs Hs]; simpl in *; bool_prop; try done.
  - destruct (String.eqb_spec a b) as [->|]; [|done]. destruct Ha as [Ha|Ha]; [done|]. by eapply IH.
  - apply Forall_cons in Hx as [[_ Hr] Hx]. destruct (String.eqb_spec a x) as [->|]; [|done].
    destruct Ha as [Ha|Ha]; [|by eapply IH].
    change (str_in x reserved = true) in Ha.
    apply existsb_exists in Ha as (y & Hy & ->%String.eqb_eq). by destruct (Hr y Hy).
  - case_match; [done|]. by rewrite (IH t segs xs).
  - apply Forall_cons in Hx as [_ Hx]. case_match; [done|]. by rewrite (IH t segs xs).
Qed.

(** ** Tables *)

Definition signature : Type := string * list Seg.
(** No route of the list is shadowed by an earlier one. *)
Fixpoint unshadowed (rs : list signature) : bool :=
  match rs with
  | [] => true
  | (m, t) :: rs' =>
      forallb plain_seg t && forallb (λ r, negb (String.eqb m r.1) || apart t r.2) rs' && unshadowed rs'
  end.
Definition signature_of {E : Env} (r : Route) : signature := (rt_method r, rt_template r).

Lemma plain_parts t segs xs : fits t segs xs → forallb plain_seg t = true → Forall job_id_ok xs →
  Forall slash_free segs.
Proof.
  induction 1 as [|s t segs xs _ IH|x t segs xs Hx _ IH|]; simpl; intros Hp Hxs; try done.
  - apply andb_prop in Hp as [Hs%negb_true_iff Hp]. apply Forall_cons_2; [exact Hs|by apply IH].
  - apply Forall_cons in Hxs as [[[_ Hs] _] Hxs]. apply Forall_cons_2; [exact Hs|by apply IH].
Qed.

Section Resolve.
Context {E : Env} `{!Digests, !ZoneInfo, !Codecs, !PathTemplates, !PathTemplateLaws}.

Lemma unshadowed_resolves (rs rs' : list Route) r segs xs :
  unshadowed (map signature_of rs) = true → In r rs → fits (rt_template r) segs xs → segs ≠ [] →
  Forall job_id_ok xs → resolve (rs ++ rs') (rt_method r) ("/" +:+ join "/" segs) = Some (r, xs).
Proof.
  intros Hu Hin Hf Hn Hx.
  assert (forallb plain_seg (rt_template r) = true) as Hp.
  { revert Hu Hin. clear. induction rs as [|q rs IH]; [done|]. simpl. rewrite !andb_true_iff.
    intros [[Hq _] Hu] [->|Hin]; auto. }
  pose proof (plain_parts _ _ _ Hf Hp Hx) as Hs. induction rs as [|q rs IH]; [done|].
  simpl in Hu. rewrite !andb_true_iff in Hu. destruct Hu as [[Hq Hall] Hu].
  rewrite <-app_comm_cons. cbn [resolve]. rewrite template_match_parts by done. destruct Hin as [->|Hin].
  - by rewrite String.eqb_refl, (proj2 (match_parts_spec _ _ _) Hf).
  - destruct (String.eqb_spec (rt_method q) (rt_method r)) as [Hm|]; [|by apply IH].
    rewrite forallb_forall in Hall. specialize (Hall (signature_of r) (in_map _ _ _ Hin)). simpl in Hall.
    rewrite Hm, String.eqb_refl in Hall. simpl in Hall.
    rewrite (apart_sound _ _ _ _ Hall Hq Hp Hf Hx). by apply IH.
Qed.
End Resolve.

(** ** The path check of the middleware *)

Lemma split_once_join s rest : slash_free s → (split_once "/"%char (join "/" (s :: rest))).1 = s.
Proof.
  assert (∀ r, slash_free s → (split_once "/"%char (s +:+ String "/"%char r)).1 = s) as Happ.
  { intros r. induction s as [|c s IH]; [done|]. unfold slash_free. cbn [string_existsb].
    intros [H1 H2]%orb_false_iff. change (String c s +:+ String "/" r) with (String c (s +:+ String "/" r)).
    cbn [split_once]. rewrite H1. specialize (IH H2). destruct (split_once _ _) as [a b]. simpl in *. by subst. }
  destruct rest as [|s' rest]; [|apply Happ]. simpl. clear Happ.
  induction s as [|c s IH]; [done|]. unfold slash_free. cbn [string_existsb]. intros [H1 H2]%orb_false_iff.
  cbn [split_once]. rewrite H1. specialize (IH H2). destruct (split_once _ s) as [a b]. simpl in *. by subst.
Qed.
(** The second part of a template is one of the allowed ones. *)
Definition admitted (t : list Seg) : bool :=
  match t with
  | Lit v :: Lit s :: _ => String.eqb v "v2" && str_in s (rq_allowed_paths default_RequestLimitsConfig)
  | _ => false
  end.
Lemma admitted_path t segs xs : fits t segs xs → admitted t = true → Forall slash_free segs →
  Middleware.api_prefix ("/" +:+ join "/" segs) = Some "/v2/" ∧
  str_in (Middleware.first_segment "/v2/" ("/" +:+ join "/" segs))
    (rq_allowed_paths default_RequestLimitsConfig) = true.
Proof.
  intros Hf Ha Hs. destruct Hf as [|v t segs xs Hf| |]; try done.
  destruct Hf as [|s t segs xs Hf| |]; try done. unfold admitted in Ha. apply andb_prop in Ha as [->%String.eqb_eq Ha].
  apply Forall_cons in Hs as [_ [Hs _]%Forall_cons]. split.
  { change (join "/" ("v2" :: s :: segs)) with ("v2" +:+ String "/"%char (join "/" (s :: segs))).
    generalize (join "/" (s :: segs)) as r. intros []; reflexivity. }
  change (Middleware.first_segment "/v2/" ("/" +:+ join "/" ("v2" :: s :: segs)))
    with (split_once "/"%char (join "/" (s :: segs))).1.
  by rewrite split_once_join.
Qed.
End V2RoutesFacts.

Module V2RoutesTheorems.
Import V2RoutesFacts.
Section V2RoutesTheorems.
Context {E : Env} `{!Digests, !ZoneInfo, !Codecs, !PathTemplates, !PathTemplateLaws}.

(** Every declared route of the second version answers the requests for its paths:
    fixed paths are not swallowed by the templates with a job id, nor any path by the
    catch-alls, whatever the job id (except the two words that fixed paths use).
    All of them pass the path check of the middleware as it is configured by
    default. *)
Theorem v2_routes_reach_their_handler (self : Self) depth r segs xs :
  In r (declared_routes self depth) → fits (rt_template r) segs xs → Forall job_id_ok xs →
  let path := "/" +:+ join "/" segs in
  resolve (router self depth) (rt_method r) path = Some (r, xs) ∧
  Middleware.api_prefix path = Some "/v2/" ∧
  str_in (Middleware.first_segment "/v2/" path) (rq_allowed_paths default_RequestLimitsConfig) = true.
Proof.
  intros Hin Hf Hx.
  assert (forallb (λ r, admitted (rt_template r) && forallb plain_seg (rt_template r))
            (declared_routes self depth) = true) as Hall by reflexivity.
  rewrite forallb_forall in Hall. specialize (Hall r Hin). apply andb_prop in Hall as [Ha Hp]. split.
  - apply unshadowed_resolves; [reflexivity|done..| |done]. by destruct Hf.
  - apply (admitted_path _ _ _ Hf Ha). by apply (plain_parts _ _ _ Hf).
Qed.
End V2RoutesTheorems.

(** * Concrete inputs *)

Import Simulation.
#[export] Instance parts_templates : PathTemplates :=
  {| template_match t path := match_parts t (segments path) |}.
#[export] Instance parts_laws : PathTemplateLaws.
Proof. split. intros t path xs _. apply match_parts_spec. Qed.
Import SimApp.

(** A job called [batch], of which the errors are asked for. *)
Definition errors_route : Route :=
  on_param "GET" [Lit "crawl"; Param; Lit "errors"] (crawl_errors app_self).
Lemma v2_routes_reach_their_handler_witness :
  resolve (router app_self 9) "GET" "/v2/crawl/batch/errors" = Some (errors_route, ["batch"]).
Proof.
  apply (v2_routes_reach_their_handler app_self 9 errors_route ["v2"; "crawl"; "batch"; "errors"] ["batch"]).
  - do 12 right. left. reflexivity.
  - repeat constructor. discriminate.
  - repeat constructor; try discriminate. intros s [<-|[<-|[]]]; discriminate.
Defined.
End V2RoutesTheorems.
