(* ===== verification/Requests.v ===== *)
(** Whole requests of clients.  Every endpoint of the data plane is made of the same
    parts: admission, idempotency, bindings and [forward].  A relation between states
    that tolerates the statements of the other parts ([Tolerant]) and that [forward]
    respects is respected by every endpoint, and by every endpoint behind its
    dependencies. *)

From S2P Require Import Prelude Effects PyText PyTime Json Models Config Env Transactions Security KeyPool.
From S2P Require Import Forwarder Invariants ForwarderProps Idempotency ResourceBinding Deps DataPlane.
From S2P Require Import FirecrawlV2.
From S2P Require Import V2Routes.
Import Forwarder Idempotency ResourceBinding Deps.
Open Scope Z_scope.

(** * Relations the other parts respect *)

Section Tolerant.
Context {E : Env}.

Class Tolerant (R : relation World) := {
  tol_preorder :: PreOrder R;
  tol_host : ∀ {A} (f : HostState → A * HostState), runs R (on_host f);
  tol_query : runs R query;
  tol_commit : runs R commit;
  tol_rollback : runs R rollback;
  tol_assign : ∀ f, (∀ t, t_keys (f t) = t_keys t ∧ retries (f t) = retries t) → runs R (assign f)
}.
(** Relations that do not look at the limits of clients. *)
Class TolerantOfClients (R : relation World) := {
  tolc_conc : ∀ v w, R w (set_w_client_conc v w);
  tolc_limiter : ∀ v w, R w (set_w_client_limiter v w)
}.

#[export] Instance same_tolerant {X} (p : World → X) `{!Inert p} : Tolerant (same p).
Proof.
  split; [apply _|intros; apply (in_host p)|apply (in_query p)|apply (in_commit p)|apply (in_rollback p)|].
  intros. apply (in_assign p).
Qed.
#[export] Instance keeps_tolerant `{!OrmLaws} P `{!StableT P} : Tolerant (keepsT P).
Proof.
  split; [apply _|intros; apply (ks_host P)|apply (ks_query P)|apply (ks_commit P)|apply (ks_rollback P)|].
  intros f Hf. by apply (ks_assign_elsewhere P).
Qed.
#[export] Instance keeps_tolerant_clients `{!OrmLaws} P `{!StableT P} : TolerantOfClients (keepsT P).
Proof. split; [intros v w; by apply (ks_same_db P)..]. Qed.

Section Parts.
Context (R : relation World) {HR : Tolerant R}.

Lemma tol_now : runs R now_utc.
Proof. apply tol_host. Qed.
Lemma tol_moment : runs R moment.
Proof. unfold moment, monotonic. pose proof tol_now. pose proof (@tol_host R HR). runs_auto. Qed.
Lemma tol_get_client id : runs R (get_client id).
Proof. unfold get_client. runs_auto. Qed.
Lemma tol_assign_client id f : (∀ c, c_max_retries (f c) = c_max_retries c) → runs R (assign_client id f).
Proof. intros Hf. apply tol_assign. intros t. split; [done|by apply alter_retries]. Qed.
Lemma tol_commit_or_rollback m : runs R m → runs R (commit_or_rollback m).
Proof. intros Hm. unfold commit_or_rollback. pose proof tol_commit. pose proof tol_rollback. runs_auto. Qed.
Hint Resolve tol_host tol_query tol_commit tol_rollback tol_now tol_moment tol_get_client tol_assign_client
  tol_commit_or_rollback : effects.
Ltac tol := repeat first [ runs_step | solve [eauto with effects] | by apply tol_assign | progress intros ].

Lemma tol_bind_resource cid key rt rid ttl : runs R (bind_resource cid key rt rid ttl).
Proof. unfold bind_resource. tol. repeat case_match; simplify_eq; tol. Qed.
Lemma tol_lookup cid rt rid : runs R (lookup_bound_key_id cid rt rid).
Proof. unfold lookup_bound_key_id. tol. Qed.

Context `{!Codecs} (config : AppConfig).
Lemma tol_cleanup cid now : runs R (_cleanup_expired cid now).
Proof. unfold _cleanup_expired. apply tol_commit_or_rollback. tol. Qed.
Lemma tol_try_insert cid key hash e : runs R (try_insert cid key hash e).
Proof. unfold try_insert, insert_record, db_down. tol. destruct e0; simplify_eq; tol. Qed.
Lemma tol_delete_record id : runs R (delete_record id).
Proof. unfold delete_record, db_down. tol. Qed.
Hint Resolve tol_cleanup tol_try_insert tol_delete_record : effects.
Lemma tol_begin n : ∀ cid key hash, runs R (begin n config cid key hash).
Proof. induction n as [|n IH]; intros; simpl; unfold db_down; tol. Qed.
Hint Resolve tol_begin : effects.
Lemma tol_start n cid key ep m p : runs R (start_or_replay n config cid key ep m p).
Proof. unfold start_or_replay. tol. Qed.
Lemma tol_complete ctx resp : runs R (complete config ctx resp).
Proof. unfold complete. tol. Qed.
End Parts.
End Tolerant.
#[export] Hint Resolve tol_host tol_query tol_commit tol_rollback tol_now tol_moment tol_get_client
  tol_assign_client tol_commit_or_rollback tol_bind_resource tol_lookup tol_start tol_complete : effects.

(** * The endpoints *)

Section Endpoints.
Context {E : Env} `{!Digests, !ZoneInfo, !Codecs} (self : Self) (depth : nat).

(** Every handler of the data plane, for a request of client [cid] with a body and a
    path parameter. *)
Definition handlers (rq : Request) (payload : Json) (body : option Json) (x : string) (cid : Z)
  : list (Prog Handled) :=
  [ DataPlane.scrape self rq payload cid; DataPlane.crawl self depth rq payload cid;
    DataPlane.crawl_status self rq x cid; DataPlane.search self rq payload cid;
    DataPlane.agent self depth rq payload cid;
    FirecrawlCompat.scrape self rq payload cid; FirecrawlCompat.crawl self depth rq payload cid;
    FirecrawlCompat.crawl_status self rq cid; FirecrawlCompat.search self rq payload cid;
    FirecrawlCompat.agent self depth rq payload cid;
    ExaCompat.exa_search self rq payload cid; ExaCompat.exa_find_similar self rq payload cid;
    ExaCompat.exa_contents self rq payload cid; ExaCompat.exa_answer self rq payload cid ] ++
  map (λ r, V2Routes.rt_handler r rq [x] body cid) (V2Routes.router self depth).

Context (R : relation World) {HR : Tolerant R}.
Context (Hforward : ∀ rid ci m path body hs pin prov, runs R (forward self rid ci m path body hs pin prov)).
Hint Resolve Hforward : effects.
Ltac tol := repeat first [ runs_step | solve [eauto with effects] | progress intros ].

Lemma relay_runs rq cid m path body prov ep : runs R (relay self rq cid m path body prov ep).
Proof. unfold relay, forward_to. tol. Qed.
Lemma with_fallback_runs rq cid p1 p2 payload : runs R (with_fallback self rq cid p1 p2 payload).
Proof. unfold with_fallback, forward_to. tol. Qed.
Lemma idempotent_runs rq cid ep payload run : runs R run → runs R (idempotent self depth rq cid ep payload run).
Proof. intros Hr. unfold idempotent. tol. Qed.
Lemma forward_v2_runs rq cid m p1 p2 payload pin :
  runs R (FirecrawlV2._forward_with_fallback self rq cid m p1 p2 payload pin).
Proof. unfold FirecrawlV2._forward_with_fallback. tol. Qed.
Hint Resolve relay_runs with_fallback_runs idempotent_runs forward_v2_runs : effects.
Lemma plain_runs rq cid ep m path payload : runs R (FirecrawlV2.plain self rq cid ep m path payload).
Proof. unfold FirecrawlV2.plain. tol. Qed.
Lemma creating_runs rq cid rt m path fb payload :
  runs R (FirecrawlV2.creating self rq cid rt m path fb payload).
Proof. unfold FirecrawlV2.creating, FirecrawlV2._maybe_bind_created_resource. tol. Qed.
Lemma on_resource_runs rq cid ep rt rid m path fb payload :
  runs R (FirecrawlV2.on_resource self rq cid ep rt rid m path fb payload).
Proof. unfold FirecrawlV2.on_resource. tol. Qed.
Hint Resolve plain_runs creating_runs on_resource_runs : effects.

Lemma handlers_run rq payload body x cid m : In m (handlers rq payload body x cid) → runs R m.
Proof.
  unfold handlers. simpl. intros Hm.
  repeat destruct Hm as [<-|Hm]; try done;
    unfold V2Routes.body_required, V2Routes.with_param; try case_match;
    first [ apply relay_runs | apply plain_runs | apply on_resource_runs | apply runs_raise; apply _
          | apply idempotent_runs; first [apply Hforward|apply with_fallback_runs|apply creating_runs]
          | apply runs_bind; [apply _|apply creating_runs|intros; apply runs_ret; apply _] ].
Qed.
End Endpoints.

(** ** Behind their dependencies *)

Section Serve.
Context {E : Env} `{!Digests, !ZoneInfo} (R : relation World).
Context {HT : Tolerant R} {HR : TolerantOfClients R}.
Ltac tol := repeat first [ runs_step | solve [eauto with effects] | progress intros ].

Lemma tol_release l : runs R (release_client l).
Proof. intros w. apply tolc_conc. Qed.
Lemma tol_local_now tz : runs R (local_now tz).
Proof. unfold local_now. tol. Qed.
Hint Resolve tol_release tol_local_now : effects.
Lemma tol_today tz : runs R (today_in_timezone tz).
Proof. unfold today_in_timezone. tol. Qed.
Lemma tol_midnight tz : runs R (seconds_until_next_midnight tz).
Proof. unfold seconds_until_next_midnight. tol. Qed.
Hint Resolve tol_today tol_midnight : effects.
Lemma tol_quota_check config cid l : runs R (quota_check config cid l).
Proof. unfold quota_check. tol. destruct e; simplify_eq; tol. Qed.
Hint Resolve tol_quota_check : effects.
Lemma with_governance_runs {A} config cid (handler : Prog A) :
  runs R handler → runs R (with_governance config cid handler).
Proof.
  intros Hh. unfold with_governance. tol; apply runs_step; intros w; simpl;
    (destruct (cl_try_acquire _ _ _ _) || destruct (rl_allow _ _ _ _)); simpl;
    [apply tolc_conc|apply tolc_limiter].
Qed.
Lemma require_client_runs secrets rq : runs R (require_client secrets rq).
Proof. unfold require_client. tol. Qed.
Lemma serve_runs self secrets rq handler : (∀ cid, runs R (handler cid)) → runs R (serve self secrets rq handler).
Proof.
  intros Hh. unfold serve. apply runs_bind; [apply _|apply require_client_runs|]. intros cid.
  by apply with_governance_runs.
Qed.
End Serve.
