(* ===== verification/RequestProps.v ===== *)
(** What holds of whole requests, whichever endpoint of the data plane they are for: no
    header with the client's credentials leaves the gateway, what they cost is bounded,
    all slots come back, and no key comes back into service.  The section [Forwarding]
    shows for any relation between states what [forward] keeps of it; [discreet] (what
    goes out on the wire), [balanced] (slots) and [spent] (the cost) are such relations.
    [Keys] follows one call of [forward] through the keys it uses. *)

From S2P Require Import Prelude Effects PyText PyTime Json Models Config Env Transactions Security KeyPool.
From S2P Require Import KeyPoolProps.
From S2P Require Import CreditFetcher Forwarder Invariants ForwarderProps Idempotency ResourceBinding Deps.
From S2P Require Import DepsProps.
From S2P Require Import DataPlane FirecrawlV2 V2Routes Requests Sim SimApp.
Import KeyPool CreditFetcher Forwarder Deps ForwarderFacts.
Open Scope Z_scope.

Module RequestFacts.

(** * The wire *)

Section Wire.
Context {E : Env} (self : Self).

(** The requests sent on behalf of clients. *)
Definition client_wire (w : World) : list HttpRequest :=
  List.filter (λ r, negb (String.eqb (rq_base r) "")) (w_wire w).
#[export] Instance inert_client_wire : Inert client_wire.
Proof. split; try done. intros r w Hr. unfold client_wire. simpl. by rewrite Hr. Qed.

Hint Resolve inert_client_wire : effects.

(** Credentials are known by their ciphertexts: [S id] are those row [id] may store. *)
Context (S : Z → string → Prop).
Definition credential (id : Z) (p : string) : Prop :=
  ∃ master ciphertext, f_master_key self = Some master ∧ S id ciphertext ∧ decrypt_api_key master ciphertext = Ok p.
(** What goes out is as [B] says, as long as the rows store credentials among [S]. *)
Context (B : HttpRequest → Prop).
Definition discreet (w w' : World) : Prop := heldT (credentials_in S) w →
  heldT (credentials_in S) w' ∧ ∃ l, client_wire w' = l ++ client_wire w ∧ Forall B l.

#[export] Instance discreet_preorder : PreOrder discreet.
Proof.
  split; [intros w Hw; split; [done|by exists []]|]. intros w1 w2 w3 H1 H2 Hw.
  destruct (H1 Hw) as [Hw2 (l1 & E1 & B1)]. destruct (H2 Hw2) as [Hw3 (l2 & E2 & B2)].
  split; [done|]. exists (l2 ++ l1). rewrite E2, E1, app_assoc. split; [done|by apply Forall_app].
Qed.
Lemma discreet_same {A} (m : Prog A) :
  runs (same client_wire) m → runs (keepsT (credentials_in S)) m → runs discreet m.
Proof. intros Hm Hk w Hw. split; [by apply Hk|]. exists []. split; [by apply Hm|done]. Qed.
Lemma discreet_db w w' : w_db w' = w_db w → client_wire w' = client_wire w → discreet w w'.
Proof.
  intros Hdb Hl Hw. split; [|by exists []]. unfold heldT, view, durable in *. by rewrite Hdb.
Qed.
#[export] Instance discreet_tolerant `{!OrmLaws} : Tolerant discreet.
Proof.
  pose proof (credentials_stable S).
  split; [apply _|..]; intros; apply discreet_same; solve
    [apply (in_host client_wire)|apply (in_query client_wire)|apply (in_commit client_wire)
    |apply (in_rollback client_wire)|apply (in_assign client_wire)|apply (ks_host (credentials_in S))
    |apply (ks_query (credentials_in S))|apply (ks_commit (credentials_in S))
    |apply (ks_rollback (credentials_in S))|by apply (ks_assign_elsewhere (credentials_in S))].
Qed.
#[export] Instance discreet_tolerant_clients : TolerantOfClients discreet.
Proof. split; intros v w; by apply discreet_db. Qed.

Lemma send_discreet c p :
  (∀ r, rq_headers r = upstream_headers self c p → B r) → runs discreet (send self c p).
Proof.
  intros HB w Hw. unfold send, http_request, bind, modify. simpl. rewrite KeyPoolFacts.on_host_ok.
  set (r := mkHttpRequest _ _ _ _ _).
  assert (∀ v, ∃ l, client_wire (set_w_host v (set_w_wire (r :: w_wire w) w)) = l ++ client_wire w ∧
    Forall B l) as Hd.
  { intros v. unfold client_wire. simpl. destruct (negb _); [|by exists []].
    exists [r]. split; [done|]. apply Forall_singleton. by apply HB. }
  case_match; simpl; (split; [exact Hw|apply Hd]).
Qed.
(** The rows a statement reads store credentials of [S]. *)
Lemma get_key_discreet {A} i (f : ApiKey → Prog A) :
  (∀ key, S i (k_api_key_ciphertext key) → runs discreet (f key)) → runs discreet (bind (get_key i) f).
Proof.
  intros Hf w Hw. unfold bind, get_key, gets, bind. destruct (t_keys (view w) !! i) as [key|] eqn:Hk.
  - apply (Hf key); [by apply (proj1 Hw i)|done].
  - split; [done|by exists []].
Qed.

(** A header that gives nothing of the client away: one of the four harmless ones, or
    the credential of a key. *)
Definition harmless (x : string * string) : Prop :=
  In x.1 SAFE_HEADERS ∨ ∃ prov id p, credential id p ∧ x ∈ _provider_auth_header self prov p.
Definition blameless (r : HttpRequest) : Prop := ∀ x, x ∈ rq_headers r → harmless x.
(** A request with the credential of key [id]. *)
Definition uses (prov : string) (id : Z) (r : HttpRequest) : Prop :=
  ∃ p x, credential id p ∧ _provider_auth_header self prov p = [x] ∧ x ∈ rq_headers r.
(** A call made for a client's request. *)
Definition call_for (c : Call) : Prop :=
  f_master_key self = Some (ca_master_key c) ∧
  ∃ hs, ca_safe_headers c = _sanitized_request_headers hs (ca_request_id c).
End Wire.

(** * Forwarding, for any relation

    A relation that is respected by every statement that only writes what [Inert]
    components ignore and keeps what is [StableT], by the taking and returning of
    slots, and by requests that go out with a credential of the pool, is respected
    by [forward]. *)
Section Forwarding.
Context {E : Env} `{!OrmLaws} (self : Self) (S : Z → string → Prop) (R : relation World) {HR : PreOrder R}.
Context (Hquiet : ∀ {A} (m : Prog A), (∀ X (p : World → X), Inert p → runs (same p) m) →
  (∀ P, StableT P → runs (keepsT P) m) → runs R m).
Context (Hkey : ∀ {A} i (f : ApiKey → Prog A),
  (∀ key, S i (k_api_key_ciphertext key) → runs R (f key)) → runs R (bind (get_key i) f)).
Context (Hacquire : ∀ k, runs R (acquire_slot k)) (Hrelease : ∀ l, runs R (release_slot l)).
Ltac quiet := apply Hquiet; [intros ? ? ?|intros ? ?]; solve [runs_auto].

Lemma transport_runs c i {A} (m : Prog A) : runs R m → runs R (transport_errors self c i m).
Proof.
  intros Hm. unfold transport_errors. apply runs_try_except; [apply _|done|].
  intros [] k; try done; intros [= <-]; quiet.
Qed.
Lemma select_runs rt cfg prov ex : runs R (try_except (let! s := select rt cfg prov ex in ret (inl s))
  (λ e, match e with EFcam f => Some (ret (inr f)) | _ => None end)).
Proof. apply Hquiet; intros; runs_auto; destruct e; simplify_eq; runs_auto. Qed.

(** ** The exchanges with one key *)
Section Exchange.
Context (c : Call) (Hm : f_master_key self = Some (ca_master_key c)) (i : Z).
Context (Hsend : ∀ p, credential self S i p → runs R (send self c p)).
Lemma decrypted {A} ct (f : string + Exn → Prog A) : S i ct →
  (∀ p, credential self S i p → runs R (f (inl p))) → (∀ e, runs R (f (inr e))) →
  runs R (bind (try_decrypt (ca_master_key c) ct) f).
Proof.
  intros Hct Hl Hr w. unfold bind, try_decrypt. destruct (decrypt_api_key (ca_master_key c) ct) as [p|e] eqn:Hd.
  - apply Hl. by exists (ca_master_key c), ct.
  - destruct e; simpl; try apply Hr; apply reflexivity.
Qed.
Lemma pinned_exchange_runs : runs R (pinned_exchange self c i).
Proof.
  unfold pinned_exchange, all_keys_busy. apply Hkey. intros key Hct.
  apply runs_bind; [apply _|quiet|]. intros [[] ra]; simpl; [|quiet].
  apply runs_bind; [apply _|apply Hacquire|]. intros [l|]; [|quiet].
  apply runs_finally; [apply _| |apply Hrelease]. apply transport_runs. apply decrypted; [done|done|].
  intros e. unfold decrypt_failed_error. quiet.
Qed.
Lemma pool_exchange_runs k l : S i (k_api_key_ciphertext k) → runs R (pool_exchange self c k l).
Proof.
  intros Hct. unfold pool_exchange. apply runs_finally; [apply _| |apply Hrelease].
  apply transport_runs. apply decrypted; [done| |].
  - intros p Hp. apply runs_bind; [apply _|by apply Hsend|]. intros r. quiet.
  - intros e. quiet.
Qed.
Lemma try_key_runs sel l : sel_api_key sel = i → runs R (try_key self c sel l).
Proof.
  intros Hs. unfold try_key. rewrite Hs. apply Hkey. intros key Hct.
  apply runs_bind; [apply _|quiet|]. intros [[] ra]; simpl; [|quiet].
  apply runs_bind; [apply _|apply Hacquire|]. intros [le|]; [|quiet].
  apply runs_bind; [apply _|by apply pool_exchange_runs|]. intros [resp|]; quiet.
Qed.
End Exchange.

(** ** The loops *)
Section Call.
Context (c : Call) (Hm : f_master_key self = Some (ca_master_key c)).
Context (Hsend : ∀ i p, credential self S i p → runs R (send self c p)).
Lemma pinned_loop_runs n : ∀ a i l, runs R (pinned_loop self n a c i l).
Proof.
  induction n as [|n IH]; intros a i l; simpl; [quiet|].
  apply runs_bind; [apply _|apply (pinned_exchange_runs c Hm); intros; by eapply Hsend|]. intros resp.
  apply runs_bind; [apply _|quiet|]. intros [r|l']; [quiet|apply IH].
Qed.
Lemma pool_step_runs l : runs R (pool_step self c l).
Proof.
  unfold pool_step. apply runs_bind; [apply _|apply select_runs|].
  intros [sel|e]; [|quiet]. apply (try_key_runs c Hm (sel_api_key sel)); [|done]. intros. by eapply Hsend.
Qed.
Lemma pool_loop_runs n : ∀ l, runs R (pool_loop self n c l).
Proof.
  induction n as [|n IH]; intros l; simpl; [quiet|]. case_if; [|quiet].
  apply runs_bind; [apply _|apply pool_step_runs|]. intros [r|l']; [quiet|apply IH].
Qed.
Lemma from_pool_runs l : runs R (from_pool self c l).
Proof. unfold from_pool. apply runs_bind; [apply _|apply pool_loop_runs|]. intros [r|l']; quiet. Qed.
Lemma forward_call_runs pin : runs R (forward_call self c pin).
Proof.
  unfold forward_call. apply runs_bind; [apply _|quiet|]. intros [id|]; [|apply from_pool_runs].
  apply runs_bind; [apply _|apply pinned_loop_runs|]. intros [r|l']; [quiet|apply from_pool_runs].
Qed.
End Call.

Lemma forward_runs rid ci m path body hs pin prov :
  (∀ c i p, call_for self c → credential self S i p → runs R (send self c p)) →
  runs R (forward self rid ci m path body hs pin prov).
Proof.
  intros Hsend. unfold forward. destruct (f_master_key self) as [master|] eqn:Hm; [|quiet].
  apply runs_bind; [apply _|quiet|]. intros base. apply runs_bind; [apply _|quiet|]. intros client.
  apply forward_call_runs; [done|]. intros i p. apply Hsend. split; [done|]. by exists hs.
Qed.
End Forwarding.

Lemma acquire_slot_frame {E : Env} {X} (p : World → X) k :
  (∀ v w, p (set_w_key_conc v w) = p w) → Inert p → runs (same p) (acquire_slot k).
Proof.
  intros Hp HI. unfold acquire_slot. runs_auto. apply runs_step. intros w.
  destruct (cl_try_acquire _ _ _ _). apply Hp.
Qed.
Section Wired.
Context {E : Env} `{!OrmLaws} (self : Self) (S : Z → string → Prop) (B : HttpRequest → Prop).
Lemma discreet_quiet {A} (m : Prog A) : (∀ X (p : World → X), Inert p → runs (same p) m) →
  (∀ P, StableT P → runs (keepsT P) m) → runs (discreet S B) m.
Proof. intros Hp Hk. apply discreet_same; [apply Hp; apply _|apply Hk, credentials_stable]. Qed.
Lemma discreet_acquire k : runs (discreet S B) (acquire_slot k).
Proof. apply discreet_same; [by apply acquire_slot_frame; [|apply _]|apply (ks_acquire _)]. Qed.
Lemma discreet_release l : runs (discreet S B) (release_slot l).
Proof. intros w. by apply discreet_db. Qed.
End Wired.
Lemma forward_discreet {E : Env} `{!OrmLaws} (self : Self) S rid ci m path body hs pin prov :
  runs (discreet S (blameless self S)) (forward self rid ci m path body hs pin prov).
Proof.
  apply (forward_runs self S (discreet S (blameless self S)));
    [intros; by apply discreet_quiet|intros; by apply get_key_discreet|apply discreet_acquire|apply discreet_release|].
  intros c i p [_ (hs' & Hs)] Hp. apply send_discreet. intros r Hr x Hx. rewrite Hr in Hx.
  destruct (ForwarderTheorems.outbound_headers_safe self c hs' p x Hs Hx) as [Ho|[Ho _]]; [by left|].
  right. exists (ca_provider c), i, p. split; [done|]. rewrite <-Ho. by left.
Qed.

(** * One key after the other *)

Section Keys.
Context {E : Env} `{!OrmLaws, !MathLaws} (self : Self) (S : Z → string → Prop).
Context (c : Call) (Hm : f_master_key self = Some (ca_master_key c)).
Notation used := (uses self S (ca_provider c)).

(** A key that is tried is asked at most once. *)
Lemma try_key_asks sel l w : heldT (credentials_in S) w →
  let w' := (try_key self c sel l w).2 in
  heldT (credentials_in S) w' ∧ ∃ rs, client_wire w' = rs ++ client_wire w ∧
    (rs = [] ∨ ∃ r, rs = [r] ∧ used (sel_api_key sel) r).
Proof.
  intros Hw w'. destruct (try_key_spec self c sel l w) as [H1 _]. fold w' in H1.
  destruct (try_key_runs self S (discreet S (used (sel_api_key sel)))) with
    (c := c) (i := sel_api_key sel) (sel := sel) (l := l) (w := w) as [Hw' (rs & Hr & Hu)];
    [intros; by apply discreet_quiet|intros; by apply get_key_discreet|apply discreet_acquire|apply discreet_release
    |done| |done|done|].
  - intros p Hp. apply send_discreet. intros r Hr.
    destruct (ForwarderTheorems.outbound_credential_present self c p) as (x & Hx & Hin).
    exists p, x. split_and!; [done|done|by rewrite Hr].
  - split; [done|]. exists rs. split; [done|].
    assert (length rs ≤ 1)%nat as Hl.
    { unfold at_most in H1. change (length (client_wire w') ≤ length (client_wire w) + 1)%nat in H1.
      fold w' in Hr. rewrite Hr, length_app in H1. lia. }
    destruct rs as [|r [|r' rs]]; [by left|right|simpl in Hl; lia].
    exists r. split; [done|]. by inversion Hu.
Qed.
Lemma quiet_wire {A} (m : Prog A) w : runs (same client_wire) m → runs (keepsT (credentials_in S)) m →
  heldT (credentials_in S) w → heldT (credentials_in S) (m w).2 ∧ client_wire (m w).2 = client_wire w.
Proof. intros Hs Hk Hw. split; [by apply Hk|apply Hs]. Qed.

(** One iteration: no request, or one with a key that was not tried before and counts as
    tried from then on. *)
Lemma pool_step_asks l w : heldT (credentials_in S) w →
  let w' := (pool_step self c l w).2 in
  heldT (credentials_in S) w' ∧ ∃ rs ids, client_wire w' = rs ++ client_wire w ∧
    Forall2 used ids rs ∧ NoDup ids ∧ (∀ id, In id ids → id ∉ lp_tried l) ∧
    match (pool_step self c l w).1 with
    | Ok (Next l') => lp_tried l ⊆ lp_tried l' ∧ ∀ id, In id ids → id ∈ lp_tried l'
    | _ => True
    end.
Proof.
  intros Hw w'. subst w'. unfold pool_step. set (m := try_except _ _).
  assert (heldT (credentials_in S) (m w).2 ∧ client_wire (m w).2 = client_wire w) as [Hw1 Hl1].
  { apply quiet_wire; [| |done]; subst m;
      (apply runs_try_except; [apply _|runs_auto|intros [] k; try done; intros [= <-]; runs_auto]).
    - apply (in_select _).
    - apply (ks_select _). }
  unfold bind. destruct (m w) as [[[sel|e]|e] w1] eqn:Ht; simpl in *.
  - assert (sel_api_key sel ∉ lp_tried l) as Hfresh.
    { revert Ht. subst m. unfold try_except, bind.
      destruct (select _ _ _ _ w) as [[sel'|e] w'] eqn:Hsel.
      - intros [= <- <-]. by eapply KeyPoolFacts.select_fresh.
      - destruct e; done. }
    destruct (try_key_asks sel l w1 Hw1) as [Hw2 (rs & Hr & Hu)]. split; [done|].
    destruct (try_key_spec self c sel l w1) as [_ Hn].
    exists rs, (match rs with [] => [] | _ => [sel_api_key sel] end). rewrite <-Hl1. split; [done|].
    destruct Hu as [->|(r & -> & Hu)]; split_and!; try by constructor.
    + by intros id [].
    + destruct (try_key self c sel l w1) as [[[x|l']|e] w2]; simpl in *; try done.
      destruct Hn as (-> & _). split; [set_solver|by intros id []].
    + by apply NoDup_singleton.
    + by intros id [<-|[]].
    + destruct (try_key self c sel l w1) as [[[x|l']|e] w2]; simpl in *; try done.
      destruct Hn as (-> & _). split; [set_solver|]. intros id [<-|[]]. set_solver.
  - destruct (quiet_wire (selection_failed l e) w1) as [Hw2 Hl2]; [runs_auto|apply (ks_selection_failed _)|done|].
    split; [done|]. exists [], []. rewrite Hl2, Hl1. split_and!; try done; try by constructor.
    assert (match (selection_failed l e w1).1 with Ok (Next _) => False | _ => True end) as Hn.
    { unfold selection_failed, decrypt_failed_error. repeat case_match; simplify_eq/=; done. }
    by destruct (selection_failed l e w1) as [[[x|l']|e'] w2].
  - split; [done|]. exists [], []. split_and!; try done; by constructor.
Qed.

(** What goes out uses every key at most once. *)
Definition asks_each_once (w w' : World) : Prop := heldT (credentials_in S) w →
  ∃ rs ids, client_wire w' = rs ++ client_wire w ∧ Forall2 used ids rs ∧ NoDup ids.
Lemma pool_loop_asks n : ∀ l w, heldT (credentials_in S) w →
  let w' := (pool_loop self n c l w).2 in
  heldT (credentials_in S) w' ∧ ∃ rs ids, client_wire w' = rs ++ client_wire w ∧
    Forall2 used ids rs ∧ NoDup ids ∧ ∀ id, In id ids → id ∉ lp_tried l.
Proof.
  induction n as [|n IH]; intros l w Hw; simpl; [|case_if].
  1,3: split; [done|]; exists [], []; split_and!; try done; by constructor.
  destruct (pool_step_asks l w Hw) as [Hw1 (rs1 & ids1 & Hr1 & Hu1 & Hd1 & Hf1 & Hn)]. unfold bind.
  destruct (pool_step self c l w) as [[[r|l']|e] w1]; simpl in *;
    [by split; [|exists rs1, ids1]| |by split; [|exists rs1, ids1]].
  destruct Hn as [Hsub Hin]. destruct (IH l' w1 Hw1) as [Hw2 (rs2 & ids2 & Hr2 & Hu2 & Hd2 & Hf2)].
  split; [done|]. exists (rs2 ++ rs1), (ids2 ++ ids1). rewrite Hr2, Hr1, app_assoc.
  split_and!; [done|by apply Forall2_app| |].
  - apply NoDup_app. split_and!; try done. intros id Hi2 Hi1. rewrite list_elem_of_In in *.
    by apply (Hf2 id Hi2), Hin.
  - intros id [Hi|Hi]%in_app_iff; [|by apply Hf1]. intros Ht. by apply (Hf2 id Hi), Hsub.
Qed.
Lemma from_pool_asks l : runs asks_each_once (from_pool self c l).
Proof.
  intros w Hw. unfold from_pool, bind.
  destruct (pool_loop_asks (max_selection_tries (ca_total_attempts c)) l w Hw) as [Hw1 (rs & ids & Hr & Hu & Hd & _)].
  destruct (pool_loop self _ c l w) as [[[r|l']|e] w1]; simpl in *; [by exists rs, ids| |by exists rs, ids].
  exists rs, ids. pose proof (in_exhausted client_wire self c l' w1) as He. unfold same in He. by rewrite He.
Qed.
End Keys.

(** * Slots *)

Section Slots.
Context {E : Env} `{!ConcurrencyLaws}.
#[export] Instance balanced_tolerant : Tolerant balanced.
Proof.
  split; [apply _|intros; apply balanced_same, (in_host w_key_conc)|apply balanced_same, (in_query w_key_conc)
    |apply balanced_same, (in_commit w_key_conc)|apply balanced_same, (in_rollback w_key_conc)|].
  intros f _. apply balanced_same, (in_assign w_key_conc).
Qed.
#[export] Instance balanced_tolerant_clients : TolerantOfClients balanced.
Proof. split; intros v w Hw; by split. Qed.

(** Forwarding does not touch the slots of clients. *)
Lemma forward_client_conc `{!OrmLaws} (self : Self) rid ci m path body hs pin prov :
  runs (same w_client_conc) (forward self rid ci m path body hs pin prov).
Proof.
  apply (forward_runs self (λ _ _, True)); [apply _|..].
  - intros A p Hp _. apply Hp. apply _.
  - intros A i f Hf. apply runs_bind; [apply _|apply (in_get_key w_client_conc)|by auto].
  - intros k. apply acquire_slot_frame; [done|apply _].
  - done.
  - intros c i p _ _. by apply frame_http_request.
Qed.
End Slots.
(** * What a request costs *)

Section Budget.
Context {E : Env} `{!OrmLaws} (m : gmap Z Z).

(** At most [n] requests go out on the client's behalf, and the budgets stay [m]. *)
Definition spent (n : Z) (w w' : World) : Prop := heldT (λ t, retries t = m) w →
  heldT (λ t, retries t = m) w' ∧ Z.of_nat (sent w') ≤ Z.of_nat (sent w) + n.
#[export] Instance spent_preorder : PreOrder (spent 0).
Proof.
  split; [intros w Hw; split; [done|lia]|]. intros w1 w2 w3 H1 H2 Hw.
  destruct (H1 Hw) as [Hw2 ?]. destruct (H2 Hw2) as [Hw3 ?]. split; [done|lia].
Qed.
Lemma spent_mono {A} n n' (a : Prog A) : n ≤ n' → runs (spent n) a → runs (spent n') a.
Proof. intros Hle Ha w Hw. destruct (Ha w Hw). split; [done|lia]. Qed.
Lemma spent_bind {A B} n1 n2 (a : Prog A) (f : A → Prog B) : 0 ≤ n2 →
  runs (spent n1) a → (∀ x, runs (spent n2) (f x)) → runs (spent (n1 + n2)) (bind a f).
Proof.
  intros Hn Ha Hf w Hw. unfold bind. destruct (Ha w Hw) as [Hw1 H1].
  destruct (a w) as [[x|e] w1]; simpl in *; [|split; [done|lia]].
  destruct (Hf x w1 Hw1). split; [done|lia].
Qed.
Lemma spent_same {A} (a : Prog A) :
  runs (same sent) a → runs (keepsT (λ t, retries t = m)) a → runs (spent 0) a.
Proof. intros Ha Hk w Hw. split; [by apply Hk|]. rewrite (Ha w). lia. Qed.
#[export] Instance spent_tolerant : Tolerant (spent 0).
Proof.
  split; [apply _|..]; intros; apply spent_same; solve
    [apply (in_host sent)|apply (in_query sent)|apply (in_commit sent)|apply (in_rollback sent)
    |apply (in_assign sent)|apply (ks_host _)|apply (ks_query _)|apply (ks_commit _)|apply (ks_rollback _)
    |by apply (ks_assign_elsewhere _)].
Qed.
#[export] Instance spent_tolerant_clients : TolerantOfClients (spent 0).
Proof. split; intros v w Hw; (split; [exact Hw|]); unfold sent; simpl; lia. Qed.

(** What one forwarding may cost client [ci]. *)
Definition budget (ci : Z) : Z := match m !! ci with Some r => Z.max r 0 + 1 | None => 0 end.
Lemma budget_pos ci : 0 ≤ budget ci.
Proof. unfold budget. case_match; lia. Qed.

Context `{!MathLaws} `{!Digests, !ZoneInfo, !Codecs} (self : Self) (depth : nat).
Lemma forward_spends rid ci mt path body hs pin prov :
  runs (spent (budget ci)) (forward self rid ci mt path body hs pin prov).
Proof.
  intros w Hw. split; [by apply (ks_forward (λ t, retries t = m))|].
  unfold budget. rewrite <-(proj1 Hw). unfold retries. rewrite lookup_fmap.
  destruct (t_clients (view w) !! ci) as [client|] eqn:Hc; simpl.
  - by apply ForwarderTheorems.forward_within_budget.
  - unfold forward. destruct (f_master_key self) as [mk|]; [|simpl; lia].
    unfold bind at 1, of_res. destruct (_provider_base_url self prov) as [base|e]; [|simpl; lia].
    unfold bind at 1, get_client, bind at 1, gets. rewrite Hc. simpl. lia.
Qed.
(** What is done with a result does not change the state. *)
Lemma bind_pure {A B} (a : Prog A) (f : A → B) w : (bind a (λ x, ret (f x)) w).2 = (a w).2.
Proof. unfold bind. by destruct (a w) as [[x|e] w1]. Qed.
Section Endpoints.
Context (cid : Z).
Notation n := (2 * budget cid).
Let Hpos := budget_pos cid.
Hint Resolve spent_tolerant spent_tolerant_clients : effects.
Ltac tol := repeat first [ runs_step | solve [eauto with effects] | progress intros ].
Lemma spent_first {A B} k (a : Prog A) (f : A → Prog B) : 0 ≤ k →
  runs (spent k) a → (∀ x, runs (spent 0) (f x)) → runs (spent k) (bind a f).
Proof. intros Hk Ha Hf. replace k with (k + 0) by lia. by apply spent_bind. Qed.
Lemma spent_then {A B} k (a : Prog A) (f : A → Prog B) : 0 ≤ k →
  runs (spent 0) a → (∀ x, runs (spent k) (f x)) → runs (spent k) (bind a f).
Proof. intros Hk Ha Hf. replace k with (0 + k) by lia. by apply spent_bind. Qed.
Lemma spent_free {A} k (a : Prog A) : 0 ≤ k → runs (spent 0) a → runs (spent k) a.
Proof. apply spent_mono. Qed.

Lemma forward_spends_once rid mt path body hs pin prov :
  runs (spent n) (forward self rid cid mt path body hs pin prov).
Proof. apply (spent_mono (budget cid)); [lia|apply forward_spends]. Qed.
Lemma twice_spends {A} (a : Prog A) (f : A → Prog A) :
  runs (spent (budget cid)) a → (∀ x, runs (spent (budget cid)) (f x)) → runs (spent n) (bind a f).
Proof. intros Ha Hf. replace n with (budget cid + budget cid) by lia. by apply spent_bind. Qed.
Lemma relay_spends rq mt path body prov ep : runs (spent n) (relay self rq cid mt path body prov ep).
Proof. apply spent_first; [lia|apply forward_spends_once|]. intros r. tol. Qed.
Lemma with_fallback_spends rq p1 p2 payload : runs (spent n) (with_fallback self rq cid p1 p2 payload).
Proof.
  apply twice_spends; [apply forward_spends|]. intros r. case_if; [apply forward_spends|].
  apply spent_free; [lia|tol].
Qed.
Lemma forward_v2_spends rq mt p1 p2 payload pin :
  runs (spent n) (FirecrawlV2._forward_with_fallback self rq cid mt p1 p2 payload pin).
Proof.
  apply twice_spends; [apply forward_spends|]. intros r. case_match; [case_if; [apply forward_spends|]|];
    (apply spent_free; [lia|tol]).
Qed.
Lemma idempotent_spends rq ep payload run :
  runs (spent n) run → runs (spent n) (idempotent self depth rq cid ep payload run).
Proof.
  intros Hr. unfold idempotent. apply spent_then; [lia|tol|]. intros [id|r|].
  - apply spent_first; [lia|done|]. intros r. tol.
  - apply spent_free; [lia|tol].
  - apply spent_first; [lia|done|]. intros r. tol.
Qed.
Lemma plain_spends rq ep mt path payload : runs (spent n) (FirecrawlV2.plain self rq cid ep mt path payload).
Proof. apply spent_first; [lia|apply forward_v2_spends|]. intros r. tol. Qed.
Lemma creating_spends rq rt mt path fb payload :
  runs (spent n) (FirecrawlV2.creating self rq cid rt mt path fb payload).
Proof.
  apply spent_first; [lia|apply forward_v2_spends|]. intros r.
  unfold FirecrawlV2._maybe_bind_created_resource. tol.
Qed.
Lemma on_resource_spends rq ep rt rid mt path fb payload :
  runs (spent n) (FirecrawlV2.on_resource self rq cid ep rt rid mt path fb payload).
Proof.
  apply spent_then; [lia|tol|]. intros pin. apply spent_first; [lia|apply forward_v2_spends|].
  intros r. tol.
Qed.
Lemma handlers_spend rq payload body x h : In h (handlers self depth rq payload body x cid) → runs (spent n) h.
Proof.
  unfold handlers. simpl. intros Hm.
  repeat destruct Hm as [<-|Hm]; try done;
    unfold V2Routes.body_required, V2Routes.with_param; try case_match;
    first [ apply relay_spends | apply plain_spends | apply on_resource_spends
          | apply spent_free; [lia|apply runs_raise; apply _]
          | apply idempotent_spends;
            first [apply forward_spends_once|apply with_fallback_spends|apply creating_spends]
          | apply spent_first; [lia|apply creating_spends|intros; apply runs_ret; apply _] ].
Qed.
Lemma with_governance_spends {A} config (h : Prog A) :
  runs (spent n) h → runs (spent n) (with_governance config cid h).
Proof.
  intros Hh. unfold with_governance.
  repeat first [ apply spent_then; [lia| |intros] | case_match
               | solve [apply spent_free; [lia|tol; apply (tol_release (spent 0))]]
               | solve [tol; apply tol_quota_check; apply _] ].
  all: try (apply runs_step; intros w; simpl;
    (destruct (cl_try_acquire _ _ _ _) || destruct (rl_allow _ _ _ _)); simpl;
    first [apply tolc_conc|apply tolc_limiter]).
  intros w Hw. unfold finally. specialize (Hh w Hw). destruct (h w) as [r w1]. exact Hh.
Qed.
End Endpoints.
End Budget.
End RequestFacts.

Module RequestTheorems.
Import RequestFacts.
Section RequestTheorems.
Context {E : Env} `{!Digests, !ZoneInfo, !Codecs} (self : Self) (depth : nat) (secrets : Secrets).

(** A handler of the data plane behind its dependencies. *)
Definition data_plane_request (rq : Request) (handler : Z → Prog Handled) : Prop :=
  ∃ payload body x, ∀ cid, In (handler cid) (handlers self depth rq payload body x cid).

(** The credential of a stored key: what the ciphertext in the [api_keys] row [id] decrypts
    to under the configured master key. *)
Definition key_credential (w : World) (id : Z) (p : string) : Prop :=
  ∃ master key, f_master_key self = Some master ∧
    (t_keys (view w) !! id = Some key ∨ t_keys (durable w) !! id = Some key) ∧
    decrypt_api_key master (k_api_key_ciphertext key) = Ok p.
Definition pool_credential (w : World) (p : string) : Prop := ∃ id, key_credential w id p.
Definition stored_in (w : World) (id : Z) (ciphertext : string) : Prop :=
  ∃ key, (t_keys (view w) !! id = Some key ∨ t_keys (durable w) !! id = Some key) ∧
    k_api_key_ciphertext key = ciphertext.
Lemma stored_credential w id p : credential self (stored_in w) id p → key_credential w id p.
Proof. intros (master & ct & Hm & (key & Hk & <-) & Hd). by exists master, key. Qed.
Lemma held_stored w : heldT (credentials_in (stored_in w)) w.
Proof. split; intros id key Hk; exists key; auto. Qed.

(** C1. The headers in which a client sends its credentials stay at the gateway.  Whichever
    endpoint a request is for and however it ends, every header of every request that
    goes upstream on the client's behalf is one of the four harmless ones (request id,
    accept, content type, user agent), or the
    provider's credential header with the credential of a key that was stored in an
    [api_keys] row when the request came in. *)
Theorem requests_leak_no_credentials {OL : OrmLaws} rq handler w :
  data_plane_request rq handler →
  ∃ l, client_wire (serve self secrets rq handler w).2 = l ++ client_wire w ∧
    ∀ r x, In r l → In x (rq_headers r) →
      In x.1 SAFE_HEADERS ∨ ∃ prov p, pool_credential w p ∧ In x (_provider_auth_header self prov p).
Proof.
  intros (payload & body & y & Hin).
  destruct (serve_runs (discreet (stored_in w) (blameless self (stored_in w))) self secrets rq handler)
    with (w := w) as [_ (l & Hl & Hb)]; [|apply held_stored|].
  - intros cid. apply (handlers_run self depth _ (forward_discreet self _) rq payload body y cid). apply Hin.
  - exists l. split; [done|]. intros r x Hr Hx. rewrite Forall_forall in Hb.
    destruct (Hb r (proj2 (list_elem_of_In _ _) Hr) x (proj2 (list_elem_of_In _ _) Hx))
      as [Hs|(prov & id & p & Hp & Hs)]; [by left|].
    right. exists prov, p. split; [|by apply list_elem_of_In]. exists id. by apply stored_credential.
Qed.

(** C29. Within one call of [forward] that is not pinned to a usable key, no key is used
    twice: the requests that go out on the client's behalf carry the credentials of
    pairwise different rows of [api_keys].  (A pinned request goes back to its key, and
    an endpoint that asks for its second spelling calls [forward] again, which may use
    the keys of the first call again.) *)
Theorem keys_are_tried_once {OL : OrmLaws} {ML : MathLaws} rid ci mt path body hs pin prov w :
  (∀ id, (pinned_key prov pin w).1 ≠ Ok (Some id)) →
  ∃ rs ids, client_wire (forward self rid ci mt path body hs pin prov w).2 = rs ++ client_wire w ∧
    NoDup ids ∧
    Forall2 (λ id r, ∃ p x, key_credential w id p ∧ _provider_auth_header self prov p = [x] ∧
      In x (rq_headers r)) ids rs.
Proof.
  intros Hpin.
  assert (∀ w', client_wire w' = client_wire w → ∃ rs ids, client_wire w' = rs ++ client_wire w ∧ NoDup ids ∧
    Forall2 (λ id r, ∃ p x, key_credential w id p ∧ _provider_auth_header self prov p = [x] ∧
      In x (rq_headers r)) ids rs) as Hnone.
  { intros w' Hw'. exists [], []. rewrite Hw'. split_and!; try done; by constructor. }
  unfold forward. destruct (f_master_key self) as [mk|] eqn:Hm; [|by apply Hnone].
  unfold bind at 1, of_res. destruct (_provider_base_url self prov) as [base|e]; [|by apply Hnone].
  unfold bind at 1, get_client, bind at 1, gets.
  destruct (t_clients (view w) !! ci) as [client|]; simpl; [|by apply Hnone].
  set (c := mkCall _ _ _ _ _ _ _ _ _ _). unfold forward_call, bind. change (ca_provider c) with prov.
  destruct (quiet_wire (stored_in w) (pinned_key prov pin) w) as [Hw1 Hl1];
    [apply (in_pinned_key client_wire)|apply (ks_pinned_key _)|apply held_stored|].
  destruct (pinned_key prov pin w) as [[[id|]|e] w1]; simpl in *; [by destruct (Hpin id)| |by apply Hnone].
  destruct (from_pool_asks self (stored_in w) c) with (l := loop0) (w := w1) as (rs & ids & Hr & Hu & Hd);
    [done|done|].
  exists rs, ids. rewrite Hr, Hl1. split_and!; [done|done|]. eapply Forall2_impl; [exact Hu|].
  intros id r (p & x & Hp & Hx & Hin). exists p, x. split_and!; [by apply stored_credential|done|].
  by apply list_elem_of_In.
Qed.

(** C2. Every slot taken for a request is given back, those of keys and those of the client,
    whichever endpoint it is for and however it ends, as long as the client's rate
    limiter does not fail itself. *)
Theorem requests_return_all_slots {OL : OrmLaws} {CL : ConcurrencyLaws} rq handler w k t :
  data_plane_request rq handler → conc_wf (w_key_conc w) → conc_wf (w_client_conc w) →
  (∀ key rate t l, ∃ x, (rl_allow key rate t l).1 = Ok x) →
  let w' := (serve self secrets rq handler w).2 in
  cl_current k t (w_key_conc w') = cl_current k t (w_key_conc w) ∧
  cl_current k t (w_client_conc w') = cl_current k t (w_client_conc w).
Proof.
  intros (payload & body & x & Hin) Hk Hc Hrl w'. subst w'. split.
  - apply (serve_runs balanced); [|done]. intros cid.
    apply (handlers_run self depth balanced (forward_balanced self) rq payload body x cid). apply Hin.
  - assert (∀ cid, runs (same w_client_conc) (handler cid)) as Hh.
    { intros cid. apply (handlers_run self depth (same w_client_conc) (forward_client_conc self) rq payload body x cid).
      apply Hin. }
    unfold serve, bind. pose proof (require_client_runs (same w_client_conc) secrets rq w) as Hs.
    unfold same in Hs. destruct (require_client secrets rq w) as [[cid|e] w1]; simpl in Hs |- *; [|by rewrite Hs].
    rewrite <-Hs in Hc |- *. destruct (t_clients (view w1) !! cid) as [client|] eqn:Hcl.
    + by apply (DepsTheorems.governance_returns_slot _ _ client).
    + unfold with_governance, get_client, bind at 1, bind at 1, gets. by rewrite Hcl.
Qed.

(** C5. What a request costs: each call of [forward] sends at most [max_retries + 1]
    requests on the client's behalf, whatever the pool looks like and the upstream
    answers, with or without a pinned key; and a request costs at most two such
    budgets, whichever endpoint it is for, because the endpoints with a second
    spelling of their path call [forward] a second time, with a new budget, when
    the first answer is a 404 or 405.  The endpoints that only relay or forward as it is
    ([relay], [plain]) cost one budget.  A request that is not admitted costs nothing. *)
Theorem requests_within_budget {OL : OrmLaws} {ML : MathLaws} rq handler w :
  (∀ rid ci client mt path body hs pin prov,
    t_clients (view w) !! ci = Some client →
    Z.of_nat (sent (forward self rid ci mt path body hs pin prov w).2) ≤
    Z.of_nat (sent w) + (Z.max (c_max_retries client) 0 + 1)) ∧
  (∀ ci client mt path body prov ep ep2, t_clients (view w) !! ci = Some client →
    Z.of_nat (sent (relay self rq ci mt path body prov ep w).2) ≤
      Z.of_nat (sent w) + (Z.max (c_max_retries client) 0 + 1) ∧
    Z.of_nat (sent (FirecrawlV2.plain self rq ci ep2 mt path body w).2) ≤
      Z.of_nat (sent w) + (Z.max (c_max_retries client) 0 + 1)) ∧
  (data_plane_request rq handler → clean w →
   Z.of_nat (sent (serve self secrets rq handler w).2) ≤
   Z.of_nat (sent w) +
     match (require_client secrets rq w).1 with
     | Ok cid => match t_clients (durable w) !! cid with
                 | Some client => 2 * (Z.max (c_max_retries client) 0 + 1)
                 | None => 0
                 end
     | Raise _ => 0
     end).
Proof.
  split; [intros; by apply ForwarderTheorems.forward_within_budget|]. split.
  { intros ci client mt path body prov ep ep2 Hc. split.
    - unfold relay, forward_to. rewrite bind_pure. by apply ForwarderTheorems.forward_within_budget.
    - unfold FirecrawlV2.plain, FirecrawlV2._forward_with_fallback. rewrite !bind_pure.
      by apply ForwarderTheorems.forward_within_budget. }
  intros (payload & body & x & Hin) Hc. set (m := retries (durable w)).
  assert (heldT (λ t, retries t = m) w) as Hw by (split; [by rewrite Hc|done]).
  destruct (require_client_runs (spent m 0) secrets rq w Hw) as [Hw1 Hs].
  unfold serve, bind. destruct (require_client secrets rq w) as [[cid|e] w1]; simpl in *; [|lia].
  destruct (with_governance_spends m cid (f_config self) (handler cid)) with (w := w1) as [_ Hh]; [|done|].
  - apply (handlers_spend m self depth cid rq payload body x). apply Hin.
  - unfold budget, m, retries in Hh. rewrite lookup_fmap in Hh.
    destruct (t_clients (durable w) !! cid); simpl in Hh; lia.
Qed.

(** C26. No request brings a key back into service or changes what a key is: a key that is
    out of service, in the session and in the database, is out of service after any
    request, and its provider, stored credential and limits are what they were. *)
Theorem requests_never_reactivate {OL : OrmLaws} rq handler w id i :
  data_plane_request rq handler →
  let w' := (serve self secrets rq handler w).2 in
  (held (λ k, k_is_active k = false) id w → held (λ k, k_is_active k = false) id w') ∧
  (held (λ k, identity k = i) id w → held (λ k, identity k = i) id w').
Proof.
  intros (payload & body & x & Hin) w'. subst w'.
  split; apply (serve_runs (keepsT (row_has _ id))); intros cid;
    apply (handlers_run self depth _ (ks_forward (row_has _ id) self) rq payload body x cid); apply Hin.
Qed.
End RequestTheorems.

(** * Concrete inputs *)

Import Simulation SimApp.

(** A page to scrape; the best key is turned away, its credits are asked for, and the
    second key answers. *)
Definition scrape_request : Request := app_request "POST" "/api/scrape".
Definition scrape_handler : Z → Prog Handled :=
  DataPlane.scrape app_self scrape_request (JObj [("url", JStr "https://example.org")]).
Definition scrape_world : World :=
  app_world [HttpReply (mkHttpResponse 429 [("Retry-After", "7")] "slow down");
             HttpReply (mkHttpResponse 200 [] "credits"); HttpReply (mkHttpResponse 200 [] "job")].
Lemma scrape_is_request : data_plane_request app_self 9 scrape_request scrape_handler.
Proof. exists (JObj [("url", JStr "https://example.org")]), None, "". intros cid. by left. Qed.

Lemma requests_leak_no_credentials_witness :
  ∃ l, client_wire (serve app_self app_secrets scrape_request scrape_handler scrape_world).2 = l ∧
    length l = 2%nat ∧ ∀ r x, In r l → In x (rq_headers r) →
      In x.1 SAFE_HEADERS ∨
      ∃ prov p, pool_credential app_self scrape_world p ∧ In x (_provider_auth_header app_self prov p).
Proof.
  destruct (requests_leak_no_credentials app_self 9 app_secrets scrape_request scrape_handler scrape_world
    scrape_is_request) as (l & Hl & Hb).
  exists l. split; [rewrite Hl; apply app_nil_r|]. split; [|exact Hb].
  transitivity (length (client_wire (serve app_self app_secrets scrape_request scrape_handler scrape_world).2)).
  - rewrite Hl. rewrite length_app. simpl. lia.
  - vm_compute. reflexivity.
Defined.
(** The client's own token is not the credential of a key. *)
Example client_token_is_no_pool_credential : ¬ pool_credential app_self scrape_world "fcam-5".
Proof.
  intros (id & master & key & Hm & Hk & Hd). injection Hm as <-.
  assert (In (id, key) (map_to_list (t_keys app_tables))) as Hin.
  { apply list_elem_of_In, elem_of_map_to_list. by destruct Hk as [Hk|Hk]. }
  clear Hk. vm_compute in Hin.
  repeat destruct Hin as [Hin|Hin]; try done; injection Hin as _ <-; vm_compute in Hd; discriminate Hd.
Qed.
(** Pinned to a key that is switched off, the request goes to keys 1 and 2. *)
Lemma keys_are_tried_once_witness :
  let w' := (forward app_self "req-1" 5 "POST" "/v1/scrape" None [] (Some 3) "firecrawl" scrape_world).2 in
  length (client_wire w') = 2%nat ∧
  ∃ rs ids, client_wire w' = rs ++ client_wire scrape_world ∧ NoDup ids ∧
    Forall2 (λ id r, ∃ p x, key_credential app_self scrape_world id p ∧
      _provider_auth_header app_self "firecrawl" p = [x] ∧ In x (rq_headers r)) ids rs.
Proof.
  split; [vm_compute; reflexivity|]. apply (keys_are_tried_once app_self). intros id. vm_compute. discriminate.
Defined.
Lemma requests_return_all_slots_witness :
  let w' := (serve app_self app_secrets scrape_request scrape_handler scrape_world).2 in
  cl_current "2" (mkMoment 1000 T0) (w_key_conc w') = cl_current "2" (mkMoment 1000 T0) (w_key_conc scrape_world) ∧
  cl_current "2" (mkMoment 1000 T0) (w_client_conc w') =
    cl_current "2" (mkMoment 1000 T0) (w_client_conc scrape_world).
Proof.
  apply (requests_return_all_slots app_self 9 app_secrets scrape_request scrape_handler scrape_world).
  - exact scrape_is_request.
  - apply sim_world_conc_wf.
  - apply sim_world_client_wf.
  - exact sim_allow_total.
Defined.
(** The client may have its request sent three times by each call of [forward]; two are. *)
Lemma requests_within_budget_witness :
  sent (serve app_self app_secrets scrape_request scrape_handler scrape_world).2 = 2%nat ∧
  Z.of_nat (sent (serve app_self app_secrets scrape_request scrape_handler scrape_world).2) ≤
    Z.of_nat (sent scrape_world) + 2 * 3 ∧
  Z.of_nat (sent (forward app_self "req-1" 5 "GET" "/v1/map" None [] None "firecrawl" scrape_world).2) ≤
    Z.of_nat (sent scrape_world) + 3.
Proof.
  destruct (requests_within_budget app_self 9 app_secrets scrape_request scrape_handler scrape_world) as (Hf & _ & Hr).
  split; [vm_compute; reflexivity|]. split.
  - assert ((require_client app_secrets scrape_request scrape_world).1 = Ok 5) as Ha by (vm_compute; reflexivity).
    rewrite Ha in Hr. apply (Hr scrape_is_request). reflexivity.
  - apply (Hf "req-1" 5 (app_client 5)). vm_compute. reflexivity.
Defined.
Lemma requests_never_reactivate_witness :
  held (λ k, k_is_active k = false) 3 (serve app_self app_secrets scrape_request scrape_handler scrape_world).2.
Proof.
  apply (requests_never_reactivate app_self 9 app_secrets scrape_request scrape_handler scrape_world 3
    (0, "", "", 0, 0) scrape_is_request).
  split; intros k H; vm_compute in H; injection H as <-; reflexivity.
Defined.
End RequestTheorems.

(** * Requests about jobs *)

Module JobTheorems.
Section JobTheorems.
Context {E : Env} `{!Digests, !ZoneInfo, !Codecs, !OrmLaws} (self : Self).
Import ForwarderTheorems.


End JobTheorems.

(** * Concrete inputs *)

Import Simulation SimApp.

End JobTheorems.
