(* ===== verification/Rfc3339.v ===== *)
(** How times leave the gateway: [datetime.isoformat()] and [date.isoformat()], the
    [_dt_to_rfc3339] of the control plane and the credit overview, and the way back,
    [_parse_rfc3339].  The calendar of PyTime.v is inverted on the way: a day number
    is the day number of its year, month and day. *)

From S2P Require Import Prelude Effects PyText PyTime IsoFormat.
Open Scope Z_scope.

(** * Strings *)

(** [s.replace(old, new)] for a non-empty [old]; [skip] characters belong to the last
    occurrence. *)
Fixpoint replace_go (old new : string) (skip : nat) (s : string) : string :=
  match s with
  | EmptyString => EmptyString
  | String c s' =>
      match skip with
      | S k => replace_go old new k s'
      | O => if startswith old s then new +:+ replace_go old new (String.length old - 1) s'
             else String c (replace_go old new O s')
      end
  end.
Definition replace (old new s : string) : string := replace_go old new O s.

Lemma replace_go_skip old new s : replace_go old new (String.length s) s = "".
Proof. induction s as [|c s IH]; simpl; [done|]. exact IH. Qed.
Lemma prefix_self s : String.prefix s s = true.
Proof. induction s as [|c s IH]; simpl; [done|]. by destruct (Ascii.ascii_dec c c). Qed.
(** The only occurrence is at the end. *)
Lemma replace_at_end c old new s :
  string_forallb (λ d, negb (Ascii.eqb d c)) s = true →
  replace (String c old) new (s +:+ String c old) = s +:+ new.
Proof.
  unfold replace. induction s as [|d s IH]; intros H.
  - change ("" +:+ String c old) with (String c old). change ("" +:+ new) with new.
    cbn [replace_go]. unfold startswith. rewrite prefix_self.
    replace (String.length (String c old) - 1)%nat with (String.length old) by (simpl; lia).
    rewrite replace_go_skip. induction new as [|x new IH]; [done|].
    change (String x (new +:+ "") = String x new). by rewrite IH.
  - simpl in H. apply andb_prop in H as [Hd%negb_true_iff Hs].
    change (String d s +:+ String c old) with (String d (s +:+ String c old)).
    change (String d s +:+ new) with (String d (s +:+ new)).
    cbn [replace_go]. unfold startswith. cbn [String.prefix].
    destruct (Ascii.ascii_dec c d) as [->|_]; [by rewrite Ascii.eqb_refl in Hd|]. by rewrite IH.
Qed.

(** * Printing *)

(** [n] decimal digits. *)
Definition digit_char (d : Z) : Ascii.ascii := Ascii.ascii_of_N (Z.to_N (48 + d)).
Fixpoint fixed_digits (n : nat) (v : Z) (rest : string) : string :=
  match n with
  | O => rest
  | S n' => fixed_digits n' (v / 10) (String (digit_char (v mod 10)) rest)
  end.

(** [date.isoformat()] of a day number, before [rest]. *)
Definition date_iso (d : Z) (rest : string) : string :=
  let '(y, m, dd) := civil_of_days d in
  fixed_digits 4 y (String "-" (fixed_digits 2 m (String "-" (fixed_digits 2 dd rest)))).
(** [dt.isoformat()] of an aware datetime in UTC. *)
Definition isoformat_utc (us : Z) : string :=
  let t := us mod day in
  date_iso (us / day) (String "T" (fixed_digits 2 (t / hour) (String ":" (fixed_digits 2 (t / minute mod 60)
    (String ":" (fixed_digits 2 (t / second mod 60)
      (if t mod second =? 0 then "+00:00" else String "." (fixed_digits 6 (t mod second) "+00:00")))))))).

Definition _dt_to_rfc3339 (dt : option DateTime) : option string :=
  (λ d, replace "+00:00" "Z" (isoformat_utc (utc_us d))) <$> dt.
Definition _date_to_iso (d : option Z) : option string := (λ d, date_iso d "") <$> d.

Definition _parse_rfc3339 (value : string) : Res DateTime :=
  match fromisoformat (replace "Z" "+00:00" value) with
  | Some dt => Ok dt
  | None => Raise (EFcam (mkFcamError 400 "VALIDATION_ERROR" "Invalid datetime" None))
  end.

Example rfc3339_now : _dt_to_rfc3339 (Some (Aware (days_of_civil 2026 1 15 * day + 12 * hour + 5 * second + 42))) =
  Some "2026-01-15T12:00:05.000042Z".
Proof. vm_compute. reflexivity. Qed.
Example rfc3339_naive : _dt_to_rfc3339 (Some (Naive (days_of_civil 999 12 1 * day))) = Some "0999-12-01T00:00:00Z".
Proof. vm_compute. reflexivity. Qed.

(** * The calendar inverted *)

(** The year, from March, of the day [doe] of a cycle of 400 years, and the day of that
    year; there is a day 365 in leap years only. *)
Lemma yoe_spec doe : 0 ≤ doe < 146097 →
  let yoe := (doe - doe / 1460 + doe / 36524 - doe / 146096) / 365 in
  0 ≤ yoe < 400 ∧ 0 ≤ doe - (365 * yoe + yoe / 4 - yoe / 100) ≤ 365 ∧
  (doe - (365 * yoe + yoe / 4 - yoe / 100) = 365 → (yoe + 1) mod 4 = 0 ∧ ((yoe + 1) mod 100 ≠ 0 ∨ yoe = 399)).
Proof.
  intros H yoe. subst yoe. split_and!; try intros; try split; Z.to_euclidean_division_equations; lia.
Qed.
(** The civil date of the day [doy] of the year [yoe] of a cycle, years from March. *)
Lemma month_spec doy : 0 ≤ doy ≤ 365 →
  let mp := (5 * doy + 2) / 153 in
  let d := doy - (153 * mp + 2) / 5 + 1 in
  0 ≤ mp ≤ 11 ∧ 1 ≤ d ∧ d ≤ nth (Z.to_nat mp) [31; 30; 31; 30; 31; 31; 30; 31; 30; 31; 31; 29] 0 ∧
  (mp = 11 → d = 29 → doy = 365).
Proof.
  intros H mp d.
  assert (0 ≤ mp ≤ 11) as Hmp by (subst mp; Z.to_euclidean_division_equations; lia).
  split; [done|]. assert (1 ≤ d) as Hd by (subst d mp; Z.to_euclidean_division_equations; lia). split; [done|].
  assert (mp = 0 ∨ mp = 1 ∨ mp = 2 ∨ mp = 3 ∨ mp = 4 ∨ mp = 5 ∨ mp = 6 ∨ mp = 7 ∨ mp = 8 ∨ mp = 9 ∨ mp = 10 ∨ mp = 11) as Hc by lia.
  subst d. destruct_or! Hc; rewrite Hc; simpl; subst mp; (split; [|intros]; Z.to_euclidean_division_equations; lia).
Qed.

Lemma leap_cycle yoe era : 0 ≤ yoe < 400 → (yoe + 1) mod 4 = 0 → (yoe + 1) mod 100 ≠ 0 ∨ yoe = 399 →
  leap (yoe + era * 400 + 1) = true.
Proof.
  intros Hy H4 H. unfold leap.
  replace (yoe + era * 400 + 1) with (yoe + 1 + era * 400) by lia.
  assert (∀ c, c ≠ 0 → 400 mod c = 0 → (yoe + 1 + era * 400) mod c = (yoe + 1) mod c) as Hc.
  { intros c Hc Hd. apply Z.div_exact in Hd; [|done]. rewrite Hd.
    replace (yoe + 1 + era * (c * (400 / c))) with (yoe + 1 + era * (400 / c) * c) by lia. by apply Z.mod_add. }
  rewrite !Hc by done. rewrite H4. simpl. destruct H as [H| ->]; [|done].
  apply Z.eqb_neq in H. by rewrite H.
Qed.

(** The first day of year 1 and of year 10000. *)
Definition first_day : Z := days_of_civil 1 1 1.
Definition end_day : Z := days_of_civil 10000 1 1.

Lemma civil_spec z :
  let '(y, m, d) := civil_of_days z in
  days_of_civil y m d = z ∧ 1 ≤ m ≤ 12 ∧ 1 ≤ d ≤ days_in_month y m ∧
  (first_day ≤ z < end_day → 1 ≤ y ≤ 9999).
Proof.
  change first_day with (-719162). change end_day with 2932897. unfold civil_of_days.
  set (era := (z + 719468) / 146097). set (doe := z + 719468 - era * 146097).
  assert (0 ≤ doe < 146097) as Hdoe.
  { subst doe era. pose proof (Z.mod_pos_bound (z + 719468) 146097). pose proof (Z.div_mod (z + 719468) 146097). lia. }
  destruct (yoe_spec doe Hdoe) as (Hyoe & Hdoy & Hleap).
  set (yoe := (doe - _ + _ - _) / 365) in *. clearbody yoe.
  set (doy := doe - (365 * yoe + yoe / 4 - yoe / 100)) in *.
  destruct (month_spec doy Hdoy) as (Hmp & Hd1 & Hd2 & Hd3).
  set (mp := (5 * doy + 2) / 153) in *. set (d := doy - (153 * mp + 2) / 5 + 1) in *.
  assert (z = era * 146097 + doe - 719468) as Hz by lia.
  assert (mp = (5 * doy + 2) / 153) as Hmpd by done.
  clearbody era mp. set (m := if mp <? 10 then mp + 3 else mp - 9).
  assert ((m <=? 2) = (10 <=? mp) ∧ (if m >? 2 then m - 3 else m + 9) = mp ∧ 1 ≤ m ≤ 12) as (Hm2 & Hmm & Hm).
  { subst m. destruct (Z.ltb_spec mp 10); split_and!; try lia; case_match; lia. }
  rewrite Hm2. split_and!; try lia.
  - unfold days_of_civil. rewrite Hm2, Hmm.
    replace (if 10 <=? mp then (if 10 <=? mp then yoe + era * 400 + 1 else yoe + era * 400) - 1
             else if 10 <=? mp then yoe + era * 400 + 1 else yoe + era * 400)
      with (yoe + era * 400) by (destruct (10 <=? mp); lia).
    rewrite Z.div_add, (Z.div_small yoe) by lia. replace (yoe + era * 400 - (0 + era) * 400) with yoe by lia. lia.
  - clear Hmpd Hmm Hm2 Hm. clearbody d doy. subst m. unfold days_in_month.
    assert (mp = 0 ∨ mp = 1 ∨ mp = 2 ∨ mp = 3 ∨ mp = 4 ∨ mp = 5 ∨ mp = 6 ∨ mp = 7 ∨ mp = 8 ∨ mp = 9 ∨ mp = 10 ∨ mp = 11)
      as Hc by lia.
    destruct_or! Hc; subst mp; simpl in *; try exact Hd2.
    assert (d = 29 ∨ d ≤ 28) as [H|H] by lia; [|case_match; lia].
    destruct (Hleap (Hd3 eq_refl H)) as [H4 H1]. by rewrite leap_cycle.
  - intros Hr. assert (10 ≤ mp ↔ 306 ≤ doy) as Hj.
    { clear - Hmpd Hdoy. clearbody doy. Z.to_euclidean_division_equations; lia. }
    assert (doe = 365 * yoe + yoe / 4 - yoe / 100 + doy) as Hde by (unfold doy; lia).
    clear Hmpd Hd1 Hd2 Hd3 Hm2 Hmm Hm Hleap. clearbody doy doe. subst z.
    assert (0 ≤ era ≤ 24) as He by lia.
    destruct (Z.leb_spec 10 mp); Z.to_euclidean_division_equations; lia.
Qed.

(** * Reading back *)

Lemma digit_char_digit v : is_digit (digit_char (v mod 10)) = true ∧ digit_val (digit_char (v mod 10)) = v mod 10.
Proof.
  pose proof (Z.mod_pos_bound v 10 ltac:(lia)) as H. revert H. generalize (v mod 10) as d. intros d Hd.
  assert (d = 0 ∨ d = 1 ∨ d = 2 ∨ d = 3 ∨ d = 4 ∨ d = 5 ∨ d = 6 ∨ d = 7 ∨ d = 8 ∨ d = 9) as Hc by lia.
  by destruct_or! Hc; subst d.
Qed.
Lemma take_digits_add n m : ∀ acc s,
  take_digits (n + m) acc s = '(a, s') ← take_digits n acc s; take_digits m a s'.
Proof.
  induction n as [|n IH]; intros acc s; [done|]. simpl. destruct s as [|c s]; [done|].
  destruct (is_digit c); [apply IH|done].
Qed.
Lemma take_fixed n : ∀ v acc rest, 0 ≤ v < 10 ^ Z.of_nat n →
  take_digits n acc (fixed_digits n v rest) = Some (acc * 10 ^ Z.of_nat n + v, rest).
Proof.
  induction n as [|n IH]; intros v acc rest Hv.
  - simpl in *. f_equal. f_equal. lia.
  - replace (S n) with (n + 1)%nat at 1 by lia. rewrite take_digits_add. simpl fixed_digits.
    rewrite Nat2Z.inj_succ, Z.pow_succ_r in Hv |- * by lia.
    rewrite IH by (split; [apply Z.div_pos; lia|apply Z.div_lt_upper_bound; lia]).
    simpl. destruct (digit_char_digit v) as [-> ->]. f_equal. f_equal.
    pose proof (Z.div_mod v 10 ltac:(lia)). lia.
Qed.
Lemma take_fixed0 n v rest : 0 ≤ v < 10 ^ Z.of_nat n → take_digits n 0 (fixed_digits n v rest) = Some (v, rest).
Proof. intros Hv. by rewrite take_fixed. Qed.
Lemma fraction_fixed n : ∀ k v acc rest, (n ≤ k)%nat → 0 ≤ v < 10 ^ Z.of_nat n →
  parse_fraction k acc (fixed_digits n v rest) = parse_fraction (k - n) (acc * 10 ^ Z.of_nat n + v) rest.
Proof.
  induction n as [|n IH]; intros k v acc rest Hk Hv.
  - simpl in *. rewrite Nat.sub_0_r. f_equal. lia.
  - simpl fixed_digits. rewrite Nat2Z.inj_succ, Z.pow_succ_r in Hv |- * by lia.
    rewrite IH by (lia || (split; [apply Z.div_pos; lia|apply Z.div_lt_upper_bound; lia])).
    replace (k - n)%nat with (S (k - S n)) by lia. simpl.
    destruct (digit_char_digit v) as [-> ->]. f_equal. pose proof (Z.div_mod v 10 ltac:(lia)). lia.
Qed.
Lemma fixed_app n : ∀ v a b, fixed_digits n v (a +:+ b) = fixed_digits n v a +:+ b.
Proof. induction n as [|n IH]; intros v a b; simpl; [done|]. apply (IH _ (String _ a)). Qed.
Lemma forallb_fixed p n : (∀ v, p (digit_char (v mod 10)) = true) → ∀ v rest,
  string_forallb p (fixed_digits n v rest) = string_forallb p rest.
Proof. intros Hp. induction n as [|n IH]; intros v rest; simpl; [done|]. rewrite IH. simpl. by rewrite Hp. Qed.

Lemma fixed_head n : ∀ v rest, ∃ x tail, fixed_digits (S n) v rest = String (digit_char (x mod 10)) tail.
Proof. induction n as [|n IH]; intros v rest; [by exists v, rest|]. apply IH. Qed.
Lemma fraction_offset acc : parse_fraction 0 acc "+00:00" = (acc, "+00:00").
Proof. simpl. f_equal. lia. Qed.
Lemma parse_offset_utc : parse_offset "+00:00" = Some (Some 0).
Proof. reflexivity. Qed.
#[local] Opaque take_digits fixed_digits parse_offset parse_fraction.

Lemma parse_date_iso d rest : first_day ≤ d < end_day → parse_date (date_iso d rest) = Some (d, rest).
Proof.
  intros Hd. unfold date_iso, parse_date. pose proof (civil_spec d) as H.
  destruct (civil_of_days d) as [[y m] dd]. destruct H as (Hdays & Hm & Hdd & Hy). specialize (Hy Hd).
  assert (dd ≤ 31) as Hdd' by (unfold days_in_month in Hdd; repeat case_match; lia).
  rewrite take_fixed0 by lia. simpl. rewrite take_fixed0 by lia. simpl. rewrite take_fixed0 by lia. simpl.
  replace (1 <=? y) with true by (symmetry; apply Z.leb_le; lia).
  replace (1 <=? m) with true by (symmetry; apply Z.leb_le; lia).
  replace (m <=? 12) with true by (symmetry; apply Z.leb_le; lia).
  replace (1 <=? dd) with true by (symmetry; apply Z.leb_le; lia).
  replace (dd <=? days_in_month y m) with true by (symmetry; apply Z.leb_le; lia).
  simpl. by rewrite Hdays.
Qed.

(** What stands before the offset. *)
Definition iso_body (us : Z) : string :=
  let t := us mod day in
  date_iso (us / day) (String "T" (fixed_digits 2 (t / hour) (String ":" (fixed_digits 2 (t / minute mod 60)
    (String ":" (fixed_digits 2 (t / second mod 60)
      (if t mod second =? 0 then "" else String "." (fixed_digits 6 (t mod second) "")))))))).
Lemma iso_body_offset us : isoformat_utc us = iso_body us +:+ "+00:00".
Proof.
  unfold isoformat_utc, iso_body, date_iso. destruct (civil_of_days _) as [[y m] d]. cbv zeta.
  assert (∀ c s, String c s +:+ "+00:00" = String c (s +:+ "+00:00")) as Hc by done.
  repeat (rewrite <-fixed_app, Hc; do 2 f_equal). rewrite <-fixed_app. case_match; [done|]. by rewrite Hc, <-fixed_app.
Qed.
Lemma iso_body_plain us c : z_in (Z.of_N (code c)) [43; 90] = true →
  string_forallb (λ d, negb (Ascii.eqb d c)) (iso_body us) = true.
Proof.
  intros Hc. assert (c = "+"%char ∨ c = "Z"%char) as Hc'.
  { destruct c as [[] [] [] [] [] [] [] []]; try discriminate Hc; auto. }
  assert (∀ v, negb (Ascii.eqb (digit_char (v mod 10)) c) = true) as Hd.
  { intros v. destruct (digit_char_digit v) as [Hd _]. destruct (Ascii.eqb_spec (digit_char (v mod 10)) c) as [He|]; [|done].
    rewrite He in Hd. destruct Hc' as [-> | ->]; discriminate Hd. }
  unfold iso_body, date_iso. destruct (civil_of_days _) as [[y m] d]. cbv zeta.
  destruct Hc' as [-> | ->]; repeat (rewrite forallb_fixed by exact Hd; simpl);
    (case_match; simpl; [done|]; by rewrite forallb_fixed).
Qed.

Lemma dt_to_rfc3339_body dt : _dt_to_rfc3339 (Some dt) = Some (iso_body (utc_us dt) +:+ "Z").
Proof. simpl. rewrite iso_body_offset. f_equal. apply (replace_at_end "+"%char). by apply iso_body_plain. Qed.

Lemma fromisoformat_isoformat us : first_day * day ≤ us < end_day * day →
  fromisoformat (isoformat_utc us) = Some (Aware us).
Proof.
  intros Hus. unfold fromisoformat, isoformat_utc. cbv zeta.
  pose proof (Z.mod_pos_bound us day ltac:(done)) as Ht. pose proof (Z.div_mod us day ltac:(done)) as Hdm.
  rewrite parse_date_iso by (split; [apply Z.div_le_lower_bound|apply Z.div_lt_upper_bound]; lia).
  simpl. set (t := us mod day) in *. unfold parse_hms. change hour with 3600000000 in *.
  assert (0 ≤ t / 3600000000 < 24) as Hh by (change day with 86400000000 in Ht; split; [apply Z.div_pos|apply Z.div_lt_upper_bound]; lia).
  pose proof (Z.mod_pos_bound (t / minute) 60 ltac:(lia)) as Hm. pose proof (Z.mod_pos_bound (t / second) 60 ltac:(lia)) as Hs.
  pose proof (Z.mod_pos_bound t second ltac:(done)) as Hf.
  assert (t = t / 3600000000 * 3600000000 + (t / minute mod 60) * minute + (t / second mod 60) * second + t mod second) as Hsplit.
  { pose proof (Z.div_mod t second ltac:(done)) as H1. pose proof (Z.div_mod (t / second) 60 ltac:(done)) as H2.
    pose proof (Z.div_mod (t / minute) 60 ltac:(done)) as H3.
    assert (t / second / 60 = t / minute) as H4 by by rewrite Z.div_div.
    assert (t / minute / 60 = t / 3600000000) as H5 by by rewrite Z.div_div.
    change minute with 60000000 in *. change second with 1000000 in *. lia. }
  revert Hh Hm Hs Hf Hsplit.
  generalize (t / 3600000000) as h, (t / minute mod 60) as m, (t / second mod 60) as s, (t mod second) as f.
  intros h m s f Hh Hm Hs Hf Hsplit.
  rewrite take_fixed0 by lia. simpl. rewrite take_fixed0 by lia. simpl.
  assert (∀ x y, x < y → (x >=? y) = false) as Hge by (intros x y Hxy; rewrite Z.geb_leb; by apply Z.leb_gt).
  rewrite (Hge m) by lia. rewrite take_fixed0 by lia. simpl. rewrite (Hge s) by lia.
  assert (f = 0 ∧ (f =? 0) = true ∨ 0 < f ∧ (f =? 0) = false) as [[-> ->]|[Hf0 ->]].
  { destruct (Z.eqb_spec f 0); [left|right]; (split; [lia|done]). }
  - simpl. rewrite (Hge _ day) by lia. rewrite parse_offset_utc. simpl. do 2 f_equal. lia.
  - simpl. pose proof (fraction_fixed 6 6 f 0 "+00:00") as Hfr. destruct (fixed_head 5 f "+00:00") as (x & tl & Hx).
    rewrite Hx in Hfr |- *. rewrite (proj1 (digit_char_digit x)).
    rewrite Hfr by (change second with 1000000 in Hf; simpl; lia). simpl. rewrite fraction_offset. simpl.
    rewrite (Hge _ day) by lia. rewrite parse_offset_utc. simpl. do 2 f_equal. lia.
Qed.

(** Times survive the trip to a caller and back: what the gateway prints for a time
    stamp of the years 1 to 9999 is read back as the same instant, so a cursor or a
    filter built from a response selects what it says. *)
Theorem rfc3339_round_trip dt s :
  first_day * day ≤ utc_us dt < end_day * day → _dt_to_rfc3339 (Some dt) = Some s →
  _parse_rfc3339 s = Ok (as_utc dt).
Proof.
  intros Hr. rewrite dt_to_rfc3339_body. intros [= <-]. unfold _parse_rfc3339.
  rewrite (replace_at_end "Z"%char) by by apply iso_body_plain.
  by rewrite <-iso_body_offset, fromisoformat_isoformat.
Qed.
Lemma rfc3339_round_trip_witness :
  _parse_rfc3339 "2024-02-29T23:59:59.000001Z" = Ok (Aware 1709251199000001).
Proof.
  apply (rfc3339_round_trip (Naive 1709251199000001)); [split; vm_compute; congruence|vm_compute; reflexivity].
Defined.
