(* ===== verification/CreditAggregator.v ===== *)
(** [app/core/credit_aggregator.py]: the credits of the pool and of one key as the
    administrator sees them.  The dictionaries the functions return are records with
    the same field names. *)

From S2P Require Import Prelude Effects PyText PyTime Models Env Rfc3339 Sim.
Open Scope Z_scope.

(** [round(x, n)]: to the nearest multiple of 10^-n, halves to the even one. *)
Definition round_half_even (q : Q) : Z :=
  let f := Qfloor q in
  match (2 * (q - inject_Z f) ?= 1)%Q with
  | Lt => f
  | Gt => f + 1
  | Eq => if Z.even f then f else f + 1
  end.
Definition py_round (n : nat) (q : Q) : Q :=
  (inject_Z (round_half_even (q * inject_Z (10 ^ Z.of_nat n))) / inject_Z (10 ^ Z.of_nat n))%Q.

Module CreditAggregator.

Record KeyDetail := mkKeyDetail {
  kd_api_key_id : Z;
  kd_name : option string;
  kd_remaining_credits : Z;
  kd_plan_credits : Z;
  kd_total_credits : option Z;
  kd_usage_percentage : Q;
  kd_last_updated_at : option string
}.
Record ClientCredits := mkClientCredits {
  cc_client_id : Z;
  cc_client_name : string;
  cc_total_remaining_credits : Z;
  cc_total_plan_credits : Z;
  cc_total_credits : Z;
  cc_usage_percentage : Q;
  cc_keys : list KeyDetail
}.
Record SnapshotView := mkSnapshotView {
  sv_remaining_credits : Z;
  sv_plan_credits : Z;
  sv_billing_period_start : option string;
  sv_billing_period_end : option string;
  sv_snapshot_at : option string;
  sv_fetch_success : bool;
  sv_error_message : option string
}.
Record KeyCredits := mkKeyCredits {
  kc_api_key_id : Z;
  kc_remaining_credits : option Z;
  kc_plan_credits : option Z;
  kc_total_credits : option Z;
  kc_last_updated_at : option string;
  kc_is_estimated : bool;
  kc_latest_snapshot : option SnapshotView;
  kc_next_refresh_at : option string
}.

(** The first row of [ORDER BY snapshot_at], ascending or descending; rows of the same
    time come in the order of their keys. *)
Fixpoint first_by (before : CreditSnapshot → CreditSnapshot → bool) (l : list CreditSnapshot)
  : option CreditSnapshot :=
  match l with
  | [] => None
  | s :: l' => match first_by before l' with
               | Some s' => if before s' s then Some s' else Some s
               | None => Some s
               end
  end.
Definition earlier (a b : CreditSnapshot) : bool := utc_us (s_snapshot_at a) <? utc_us (s_snapshot_at b).
Definition later (a b : CreditSnapshot) : bool := earlier b a.
(** The oldest snapshot of a successful fetch. *)
Definition first_snapshot_of (key_id : Z) (t : Tables) : option CreditSnapshot :=
  first_by earlier (List.filter (λ s, (s_api_key_id s =? key_id) && s_fetch_success s) (by_id (t_snapshots t))).
Definition last_snapshot_of (key_id : Z) (t : Tables) : option CreditSnapshot :=
  first_by later (List.filter (λ s, s_api_key_id s =? key_id) (by_id (t_snapshots t))).

Definition usage (total remaining : Z) : Q :=
  if total =? 0 then 0%Q else (inject_Z (total - remaining) / inject_Z total * 100)%Q.

Section CreditAggregator.
Context {E : Env}.

(** [x or 0] of a nullable column. *)
Definition or_zero (x : option Z) : Z := default 0 x.

(** The total of a key: its plan, else what its first snapshot found, else what is left. *)
Definition total_credits (key : ApiKey) : Prog Z :=
  let plan := or_zero (k_cached_plan_credits key) in
  if plan >? 0 then ret plan
  else
    let! t := query in
    ret (match first_snapshot_of (k_id key) t with
         | Some s => s_remaining_credits s
         | None => or_zero (k_cached_remaining_credits key)
         end).

Definition key_detail (key : ApiKey) : Prog KeyDetail :=
  let remaining := or_zero (k_cached_remaining_credits key) in
  let! total := total_credits key in
  ret (mkKeyDetail (k_id key) (k_name key) remaining (or_zero (k_cached_plan_credits key)) (Some total)
         (py_round 2 (usage total remaining)) (_dt_to_rfc3339 (k_last_credit_check_at key))).

Fixpoint key_details (keys : list ApiKey) : Prog (list KeyDetail) :=
  match keys with
  | [] => ret []
  | key :: keys' => let! d := key_detail key in let! l := key_details keys' in ret (d :: l)
  end.

(** [total += ...] over the details. *)
Definition sum_of (f : KeyDetail → Z) (l : list KeyDetail) : Z := foldl (λ acc d, acc + f d) 0 l.

Definition aggregate_client_credits (client_id : Z) : Prog ClientCredits :=
  let! t := query in
  match t_clients t !! client_id with
  | None => raise (EValueError ("Client " +:+ str_int client_id +:+ " not found"))
  | Some client =>
      let! t := query in
      let! details := key_details (List.filter k_is_active (by_id (t_keys t))) in
      let remaining := sum_of kd_remaining_credits details in
      let total := sum_of (λ d, default 0 (kd_total_credits d)) details in
      ret (mkClientCredits (c_id client) (c_name client) remaining (sum_of kd_plan_credits details) total
             (py_round 2 (usage total remaining)) details)
  end.

Definition snapshot_view (s : CreditSnapshot) : SnapshotView :=
  mkSnapshotView (s_remaining_credits s) (s_plan_credits s) (_dt_to_rfc3339 (s_billing_period_start s))
    (_dt_to_rfc3339 (s_billing_period_end s)) (_dt_to_rfc3339 (Some (s_snapshot_at s))) (s_fetch_success s)
    (s_error_message s).

(** The snapshot the key names, else its newest one. *)
Definition latest_snapshot (key : ApiKey) : Prog (option CreditSnapshot) :=
  let! named := match k_last_credit_snapshot_id key with
                | Some id => if id =? 0 then ret None else let! t := query in ret (t_snapshots t !! id)
                | None => ret None
                end in
  match named with
  | Some s => ret (Some s)
  | None => let! t := query in ret (last_snapshot_of (k_id key) t)
  end.

Definition get_key_credits (key_id : Z) : Prog KeyCredits :=
  let! t := query in
  match t_keys t !! key_id with
  | None => raise (EValueError ("Key " +:+ str_int key_id +:+ " not found"))
  | Some key =>
      let! latest := latest_snapshot key in
      let! t := query in
      let first := first_snapshot_of (k_id key) t in
      let cached := k_cached_remaining_credits key in
      let is_estimated := match cached, latest with
                          | Some c, Some s => negb (c =? s_remaining_credits s)
                          | _, _ => false
                          end in
      let total := match k_cached_plan_credits key, first with
                   | Some plan, _ => if plan >? 0 then Some plan
                                     else match first with Some s => Some (s_remaining_credits s) | None => cached end
                   | None, Some s => Some (s_remaining_credits s)
                   | None, None => cached
                   end in
      ret (mkKeyCredits (k_id key) cached (k_cached_plan_credits key) total
             (_dt_to_rfc3339 (k_last_credit_check_at key)) is_estimated (snapshot_view <$> latest)
             (_dt_to_rfc3339 (k_next_refresh_at key)))
  end.
End CreditAggregator.
End CreditAggregator.

Import CreditAggregator.

Module CreditViews.
Section CreditViews.
Context {E : Env} {OL : OrmLaws}.

Lemma query_view w t w' : query w = (Ok t, w') → t = view w ∧ view w' = view w.
Proof.
  unfold query, bind, step, gets, view. pose proof (view_query (w_db w)) as Hv.
  destruct (db_query (w_db w)) as [[] s]; simpl in *; [|done]. intros [= <- <-]. simpl. by rewrite Hv.
Qed.

(** What the overview shows of a key, as a function of the tables. *)
Definition total_of (t : Tables) (key : ApiKey) : Z :=
  let plan := or_zero (k_cached_plan_credits key) in
  if plan >? 0 then plan
  else match first_snapshot_of (k_id key) t with
       | Some s => s_remaining_credits s
       | None => or_zero (k_cached_remaining_credits key)
       end.
Definition detail_of (t : Tables) (key : ApiKey) : KeyDetail :=
  let remaining := or_zero (k_cached_remaining_credits key) in
  mkKeyDetail (k_id key) (k_name key) remaining (or_zero (k_cached_plan_credits key)) (Some (total_of t key))
    (py_round 2 (usage (total_of t key) remaining)) (_dt_to_rfc3339 (k_last_credit_check_at key)).

Lemma key_details_spec keys : ∀ w l w', key_details keys w = (Ok l, w') →
  l = map (detail_of (view w)) keys ∧ view w' = view w.
Proof.
  induction keys as [|key keys IH]; intros w l w' H; simpl in H; [by injection H as <- <-|].
  apply bind_ok in H as (d & w1 & Hd & Hrest). apply bind_ok in Hrest as (l1 & w2 & Hl & Hr).
  injection Hr as <- <-.
  assert (d = detail_of (view w) key ∧ view w1 = view w) as [-> Hv].
  { unfold key_detail, total_credits in Hd. apply bind_ok in Hd as (tot & w3 & Ht & Hd). injection Hd as <- <-.
    unfold detail_of, total_of. cbv zeta in *. destruct (_ >? 0); [by injection Ht as <- <-|].
    apply bind_ok in Ht as (t & w4 & Hq & Ht). apply query_view in Hq as [-> Hv]. by injection Ht as <- <-. }
  apply IH in Hl as [-> Hv2]. rewrite Hv2, Hv. done.
Qed.
Lemma sum_of_spec f l : sum_of f l = foldr (λ d acc, f d + acc) 0 l.
Proof.
  unfold sum_of. assert (∀ a, foldl (λ acc d, acc + f d) a l = a + foldr (λ d acc, f d + acc) 0 l) as ->; [|lia].
  induction l as [|d l IH]; intros a; simpl; [lia|]. rewrite IH. lia.
Qed.
Lemma round_bounds n q lo hi : (inject_Z lo <= q)%Q → (q <= inject_Z hi)%Q →
  (inject_Z lo <= py_round n q)%Q ∧ (py_round n q <= inject_Z hi)%Q.
Proof.
  intros Hlo Hhi. unfold py_round. set (k := 10 ^ Z.of_nat n).
  assert (0 < k) as Hk by (apply Z.pow_pos_nonneg; lia).
  assert (0 < inject_Z k)%Q as Hkq by (rewrite <-(Zlt_Qlt 0); done).
  assert (lo * k ≤ round_half_even (q * inject_Z k) ≤ hi * k) as [H1 H2].
  { set (x := (q * inject_Z k)%Q).
    assert (inject_Z (lo * k) <= x)%Q as Hx1 by (rewrite inject_Z_mult; apply Qmult_le_compat_r; [done|lra]).
    assert (x <= inject_Z (hi * k))%Q as Hx2 by (rewrite inject_Z_mult; apply Qmult_le_compat_r; [done|lra]).
    assert (lo * k ≤ Qfloor x) as Hf1 by (rewrite <-(Qfloor_Z (lo * k)); by apply Qfloor_resp_le).
    assert (Qfloor x ≤ hi * k) as Hf2 by (rewrite <-(Qfloor_Z (hi * k)); by apply Qfloor_resp_le).
    assert ((2 * (x - inject_Z (Qfloor x)) ?= 1)%Q ≠ Lt → Qfloor x + 1 ≤ hi * k) as Hup.
    { intros Hc. assert (Qfloor x ≠ hi * k); [|lia]. intros Heq. apply Hc. rewrite Heq.
      apply (proj1 (Qlt_alt _ _)).
      clear - Hx2. clearbody x. revert Hx2. generalize (inject_Z (hi * k)) as y. intros y Hy. lra. }
    unfold round_half_even. destruct (_ ?= 1)%Q eqn:Hc; [destruct (Z.even _)| |]; try lia;
      specialize (Hup ltac:(done)); lia. }
  split.
  - apply Qle_shift_div_l; [done|]. rewrite <-inject_Z_mult. by rewrite <-Zle_Qle.
  - apply Qle_shift_div_r; [done|]. rewrite <-inject_Z_mult. by rewrite <-Zle_Qle.
Qed.
Lemma usage_bounds total remaining : 0 ≤ remaining ≤ total → (0 <= usage total remaining)%Q ∧ (usage total remaining <= 100)%Q.
Proof.
  intros [H1 H2]. unfold usage. destruct (Z.eqb_spec total 0) as [->|Hne]; [split; lra|].
  assert (0 < inject_Z total)%Q as Ht by (rewrite <-(Zlt_Qlt 0); lia).
  assert (inject_Z (total - remaining) <= inject_Z total)%Q as H3 by (rewrite <-Zle_Qle; lia).
  assert (0 <= inject_Z (total - remaining))%Q as H4 by (rewrite <-(Zle_Qle 0); lia).
  assert (0 <= inject_Z (total - remaining) / inject_Z total)%Q by (apply Qle_shift_div_l; lra).
  assert (inject_Z (total - remaining) / inject_Z total <= 1)%Q by (apply Qle_shift_div_r; lra).
  split; lra.
Qed.
End CreditViews.
End CreditViews.

Module CreditAggregatorTheorems.
Import CreditViews.
Section CreditAggregatorTheorems.
Context {E : Env} {OL : OrmLaws}.

(** The overview of the pool adds up: it lists the active keys in the order of their
    numbers, each once, its totals are the sums over the listed keys, it changes
    nothing, and the percentage of a key that has not more left than its total lies
    between 0 and 100. *)
Theorem credit_overview_adds_up cid w r w' :
  aggregate_client_credits cid w = (Ok r, w') →
  map kd_api_key_id (cc_keys r) = map k_id (List.filter k_is_active (by_id (t_keys (view w)))) ∧
  cc_total_remaining_credits r = foldr (λ d acc, kd_remaining_credits d + acc) 0 (cc_keys r) ∧
  cc_total_plan_credits r = foldr (λ d acc, kd_plan_credits d + acc) 0 (cc_keys r) ∧
  cc_total_credits r = foldr (λ d acc, default 0 (kd_total_credits d) + acc) 0 (cc_keys r) ∧
  view w' = view w ∧
  ∀ d, d ∈ cc_keys r → 0 ≤ kd_remaining_credits d ≤ default 0 (kd_total_credits d) →
    (0 <= kd_usage_percentage d)%Q ∧ (kd_usage_percentage d <= 100)%Q.
Proof.
  unfold aggregate_client_credits. intros (t & w1 & [-> Hv1]%query_view & Hr)%bind_ok.
  destruct (t_clients (view w) !! cid) as [client|]; [|done].
  apply bind_ok in Hr as (t & w2 & [-> Hv2]%query_view & Hr).
  apply bind_ok in Hr as (l & w3 & [-> Hv3]%key_details_spec & Hr). injection Hr as <- <-. simpl.
  rewrite !sum_of_spec, Hv3, Hv2, Hv1, map_map. split_and!; try done.
  intros d (key & -> & _)%list_elem_of_fmap Hd. simpl in *.
  destruct (usage_bounds _ _ Hd) as [H1 H2]. exact (round_bounds 2 _ 0 100 H1 H2).
Qed.

(** The two views of a key's credits agree: what the overview says of a key is what
    the key's own page says, with 0 for what is not known. *)
Theorem credit_views_agree cid w r w' d w1 c w1' :
  aggregate_client_credits cid w = (Ok r, w') → d ∈ cc_keys r → view w1 = view w →
  (∀ i k, t_keys (view w) !! i = Some k → k_id k = i) →
  get_key_credits (kd_api_key_id d) w1 = (Ok c, w1') →
  kc_api_key_id c = kd_api_key_id d ∧ kd_remaining_credits d = or_zero (kc_remaining_credits c) ∧
  kd_plan_credits d = or_zero (kc_plan_credits c) ∧ kd_total_credits d = Some (or_zero (kc_total_credits c)) ∧
  kd_last_updated_at d = kc_last_updated_at c.
Proof.
  unfold aggregate_client_credits. intros (t & w2 & [-> Hv1]%query_view & Hr)%bind_ok Hd Hw1 Hids Hc.
  destruct (t_clients (view w) !! cid) as [client|]; [|done].
  apply bind_ok in Hr as (t & w3 & [-> Hv2]%query_view & Hr).
  apply bind_ok in Hr as (l & w4 & [-> Hv3]%key_details_spec & Hr). injection Hr as <- <-. simpl in Hd.
  rewrite Hv2, Hv1 in Hd. apply list_elem_of_fmap in Hd as (key & -> & Hin).
  apply list_elem_of_In, filter_In in Hin as [Hin _]. apply list_elem_of_In, elem_of_by_id in Hin as [i Hi].
  pose proof (Hids i key Hi) as <-. simpl in Hc. unfold get_key_credits in Hc.
  apply bind_ok in Hc as (t & w5 & [-> Hv5]%query_view & Hc). rewrite Hw1, Hi in Hc.
  apply bind_ok in Hc as (latest & w6 & Hl & Hc).
  assert (view w6 = view w5) as Hv6.
  { unfold latest_snapshot in Hl. apply bind_ok in Hl as (named & w7 & Hn & Hl).
    assert (view w7 = view w5) as Hv7.
    { destruct (k_last_credit_snapshot_id key) as [s|]; [destruct (s =? 0)|]; [by injection Hn as <- <-| |by injection Hn as <- <-].
      apply bind_ok in Hn as (t & w8 & [-> Hv8]%query_view & Hn). injection Hn as <- <-. done. }
    destruct named; [injection Hl as <- <-; congruence|].
    apply bind_ok in Hl as (t & w8 & [-> Hv8]%query_view & Hl). injection Hl as <- <-. congruence. }
  apply bind_ok in Hc as (t & w7 & [-> Hv7]%query_view & Hc). rewrite Hv6, Hv5, Hw1 in Hc. injection Hc as <- <-.
  simpl. split_and!; try done. unfold total_of, or_zero. f_equal.
  destruct (k_cached_plan_credits key) as [plan|]; simpl; [|by case_match]. by repeat case_match.
Qed.
End CreditAggregatorTheorems.

(** * Concrete inputs *)

Import Simulation.

Lemma stored_under_id ks cs i k : t_keys (sim_tables ks cs) !! i = Some k → k_id k = i.
Proof. intros Hi%elem_of_list_to_map_2. apply list_elem_of_fmap in Hi as (k' & [= -> ->] & _). done. Qed.

(** A paid key, a free one that started with 500 credits, and one out of service. *)
Definition credit_tables : Tables :=
  set_t_snapshots (list_to_map [(1, mkCreditSnapshot 1 2 300 0 None None (Naive 50) true None);
                                (2, mkCreditSnapshot 2 2 500 0 None None (Naive 20) true None);
                                (3, mkCreditSnapshot 3 2 0 0 None None (Naive 10) false (Some "timeout"))])
    (sim_tables [set_k_cached_plan_credits (Some 1000) (sim_key 1 "firecrawl" (Some 900)); sim_key 2 "firecrawl" (Some 40);
                 set_k_is_active false (sim_key 3 "firecrawl" (Some 7))] [sim_client 5 None 0]).
Definition credit_world : World := sim_world credit_tables [] [].
Definition credit_result : Res ClientCredits := (aggregate_client_credits 5 credit_world).1.
Lemma credit_overview_adds_up_witness :
  match credit_result with
  | Ok r => map kd_api_key_id (cc_keys r) = [1; 2] ∧ cc_total_credits r = 1000 + (500 + 0)
  | Raise _ => False
  end.
Proof.
  unfold credit_result. destruct (aggregate_client_credits 5 credit_world) as [[r|e] w'] eqn:Hr.
  2: { apply (f_equal fst) in Hr. vm_compute in Hr. discriminate Hr. }
  destruct (credit_overview_adds_up 5 credit_world r w' Hr) as (Hk & _ & _ & Ht & _).
  simpl. rewrite Hk, Ht. apply (f_equal fst) in Hr. vm_compute in Hr. injection Hr as <-. split; reflexivity.
Defined.
Lemma credit_views_agree_witness :
  match credit_result, (get_key_credits 2 credit_world).1 with
  | Ok r, Ok c => ∃ d, d ∈ cc_keys r ∧ kd_api_key_id d = 2 ∧ kd_total_credits d = Some (or_zero (kc_total_credits c))
  | _, _ => False
  end.
Proof.
  unfold credit_result. destruct (aggregate_client_credits 5 credit_world) as [[r|e] w'] eqn:Hr.
  2: { apply (f_equal fst) in Hr. vm_compute in Hr. discriminate Hr. }
  destruct (get_key_credits 2 credit_world) as [[c|e] w1'] eqn:Hc.
  2: { apply (f_equal fst) in Hc. vm_compute in Hc. discriminate Hc. }
  pose proof Hr as Hr'. apply (f_equal fst) in Hr'. vm_compute in Hr'. injection Hr' as Hr'. simpl.
  assert (∃ d, d ∈ cc_keys r ∧ kd_api_key_id d = 2) as (d & Hin & Hd).
  { rewrite <-Hr'. eexists. split; [right; left|]. reflexivity. }
  exists d. split; [exact Hin|]. split; [exact Hd|]. rewrite <-Hd in Hc.
  apply (credit_views_agree 5 credit_world r w' d credit_world c w1' Hr Hin eq_refl); [|exact Hc].
  intros i k Hi. apply (stored_under_id [_; _; _] [sim_client 5 None 0] i k Hi).
Defined.
End CreditAggregatorTheorems.
