(* ===== verification/AdminViews.v ===== *)
(** The parts all endpoints of [app/api/control_plane.py] share: how a key and a client
    are shown, limits and levels of the log, the audit record, and the shape of a
    transaction.  A request for the administrator has a session of its own, which is
    closed at its end ([in_session]): what is not committed is lost. *)

From S2P Require Import Prelude Effects PyText PyTime Json Models Config Env RuntimeSettings Security KeyPool.
From S2P Require Import Forwarder Deps Rfc3339.
Import Forwarder.
Open Scope Z_scope.

Module Admin.

Definition _VALID_PROVIDERS : list string := ["firecrawl"; "exa"].

Definition validation_error (message : string) : FcamError :=
  mkFcamError 400 "VALIDATION_ERROR" message None.
Definition not_found : FcamError := mkFcamError 404 "NOT_FOUND" "Not found" None.
Definition not_ready : FcamError := mkFcamError 503 "NOT_READY" "Master key not configured" None.

Definition _limit (limit : Z) : Res Z :=
  if limit <=? 0 then Raise (EFcam (validation_error "limit must be positive"))
  else if limit >? 200 then Raise (EFcam (validation_error "limit too large"))
  else Ok limit.

Definition _request_log_level (status_code : option Z) (success : option bool) : string :=
  if bool_decide (success = Some true) && match status_code with Some s => s <? 400 | None => false end then "info"
  else if match status_code with Some s => (400 <=? s) && (s <? 500) | None => false end then "warn"
  else "error".

Definition time_json (dt : option DateTime) : Json := nullable JStr (_dt_to_rfc3339 dt).
Definition date_json (d : option Z) : Json := nullable JStr (_date_to_iso d).

Section Admin.
Context {E : Env} (self : Self) (secrets : Secrets) (request : Request).
Let config := f_config self.

(** [if not secrets.master_key: raise ...]. *)
Definition require_master_key : Prog string :=
  match sec_master_key secrets with
  | Some k => if String.eqb k "" then raise (EFcam not_ready) else ret k
  | None => raise (EFcam not_ready)
  end.

Definition _audit (action : string) (resource_type resource_id : option string) : Prog unit :=
  let! now := now_utc in
  let! id := gets (λ w, db_next_id (w_db w)) in
  assign (λ t, set_t_audit_logs (<[id := mkAuditLog id "admin" (Some "admin") action resource_type resource_id
    (req_client_host request) (req_header "user-agent" request) (Aware now)]> (t_audit_logs t)) t).
(** The audit records of actions on one key or one client. *)
Definition audit_key (action : string) (key : ApiKey) : Prog unit :=
  _audit action (Some ("api_key:" +:+ k_provider key)) (Some (str_int (k_id key))).
Definition audit_client (action : string) (client_id : Z) : Prog unit :=
  _audit action (Some "client") (Some (str_int client_id)).

(** [db.query(...).filter(... .id == id).one_or_none()] and the 404. *)
Definition find_key (id : Z) : Prog ApiKey :=
  let! t := query in
  match t_keys t !! id with Some k => ret k | None => raise (EFcam not_found) end.
Definition find_client (id : Z) : Prog Client :=
  let! t := query in
  match t_clients t !! id with Some c => ret c | None => raise (EFcam not_found) end.
(** [db.refresh(obj)]. *)
Definition refresh : Prog unit := query ;;! ret tt.

(** [try: m  except IntegrityError: db.rollback(); raise duplicate  except Exception:
    db.rollback(); raise DB_UNAVAILABLE]. *)
Definition or_unavailable {A} (duplicate : FcamError) (m : Prog A) : Prog A :=
  catch_all m (λ e, rollback ;;!
    raise (EFcam (match e with EIntegrity => duplicate | _ => KeyPool.db_unavailable end))).
(** [try: db.commit()  except Exception: db.rollback()]. *)
Definition try_commit : Prog unit := catch_all commit (λ _, rollback).
(** [with SessionLocal() as session: yield session]. *)
Definition in_session {A} (m : Prog A) : Prog A := finally m rollback.

(** ** How a key and a client are shown *)

(** The scheduler's parameters a key is scored with. *)
Definition scoring_half : Z :=
  let half := or_int (sc_freshness_half_life_seconds (cfg_scheduling config)) 21600 in
  match f_runtime self with Some rt => int_of_float (effective_half_life rt half) | None => half end.
Definition scoring_base : Q :=
  let base := or_float (sc_unknown_credit_baseline (cfg_scheduling config)) 50 in
  match f_runtime self with Some rt => effective_unknown_baseline rt base | None => base end.
(** Plan credits, else what is left. *)
Definition cached_total_credits (key : ApiKey) : option Z :=
  match k_cached_plan_credits key with
  | Some plan => if plan >? 0 then Some plan else k_cached_remaining_credits key
  | None => k_cached_remaining_credits key
  end.

Definition _key_item (key : ApiKey) : Prog (list (string * Json)) :=
  let! m := moment in
  let! current := gets (λ w, cl_current (str_int (k_id key)) m (w_key_conc w)) in
  let! now := now_utc in
  let sel_score := KeyPool.score_key key now (inject_Z scoring_half) scoring_base 0 1 in
  let credit_age := (λ dt, Z.max (int_seconds (now - utc_us dt)) 0) <$> k_last_credit_check_at key in
  ret [
    ("id", JInt (k_id key));
    ("client_id", nullable JInt (k_client_id key));
    ("name", nullable JStr (k_name key));
    ("api_key_masked", JStr (mask_api_key_last4 (k_api_key_last4 key)));
    ("account_username", nullable JStr (k_account_username key));
    ("account_verified_at", time_json (k_account_verified_at key));
    ("plan_type", JStr (k_plan_type key));
    ("is_active", JBool (k_is_active key));
    ("status", JStr (k_status key));
    ("daily_quota", JInt (k_daily_quota key));
    ("daily_usage", JInt (k_daily_usage key));
    ("quota_reset_at", date_json (k_quota_reset_at key));
    ("max_concurrent", JInt (k_max_concurrent key));
    ("current_concurrent", JInt current);
    ("rate_limit_per_min", JInt (k_rate_limit_per_min key));
    ("cooldown_until", time_json (k_cooldown_until key));
    ("total_requests", JInt (k_total_requests key));
    ("last_used_at", time_json (k_last_used_at key));
    ("created_at", time_json (Some (k_created_at key)));
    ("last_credit_snapshot_id", nullable JInt (k_last_credit_snapshot_id key));
    ("last_credit_check_at", time_json (k_last_credit_check_at key));
    ("cached_remaining_credits", nullable JInt (k_cached_remaining_credits key));
    ("cached_plan_credits", nullable JInt (k_cached_plan_credits key));
    ("cached_total_credits", nullable JInt (cached_total_credits key));
    ("next_refresh_at", time_json (k_next_refresh_at key));
    ("provider", JStr (k_provider key));
    ("selection_score", nullable JFloat sel_score);
    ("credit_age_seconds", nullable JInt credit_age)
  ].

Definition _client_item (client : Client) : list (string * Json) := [
  ("id", JInt (c_id client));
  ("name", JStr (c_name client));
  ("is_active", JBool (c_is_active client));
  ("status", JStr (c_status client));
  ("daily_quota", nullable JInt (c_daily_quota client));
  ("daily_usage", JInt (c_daily_usage client));
  ("quota_reset_at", date_json (c_quota_reset_at client));
  ("rate_limit_per_min", JInt (c_rate_limit_per_min client));
  ("max_concurrent", JInt (c_max_concurrent client));
  ("max_retries", JInt (c_max_retries client));
  ("created_at", time_json (Some (c_created_at client)));
  ("last_used_at", time_json (c_last_used_at client))
].
End Admin.
End Admin.
