(* ===== verification/AdminKeyList.v ===== *)
(** [list_keys] of [app/api/control_plane.py]: filtering, sorting and paging the keys.
    How the database orders the values of a column is a parameter ([DbOrder]: null
    values and collations differ between SQLite and PostgreSQL); [LIKE] is spelled
    out, wildcards included. *)

From S2P Require Import Prelude Effects PyText PyTime Json Models Config Env RuntimeSettings Security KeyPool.
From S2P Require Import Forwarder Deps Rfc3339 AdminViews.
Import Forwarder Admin.
Open Scope Z_scope.

(** * Text search in the database *)

(** [s LIKE p]: a percent sign for any text, an underscore for any character. *)
Fixpoint like (p s : string) : bool :=
  match p with
  | EmptyString => String.eqb s ""
  | String c p' =>
      if Ascii.eqb c "%"%char then
        (fix suffixes (s : string) : bool :=
           like p' s || match s with EmptyString => false | String _ s' => suffixes s' end) s
      else match s with
           | EmptyString => false
           | String d s' => (Ascii.eqb c "_"%char || Ascii.eqb c d) && like p' s'
           end
  end.
(** [func.lower(column).like(f"%{q.lower()}%")]. *)
Definition searched (q column : string) : bool := like ("%" +:+ lower q +:+ "%") (lower column).

(** [ORDER BY column ASC] of the database. *)
Class DbOrder := { db_le : Json → Json → bool }.

Module AdminKeyList.

Record ListKeysQuery := mkListKeysQuery {
  lk_client_id : option Z;
  lk_page : option Z;
  lk_page_size : option Z;
  lk_q : option string;
  lk_provider : option string;
  lk_status : option string;
  lk_sort_by : option string;
  lk_sort_order : option string
}.
(** The bounds the query parameters are declared with. *)
Definition list_keys_valid (p : ListKeysQuery) : bool :=
  match lk_page p with Some n => 1 <=? n | None => true end &&
  match lk_page_size p with Some n => (1 <=? n) && (n <=? 200) | None => true end.

(** [x is not None and x.strip()]. *)
Definition present (x : option string) : option string :=
  match x with Some s => if String.eqb (strip s) "" then None else Some (strip s) | None => None end.

Definition column (sort_key : string) : ApiKey → Json :=
  if String.eqb sort_key "name" then λ k, nullable JStr (k_name k)
  else if String.eqb sort_key "provider" then λ k, JStr (k_provider k)
  else if String.eqb sort_key "status" then λ k, JStr (k_status k)
  else if str_in sort_key ["cached_remaining_credits"; "selection_score"]
  then λ k, nullable JInt (k_cached_remaining_credits k)
  else if String.eqb sort_key "total_requests" then λ k, JInt (k_total_requests k)
  else if String.eqb sort_key "last_credit_check_at" then λ k, nullable (λ d, JInt (utc_us d)) (k_last_credit_check_at k)
  else if String.eqb sort_key "next_refresh_at" then λ k, nullable (λ d, JInt (utc_us d)) (k_next_refresh_at k)
  else if String.eqb sort_key "created_at" then λ k, JInt (utc_us (k_created_at k))
  else if String.eqb sort_key "last_used_at" then λ k, nullable (λ d, JInt (utc_us d)) (k_last_used_at k)
  else if String.eqb sort_key "is_active" then λ k, JBool (k_is_active k)
  else λ k, JInt (k_id k).

Section AdminKeyList.
Context {E : Env} `{!DbOrder} (self : Self).

Definition order_le (ascending : bool) (col : ApiKey → Json) (a b : ApiKey) : Prop :=
  (if ascending then db_le (col a) (col b) else db_le (col b) (col a)) = true.
#[export] Instance order_le_dec ascending col : RelDecision (order_le ascending col).
Proof. intros a b. unfold order_le. apply _. Defined.

(** The conditions on one row. *)
Definition key_matches (p : ListKeysQuery) (k : ApiKey) : bool :=
  match lk_provider p with Some v => String.eqb (k_provider k) v | None => true end &&
  match present (lk_status p) with Some st => String.eqb (lower (k_status k)) (lower st) | None => true end &&
  match lk_client_id p with
  | Some c => if c =? 0 then bool_decide (k_client_id k = None) else bool_decide (k_client_id k = Some c)
  | None => true
  end &&
  match present (lk_q p) with Some q => searched q (default "" (k_name k)) | None => true end.

Definition select_keys (p : ListKeysQuery) (t : Tables) : list ApiKey :=
  let sort_key := lower (strip (opt_or_str (lk_sort_by p) "id")) in
  let order := lower (strip (opt_or_str (lk_sort_order p) "desc")) in
  merge_sort (order_le (String.eqb order "asc") (column sort_key))
    (List.filter (key_matches p) (by_id (t_keys t))).

(** The item of a key with what the list adds to it. *)
Definition list_item (snapshots : gmap Z CreditSnapshot) (k : ApiKey) : Prog Json :=
  let! item := _key_item self k in
  let snap := match k_last_credit_snapshot_id k with Some sid => snapshots !! sid | None => None end in
  let estimated := match snap, k_cached_remaining_credits k with
                   | Some s, Some c => negb (c =? s_remaining_credits s)
                   | _, _ => false
                   end in
  ret (JObj (item ++
    [("cached_is_estimated", JBool estimated);
     ("billing_period_start", match snap with Some s => time_json (s_billing_period_start s) | None => JNull end);
     ("billing_period_end", match snap with Some s => time_json (s_billing_period_end s) | None => JNull end)])).
Fixpoint list_items (snapshots : gmap Z CreditSnapshot) (keys : list ApiKey) : Prog (list Json) :=
  match keys with
  | [] => ret []
  | k :: keys' => let! j := list_item snapshots k in let! l := list_items snapshots keys' in ret (j :: l)
  end.

(** The snapshots the keys name, those with a truthy number. *)
Definition named_snapshots (keys : list ApiKey) : Prog (gmap Z CreditSnapshot) :=
  let ids := omap (λ k, match k_last_credit_snapshot_id k with
                        | Some i => if i =? 0 then None else Some i | None => None end) keys in
  match ids with
  | [] => ret ∅
  | _ => let! t := query in ret (filter (λ p, p.1 ∈ ids) (t_snapshots t))
  end.

(** [except FcamError: raise  except Exception: raise DB_UNAVAILABLE]. *)
Definition or_db_unavailable {A} (m : Prog A) : Prog A :=
  catch_all m (λ e, raise (match e with EFcam f => EFcam f | _ => EFcam KeyPool.db_unavailable end)).

Definition too_long (p : ListKeysQuery) : bool :=
  match present (lk_q p) with Some q => slen q >? 200 | None => false end.

Definition page_of {A} (page page_size : Z) (l : list A) : list A :=
  take (Z.to_nat page_size) (drop (Z.to_nat ((page - 1) * page_size)) l).

Definition list_keys (p : ListKeysQuery) : Prog Json :=
  let use_pagination :=
    bool_decide (is_Some (lk_page p)) || bool_decide (is_Some (lk_page_size p)) || bool_decide (is_Some (present (lk_q p))) in
  if negb use_pagination then
    or_db_unavailable (
      let! t := query in
      let keys := select_keys p t in
      let! snapshots := named_snapshots keys in
      let! items := list_items snapshots keys in
      ret (JObj [("items", JList items)]))
  else
    let page := opt_or_int (lk_page p) 1 in
    let page_size := opt_or_int (lk_page_size p) 20 in
    let! ' (total_items, keys) := or_db_unavailable (
      if too_long p then raise (EFcam (validation_error "q too long"))
      else
        let! t := query in
        let total_items := Z.of_nat (length (select_keys p t)) in
        let! t := query in
        ret (total_items, page_of page page_size (select_keys p t))) in
    let total_pages := if page_size =? 0 then 0 else (total_items + page_size - 1) / page_size in
    let! snapshots := named_snapshots keys in
    let! items := list_items snapshots keys in
    ret (JObj [("items", JList items);
               ("pagination", JObj [("page", JInt page); ("page_size", JInt page_size);
                                    ("total_items", JInt total_items); ("total_pages", JInt total_pages)])]).
End AdminKeyList.
End AdminKeyList.
