(* ===== verification/AdminKeys.v ===== *)
(** The endpoints of [app/api/control_plane.py] that add keys: creation of one key and
    the import of a text.  Each is the whole handler, with the bounds its payload
    class declares in front ([accept]). *)

From S2P Require Import Prelude Effects PyText PyTime Json Models Config Env RuntimeSettings Security KeyPool.
From S2P Require Import Forwarder KeyTest Deps KeyImport Rfc3339 AdminRows AdminViews.
Import Forwarder KeyTest KeyImport Deps Admin.
Open Scope Z_scope.

Module AdminKeys.

(** * Payloads *)

Definition at_least (lo : Z) (x : option Z) : bool := match x with Some n => lo <=? n | None => true end.
Definition at_most (n : Z) (s : option string) : bool := match s with Some s => slen s <=? n | None => true end.

Record CreateKeyRequest := mkCreateKeyRequest {
  ck_api_key : string;
  ck_client_id : option Z;
  ck_name : option string;
  ck_plan_type : string;
  ck_daily_quota : Z;
  ck_max_concurrent : Z;
  ck_rate_limit_per_min : Z;
  ck_is_active : bool;
  ck_provider : string
}.
Definition create_key_valid (p : CreateKeyRequest) : bool :=
  (8 <=? slen (ck_api_key p)) && at_least 0 (ck_client_id p) && at_most 255 (ck_name p) &&
  (slen (ck_plan_type p) <=? 32) && (0 <=? ck_daily_quota p) && (0 <=? ck_max_concurrent p) &&
  (0 <=? ck_rate_limit_per_min p) && (slen (ck_provider p) <=? 32).

Record ImportKeysTextRequest := mkImportKeysTextRequest {
  im_client_id : option Z;
  im_text : string;
  im_plan_type : string;
  im_daily_quota : Z;
  im_max_concurrent : Z;
  im_rate_limit_per_min : Z;
  im_is_active : bool;
  im_provider : string
}.
Definition import_valid (p : ImportKeysTextRequest) : bool :=
  at_least 0 (im_client_id p) && (1 <=? slen (im_text p)) && (slen (im_plan_type p) <=? 32) &&
  (0 <=? im_daily_quota p) && (0 <=? im_max_concurrent p) && (0 <=? im_rate_limit_per_min p) &&
  (slen (im_provider p) <=? 32).

(** FastAPI refuses a payload outside its bounds before the handler runs. *)
Definition accept {E : Env} {A} (valid : bool) (m : Prog A) : Prog A :=
  if valid then m else raise (EOther "RequestValidationError").

Section AdminKeys.
Context {E : Env} `{!Digests, !ZoneInfo} (self : Self) (secrets : Secrets) (request : Request).
Let config := f_config self.

Definition invalid_provider (provider : string) : FcamError :=
  validation_error ("Invalid provider '" +:+ provider +:+ "'. Allowed: exa, firecrawl").
Definition api_key_duplicate : FcamError := mkFcamError 409 "API_KEY_DUPLICATE" "Duplicate api key" None.

Definition insert_key (key : ApiKey) : Prog unit :=
  assign (λ t, set_t_keys (<[k_id key := key]> (t_keys t)) t).
(** A row as the constructor call of the source fills it in. *)
Definition new_key (id : Z) (ciphertext hash last4 : string) (username : option string)
    (password_ciphertext : option string) (verified_at : option DateTime) (name : option string)
    (plan_type : string) (is_active : bool) (today max_concurrent rate_limit_per_min : Z)
    (provider : string) (now : Z) : ApiKey := {|
  k_id := id; k_client_id := None; k_api_key_ciphertext := ciphertext; k_api_key_hash := hash;
  k_api_key_last4 := last4; k_account_username := username;
  k_account_password_ciphertext := password_ciphertext; k_account_verified_at := verified_at; k_name := name;
  k_plan_type := plan_type; k_is_active := is_active; k_daily_quota := 0; k_daily_usage := 0;
  k_quota_reset_at := Some today; k_max_concurrent := max_concurrent; k_current_concurrent := 0;
  k_rate_limit_per_min := rate_limit_per_min; k_rate_limit_reset_at := None; k_cooldown_until := None;
  k_total_requests := 0; k_last_used_at := None; k_created_at := Aware now;
  k_last_credit_snapshot_id := None; k_last_credit_check_at := None; k_cached_remaining_credits := None;
  k_cached_plan_credits := None; k_next_refresh_at := None; k_provider := provider;
  k_status := if is_active then "active" else "disabled"
|}.

Definition create_key (p : CreateKeyRequest) : Prog Json :=
  accept (create_key_valid p) (
    let! master := require_master_key secrets in
    if negb (str_in (ck_provider p) _VALID_PROVIDERS) then raise (EFcam (invalid_provider (ck_provider p)))
    else
      let mk := derive_master_key_bytes master in
      let! nonce := urandom NONCE_BYTES in
      let! today := today_in_timezone (qu_timezone (cfg_quota config)) in
      let! key := or_unavailable api_key_duplicate (
        let! now := now_utc in
        let! id := gets (λ w, db_next_id (w_db w)) in
        let key := new_key id (encrypt_api_key mk nonce (ck_api_key p)) (hmac_sha256_hex mk (ck_api_key p))
          (last_chars 4 (ck_api_key p)) None None None (ck_name p) (ck_plan_type p) (ck_is_active p) today
          (ck_max_concurrent p) (ck_rate_limit_per_min p) (ck_provider p) now in
        insert_key key ;;! flush ;;! audit_key request "key.create" key ;;! commit ;;! refresh ;;! ret key) in
      let! item := _key_item self key in
      ret (JObj item)).

(** ** Import *)

Record Counters := mkCounters { n_created : Z; n_updated : Z; n_skipped : Z; n_failures : list ParseFailure }.
Definition count_created (c : Counters) : Counters :=
  mkCounters (n_created c + 1) (n_updated c) (n_skipped c) (n_failures c).
Definition count_updated (c : Counters) : Counters :=
  mkCounters (n_created c) (n_updated c + 1) (n_skipped c) (n_failures c).
Definition count_skipped (c : Counters) : Counters :=
  mkCounters (n_created c) (n_updated c) (n_skipped c + 1) (n_failures c).
Definition count_failure (item : ParsedKeyLine) (message : string) (c : Counters) : Counters :=
  mkCounters (n_created c) (n_updated c) (n_skipped c)
    (n_failures c ++ [mkParseFailure (pk_line_no item) (pk_raw item) message]).

(** [with db.begin_nested(): m]: what the body returned, if it ended, and the
    exception that left the block, if one did; then everything since the savepoint
    is undone. *)
Definition attempt {A} (m : Prog A) : Prog (A + Exn) :=
  catch_all (let! a := m in ret (inl a)) (λ e, ret (inr e)).
Definition nested {A} (m : Prog A) : Prog (option A * option Exn) :=
  let! entered := attempt flush in
  match entered with
  | inr e => ret (None, Some e)
  | inl _ =>
      let! saved := gets view in
      let! r := attempt m in
      match r with
      | inr e => assign (λ _, saved) ;;! ret (None, Some e)
      | inl a =>
          let! left_block := attempt flush in
          match left_block with
          | inr e => assign (λ _, saved) ;;! ret (Some a, Some e)
          | inl _ => ret (Some a, None)
          end
      end
  end.

(** [str(exc)] of an exception. *)
Definition exc_text (e : Exn) : string :=
  match e with
  | EFcam f => fe_message f
  | EValueError msg | EHttpError msg => msg
  | EOther name => name
  | EIntegrity => "IntegrityError"
  | _ => ""
  end.

(** The second block: the key exists, what it lacks is filled in. *)
Inductive Merge := MissingRecord | Merged | Unchanged.
Definition merge_account (item : ParsedKeyLine) (password : option string) (k : ApiKey) : ApiKey * bool :=
  let falsy (s : option string) := String.eqb (default "" s) "" in
  let '(k, c1) := if negb (falsy (pk_account_username item)) && falsy (k_account_username k)
                  then (set_k_account_username (pk_account_username item) k, true) else (k, false) in
  let '(k, c2) := match password, k_account_password_ciphertext k with
                  | Some p, None => (set_k_account_password_ciphertext (Some p) k, true) | _, _ => (k, c1) end in
  match pk_account_verified_at item, k_account_verified_at k with
  | Some v, None => (set_k_account_verified_at (Some v) k, true)
  | _, _ => (k, c2)
  end.
Definition merge_existing (hash : string) (item : ParsedKeyLine) (password : option string) : Prog Merge :=
  let! t := query in
  match List.find (λ k, String.eqb (k_api_key_hash k) hash) (by_id (t_keys t)) with
  | None => ret MissingRecord
  | Some existing =>
      if (merge_account item password existing).2 then
        assign_key (k_id existing) (λ k, (merge_account item password k).1) ;;!
        audit_key request "key.import_text.update" existing ;;! ret Merged
      else ret Unchanged
  end.

Definition import_item (p : ImportKeysTextRequest) (mk : string) (today : Z) (item : ParsedKeyLine) (c : Counters)
  : Prog Counters :=
  let hash := hmac_sha256_hex mk (pk_api_key item) in
  let! nonce := urandom NONCE_BYTES in
  let ciphertext := encrypt_api_key mk nonce (pk_api_key item) in
  let! password := match pk_account_password item with
                   | Some pw => let! nonce := urandom NONCE_BYTES in ret (Some (encrypt_account_password mk nonce pw))
                   | None => ret None
                   end in
  let! r := nested (
    let! now := now_utc in
    let! id := gets (λ w, db_next_id (w_db w)) in
    let key := new_key id ciphertext hash (last_chars 4 (pk_api_key item)) (pk_account_username item) password
      (pk_account_verified_at item) None (im_plan_type p) (im_is_active p) today (im_max_concurrent p)
      (im_rate_limit_per_min p) (im_provider p) now in
    insert_key key ;;! flush ;;! audit_key request "key.import_text.create" key) in
  let c := match r.1 with Some _ => count_created c | None => c end in
  match r.2 with
  | None => ret c
  | Some EIntegrity =>
      let! m := nested (merge_existing hash item password) in
      let c := match m.1 with
               | Some MissingRecord => count_failure item "duplicate api key but existing record missing" c
               | Some Merged => count_updated c
               | Some Unchanged => count_skipped c
               | None => c
               end in
      ret match m.2 with Some e => count_failure item (exc_text e) c | None => c end
  | Some e => ret (count_failure item (exc_text e) c)
  end.
Fixpoint import_items (p : ImportKeysTextRequest) (mk : string) (today : Z) (items : list ParsedKeyLine) (c : Counters)
  : Prog Counters :=
  match items with
  | [] => ret c
  | item :: items' => let! c := import_item p mk today item c in import_items p mk today items' c
  end.

Definition import_keys_text (p : ImportKeysTextRequest) : Prog Counters :=
  accept (import_valid p) (
    let! master := require_master_key secrets in
    if negb (str_in (im_provider p) _VALID_PROVIDERS) then raise (EFcam (invalid_provider (im_provider p)))
    else
      let '(items, failures) := parse_keys_text (im_text p) in
      match items, failures with
      | [], _ :: _ => raise (EFcam (validation_error "No valid lines to import"))
      | _, _ =>
          let mk := derive_master_key_bytes master in
          let! today := today_in_timezone (qu_timezone (cfg_quota config)) in
          let! c := import_items p mk today items (mkCounters 0 0 0 failures) in
          catch_all commit (λ _, rollback ;;! raise (EFcam KeyPool.db_unavailable)) ;;!
          ret c
      end).
End AdminKeys.
End AdminKeys.
