(* ===== verification/AdminKeyOps.v ===== *)
(** The endpoints of [app/api/control_plane.py] that change existing keys: update,
    delete, purge, test, batch, quota reset and revival, each the whole handler. *)

From S2P Require Import Prelude Effects PyText PyTime Json Models Config Env RuntimeSettings Security KeyPool.
From S2P Require Import Forwarder KeyTest Deps Rfc3339 AdminRows AdminViews AdminKeys.
Import Forwarder KeyTest Deps Admin AdminKeys.
Open Scope Z_scope.

Module AdminKeyOps.

(** * Payloads *)

Record UpdateKeyRequest := mkUpdateKeyRequest {
  uk_client_id : option Z;
  uk_name : option string;
  uk_plan_type : option string;
  uk_daily_quota : option Z;
  uk_max_concurrent : option Z;
  uk_rate_limit_per_min : option Z;
  uk_is_active : option bool;
  uk_api_key : option string
}.
Definition update_key_valid (p : UpdateKeyRequest) : bool :=
  at_least 0 (uk_client_id p) && at_most 255 (uk_name p) && at_most 32 (uk_plan_type p) &&
  at_least 0 (uk_daily_quota p) && at_least 0 (uk_max_concurrent p) && at_least 0 (uk_rate_limit_per_min p) &&
  match uk_api_key p with Some k => 8 <=? slen k | None => true end.

(** The fields of a patch that are set; [bk_name] may be set to null. *)
Record BatchKeyPatch := mkBatchKeyPatch {
  bk_name : option (option string);
  bk_plan_type : option string;
  bk_daily_quota : option Z;
  bk_max_concurrent : option Z;
  bk_rate_limit_per_min : option Z;
  bk_is_active : option bool
}.
Record BatchKeyTest := mkBatchKeyTest { bt_mode : string; bt_test_url : string }.
Record BatchKeysRequest := mkBatchKeysRequest {
  bq_ids : list Z;
  bq_patch : option BatchKeyPatch;
  bq_reset_cooldown : bool;
  bq_soft_delete : bool;
  bq_purge : bool;
  bq_test : option BatchKeyTest
}.
Definition batch_keys_valid (p : BatchKeysRequest) : bool :=
  (1 <=? Z.of_nat (length (bq_ids p))) && (Z.of_nat (length (bq_ids p)) <=? 200) &&
  match bq_patch p with
  | Some q => at_most 255 (mjoin (bk_name q)) && at_most 32 (bk_plan_type q) && at_least 0 (bk_daily_quota q) &&
              at_least 0 (bk_max_concurrent q) && at_least 0 (bk_rate_limit_per_min q)
  | None => true
  end.
Record ReviveKeyRequest := mkReviveKeyRequest { rv_test : bool; rv_requeue_refresh : bool }.

Section AdminKeyOps.
Context {E : Env} `{!Digests, !ZoneInfo} (self : Self) (secrets : Secrets) (request : Request).
Let config := f_config self.

(** [if x is not None: f(x)] on a row. *)
Definition when_set {A B} (x : option A) (f : A → B → B) (r : B) : B :=
  match x with Some v => f v r | None => r end.
(** [key.is_active = ...] with the status that goes with it. *)
Definition set_active (active : bool) (k : ApiKey) : ApiKey :=
  let k := set_k_is_active active k in
  if negb active then set_k_status "disabled" k
  else if String.eqb (k_status k) "disabled" then set_k_status "active" k else k.
Definition soft_deleted (k : ApiKey) : ApiKey := set_k_status "disabled" (set_k_is_active false k).

Definition update_fields (p : UpdateKeyRequest) (k : ApiKey) : ApiKey :=
  when_set (uk_is_active p) set_active
    (when_set (uk_rate_limit_per_min p) set_k_rate_limit_per_min
      (when_set (uk_max_concurrent p) set_k_max_concurrent
        (when_set (uk_daily_quota p) set_k_daily_quota
          (when_set (uk_plan_type p) set_k_plan_type
            (when_set (uk_name p) (λ n, set_k_name (Some n)) k))))).
Definition rotate_key (mk nonce api_key : string) (k : ApiKey) : ApiKey :=
  set_k_api_key_last4 (last_chars 4 api_key) (set_k_api_key_hash (hmac_sha256_hex mk api_key)
    (set_k_api_key_ciphertext (encrypt_api_key mk nonce api_key) k)).

Definition update_key (key_id : Z) (p : UpdateKeyRequest) : Prog Json :=
  accept (update_key_valid p) (
    let! key := find_key key_id in
    (match uk_client_id p with Some _ => assign_key key_id (set_k_client_id None) | None => ret tt end) ;;!
    (match uk_api_key p with
     | Some api_key =>
         let! master := require_master_key secrets in
         let! nonce := urandom NONCE_BYTES in
         assign_key key_id (rotate_key (derive_master_key_bytes master) nonce api_key) ;;!
         audit_key request "key.rotate" key
     | None => ret tt
     end) ;;!
    assign_key key_id (update_fields p) ;;!
    or_unavailable api_key_duplicate (audit_key request "key.update" key ;;! commit ;;! refresh) ;;!
    let! key := get_key key_id in
    let! item := _key_item self key in
    ret (JObj item)).

Definition delete_key (key_id : Z) : Prog unit :=
  let! key := find_key key_id in
  assign_key key_id soft_deleted ;;!
  or_unavailable KeyPool.db_unavailable (audit_key request "key.delete" key ;;! commit).

(** [db.query(RequestLog).filter(api_key_id == id).update({api_key_id: None})]. *)
Definition forget_key (key_id : Z) (t : Tables) : Tables :=
  set_t_request_logs ((λ l, if decide (rl_api_key_id l = Some key_id) then set_rl_api_key_id None l else l)
    <$> t_request_logs t) t.
(** [db.delete(key)]: the row and, by the cascade of the model, its snapshots; request
    logs that still name the key are cleared. *)
Definition delete_key_row (key_id : Z) (t : Tables) : Tables :=
  let t := forget_key key_id t in
  set_t_snapshots (filter (λ p, s_api_key_id p.2 ≠ key_id) (t_snapshots t))
    (set_t_keys (delete key_id (t_keys t)) t).
Definition purge_row (action : string) (key_id : Z) (key : ApiKey) : Prog unit :=
  query ;;!
  assign (forget_key key_id) ;;!
  audit_key request action key ;;!
  assign (delete_key_row key_id) ;;!
  commit.

Definition purge_key (key_id : Z) : Prog unit :=
  let! key := find_key key_id in
  or_unavailable KeyPool.db_unavailable (purge_row "key.purge" key_id key).

Definition upstream_unavailable : FcamError :=
  mkFcamError 503 "UPSTREAM_UNAVAILABLE" "Upstream unavailable" None.
(** [except FcamError: raise  except Exception: db.rollback(); raise ...]. *)
Definition or_upstream_unavailable {A} (m : Prog A) : Prog A :=
  try_except m (λ e, match e with EFcam _ => None | _ => Some (rollback ;;! raise (EFcam upstream_unavailable)) end).

Definition test_item (r : KeyTestResult) : list (string * Json) :=
  [("ok", JBool (kt_ok r)); ("upstream_status_code", nullable JInt (kt_upstream_status_code r));
   ("latency_ms", JInt (kt_latency_ms r))].
Definition test_key (key_id : Z) (mode test_url : string) : Prog Json :=
  let! key := find_key key_id in
  let! result := or_upstream_unavailable (
    let! r := KeyTest.test_key self (req_id request) key_id mode test_url in
    audit_key request "key.test" key ;;! commit ;;! refresh ;;! ret r) in
  ret (JObj ([("key_id", JInt (k_id key))] ++ test_item result ++
    [("observed", JObj [("cooldown_until", time_json (kt_observed_cooldown_until result));
                        ("status", JStr (kt_observed_status result))])])).

Definition reset_quota_row (today : Z) (k : ApiKey) : ApiKey :=
  let k := set_k_quota_reset_at (Some today) (set_k_daily_usage 0 k) in
  if String.eqb (k_status k) "quota_exceeded" && k_is_active k then set_k_status "active" k else k.
Definition reset_keys_quota : Prog Json :=
  let! today := today_in_timezone (qu_timezone (cfg_quota config)) in
  let! affected := or_unavailable KeyPool.db_unavailable (
    let! t := query in
    assign (λ t, set_t_keys (reset_quota_row today <$> t_keys t) t) ;;!
    _audit request "quota.reset" (Some "api_key") (Some "all") ;;!
    commit ;;! ret (Z.of_nat (size (t_keys t)))) in
  let! now := now_utc in
  ret (JObj [("ok", JBool true); ("reset_at", time_json (Some (Aware (now / day * day)))); ("affected_keys", JInt affected)]).

Definition revived (requeue : option Z) (k : ApiKey) : ApiKey :=
  let k := set_k_cooldown_until None (set_k_status "active" (set_k_is_active true k)) in
  match requeue with Some now => set_k_next_refresh_at (Some (Aware now)) k | None => k end.
Definition revive_key (key_id : Z) (p : ReviveKeyRequest) : Prog Json :=
  let! key := find_key key_id in
  let! requeue := if rv_requeue_refresh p then let! now := now_utc in ret (Some now) else ret None in
  assign_key key_id (revived requeue) ;;!
  or_unavailable KeyPool.db_unavailable (commit ;;! refresh) ;;!
  let! test_result := if rv_test p then
      or_upstream_unavailable (
        let! r := KeyTest.test_key self (req_id request) key_id "scrape" "https://example.com" in
        commit ;;! refresh ;;!
        ret (JObj (test_item r ++ [("observed_status", JStr (kt_observed_status r))])))
    else ret JNull in
  audit_key request "key.revive" key ;;!
  try_commit ;;!
  let! key := get_key key_id in
  let! item := _key_item self key in
  ret (JObj (item ++ [("test", test_result)])).

(** ** Batches *)

(** What happened to one key of a batch. *)
Inductive BatchResult :=
  | BatchPurged (id : Z)
  | BatchDone (id : Z) (key : Json) (test : Json)
  | BatchFailed (id : Z) (code message : string).

Definition reset_cooldown (k : ApiKey) : ApiKey :=
  let k := set_k_cooldown_until None k in
  if str_in (k_status k) ["cooling"; "failed"] && k_is_active k then set_k_status "active" k else k.
Definition apply_patch (p : BatchKeyPatch) (k : ApiKey) : ApiKey :=
  when_set (bk_is_active p) set_active
    (when_set (bk_rate_limit_per_min p) set_k_rate_limit_per_min
      (when_set (bk_max_concurrent p) set_k_max_concurrent
        (when_set (bk_daily_quota p) set_k_daily_quota
          (when_set (bk_plan_type p) set_k_plan_type
            (when_set (bk_name p) set_k_name k))))).
(** Whether a patch sets anything. *)
Definition is_set {A} (x : option A) : bool := match x with Some _ => true | None => false end.
Definition patches (p : BatchKeyPatch) : bool :=
  is_set (bk_name p) || is_set (bk_plan_type p) || is_set (bk_daily_quota p) || is_set (bk_max_concurrent p) ||
  is_set (bk_rate_limit_per_min p) || is_set (bk_is_active p).
Definition no_patch : BatchKeyPatch := mkBatchKeyPatch None None None None None None.

(** The changes to one row, and whether there were any. *)
Definition batch_edit (p : BatchKeysRequest) (k : ApiKey) : ApiKey :=
  let k := if bq_reset_cooldown p then reset_cooldown k else k in
  let k := apply_patch (default no_patch (bq_patch p)) k in
  if bq_soft_delete p && negb (bq_purge p) then soft_deleted k else k.
Definition batch_changes (p : BatchKeysRequest) : bool :=
  bq_reset_cooldown p || patches (default no_patch (bq_patch p)) || (bq_soft_delete p && negb (bq_purge p)).

Definition batch_one (p : BatchKeysRequest) (key_id : Z) : Prog BatchResult :=
  catch_all
    (let! key := find_key key_id in
     assign_key key_id (batch_edit p) ;;!
     if bq_purge p then purge_row "key.batch_purge" key_id key ;;! ret (BatchPurged key_id)
     else
       (if batch_changes p then audit_key request "key.batch" key ;;! commit ;;! refresh else ret tt) ;;!
       let! key := get_key key_id in
       let! item := _key_item self key in
       ret (BatchDone key_id (JObj item) JNull))
    (λ e, rollback ;;! ret (match e with
                            | EFcam f => BatchFailed key_id (fe_code f) (fe_message f)
                            | _ => BatchFailed key_id "INTERNAL_ERROR" "Internal error"
                            end)).
Fixpoint batch_all (p : BatchKeysRequest) (ids : list Z) : Prog (list BatchResult) :=
  match ids with
  | [] => ret []
  | id :: ids' => let! r := batch_one p id in let! rs := batch_all p ids' in ret (r :: rs)
  end.

(** [_test_one], in a session of its own. *)
Definition test_one (t : BatchKeyTest) (key_id : Z) : Prog (Json * Json) :=
  rollback ;;!
  in_session (
    let! key := find_key key_id in
    let! r := catch_all
      (let! r := KeyTest.test_key self (req_id request) key_id (bt_mode t) (bt_test_url t) in
       audit_key request "key.test" key ;;! commit ;;! refresh ;;! ret r)
      (λ e, rollback ;;! raise e) in
    let! key := get_key key_id in
    let! item := _key_item self key in
    ret (JObj (test_item r), JObj item)).
(** The tests, one after the other: the source runs them on a pool of threads. *)
Fixpoint test_all (t : BatchKeyTest) (results : list BatchResult) : Prog (list BatchResult) :=
  match results with
  | [] => ret []
  | BatchDone id key _ :: results' =>
      let! r := catch_all
        (let! ' (test, item) := test_one t id in ret (BatchDone id item test))
        (λ e, ret (match e with
                   | EFcam f => BatchFailed id (fe_code f) (fe_message f)
                   | _ => BatchFailed id "INTERNAL_ERROR" "Internal error"
                   end)) in
      let! rs := test_all t results' in ret (r :: rs)
  | r :: results' => let! rs := test_all t results' in ret (r :: rs)
  end.

Definition batch_ok (r : BatchResult) : bool := match r with BatchFailed _ _ _ => false | _ => true end.
(** [sorted(names)]. *)
Fixpoint insert_name (s : string) (l : list string) : list string :=
  match l with [] => [s] | x :: l' => if String.leb s x then s :: l else x :: insert_name s l' end.
Definition sorted (l : list string) : list string := foldr insert_name [] l.
(** The providers of the keys named, without repetition. *)
Definition providers_of (ids : list Z) (t : Tables) : list string :=
  remove_dups (k_provider <$> List.filter (λ k, z_in (k_id k) ids) (by_id (t_keys t))).
Definition batch_keys (p : BatchKeysRequest) : Prog (Z * Z * Z * list BatchResult) :=
  accept (batch_keys_valid p) (
    (match bq_test p with
     | Some t =>
         if negb (String.eqb (bt_mode t) "scrape") then raise (EFcam (validation_error "Unsupported test mode"))
         else if (1 <? Z.of_nat (length (bq_ids p))) then
           let! t := query in
           match providers_of (bq_ids p) t with
           | (_ :: _ :: _) as mixed => raise (EFcam (mkFcamError 400 "MIXED_PROVIDER_BATCH"
               ("Batch test does not support mixed providers: " +:+ join ", " (sorted mixed)) None))
           | _ => ret tt
           end
         else ret tt
     | None => ret tt
     end) ;;!
    let! results := batch_all p (bq_ids p) in
    let! results := match bq_test p with Some t => test_all t results | None => ret results end in
    let succeeded := Z.of_nat (length (List.filter batch_ok results)) in
    ret (Z.of_nat (length (bq_ids p)), succeeded, Z.of_nat (length results) - succeeded, results)).
End AdminKeyOps.
End AdminKeyOps.
