(* ===== verification/AdminCredits.v ===== *)
(** The credit endpoints of [app/api/control_plane.py]: credits of a key and of the
    pool, the history of a key, refreshes on demand; and [encryption_status]. *)

From S2P Require Import Prelude Effects PyText PyTime Json Models Config Env RuntimeSettings Security KeyPool.
From S2P Require Import CreditFetcher Forwarder Deps Rfc3339 CreditAggregator AdminViews AdminKeyList.
From S2P Require Import AdminKeys.
Import CreditFetcher Forwarder CreditAggregator Admin AdminKeyList AdminKeys.
Open Scope Z_scope.

Module AdminCredits.

Definition key_not_found : FcamError := mkFcamError 404 "KEY_NOT_FOUND" "API Key not found" None.
Definition unsupported (what provider : string) : FcamError :=
  mkFcamError 400 "UNSUPPORTED_PROVIDER_OPERATION"
    ("Credit " +:+ what +:+ " is not supported for provider '" +:+ provider +:+ "'") None.

Record SnapshotsPage := mkSnapshotsPage { sp_api_key_id : Z; sp_snapshots : list SnapshotView; sp_total_count : Z }.
Inductive RefreshOutcome :=
  | Refreshed (remaining plan : Z)
  | NotRefreshed (error : string).
Record RefreshAllCreditsRequest := mkRefreshAllCreditsRequest { ra_key_ids : list Z; ra_force : bool }.

Section AdminCredits.
Context {E : Env} (self : Self) (secrets : Secrets).
Let config := f_config self.

Definition find_key_or (e : FcamError) (id : Z) : Prog ApiKey :=
  let! t := query in
  match t_keys t !! id with Some k => ret k | None => raise (EFcam e) end.

Definition get_key_credits_api (key_id : Z) : Prog (KeyCredits * option Json) :=
  let! key := find_key_or key_not_found key_id in
  if negb (String.eqb (k_provider key) "firecrawl") then raise (EFcam (unsupported "monitoring" (k_provider key)))
  else
    let! result := try_except (get_key_credits key_id)
      (λ e, match e with EValueError _ => Some (raise (EFcam key_not_found)) | _ => None end) in
    let! item := catch_all
      (let! t := query in
       match t_keys t !! key_id with
       | Some key => let! item := _key_item self key in ret (Some (JObj item))
       | None => ret None
       end) (λ _, ret None) in
    ret (result, item).

Definition get_client_credits_api (client_id : Z) : Prog ClientCredits :=
  try_except (aggregate_client_credits client_id)
    (λ e, match e with
          | EValueError msg => Some (raise (EFcam (mkFcamError 404 "CLIENT_NOT_FOUND" msg None)))
          | _ => None
          end).

(** [q.filter(snapshot_at >= since)], when a bound is given. *)
Definition time_bound (x : option string) : Res (option Z) :=
  match present x with
  | None => Ok None
  | Some s => match _parse_rfc3339 s with Ok dt => Ok (Some (utc_us dt)) | Raise e => Raise e end
  end.
(** Newest first. *)
Definition newest_le (a b : CreditSnapshot) : Prop := utc_us (s_snapshot_at b) ≤ utc_us (s_snapshot_at a).
#[export] Instance newest_le_dec : RelDecision newest_le.
Proof. intros a b. unfold newest_le. apply _. Defined.
Definition snapshot_matches (key_id : Z) (since until : option Z) (s : CreditSnapshot) : bool :=
  (s_api_key_id s =? key_id) &&
  match since with Some a => a <=? utc_us (s_snapshot_at s) | None => true end &&
  match until with Some b => utc_us (s_snapshot_at s) <=? b | None => true end.
Definition get_key_credits_history_api (key_id limit : Z) (since until : option string) : Prog SnapshotsPage :=
  accept (1 <=? limit) (
    let! key := find_key_or key_not_found key_id in
    let limit_n := Z.min limit (or_int (cm_history_max_limit (cfg_credit_monitoring config)) 500) in
    let! since := of_res (time_bound since) in
    let! until := of_res (time_bound until) in
    let! t := query in
    let matching := List.filter (snapshot_matches key_id since until) (by_id (t_snapshots t)) in
    let! t := query in
    ret (mkSnapshotsPage key_id (map snapshot_view (take (Z.to_nat limit_n) (merge_sort newest_le matching)))
           (Z.of_nat (length matching)))).

Definition min_interval : Z :=
  or_int (cm_min_manual_refresh_interval_seconds (cfg_credit_monitoring config)) 300.
(** How long ago the credits were asked for, in microseconds. *)
Definition since_check (now : Z) (key : ApiKey) : option Z :=
  (λ dt, now - utc_us dt) <$> k_last_credit_check_at key.
Definition too_frequent (now : Z) (key : ApiKey) : bool :=
  match since_check now key with Some us => us <? min_interval * second | None => false end.

Definition refresh_key_credits_api `{!Digests} (key_id : Z) : Prog CreditSnapshot :=
  let! master := require_master_key secrets in
  let! key := find_key_or key_not_found key_id in
  if negb (String.eqb (k_provider key) "firecrawl") then raise (EFcam (unsupported "refresh" (k_provider key)))
  else
    let! now := now_utc in
    if too_frequent now key then
      let elapsed := default 0 (since_check now key) in
      raise_fcam 429 "REFRESH_TOO_FREQUENT"
        ("Please wait " +:+ str_int (int_seconds (min_interval * second - elapsed)) +:+ " seconds before refreshing again")
        None
    else
      fetch_credit_from_firecrawl key_id (derive_master_key_bytes master) config
        ("manual-credit-refresh-" +:+ str_int key_id +:+ "-" +:+ str_int (int_seconds now)).

Definition refresh_one `{!Digests} (master : string) (force : bool) (now : Z) (key : ApiKey) : Prog (Z * RefreshOutcome) :=
  if negb force && too_frequent now key then ret (k_id key, NotRefreshed "REFRESH_TOO_FREQUENT")
  else
    let! outcome := catch_all
      (let! s := fetch_credit_from_firecrawl (k_id key) (derive_master_key_bytes master) config
                   ("batch-credit-refresh-" +:+ str_int (k_id key) +:+ "-" +:+ str_int (int_seconds now)) in
       ret (Refreshed (s_remaining_credits s) (s_plan_credits s)))
      (λ e, ret (NotRefreshed (match e with
                               | EFcam f => fe_code f +:+ ": " +:+ fe_message f
                               | _ => exc_text e
                               end))) in
    ret (k_id key, outcome).
Fixpoint refresh_each `{!Digests} (master : string) (force : bool) (now : Z) (keys : list ApiKey)
  : Prog (list (Z * RefreshOutcome)) :=
  match keys with
  | [] => ret []
  | key :: keys' => let! r := refresh_one master force now key in
                    let! rs := refresh_each master force now keys' in ret (r :: rs)
  end.
Definition refreshed (r : Z * RefreshOutcome) : bool := match r.2 with Refreshed _ _ => true | _ => false end.
(** total, success, failed and the results. *)
Definition refresh_all_credits_api `{!Digests} (p : RefreshAllCreditsRequest)
  : Prog (Z * Z * Z * list (Z * RefreshOutcome)) :=
  let! master := require_master_key secrets in
  let ids := List.filter (λ x, x >? 0) (ra_key_ids p) in
  let! t := query in
  let keys := List.filter (λ k, k_is_active k && String.eqb (k_provider k) "firecrawl" &&
      match ids with [] => true | _ => z_in (k_id k) ids end) (by_id (t_keys t)) in
  let! now := now_utc in
  let! results := refresh_each master (ra_force p) now keys in
  ret (Z.of_nat (length keys), Z.of_nat (length (List.filter refreshed results)),
       Z.of_nat (length (List.filter (λ r, negb (refreshed r)) results)), results).

(** [decrypt_api_key] of the first keys: whether one fails with InvalidTag or
    ValueError; any other exception ends the request. *)
Fixpoint decrypt_failures (mk : string) (keys : list ApiKey) : Res bool :=
  match keys with
  | [] => Ok false
  | key :: keys' =>
      match decrypt_api_key mk (k_api_key_ciphertext key) with
      | Ok _ => decrypt_failures mk keys'
      | Raise EInvalidTag | Raise (EValueError _) => Ok true
      | Raise e => Raise e
      end
  end.
(** master_key_configured and has_decrypt_failures. *)
Definition encryption_status `{!Digests} : Prog (bool * bool) :=
  match sec_master_key secrets with
  | None => ret (false, false)
  | Some master =>
      if String.eqb master "" then ret (false, false)
      else
        let! t := catch_all query (λ _, raise (EFcam KeyPool.db_unavailable)) in
        let keys := by_id (t_keys t) in
        if existsb (λ k, String.eqb (k_status k) "decrypt_failed") keys then ret (true, true)
        else
          let! failures := of_res (decrypt_failures (derive_master_key_bytes master) (take 200 keys)) in
          ret (true, failures)
  end.
End AdminCredits.
End AdminCredits.
