(* ===== verification/AdminClients.v ===== *)
(** The endpoints of [app/api/control_plane.py] about clients: list, create, update,
    delete, purge, token rotation and display, and the batch actions. *)

From S2P Require Import Prelude Effects PyText PyTime Json Models Config Env RuntimeSettings Security KeyPool.
From S2P Require Import Forwarder KeyImport Deps Rfc3339 AdminRows AdminViews AdminKeys AdminKeyOps.
Import Forwarder BatchClients Deps Admin AdminKeys AdminKeyOps.
Open Scope Z_scope.

Module AdminClients.

Record CreateClientRequest := mkCreateClientRequest {
  cq_name : string;
  cq_daily_quota : option Z;
  cq_rate_limit_per_min : Z;
  cq_max_concurrent : Z;
  cq_max_retries : Z;
  cq_is_active : bool;
  cq_token : option string
}.
Definition create_client_valid (p : CreateClientRequest) : bool :=
  (1 <=? slen (cq_name p)) && (slen (cq_name p) <=? 255) && at_least 0 (cq_daily_quota p) &&
  (0 <=? cq_rate_limit_per_min p) && (0 <=? cq_max_concurrent p) && (0 <=? cq_max_retries p) &&
  (cq_max_retries p <=? 50) && at_most 256 (cq_token p).
(** The outer option tells whether the field is in the payload, the inner one is null. *)
Record UpdateClientRequest := mkUpdateClientRequest {
  uc_daily_quota : option (option Z);
  uc_rate_limit_per_min : option (option Z);
  uc_max_concurrent : option (option Z);
  uc_max_retries : option (option Z);
  uc_is_active : option (option bool)
}.
Definition update_client_valid (p : UpdateClientRequest) : bool :=
  at_least 0 (mjoin (uc_daily_quota p)) && at_least 0 (mjoin (uc_rate_limit_per_min p)) &&
  at_least 0 (mjoin (uc_max_concurrent p)) && at_least 0 (mjoin (uc_max_retries p)) &&
  match mjoin (uc_max_retries p) with Some n => n <=? 50 | None => true end.
Inductive BatchAction := ENABLE | DISABLE | DELETE.
Definition action_value (a : BatchAction) : string :=
  match a with ENABLE => "enable" | DISABLE => "disable" | DELETE => "delete" end.
Record BatchClientRequest := mkBatchClientRequest { bc_client_ids : list Z; bc_action : BatchAction }.
Definition batch_clients_valid (p : BatchClientRequest) : bool :=
  (1 <=? Z.of_nat (length (bc_client_ids p))) && (Z.of_nat (length (bc_client_ids p)) <=? 100).
Record BatchClientResponse := mkBatchClientResponse {
  br_success_count : Z;
  br_failed_count : Z;
  br_failed_items : list (Z * string)
}.

Section AdminClients.
Context {E : Env} `{!Digests, !ZoneInfo} (config : AppConfig) (secrets : Secrets) (request : Request).

Definition list_clients : Prog (list Json) :=
  let! t := catch_all query (λ _, raise (EFcam KeyPool.db_unavailable)) in
  ret (map (λ c, JObj (_client_item c))
        (rev (List.filter (λ c, negb (String.eqb (c_status c) "deleted")) (by_id (t_clients t))))).

Definition client_exists : FcamError := validation_error "Client already exists".
(** [generate_client_token()]. *)
Definition new_token : Prog string :=
  let! random := on_host (h_token_urlsafe 32) in ret (generate_client_token random).
(** The given token, if it is strong enough, or a new one. *)
Definition choose_token (token : option string) : Prog string :=
  let raw_token := strip (default "" token) in
  if String.eqb raw_token "" then new_token
  else match validate_client_token_complexity raw_token with
       | Ok _ => ret raw_token
       | Raise (EValueError msg) => raise (EFcam (validation_error msg))
       | Raise e => raise e
       end.

Definition insert_client (c : Client) : Prog unit :=
  assign (λ t, set_t_clients (<[c_id c := c]> (t_clients t)) t).
Definition create_client (p : CreateClientRequest) : Prog (Json * string) :=
  accept (create_client_valid p) (
    let! master := require_master_key secrets in
    let mk := derive_master_key_bytes master in
    let! token := choose_token (cq_token p) in
    let! nonce := urandom NONCE_BYTES in
    let! today := today_in_timezone (qu_timezone (cfg_quota config)) in
    let! client := or_unavailable client_exists (
      let! now := now_utc in
      let! id := gets (λ w, db_next_id (w_db w)) in
      let client := mkClient id (cq_name p) (hmac_sha256_hex mk token) (Some (encrypt_client_token mk nonce token))
        (cq_is_active p) (cq_daily_quota p) 0 (Some today) (cq_rate_limit_per_min p) (cq_max_concurrent p)
        (cq_max_retries p) (Aware now) None (if cq_is_active p then "active" else "disabled") in
      insert_client client ;;! flush ;;! audit_client request "client.create" id ;;! commit ;;! refresh ;;! ret client) in
    ret (JObj (_client_item client), token)).

(** A column that may not be null: an explicit null is assigned all the same and makes
    the commit fail. *)
Definition update_client_fields (p : UpdateClientRequest) (c : Client) : option Client :=
  let c := when_set (uc_daily_quota p) set_c_daily_quota c in
  match uc_rate_limit_per_min p, uc_max_concurrent p with
  | Some None, _ | _, Some None => None
  | rate, conc =>
      let c := when_set (mjoin rate) set_c_rate_limit_per_min c in
      let c := when_set (mjoin conc) set_c_max_concurrent c in
      let c := when_set (mjoin (uc_max_retries p)) set_c_max_retries c in
      Some (match uc_is_active p with
            | Some desired =>
                let active := default false desired in
                set_c_status (if active then "active" else "disabled") (set_c_is_active active c)
            | None => c
            end)
  end.
Definition update_client (client_id : Z) (p : UpdateClientRequest) : Prog Json :=
  accept (update_client_valid p) (
    let! client := find_client client_id in
    if String.eqb (c_status client) "deleted" then raise (EFcam not_found)
    else
      or_unavailable KeyPool.db_unavailable (
        match update_client_fields p client with
        | None => raise EIntegrity
        | Some c =>
            assign_client client_id (λ _, c) ;;!
            audit_client request "client.update" client_id ;;! commit ;;! refresh
        end) ;;!
      let! client := get_client client_id in
      ret (JObj (_client_item client))).

Definition deleted (c : Client) : Client := set_c_status "deleted" (set_c_is_active false c).
Definition delete_client (client_id : Z) : Prog unit :=
  let! client := find_client client_id in
  assign_client client_id deleted ;;!
  or_unavailable KeyPool.db_unavailable (audit_client request "client.delete" client_id ;;! commit).

(** The three bulk statements of a purge. *)
Definition forget_client (id : Z) (t : Tables) : Tables :=
  set_t_idempotency (filter (λ p, i_client_id p.2 ≠ id) (t_idempotency t))
    (set_t_request_logs ((λ l, if decide (rl_client_id l = Some id) then set_rl_client_id None l else l)
        <$> t_request_logs t)
      (set_t_keys ((λ k, if decide (k_client_id k = Some id) then set_k_client_id None k else k) <$> t_keys t) t)).
Definition delete_client_row (id : Z) (t : Tables) : Tables := set_t_clients (delete id (t_clients t)) t.
Definition purge_client (client_id : Z) : Prog unit :=
  let! client := find_client client_id in
  or_unavailable KeyPool.db_unavailable (
    query ;;!
    assign (forget_client client_id) ;;!
    audit_client request "client.purge" client_id ;;!
    assign (delete_client_row client_id) ;;!
    commit).

Definition rotate_client_token (client_id : Z) : Prog (Z * string) :=
  let! master := require_master_key secrets in
  let! client := find_client client_id in
  let! token := new_token in
  let mk := derive_master_key_bytes master in
  let! nonce := urandom NONCE_BYTES in
  assign_client client_id (λ c, set_c_token_ciphertext (Some (encrypt_client_token mk nonce token))
    (set_c_token_hash (hmac_sha256_hex mk token) c)) ;;!
  or_unavailable KeyPool.db_unavailable (audit_client request "client.rotate" client_id ;;! commit) ;;!
  ret (client_id, token).

Definition reveal_client_token (client_id : Z) : Prog (Z * string * string) :=
  let! master := require_master_key secrets in
  let! client := find_client client_id in
  if String.eqb (c_status client) "deleted" then raise (EFcam not_found)
  else
    let stored := default "" (c_token_ciphertext client) in
    if String.eqb stored "" then raise_fcam 404 "TOKEN_NOT_STORED"
      "该客户端创建于可再显示功能之前，库中无密文令牌。请轮换令牌后即可再次查看。" None
    else
      match decrypt_client_token (derive_master_key_bytes master) stored with
      | Raise _ => raise_fcam 500 "DECRYPTION_FAILED"
          "无法解密客户端令牌，请检查 FCAM_MASTER_KEY 或轮换令牌" None
      | Ok token =>
          catch_all (audit_client request "client.token_reveal" client_id ;;! commit) (λ _, rollback) ;;!
          ret (client_id, c_name client, token)
      end.

(** ** Batch actions *)

(** The loop over the clients that exist; [apply_batch_action_to_client] raises on an
    action it does not know. *)
Fixpoint batch_apply (action : string) (ids : list Z) (r : BatchClientResponse) : Prog BatchClientResponse :=
  match ids with
  | [] => ret r
  | id :: ids' =>
      let! client := get_client id in
      let! r := match apply_batch_action_to_client action client with
                | Ok c =>
                    assign_client id (λ _, c) ;;!
                    audit_client request ("client.batch." +:+ action) id ;;!
                    ret (mkBatchClientResponse (br_success_count r + 1) (br_failed_count r) (br_failed_items r))
                | Raise e =>
                    ret (mkBatchClientResponse (br_success_count r) (br_failed_count r + 1)
                           (br_failed_items r ++ [(id, exc_text e)]))
                end in
      batch_apply action ids' r
  end.
Definition batch_update_clients (p : BatchClientRequest) : Prog BatchClientResponse :=
  accept (batch_clients_valid p) (
    let ids := deduplicate_client_ids (bc_client_ids p) in
    let! t := query in
    let known := List.filter (λ i, bool_decide (is_Some (t_clients t !! i))) ids in
    let unknown := List.filter (λ i, negb (bool_decide (is_Some (t_clients t !! i)))) ids in
    let r := mkBatchClientResponse 0 (Z.of_nat (length unknown)) (map (λ i, (i, "Client not found")) unknown) in
    or_unavailable KeyPool.db_unavailable (
      let! r := batch_apply (action_value (bc_action p)) known r in commit ;;! ret r)).
End AdminClients.
End AdminClients.
