(* ===== verification/AdminLogs.v ===== *)
(** The two logs of [app/api/control_plane.py]: [query_logs] and [query_audit_logs].
    Conditions on nullable columns follow the three-valued logic of SQL. *)

From S2P Require Import Prelude Effects PyText PyTime Json Models Config Env RuntimeSettings Security KeyPool.
From S2P Require Import Forwarder Deps Rfc3339 AdminViews AdminKeyList.
Import Forwarder Admin AdminKeyList.
Open Scope Z_scope.

(** * Conditions in SQL *)

(** True, false or unknown; a row is selected when its condition is true. *)
Definition Sql := option bool.
Definition selected (c : Sql) : bool := bool_decide (c = Some true).
Definition sql_and (a b : Sql) : Sql :=
  match a, b with
  | Some false, _ | _, Some false => Some false
  | Some true, Some true => Some true
  | _, _ => None
  end.
Definition sql_or (a b : Sql) : Sql :=
  match a, b with
  | Some true, _ | _, Some true => Some true
  | Some false, Some false => Some false
  | _, _ => None
  end.
(** A comparison with a nullable column. *)
Definition compare_with {A} (f : A → bool) (column : option A) : Sql := f <$> column.
Definition is_null {A} (column : option A) : Sql :=
  Some (match column with Some _ => false | None => true end).
Definition is_not_null {A} (column : option A) : Sql :=
  Some (match column with Some _ => true | None => false end).
(** [column IS TRUE]. *)
Definition is_true (column : option bool) : Sql := Some (match column with Some b => b | None => false end).
Definition is_false (column : option bool) : Sql := Some (match column with Some b => negb b | None => false end).

(** * Pages *)

(** [rows = q.limit(limit + 1).all()]: the page, the cursor of the next one and whether
    there is one. *)
Definition page {A} (id : A → Z) (limit : Z) (rows : list A) : list A * option Z * bool :=
  let fetched := take (Z.to_nat (limit + 1)) rows in
  let has_more := Z.of_nat (length fetched) >? limit in
  let items := take (Z.to_nat limit) fetched in
  (items, if has_more then id <$> last items else None, has_more).

Module AdminLogs.

Record LogsQuery := mkLogsQuery {
  lq_limit : Z;
  lq_cursor : option Z;
  lq_from : option string;
  lq_to : option string;
  lq_client_id : option Z;
  lq_api_key_id : option Z;
  lq_endpoint : option string;
  lq_status_code : option Z;
  lq_success : option bool;
  lq_level : option string;
  lq_q : option string;
  lq_request_id : option string;
  lq_idempotency_key : option string
}.
Record AuditQuery := mkAuditQuery {
  aq_limit : Z;
  aq_cursor : option Z;
  aq_from : option string;
  aq_to : option string;
  aq_actor_type : option string;
  aq_action : option string;
  aq_resource_type : option string;
  aq_resource_id : option string
}.
Record LogsPage := mkLogsPage { lp_items : list Json; lp_next_cursor : option Z; lp_has_more : bool }.

(** [if x is not None: q = q.filter(f(x))]. *)
Definition filtered_by {A} (x : option A) (f : A → Sql) : Sql :=
  match x with Some v => f v | None => Some true end.
Definition equals_text (column : option string) (v : string) : Sql := compare_with (String.eqb v) column.

(** What the row has to satisfy for a level. *)
Definition level_filter (level : option string) (l : RequestLog) : Sql :=
  match level with
  | None => Some true
  | Some v =>
      if String.eqb v "info" then
        sql_and (is_not_null (rl_status_code l))
          (sql_and (compare_with (λ s, s <? 400) (rl_status_code l)) (is_true (rl_success l)))
      else if String.eqb v "warn" then
        sql_and (is_not_null (rl_status_code l))
          (sql_and (compare_with (λ s, s >=? 400) (rl_status_code l)) (compare_with (λ s, s <? 500) (rl_status_code l)))
      else if String.eqb v "error" then
        sql_or (is_null (rl_status_code l))
          (sql_or (compare_with (λ s, s >=? 500) (rl_status_code l))
            (sql_and (compare_with (λ s, s <? 400) (rl_status_code l)) (is_false (Some (default false (rl_success l))))))
      else Some true
  end.
Definition text_filter (q : string) (l : RequestLog) : Sql :=
  sql_or (Some (searched q (rl_request_id l)))
    (sql_or (Some (searched q (rl_endpoint l)))
      (sql_or (Some (searched q (default "" (rl_error_message l))))
        (Some (searched q (default "" (rl_error_details l)))))).

(** The conditions of a query once its parameters are read. *)
Definition log_condition (p : LogsQuery) (level : option string) (from to : option Z) (l : RequestLog) : Sql :=
  foldr sql_and (Some true) [
    filtered_by (lq_cursor p) (λ c, Some (rl_id l <? c));
    filtered_by from (λ a, Some (a <=? utc_us (rl_created_at l)));
    filtered_by to (λ b, Some (utc_us (rl_created_at l) <=? b));
    filtered_by (lq_client_id p) (λ c, compare_with (Z.eqb c) (rl_client_id l));
    filtered_by (lq_api_key_id p) (λ k, compare_with (Z.eqb k) (rl_api_key_id l));
    filtered_by (lq_endpoint p) (λ e, Some (String.eqb (rl_endpoint l) e));
    filtered_by (lq_status_code p) (λ s, compare_with (Z.eqb s) (rl_status_code l));
    filtered_by (lq_success p) (λ s, compare_with (Bool.eqb s) (rl_success l));
    filtered_by (present (lq_q p)) (λ q, text_filter q l);
    filtered_by (lq_request_id p) (λ r, Some (String.eqb (rl_request_id l) r));
    filtered_by (lq_idempotency_key p) (equals_text (rl_idempotency_key l));
    level_filter level l
  ].

(** The level asked for, [None] for all. *)
Definition read_level (level : option string) : Res (option string) :=
  match present level with
  | None => Ok None
  | Some s => let v := lower s in
      if str_in v ["info"; "warn"; "error"] then Ok (Some v)
      else Raise (EFcam (validation_error "level must be one of info|warn|error"))
  end.
Definition read_time (x : option string) : Res (option Z) :=
  match x with
  | None => Ok None
  | Some s => match _parse_rfc3339 s with Ok dt => Ok (Some (utc_us dt)) | Raise e => Raise e end
  end.

Definition log_item (t : Tables) (l : RequestLog) : Json :=
  let last4 := match rl_api_key_id l with Some k => k_api_key_last4 <$> t_keys t !! k | None => None end in
  JObj [
    ("id", JInt (rl_id l));
    ("created_at", time_json (Some (rl_created_at l)));
    ("level", JStr (_request_log_level (rl_status_code l) (rl_success l)));
    ("request_id", JStr (rl_request_id l));
    ("client_id", nullable JInt (rl_client_id l));
    ("api_key_id", nullable JInt (rl_api_key_id l));
    ("api_key_masked", match rl_api_key_id l with
                       | Some k => if k =? 0 then JNull else JStr (mask_api_key_last4 (default "" last4))
                       | None => JNull
                       end);
    ("method", JStr (rl_method l));
    ("endpoint", JStr (rl_endpoint l));
    ("status_code", nullable JInt (rl_status_code l));
    ("response_time_ms", nullable JInt (rl_response_time_ms l));
    ("success", nullable JBool (rl_success l));
    ("retry_count", JInt (rl_retry_count l));
    ("error_message", nullable JStr (rl_error_message l));
    ("error_details", nullable JStr (rl_error_details l));
    ("idempotency_key", nullable JStr (rl_idempotency_key l))
  ].

(** The rows of a query, newest first. *)
Definition log_rows (p : LogsQuery) (level : option string) (from to : option Z) (t : Tables) : list RequestLog :=
  List.filter (λ l, selected (log_condition p level from to l)) (rev (by_id (t_request_logs t))).

Definition audit_condition (p : AuditQuery) (from to : option Z) (a : AuditLog) : Sql :=
  foldr sql_and (Some true) [
    filtered_by (aq_cursor p) (λ c, Some (a_id a <? c));
    filtered_by from (λ x, Some (x <=? utc_us (a_created_at a)));
    filtered_by to (λ x, Some (utc_us (a_created_at a) <=? x));
    filtered_by (aq_actor_type p) (λ v, Some (String.eqb (a_actor_type a) v));
    filtered_by (aq_action p) (λ v, Some (String.eqb (a_action a) v));
    filtered_by (aq_resource_type p) (equals_text (a_resource_type a));
    filtered_by (aq_resource_id p) (equals_text (a_resource_id a))
  ].
Definition audit_item (a : AuditLog) : Json := JObj [
  ("id", JInt (a_id a));
  ("created_at", time_json (Some (a_created_at a)));
  ("actor_type", JStr (a_actor_type a));
  ("actor_id", nullable JStr (a_actor_id a));
  ("action", JStr (a_action a));
  ("resource_type", nullable JStr (a_resource_type a));
  ("resource_id", nullable JStr (a_resource_id a));
  ("ip", nullable JStr (a_ip a));
  ("user_agent", nullable JStr (a_user_agent a))
].
Definition audit_rows (p : AuditQuery) (from to : option Z) (t : Tables) : list AuditLog :=
  List.filter (λ a, selected (audit_condition p from to a)) (rev (by_id (t_audit_logs t))).

Section AdminLogs.
Context {E : Env}.

Definition query_logs (p : LogsQuery) : Prog LogsPage :=
  let! limit := of_res (_limit (lq_limit p)) in
  let! level := of_res (read_level (lq_level p)) in
  let! from := of_res (read_time (lq_from p)) in
  let! to := of_res (read_time (lq_to p)) in
  if match present (lq_q p) with Some q => slen q >? 200 | None => false end
  then raise (EFcam (validation_error "q too long"))
  else
    let! t := query in
    let '(items, next_cursor, has_more) := page rl_id limit (log_rows p level from to t) in
    ret (mkLogsPage (map (log_item t) items) next_cursor has_more).

Definition query_audit_logs (p : AuditQuery) : Prog LogsPage :=
  let! limit := of_res (_limit (aq_limit p)) in
  let! from := of_res (read_time (aq_from p)) in
  let! to := of_res (read_time (aq_to p)) in
  let! t := query in
  let '(items, next_cursor, has_more) := page a_id limit (audit_rows p from to t) in
  ret (mkLogsPage (map audit_item items) next_cursor has_more).
End AdminLogs.
End AdminLogs.
