(* ===== verification/AdminStats.v ===== *)
(** The figures of [app/api/control_plane.py]: [dashboard_stats], [dashboard_chart],
    [stats], [quota_stats] and [dashboard_clients_usage]. *)

From S2P Require Import Prelude Effects PyText PyTime Json Models Config Env RuntimeSettings Security KeyPool.
From S2P Require Import Forwarder Deps Rfc3339 CreditAggregator AdminViews AdminKeys.
Import Forwarder Admin AdminKeys.
Open Scope Z_scope.

(** The offset of a zone from UTC at a time shown by its clocks (the earlier reading
    where there are two), in microseconds. *)
Class WallClocks := { wall_offset : string → Z → option Z }.

Module AdminStats.

Definition count {A} (f : A → bool) (l : list A) : Z := Z.of_nat (length (List.filter f l)).
Definition total_of {A} (f : A → Z) (l : list A) : Z := foldr (λ x acc, f x + acc) 0 l.
Definition positive (x : option Z) : bool := match x with Some n => n >? 0 | None => false end.

Section AdminStats.
Context {E : Env}.

(** [try: ...  except Exception: raise DB_UNAVAILABLE]. *)
Definition or_db_down {A} (m : Prog A) : Prog A := catch_all m (λ _, raise (EFcam KeyPool.db_unavailable)).
Definition keys_where (f : ApiKey → bool) : Prog Z := let! t := query in ret (count f (by_id (t_keys t))).
Definition clients_where (f : Client → bool) : Prog Z := let! t := query in ret (count f (by_id (t_clients t))).

(** Requests joined with their active client, of the given client if one is given. *)
Definition of_active_client (client_id : option Z) (t : Tables) (l : RequestLog) : bool :=
  match rl_client_id l with
  | Some c => match t_clients t !! c with Some client => c_is_active client | None => false end &&
              match client_id with Some id => c =? id | None => true end
  | None => false
  end.

Definition dashboard_stats (client_id : option Z) : Prog Json :=
  let! now := now_utc in
  let cutoff := now - 24 * hour in
  let logs_where f := let! t := query in
    ret (count (λ l, (cutoff <=? utc_us (rl_created_at l)) && of_active_client client_id t l && f l)
           (by_id (t_request_logs t))) in
  let! r := or_db_down (
    let! keys_total := keys_where (λ _, true) in
    let! keys_failed := keys_where (λ k, str_in (k_status k) ["failed"; "decrypt_failed"; "invalid"]) in
    let! clients_total := clients_where (λ c, c_is_active c && negb (String.eqb (c_status c) "deleted") &&
      match client_id with Some id => c_id c =? id | None => true end) in
    let! requests_total := logs_where (λ _, true) in
    let! requests_failed := logs_where (λ l, negb (bool_decide (rl_success l = Some true))) in
    ret (keys_total, keys_failed, clients_total, requests_total, requests_failed)) in
  let '(keys_total, keys_failed, clients_total, requests_total, requests_failed) := r in
  let error_rate := if requests_total =? 0 then 0%Q
                    else (inject_Z requests_failed / inject_Z requests_total * 100)%Q in
  ret (JObj [("keys", JObj [("total", JInt keys_total); ("failed", JInt keys_failed)]);
             ("clients", JObj [("total", JInt clients_total)]);
             ("requests_24h", JObj [("total", JInt requests_total); ("failed", JInt requests_failed);
                                    ("error_rate", JFloat (py_round 3 error_rate))])]).

(** ** The chart of the last 24 hours *)

(** [dt.replace(minute=0, second=0, microsecond=0)]. *)
Definition floor_hour (us : Z) : Z := us / hour * hour.
(** The bucket of an instant: hours since the first one, on the zone's clocks. *)
Definition bucket_index (off start_hour us : Z) : Z := (floor_hour (us + off) - start_hour) / hour.
Fixpoint fill_buckets (offset : Z → Z) (start_hour : Z) (rows : list RequestLog) (success failed : list Z)
  : list Z * list Z :=
  match rows with
  | [] => (success, failed)
  | l :: rows' =>
      let us := utc_us (rl_created_at l) in
      let idx := bucket_index (offset us) start_hour us in
      if (idx <? 0) || (idx >=? 24) then fill_buckets offset start_hour rows' success failed
      else if bool_decide (rl_success l = Some true)
      then fill_buckets offset start_hour rows' (alter (Z.add 1) (Z.to_nat idx) success) failed
      else fill_buckets offset start_hour rows' success (alter (Z.add 1) (Z.to_nat idx) failed)
  end.

Record Chart := mkChart { ch_tz : string; ch_labels : list string; ch_success : list Z; ch_failed : list Z }.

Definition dashboard_chart `{!ZoneInfo, !WallClocks} (range_ bucket tz : string) (client_id : option Z) : Prog Chart :=
  if negb (String.eqb range_ "24h") then raise (EFcam (validation_error "Unsupported range"))
  else if negb (String.eqb bucket "hour") then raise (EFcam (validation_error "Unsupported bucket"))
  else
    let! now := now_utc in
    match zone_offset tz now with
    | None => raise (EFcam (validation_error "Invalid tz"))
    | Some off =>
        let end_hour := floor_hour (now + off) in
        let start_hour := end_hour - 23 * hour in
        let to_utc wall := wall - default 0 (wall_offset tz wall) in
        let start_utc := to_utc start_hour in
        let end_exclusive_utc := to_utc (end_hour + hour) in
        let! rows := or_db_down (
          let! t := query in
          ret (List.filter (λ l, (start_utc <=? utc_us (rl_created_at l)) && (utc_us (rl_created_at l) <? end_exclusive_utc) &&
                                 of_active_client client_id t l) (by_id (t_request_logs t)))) in
        let '(success, failed) := fill_buckets (λ us, default 0 (zone_offset tz us)) start_hour rows
                                    (replicate 24 0) (replicate 24 0) in
        ret (mkChart tz (omap (λ i, _dt_to_rfc3339 (Some (Aware (to_utc (start_hour + Z.of_nat i * hour))))) (seq 0 24))
               success failed)
    end.

(** ** Counts of keys and clients *)

Definition stats : Prog Json :=
  or_db_down (
    let! keys_total := keys_where (λ _, true) in
    let! clients_total := clients_where (λ _, true) in
    let! keys_active := keys_where (λ k, k_is_active k && String.eqb (k_status k) "active") in
    let! keys_cooling := keys_where (λ k, String.eqb (k_status k) "cooling") in
    let! keys_quota_exceeded := keys_where (λ k, String.eqb (k_status k) "quota_exceeded") in
    let! keys_disabled := keys_where (λ k, negb (k_is_active k) || String.eqb (k_status k) "disabled") in
    let! keys_failed := keys_where (λ k, String.eqb (k_status k) "failed") in
    let! clients_active := clients_where c_is_active in
    let! clients_disabled := clients_where (λ c, negb (c_is_active c)) in
    ret (JObj [("keys", JObj [("total", JInt keys_total); ("active", JInt keys_active); ("cooling", JInt keys_cooling);
                              ("quota_exceeded", JInt keys_quota_exceeded); ("disabled", JInt keys_disabled);
                              ("failed", JInt keys_failed)]);
               ("clients", JObj [("total", JInt clients_total); ("active", JInt clients_active);
                                 ("disabled", JInt clients_disabled)])])).

Definition schedulable (k : ApiKey) : bool :=
  k_is_active k && negb (str_in (k_status k) ["disabled"; "invalid"; "decrypt_failed"]).
Definition exhausted (k : ApiKey) : bool :=
  match k_cached_remaining_credits k with Some r => r <=? 0 | None => false end.
Definition quota_key (k : ApiKey) : Json := JObj [
  ("id", JInt (k_id k));
  ("api_key_masked", JStr (mask_api_key_last4 (k_api_key_last4 k)));
  ("status", JStr (k_status k));
  ("cached_remaining_credits", nullable JInt (k_cached_remaining_credits k));
  ("cached_plan_credits", nullable JInt (k_cached_plan_credits k));
  ("last_credit_check_at", time_json (k_last_credit_check_at k));
  ("next_refresh_at", time_json (k_next_refresh_at k));
  ("daily_quota", JInt (k_daily_quota k));
  ("daily_usage", JInt (k_daily_usage k));
  ("quota_reset_at", date_json (k_quota_reset_at k));
  ("cooldown_until", time_json (k_cooldown_until k))
].
Definition quota_stats (include_keys include_clients : bool) : Prog Json :=
  or_db_down (
    let! t := query in
    let keys := by_id (t_keys t) in
    let pool := List.filter schedulable keys in
    let total_remaining := total_of (λ k, default 0 (k_cached_remaining_credits k)) pool in
    let total_plan := total_of (λ k, default 0 (k_cached_plan_credits k)) pool in
    let keys_zero := count exhausted pool in
    let keys_available := count (λ k, String.eqb (k_status k) "active" && negb (exhausted k)) pool in
    let! clients := if include_clients then let! t := query in ret (Some (by_id (t_clients t))) else ret None in
    ret (JObj ([("summary", JObj [
        ("total_remaining_credits", JInt total_remaining); ("total_plan_credits", JInt total_plan);
        ("total_quota", JInt total_plan); ("used_today", JInt 0); ("remaining", JInt total_remaining);
        ("keys_exhausted", JInt keys_zero); ("keys_available", JInt keys_available)])] ++
      (if include_keys then [("keys", JList (map quota_key keys))] else []) ++
      match clients with Some cs => [("clients", JList (map (λ c, JObj (_client_item c)) cs))] | None => [] end))).

(** ** Usage by client *)

Record ClientUsage := mkClientUsage {
  cu_client : Client;
  cu_total : Z;
  cu_failed : Z;
  cu_success : Z;
  cu_rate_limited : Z;
  cu_retry_sum : Z;
  cu_error_rate : Q
}.
Definition failed_request (l : RequestLog) : bool :=
  bool_decide (rl_success l = Some false) || match rl_status_code l with Some s => s >=? 400 | None => false end.
Definition usage_of (c : Client) (logs : list RequestLog) : ClientUsage :=
  let total := Z.of_nat (length logs) in
  let failed := count failed_request logs in
  mkClientUsage c total failed (Z.max (total - failed) 0)
    (count (λ l, bool_decide (rl_status_code l = Some 429)) logs) (total_of rl_retry_count logs)
    (if total =? 0 then 0%Q else py_round 3 (inject_Z failed / inject_Z total * 100)).
(** [rows.sort(key=total, reverse=True)]: the order of equal rows is kept. *)
Fixpoint insert_usage (u : ClientUsage) (l : list ClientUsage) : list ClientUsage :=
  match l with
  | [] => [u]
  | v :: l' => if cu_total v <=? cu_total u then u :: l else v :: insert_usage u l'
  end.
Definition busiest_first (l : list ClientUsage) : list ClientUsage := foldr insert_usage [] l.
Fixpoint usages (cutoff : Z) (clients : list Client) : Prog (list ClientUsage) :=
  match clients with
  | [] => ret []
  | c :: clients' =>
      let! t := query in
      let logs := List.filter (λ l, bool_decide (rl_client_id l = Some (c_id c)) && (cutoff <=? utc_us (rl_created_at l)))
                    (by_id (t_request_logs t)) in
      let! us := usages cutoff clients' in ret (usage_of c logs :: us)
  end.
Definition dashboard_clients_usage (hours : Z) : Prog (list ClientUsage) :=
  accept ((1 <=? hours) && (hours <=? 168)) (
    let! now := now_utc in
    or_db_down (
      let! t := query in
      let! rows := usages (now - hours * hour)
        (List.filter (λ c, negb (String.eqb (c_status c) "deleted")) (by_id (t_clients t))) in
      ret (busiest_first rows))).
End AdminStats.
End AdminStats.
