(* ===== verification/AdminRuntime.v ===== *)
(** The runtime settings endpoints of [app/api/control_plane.py].  The settings object
    and the connection pool live in the application's state, which is passed in and
    returned. *)

From S2P Require Import Prelude Effects PyText PyTime Json Models Config Env RuntimeSettings Security KeyPool.
From S2P Require Import Forwarder Deps AdminViews AdminKeys.
Import Admin AdminKeys.
Open Scope Z_scope.

Module AdminRuntime.

(** [request.app.state]: the runtime settings, whether the HTTP pool (if there is one)
    is switched on, and the path the settings are saved under. *)
Record AppState := mkAppState {
  st_runtime : option RuntimeScheduling;
  st_http_pool : option bool;
  st_persist_path : option string
}.

(** The payload: the arguments of [patch_scheduling] within the bounds of the fields. *)
Definition between_z (lo hi : Z) (x : option Z) : bool :=
  match x with Some n => (lo <=? n) && (n <=? hi) | None => true end.
Definition between_q (lo hi : Q) (x : option Q) : bool :=
  match x with Some q => Qle_bool lo q && Qle_bool q hi | None => true end.
Definition update_valid (p : Patch) : bool :=
  between_z 1 (7 * 24 * 3600) (p_freshness_half_life_seconds p) &&
  between_q 0 1000000 (p_unknown_credit_baseline p) &&
  between_z 1 64 (p_credit_workers p) &&
  between_z 1 500 (p_credit_batch_size p) &&
  between_z 0 3600 (p_credit_batch_delay_seconds p) &&
  between_z 1 86400 (p_credit_refresh_check_interval_seconds p) &&
  between_z 1 1440 (p_credit_retry_delay_minutes p) &&
  between_q 0 1 (p_epsilon_greedy p).

Section AdminRuntime.
Context {E : Env} (config : AppConfig) (request : Request).

Definition file_pool : bool := hc_connection_pool_enabled (se_http_client (cfg_security config)).
Definition _runtime_pool_enabled (st : AppState) : bool :=
  match st_http_pool st with
  | Some enabled => enabled
  | None => match st_runtime st with
            | Some rt => effective_http_connection_pool_enabled rt file_pool
            | None => file_pool
            end
  end.

Record Block := mkBlock {
  bl_freshness_half_life_seconds : Z;
  bl_unknown_credit_baseline : Q;
  bl_credit_workers : Z;
  bl_http_connection_pool_enabled : bool;
  bl_credit_batch_size : Z;
  bl_credit_batch_delay_seconds : Z;
  bl_credit_refresh_check_interval_seconds : Z;
  bl_credit_retry_delay_minutes : Z;
  bl_epsilon_greedy : Q
}.
Record RuntimeSnapshot := mkRuntimeSnapshot {
  sn_file : Block;
  sn_effective : Block;
  sn_overrides : option RuntimeScheduling;   (* None: the empty dictionary *)
  sn_http_connection_pool_enabled : bool;
  sn_persist_path : option string
}.
Definition file_block : Block :=
  let m := cfg_credit_monitoring config in
  mkBlock (sc_freshness_half_life_seconds (cfg_scheduling config)) (sc_unknown_credit_baseline (cfg_scheduling config))
    (cm_workers m) file_pool (cm_batch_size m) (cm_batch_delay_seconds m) (cm_refresh_check_interval_seconds m)
    (cm_retry_delay_minutes m) (or_float (sc_epsilon_greedy (cfg_scheduling config)) 0).
Definition effective_block (st : AppState) : Block :=
  let f := file_block in
  let eff {A} (g : RuntimeScheduling → A → A) (fallback : A) : A :=
    match st_runtime st with Some rt => g rt fallback | None => fallback end in
  mkBlock (eff (λ rt x, int_of_float (effective_half_life rt x)) (bl_freshness_half_life_seconds f))
    (eff effective_unknown_baseline (bl_unknown_credit_baseline f))
    (eff effective_credit_workers (bl_credit_workers f))
    (_runtime_pool_enabled st)
    (eff effective_credit_batch_size (bl_credit_batch_size f))
    (eff effective_credit_batch_delay_seconds (bl_credit_batch_delay_seconds f))
    (eff effective_credit_refresh_check_interval_seconds (bl_credit_refresh_check_interval_seconds f))
    (eff effective_credit_retry_delay_minutes (bl_credit_retry_delay_minutes f))
    (eff effective_epsilon_greedy (bl_epsilon_greedy f)).
Definition _runtime_snapshot (st : AppState) : RuntimeSnapshot :=
  mkRuntimeSnapshot file_block (effective_block st) (st_runtime st) (_runtime_pool_enabled st)
    (match st_runtime st with Some _ => st_persist_path st | None => None end).

Definition get_runtime_scheduling (st : AppState) : RuntimeSnapshot := _runtime_snapshot st.

Definition patched (p : Patch) (st : AppState) (rt : RuntimeScheduling) : AppState :=
  let rt := patch_scheduling p rt in
  mkAppState (Some rt)
    (match st_http_pool st with
     | Some _ => Some (effective_http_connection_pool_enabled rt file_pool)
     | None => None
     end) (st_persist_path st).
Definition put_runtime_scheduling (p : Patch) (st : AppState) : Prog (RuntimeSnapshot * AppState) :=
  accept (update_valid p) (
    match st_runtime st with
    | None => raise (EFcam (mkFcamError 503 "NOT_READY" "Runtime settings not available" None))
    | Some rt =>
        let st := patched p st rt in
        _audit request "runtime.scheduling.update" (Some "runtime") (Some "scheduling") ;;!
        try_commit ;;!
        ret (_runtime_snapshot st, st)
    end).
End AdminRuntime.
End AdminRuntime.
