(* ===== verification/AdminLogsProps.v ===== *)
(** What reading the logs guarantees: the level filter selects what the level says,
    following the cursors reads every matching row exactly once, newest first, and
    ends; and a search for plain text is a search for the text. *)

From S2P Require Import Prelude Effects PyText PyTime Json Models Config Env Transactions RuntimeSettings.
From S2P Require Import Security KeyPool.
From S2P Require Import Forwarder Deps Rfc3339 AdminViews AdminKeyList AdminLogs Sim.
Import Forwarder Admin AdminKeyList AdminLogs.
Open Scope Z_scope.

Module AdminLogsFacts.

Lemma filter_filter_list {A} (p q : A → bool) l : List.filter p (List.filter q l) = List.filter (λ x, q x && p x) l.
Proof. induction l as [|a l IH]; simpl; [done|]. destruct (q a); simpl; [|done]. by rewrite IH. Qed.

(** * Pages of a descending list *)

Section Pages.
Context {A : Type} (id : A → Z).

Definition descending (l : list A) : Prop := StronglySorted (λ a b, id b < id a) l.
Definition below (c : option Z) (l : list A) : list A :=
  List.filter (λ a, match c with Some n => id a <? n | None => true end) l.

Lemma below_all c l : Forall (λ a, match c with Some n => id a < n | None => True end) l → below c l = l.
Proof.
  induction 1 as [|a l Ha _ IH]; [done|]. unfold below in *. simpl. rewrite IH.
  destruct c as [n|]; [|done]. by rewrite (proj2 (Z.ltb_lt _ _) Ha).
Qed.
Lemma below_suffix l1 a l2 : descending (l1 ++ a :: l2) → below (Some (id a)) (l1 ++ a :: l2) = l2.
Proof.
  unfold descending, below. rewrite List.filter_app.
  induction l1 as [|b l1 IH]; simpl; intros Hs; apply StronglySorted_inv in Hs as [Hs Hall].
  - rewrite Z.ltb_irrefl. apply (below_all (Some (id a))). done.
  - assert (id a < id b) as Hlt by (rewrite Forall_app in Hall; destruct Hall as [_ Ha]; by inversion Ha).
    rewrite (proj2 (Z.ltb_ge _ _)) by lia. by apply IH.
Qed.

(** A page of a list, by its cursor. *)
Lemma page_spec limit l : 0 < limit →
  let n := Z.to_nat limit in
  page id limit l = (take n l, if decide (n < length l)%nat then id <$> last (take n l) else None,
                     bool_decide (n < length l)%nat).
Proof.
  intros Hl n. unfold page. replace (Z.to_nat (limit + 1)) with (S n) by lia.
  rewrite take_take, Nat.min_l by lia. rewrite length_take.
  assert ((Z.of_nat (S n `min` length l) >? limit) = bool_decide (n < length l)%nat) as ->.
  { rewrite Z.gtb_ltb. case_bool_decide; [apply Z.ltb_lt|apply Z.ltb_ge]; lia. }
  case_bool_decide; case_decide; done || lia.
Qed.
(** The rows after a page are the rows below its cursor. *)
Lemma next_page n l : descending l → (0 < n)%nat → (n < length l)%nat →
  ∃ a, last (take n l) = Some a ∧ below (Some (id a)) l = drop n l ∧ (length (drop n l) < length l)%nat.
Proof.
  intros Hd Hn Hl. destruct (last (take n l)) as [a|] eqn:Ha.
  2: { apply last_None in Ha. apply (f_equal length) in Ha. rewrite length_take in Ha. simpl in Ha. lia. }
  exists a. split; [done|]. split; [|rewrite length_drop; lia].
  apply last_Some in Ha as [l1 Ha]. rewrite <-(take_drop n l) in Hd |- * at 1.
  rewrite Ha, <-app_assoc in Hd |- *. simpl in *. by apply below_suffix.
Qed.
End Pages.

(** * Rows by descending key *)

Section Rows.
Context {A : Type} (id : A → Z) (m : gmap Z A) (Hid : ∀ i a, m !! i = Some a → id a = i).

Lemma by_id_ascending : StronglySorted (λ a b, id a < id b) (by_id m).
Proof.
  unfold by_id. set (l := merge_sort pk_le (map_to_list m)).
  assert (l ≡ₚ map_to_list m) as Hp by apply merge_sort_Permutation.
  assert (Transitive (@pk_le A)) as Ht by (intros x y z; unfold pk_le; lia).
  assert (∀ x y : Z * A, pk_le x y ∨ pk_le y x) as Htot by (intros x y; unfold pk_le; lia).
  assert (StronglySorted pk_le l) as Hs by (apply StronglySorted_merge_sort; done).
  assert (NoDup l.*1) as Hnd by (rewrite Hp; apply NoDup_fst_map_to_list).
  assert (Forall (λ p, id p.2 = p.1) l) as Hf.
  { rewrite Hp. apply Forall_forall. intros [i a] Hin%elem_of_map_to_list. by apply Hid. }
  clearbody l. clear Hp. induction Hs as [|p l Hs IH Hall]; simpl; [constructor|].
  simpl in Hnd. apply NoDup_cons in Hnd as [Hnin Hnd]. apply Forall_cons in Hf as [Hp Hf].
  constructor; [by apply IH|]. apply list.Forall_forall.
  intros a (q & -> & Hq)%list_elem_of_fmap. pose proof (proj1 (list.Forall_forall _ _) Hall q Hq) as Hle.
  pose proof (proj1 (list.Forall_forall _ _) Hf q Hq) as Hq'. unfold pk_le in Hle. simpl in Hq'.
  assert (p.1 ≠ q.1); [|lia]. intros He. apply Hnin. rewrite He. by apply list_elem_of_fmap_2.
Qed.
Lemma sorted_rev (R : relation A) l : StronglySorted R l → StronglySorted (λ a b, R b a) (rev l).
Proof.
  induction 1 as [|a l Hs IH Hall]; simpl; [constructor|].
  apply StronglySorted_app_2; [|done|repeat constructor].
  intros x y Hx ->%list_elem_of_singleton. apply list_elem_of_In, in_rev, list_elem_of_In in Hx.
  by eapply Forall_forall in Hall.
Qed.
Lemma sorted_filter (R : relation A) p l : StronglySorted R l → StronglySorted R (List.filter p l).
Proof.
  induction 1 as [|a l Hs IH Hall]; simpl; [constructor|]. destruct (p a); [|done].
  constructor; [done|]. apply Forall_forall. intros b [Hb _]%list_elem_of_In%filter_In.
  eapply Forall_forall in Hall; [exact Hall|]. by apply list_elem_of_In.
Qed.
Lemma rows_descending p : descending id (List.filter p (rev (by_id m))).
Proof. apply sorted_filter, (sorted_rev (λ a b, id a < id b)), by_id_ascending. Qed.
End Rows.
End AdminLogsFacts.

(** * Following the cursors *)

(** A client that asks for pages until there is no next one; [None] when [n] pages do
    not suffice. *)
Fixpoint read_all {E : Env} (n : nat) (fetch : option Z → Prog LogsPage) (cursor : option Z) : Prog (option (list Json)) :=
  match n with
  | O => ret None
  | S n' =>
      let! p := fetch cursor in
      match lp_next_cursor p with
      | None => ret (Some (lp_items p))
      | Some c => let! rest := read_all n' fetch (Some c) in ret (app (lp_items p) <$> rest)
      end
  end.
Definition logs_from (p : LogsQuery) (c : option Z) : LogsQuery :=
  mkLogsQuery (lq_limit p) c (lq_from p) (lq_to p) (lq_client_id p) (lq_api_key_id p) (lq_endpoint p)
    (lq_status_code p) (lq_success p) (lq_level p) (lq_q p) (lq_request_id p) (lq_idempotency_key p).
Definition audits_from (p : AuditQuery) (c : option Z) : AuditQuery :=
  mkAuditQuery (aq_limit p) c (aq_from p) (aq_to p) (aq_actor_type p) (aq_action p) (aq_resource_type p)
    (aq_resource_id p).

Import AdminLogsFacts.

Section Reading.
Context {E : Env} {OL : OrmLaws} {A : Type} (id : A → Z) (item : A → Json) (limit : Z) (rows : list A) (T : Tables).
Context (Hlimit : 0 < limit) (Hrows : descending id rows).
Context (fetch : option Z → Prog LogsPage).
Context (Hfetch : ∀ c w, view w = T → ∃ w', view w' = T ∧
  fetch c w = (Ok (let '(items, next, more) := page id limit (below id c rows) in
                   mkLogsPage (map item items) next more), w')).

Lemma below_below c x : (∀ n, c = Some n → x < n) → below id (Some x) (below id c rows) = below id (Some x) rows.
Proof.
  intros Hx. unfold below. rewrite filter_filter_list. apply List.filter_ext. intros a.
  destruct c as [n|]; simpl; [|done]. specialize (Hx n eq_refl).
  destruct (Z.ltb_spec (id a) x), (Z.ltb_spec (id a) n); simpl; done || lia.
Qed.
Lemma read_all_spec n : ∀ c w, view w = T → (length (below id c rows) < n)%nat →
  (read_all n fetch c w).1 = Ok (Some (map item (below id c rows))).
Proof.
  induction n as [|n IH]; intros c w Hw Hn; [lia|]. simpl.
  destruct (Hfetch c w Hw) as (w1 & Hw1 & Hf). rewrite (page_spec id limit _ Hlimit) in Hf.
  rewrite (bind_run _ _ _ _ _ Hf). clear Hf. simpl. set (k := Z.to_nat limit). set (l := below id c rows) in *.
  assert (descending id l) as Hd by (by apply sorted_filter).
  case_decide as Hk; [|simpl; rewrite firstn_all2 by lia; done].
  destruct (next_page id k l Hd ltac:(lia) Hk) as (a & Ha & Hnext & Hlen). rewrite Ha. simpl.
  assert (below id (Some (id a)) rows = drop k l) as Hb.
  { rewrite <-Hnext. symmetry. apply below_below. intros x ->.
    apply last_Some in Ha as [l1 Ha]. assert (a ∈ l) as Hin.
    { rewrite <-(take_drop k l), Ha. set_solver. }
    apply list_elem_of_In, filter_In in Hin as [_ Hin]. by apply Z.ltb_lt. }
  specialize (IH (Some (id a)) w1 Hw1). rewrite Hb in IH. specialize (IH ltac:(lia)).
  unfold bind. destruct (read_all n fetch (Some (id a)) w1) as [r w2]. simpl in IH. subst r. simpl.
  by rewrite <-map_app, firstn_skipn.
Qed.
End Reading.

Lemma selected_and b c : selected (sql_and (Some b) c) = b && selected c.
Proof. by destruct b, c as [[]|]. Qed.
Lemma log_rows_from p c level from to t :
  log_rows (logs_from p c) level from to t = below rl_id c (log_rows (logs_from p None) level from to t).
Proof.
  unfold log_rows, below. rewrite filter_filter_list. apply List.filter_ext. intros l.
  unfold log_condition. cbn [foldr lq_cursor logs_from]. destruct c as [n|]; simpl filtered_by; rewrite !selected_and;
    [by rewrite andb_comm|by rewrite andb_true_r].
Qed.
Lemma audit_rows_from p c from to t :
  audit_rows (audits_from p c) from to t = below a_id c (audit_rows (audits_from p None) from to t).
Proof.
  unfold audit_rows, below. rewrite filter_filter_list. apply List.filter_ext. intros l.
  unfold audit_condition. cbn [foldr aq_cursor audits_from]. destruct c as [n|]; simpl filtered_by; rewrite !selected_and;
    [by rewrite andb_comm|by rewrite andb_true_r].
Qed.
Lemma limit_ok n m : _limit n = Ok m → m = n ∧ 0 < n.
Proof. unfold _limit. destruct (Z.leb_spec n 0); [done|]. case_match; [done|]. intros [= <-]. done. Qed.

(** * Searching *)

Lemma like_any s : like "%" s = true.
Proof. induction s as [|c s IH]; [done|]. exact IH. Qed.
(** A pattern without wildcards, then anything. *)
Definition plain_text (s : string) : bool :=
  string_forallb (λ c, negb (Ascii.eqb c "%" || Ascii.eqb c "_")) s.
Lemma like_prefix p : plain_text p = true → ∀ s, like (p +:+ "%") s = String.prefix p s.
Proof.
  induction p as [|c p IH]; intros Hp s; [destruct s; apply like_any|].
  unfold plain_text in Hp. simpl in Hp. apply andb_prop in Hp as [[H1 H2]%negb_true_iff%orb_false_iff Hp].
  change (String c p +:+ "%") with (String c (p +:+ "%")). cbn [like]. rewrite H1, H2. destruct s as [|d s]; [done|].
  cbn [String.prefix orb]. rewrite (IH Hp). destruct (Ascii.ascii_dec c d) as [->|Hne].
  - by rewrite Ascii.eqb_refl.
  - by rewrite (proj2 (Ascii.eqb_neq _ _) Hne).
Qed.
Lemma like_contains p s : plain_text p = true → like ("%" +:+ p +:+ "%") s = contains p s.
Proof.
  intros Hp. change ("%" +:+ p +:+ "%") with (String "%" (p +:+ "%")).
  induction s as [|c s IH].
  - cbn [like]. change (like (p +:+ "%") "" || false = contains p ""). by rewrite like_prefix.
  - change (like (p +:+ "%") (String c s) || like (String "%" (p +:+ "%")) s = contains p (String c s)).
    by rewrite IH, like_prefix.
Qed.

Module AdminLogsTheorems.
Section AdminLogsTheorems.
Context {E : Env} {OL : OrmLaws}.

Lemma query_answers w : (∀ s, (db_query s).1 = true) → ∃ w', query w = (Ok (view w), w') ∧ view w' = view w.
Proof.
  intros Hq. unfold query, bind, step, gets, view. specialize (Hq (w_db w)).
  pose proof (view_query (w_db w)) as Hv. destruct (db_query (w_db w)) as [ok s]. simpl in *. subst ok.
  eexists. split; [simpl; by rewrite Hv|done].
Qed.

(** C35. The levels of the log mean the same to a filter and in a response: the rows that
    the filter for a level selects in the database are exactly those that are
    displayed with that level, so each request is listed under one of the three. *)
Theorem level_filter_is_level v l :
  In v ["info"; "warn"; "error"] →
  selected (level_filter (Some v) l) = true ↔ _request_log_level (rl_status_code l) (rl_success l) = v.
Proof.
  unfold level_filter, _request_log_level, selected.
  intros [<-|[<-|[<-|[]]]]; destruct (rl_status_code l) as [s|], (rl_success l) as [[]|]; simpl; try done;
    rewrite ?Z.geb_leb; repeat match goal with
      | |- context [?a <? ?b] => destruct (Z.ltb_spec a b)
      | |- context [?a <=? ?b] => destruct (Z.leb_spec a b)
      end; simpl; (done || lia).
Qed.

(** C39. Following the cursors reads the whole log and ends: while the tables do not change,
    a client that asks for page after page gets every matching request, and every
    matching audit record, exactly once, newest first, with any limit and any
    filters; as many requests as there are rows, and one more, are enough. *)
Theorem cursors_read_everything p q level from to from' to' lim lim' n w :
  (∀ s, (db_query s).1 = true) →
  (∀ i l, t_request_logs (view w) !! i = Some l → rl_id l = i) →
  (∀ i a, t_audit_logs (view w) !! i = Some a → a_id a = i) →
  _limit (lq_limit p) = Ok lim → read_level (lq_level p) = Ok level →
  read_time (lq_from p) = Ok from → read_time (lq_to p) = Ok to →
  match present (lq_q p) with Some s => slen s ≤ 200 | None => True end →
  _limit (aq_limit q) = Ok lim' → read_time (aq_from q) = Ok from' → read_time (aq_to q) = Ok to' →
  let logs := log_rows (logs_from p None) level from to (view w) in
  let audits := audit_rows (audits_from q None) from' to' (view w) in
  (length logs < n)%nat → (length audits < n)%nat →
  (read_all n (λ c, query_logs (logs_from p c)) None w).1 = Ok (Some (map (log_item (view w)) logs)) ∧
  (read_all n (λ c, query_audit_logs (audits_from q c)) None w).1 = Ok (Some (map audit_item audits)).
Proof.
  intros Hq Hl Ha Hlim Hlev Hfrom Hto Hshort Hlim' Hfrom' Hto' logs audits Hn Hn'.
  apply limit_ok in Hlim as Hlim2. destruct Hlim2 as [-> Hpos]. apply limit_ok in Hlim' as Hlim2. destruct Hlim2 as [-> Hpos'].
  assert (∀ {A} (id : A → Z) l, below id None l = l) as Hnone.
  { intros A id l. apply below_all. by apply Forall_true. }
  split.
  - rewrite <-(Hnone _ rl_id logs). apply (read_all_spec rl_id (log_item (view w)) (lq_limit p) logs (view w));
      [done|by apply rows_descending| |done|by rewrite Hnone].
    intros c w1 Hw1. unfold query_logs. cbn [logs_from lq_limit lq_level lq_from lq_to lq_q]. rewrite Hlim, Hlev, Hfrom, Hto.
    destruct (query_answers w1 Hq) as (w2 & Hq2 & Hv2). exists w2. split; [congruence|].
    unfold bind at 1, of_res at 1. unfold bind at 1, of_res at 1. unfold bind at 1, of_res at 1. unfold bind at 1, of_res at 1.
    assert (match present (lq_q p) with Some s => slen s >? 200 | None => false end = false) as ->.
    { destruct (present (lq_q p)); [|done]. rewrite Z.gtb_ltb. by apply Z.ltb_ge. }
    rewrite (bind_run _ _ _ _ _ Hq2), Hw1, log_rows_from. fold logs. by destruct (page rl_id _ _) as [[items next] more].
  - rewrite <-(Hnone _ a_id audits). apply (read_all_spec a_id audit_item (aq_limit q) audits (view w));
      [done|by apply rows_descending| |done|by rewrite Hnone].
    intros c w1 Hw1. unfold query_audit_logs. cbn [audits_from aq_limit aq_from aq_to]. rewrite Hlim', Hfrom', Hto'.
    destruct (query_answers w1 Hq) as (w2 & Hq2 & Hv2). exists w2. split; [congruence|].
    unfold bind at 1, of_res at 1. unfold bind at 1, of_res at 1. unfold bind at 1, of_res at 1.
    rewrite (bind_run _ _ _ _ _ Hq2), Hw1, audit_rows_from. fold audits. by destruct (page a_id _ _) as [[items next] more].
Qed.

(** A search finds text: for a query without the wildcards of LIKE, the search in a
    column selects exactly the rows in which the query occurs, upper and lower case
    alike.  (With a wildcard in the query it selects more.) *)
Theorem search_finds_text q column :
  plain_text (lower q) = true → searched q column = contains (lower q) (lower column).
Proof. intros Hq. by apply like_contains. Qed.
End AdminLogsTheorems.

(** * Concrete inputs *)

Import Simulation.

Definition sample_log (id : Z) (status : option Z) (success : option bool) : RequestLog :=
  mkRequestLog id "req" None (Some 1) "scrape" "POST" status (Some 12) success 0 None None None (Aware T0).
Definition log_world : World :=
  sim_world (set_t_request_logs (list_to_map [(1, sample_log 1 (Some 200) (Some true)); (2, sample_log 2 (Some 404) (Some true));
      (4, sample_log 4 None None); (3, sample_log 3 (Some 429) (Some false))])
    (set_t_audit_logs {[ 7 := mkAuditLog 7 "admin" None "key.create" None None None None (Aware T0) ]}
      (sim_tables [sim_key 1 "firecrawl" None] []))) [] [].
Definition warnings : LogsQuery :=
  mkLogsQuery 1 None (Some "2026-01-15T00:00:00Z") None None None None None None (Some " Warn") None None None.
Definition all_audits : AuditQuery := mkAuditQuery 50 None None None None None None None.

Lemma level_filter_is_level_witness :
  selected (level_filter (Some "error") (sample_log 4 (Some 200) None)) = true ∧
  _request_log_level (Some 200) None = "error".
Proof.
  split; [reflexivity|]. apply (level_filter_is_level "error" (sample_log 4 (Some 200) None)); [|reflexivity].
  right. right. left. reflexivity.
Defined.
Lemma cursors_read_everything_witness :
  (read_all 3 (λ c, query_logs (logs_from warnings c)) None log_world).1 =
    Ok (Some (map (log_item (view log_world)) [sample_log 3 (Some 429) (Some false); sample_log 2 (Some 404) (Some true)])).
Proof.
  etransitivity; [apply (cursors_read_everything warnings all_audits (Some "warn") (Some (days_of_civil 2026 1 15 * day))
    None None None 1 50 3 log_world)|vm_compute; reflexivity]; try reflexivity.
  - intros i l Hi%elem_of_list_to_map_2. repeat (apply elem_of_cons in Hi as [[= -> ->]|Hi]; [reflexivity|]).
    by apply not_elem_of_nil in Hi.
  - intros i a Hi. apply (lookup_singleton_Some (M := gmap Z) 7 i _ a) in Hi as [<- <-]. reflexivity.
  - vm_compute. lia.
  - vm_compute. lia.
Defined.
Lemma search_finds_text_witness : searched "TimeOut" "upstream timeout after 30s" = true.
Proof. rewrite search_finds_text; reflexivity. Defined.
End AdminLogsTheorems.
