(* ===== verification/AdminSpec.v ===== *)
(** What the administration of keys promises, apart from how the handlers do it: the
    life cycle of a key as a step relation ([life_step]) on the modes of the pool, with the
    events each request may cause ([allowed]), and the shape of a row ([key_typed]).
    AdminKeysProps.v proves that the handlers refine it. *)

From S2P Require Import Prelude Effects PyText PyTime Json Models Config Env RuntimeSettings Security KeyPool.
From S2P Require Import Forwarder KeyTest Deps KeyImport AdminRows AdminViews AdminKeys AdminKeyOps.
From S2P Require Import AdminCredits AdminClients.
Import Forwarder Deps KeyImport Admin AdminKeys AdminKeyOps.
Open Scope Z_scope.

(** * Requests *)

(** The administrative requests that write rows of keys. *)
Inductive KeyRequest :=
  | RqCreate (p : CreateKeyRequest)
  | RqImport (p : ImportKeysTextRequest)
  | RqUpdate (id : Z) (p : UpdateKeyRequest)
  | RqDelete (id : Z)
  | RqPurge (id : Z)
  | RqTest (id : Z) (mode test_url : string)
  | RqRevive (id : Z) (p : ReviveKeyRequest)
  | RqReset
  | RqBatch (p : BatchKeysRequest)
  | RqRefresh (id : Z)
  | RqRefreshAll (p : AdminCredits.RefreshAllCreditsRequest)
  | RqPurgeClient (id : Z).

(** A request in its own session. *)
Definition run_request {E : Env} `{!Digests, !ZoneInfo} (self : Self) (secrets : Secrets) (request : Request)
    (rq : KeyRequest) : Prog unit :=
  in_session (match rq with
  | RqCreate p => create_key self secrets request p ;;! ret tt
  | RqImport p => import_keys_text self secrets request p ;;! ret tt
  | RqUpdate id p => update_key self secrets request id p ;;! ret tt
  | RqDelete id => delete_key request id
  | RqPurge id => purge_key request id
  | RqTest id mode test_url => test_key self request id mode test_url ;;! ret tt
  | RqRevive id p => revive_key self request id p ;;! ret tt
  | RqReset => reset_keys_quota self request ;;! ret tt
  | RqBatch p => batch_keys self request p ;;! ret tt
  | RqRefresh id => AdminCredits.refresh_key_credits_api self secrets id ;;! ret tt
  | RqRefreshAll p => AdminCredits.refresh_all_credits_api self secrets p ;;! ret tt
  | RqPurgeClient id => AdminClients.purge_client request id
  end).

(** Requests one after the other. *)
Fixpoint run_requests {E : Env} `{!Digests, !ZoneInfo} (self : Self) (secrets : Secrets)
    (rqs : list (Request * KeyRequest)) (w : World) : World :=
  match rqs with
  | [] => w
  | (request, rq) :: rqs' => run_requests self secrets rqs' (run_request self secrets request rq w).2
  end.

(** * The life cycle *)

(** A key that is switched off; one that is on but whose status keeps it from being
    chosen; one the scheduler may choose. *)
Inductive Mode := Off | Stuck | InService.
#[export] Instance Mode_eq_dec : EqDecision Mode.
Proof. solve_decision. Defined.
Definition mode_of (k : ApiKey) : Mode :=
  if negb (k_is_active k) then Off else if KeyPool.terminal_status k then Stuck else InService.
Definition initial_mode (active : bool) : Mode := if active then InService else Off.

Inductive KeyEvent :=
  | Created (id : Z) (m : Mode)
  | Changed (id : Z) (m m' : Mode)
  | Removed (id : Z).

Inductive life_step (P : KeyEvent → Prop) : relation (gmap Z Mode) :=
  | step_create M id m : M !! id = None → P (Created id m) → life_step P M (<[id := m]> M)
  | step_change M id m m' : M !! id = Some m → P (Changed id m m') → life_step P M (<[id := m']> M)
  | step_remove M id : P (Removed id) → life_step P M (delete id M).

(** The effect of [is_active] in a payload on the mode. *)
Definition switched (active : option bool) (m m' : Mode) : Prop :=
  match active with
  | Some true => m' ≠ Off ∧ (m = InService → m' = InService)
  | Some false => m' = Off
  | None => m' = m
  end.
(** The keys a refresh of all credits names: all, if it names none. *)
Definition refresh_selects (p : AdminCredits.RefreshAllCreditsRequest) (id : Z) : Prop :=
  match List.filter (λ x, x >? 0) (AdminCredits.ra_key_ids p) with [] => True | ids => In id ids end.
(** A test or a refresh never switches a key on. *)
Definition tested (m m' : Mode) : Prop := m = Off → m' = Off.
Definition soft_deletes (p : BatchKeysRequest) : bool := bq_soft_delete p && negb (bq_purge p).
Definition patched_active (p : BatchKeysRequest) : option bool := bq_patch p ≫= bk_is_active.

Definition allowed (rq : KeyRequest) (e : KeyEvent) : Prop :=
  match rq, e with
  | RqCreate p, Created _ m => m = initial_mode (ck_is_active p)
  | RqImport p, Created _ m => m = initial_mode (im_is_active p)
  | RqUpdate id p, Changed id' m m' => id' = id ∧ switched (uk_is_active p) m m'
  | RqDelete id, Changed id' _ m' => id' = id ∧ m' = Off
  | RqPurge id, Removed id' => id' = id
  | RqTest id _ _, Changed id' m m' => id' = id ∧ tested m m'
  | RqRevive id p, Changed id' m m' => id' = id ∧ (m' = InService ∨ rv_test p = true ∧ tested m m')
  | RqBatch p, Changed id m m' => In id (bq_ids p) ∧
      ((if soft_deletes p then m' = Off else switched (patched_active p) m m') ∨ bq_test p ≠ None ∧ tested m m')
  | RqBatch p, Removed id => In id (bq_ids p) ∧ bq_purge p = true
  | RqRefresh id, Changed id' m m' => id' = id ∧ tested m m'
  | RqRefreshAll p, Changed id m m' => refresh_selects p id ∧ tested m m'
  | _, _ => False
  end.

(** Requests that may switch the key [id] on. *)
Definition may_switch_on (rq : KeyRequest) (id : Z) : bool :=
  match rq with
  | RqUpdate id' p => bool_decide (id' = id) && bool_decide (uk_is_active p = Some true)
  | RqRevive id' _ => bool_decide (id' = id)
  | RqBatch p => z_in id (bq_ids p) && bool_decide (patched_active p = Some true) && negb (soft_deletes p)
  | _ => false
  end.

(** Requests that may remove it. *)
Definition may_remove (rq : KeyRequest) (id : Z) : bool :=
  match rq with
  | RqPurge id' => bool_decide (id' = id)
  | RqBatch p => z_in id (bq_ids p) && bq_purge p
  | _ => false
  end.
Lemma z_in_true x l : In x l → z_in x l = true.
Proof. intros Hin. apply existsb_exists. exists x. split; [done|apply Z.eqb_refl]. Qed.

Lemma event_keeps_off rq id m' :
  may_switch_on rq id = false → allowed rq (Changed id Off m') → m' = Off.
Proof.
  destruct rq; simpl; try done; unfold tested.
  - intros Hoff [<- Hsw]. rewrite bool_decide_true in Hoff by done.
    apply bool_decide_eq_false in Hoff. unfold switched in Hsw. by destruct (uk_is_active p) as [[]|].
  - by intros _ [_ ->].
  - intros _ [_ Ht]. by apply Ht.
  - intros Hoff [<- _]. by rewrite bool_decide_true in Hoff.
  - intros Hoff [Hin [Hsw|[_ Ht]]]; [|by apply Ht]. destruct (soft_deletes p); [done|].
    rewrite z_in_true, andb_true_r in Hoff by done. simpl in Hoff. apply bool_decide_eq_false in Hoff.
    unfold switched in Hsw. by destruct (patched_active p) as [[]|].
  - intros _ [_ Ht]. by apply Ht.
  - intros _ [_ Ht]. by apply Ht.
Qed.
(** A switched-off key stays so under a request that may neither switch it on nor
    remove it. *)
Lemma off_stays_off rq id M M' :
  may_switch_on rq id = false → may_remove rq id = false → rtc (life_step (allowed rq)) M M' →
  M !! id = Some Off → M' !! id = Some Off.
Proof.
  intros Hon Hrem Hrtc. induction Hrtc as [M|M1 M2 M3 Hs _ IH]; [done|]. intros HM. apply IH. clear IH.
  destruct Hs as [M1 j m Hn Hp|M1 j m m' Hj Hp|M1 j Hp].
  - by rewrite lookup_insert_ne by congruence.
  - destruct (decide (j = id)) as [->|Hne]; [|by rewrite lookup_insert_ne].
    rewrite lookup_insert_eq. f_equal. assert (m = Off) as -> by congruence. by apply (event_keeps_off rq id).
  - rewrite lookup_delete_ne; [done|]. intros ->. destruct rq; simpl in *; try done.
    + subst. by rewrite bool_decide_true in Hrem.
    + destruct Hp as [Hin Hp]. by rewrite z_in_true, Hp in Hrem.
Qed.

(** * The shape of a row *)

Definition STATUSES : list string :=
  ["active"; "disabled"; "cooling"; "failed"; "quota_exceeded"; "invalid"; "decrypt_failed"].
Record key_typed (k : ApiKey) : Prop := {
  ty_provider : In (k_provider k) _VALID_PROVIDERS;
  ty_status : In (k_status k) STATUSES;
  ty_disabled : k_status k = "disabled" → k_is_active k = false;
  ty_last4 : slen (k_api_key_last4 k) ≤ 4;
  ty_name : at_most 255 (k_name k) = true;
  ty_plan : slen (k_plan_type k) ≤ 32;
  ty_quota : 0 ≤ k_daily_quota k;
  ty_usage : 0 ≤ k_daily_usage k;
  ty_concurrent : 0 ≤ k_max_concurrent k;
  ty_rate : 0 ≤ k_rate_limit_per_min k
}.
