(* ===== verification/AdminKeysProps.v ===== *)
(** The handlers of AdminKeys.v and AdminKeyOps.v refine the life cycle of AdminSpec.v,
    keep every row well formed, and cannot switch a key on by accident.  All three
    follow from one walk through the handlers, for any relation that the changes a
    request makes to the table of keys respect ([edit]). *)

From S2P Require Import Prelude Effects PyText PyTime Json Models Config Env Transactions RuntimeSettings.
From S2P Require Import Security.
From S2P Require Import KeyPool KeyPoolProps CreditFetcher Forwarder Invariants KeyTest Deps KeyImport.
From S2P Require Import AdminRows AdminViews AdminKeys.
From S2P Require Import AdminKeyOps CreditSchedule AdminCredits AdminClients AdminSpec Sim SimApp.
Import KeyPool CreditSchedule CreditFetcher Forwarder KeyTest Deps KeyImport Admin AdminKeys AdminKeyOps.
Open Scope Z_scope.

Module AdminKeysFacts.

(** * The changes to the table *)

(** The primary key of a row and the columns that only the administrator writes. *)
Definition admin_fields (k : ApiKey) :=
  (k_id k, k_name k, k_plan_type k, k_provider k, k_api_key_last4 k, k_daily_quota k, k_daily_usage k, k_max_concurrent k,
   k_rate_limit_per_min k).
(** What a test or a refresh of the credits may do to a row. *)
Definition measured (f : ApiKey → ApiKey) : Prop := ∀ k,
  admin_fields (f k) = admin_fields k ∧ (k_is_active (f k) = true → k_is_active k = true) ∧
  (k_status (f k) = k_status k ∨ In (k_status (f k)) ["active"; "cooling"; "failed"; "invalid"; "decrypt_failed"]).

(** A row that a request adds. *)
Definition added (rq : KeyRequest) (k : ApiKey) : Prop :=
  k_daily_quota k = 0 ∧ k_daily_usage k = 0 ∧ slen (k_api_key_last4 k) ≤ 4 ∧
  match rq with
  | RqCreate p => create_key_valid p = true ∧ In (ck_provider p) _VALID_PROVIDERS ∧
      k_name k = ck_name p ∧ k_plan_type k = ck_plan_type p ∧ k_provider k = ck_provider p ∧
      k_is_active k = ck_is_active p ∧ k_status k = (if ck_is_active p then "active" else "disabled") ∧
      k_max_concurrent k = ck_max_concurrent p ∧ k_rate_limit_per_min k = ck_rate_limit_per_min p
  | RqImport p => import_valid p = true ∧ In (im_provider p) _VALID_PROVIDERS ∧
      k_name k = None ∧ k_plan_type k = im_plan_type p ∧ k_provider k = im_provider p ∧
      k_is_active k = im_is_active p ∧ k_status k = (if im_is_active p then "active" else "disabled") ∧
      k_max_concurrent k = im_max_concurrent p ∧ k_rate_limit_per_min k = im_rate_limit_per_min p
  | _ => False
  end.
(** Another credential. *)
Definition credential (ciphertext hash last4 : string) (k : ApiKey) : ApiKey :=
  set_k_api_key_last4 last4 (set_k_api_key_hash hash (set_k_api_key_ciphertext ciphertext k)).
(** A change of a row. *)
Definition altered (rq : KeyRequest) (id : Z) (f : ApiKey → ApiKey) : Prop :=
  match rq with
  | RqImport _ => ∃ item password, f = λ k, (merge_account item password k).1
  | RqUpdate id' p => id = id' ∧ update_key_valid p = true ∧
      (f = set_k_client_id None ∨ (∃ c h l, slen l ≤ 4 ∧ f = credential c h l) ∨ f = update_fields p)
  | RqDelete id' => id = id' ∧ f = soft_deleted
  | RqTest id' _ _ => id = id' ∧ measured f
  | RqRevive id' p => id = id' ∧ ((∃ now, f = revived now) ∨ rv_test p = true ∧ measured f)
  | RqBatch p => In id (bq_ids p) ∧ batch_keys_valid p = true ∧ (f = batch_edit p ∨ bq_test p ≠ None ∧ measured f)
  | RqRefresh id' => id = id' ∧ measured f
  | RqRefreshAll p => refresh_selects p id ∧ measured f
  | _ => False
  end.
(** The keys of a client that is purged belong to nobody. *)
Definition detached (client_id : Z) (k : ApiKey) : ApiKey :=
  if decide (k_client_id k = Some client_id) then set_k_client_id None k else k.
(** A change of every row. *)
Definition swept (rq : KeyRequest) (f : ApiKey → ApiKey) : Prop :=
  match rq with
  | RqReset => ∃ today, f = reset_quota_row today
  | RqPurgeClient id => f = detached id
  | _ => False
  end.
Definition removed (rq : KeyRequest) (id : Z) : Prop :=
  match rq with
  | RqPurge id' => id = id'
  | RqBatch p => In id (bq_ids p) ∧ bq_purge p = true
  | _ => False
  end.

Inductive edit (rq : KeyRequest) : relation (gmap Z ApiKey) :=
  | edit_add K id k : K !! id = None → k_id k = id → added rq k → edit rq K (<[id := k]> K)
  | edit_alter K id f : altered rq id f → edit rq K (alter f id K)
  | edit_remove K id : removed rq id → edit rq K (delete id K)
  | edit_sweep K f : swept rq f → edit rq K (f <$> K).

(** * The walk *)

Section Walk.
Context {E : Env} {OL : OrmLaws} {DG : Digests} {ZI : ZoneInfo} (S : relation (gmap Z ApiKey)) {HS : PreOrder S}.

(** Wherever the tables started, they are still related to it, in the session and in
    the database. *)
Definition tracks (w w' : World) : Prop := ∀ k0,
  S k0 (t_keys (durable w)) ∧ S k0 (t_keys (view w)) → S k0 (t_keys (durable w')) ∧ S k0 (t_keys (view w')).
#[export] Instance tracks_preorder : PreOrder tracks.
Proof. split; [by intros w k0|]. intros w1 w2 w3 H1 H2 k0 H0. by apply H2, H1. Qed.

Lemma tr_same w w' : w_db w' = w_db w → tracks w w'.
Proof. intros Hdb k0. unfold view, durable. by rewrite Hdb. Qed.
Lemma tr_frame {A} (m : Prog A) : runs (same w_db) m → runs tracks m.
Proof. intros Hm w. by apply tr_same, Hm. Qed.
Lemma tr_host {A} (f : HostState → A * HostState) : runs tracks (on_host f).
Proof. by apply tr_frame, frame_on_host. Qed.
Lemma tr_http r : runs tracks (http_request r).
Proof. by apply tr_frame, frame_http_request. Qed.
Lemma tr_modify f : (∀ w, w_db (f w) = w_db w) → runs tracks (modify f).
Proof. intros Hf w. by apply tr_same, Hf. Qed.
Lemma tr_step {A} (f : World → A * World) : (∀ w, w_db (f w).2 = w_db w) → runs tracks (step f).
Proof. intros Hf. apply runs_step. intros w. by apply tr_same, Hf. Qed.
Lemma tr_moment : runs tracks moment.
Proof. unfold moment, monotonic, now_utc. pose proof (@tr_host). runs_auto. Qed.
Lemma tr_get_key i : runs tracks (get_key i).
Proof. apply tr_frame, frame_get_key. Qed.
Lemma tr_assign f : (∀ t, S (t_keys t) (t_keys (f t))) → runs tracks (assign f).
Proof.
  intros Hf w k0 [Hd Hv]. unfold view, durable in *. simpl. rewrite view_assign, durable_assign.
  split; [done|]. etrans; [exact Hv|apply Hf].
Qed.
Lemma tr_query : runs tracks query.
Proof.
  intros w. destruct (query_spec w) as (Hv & Hd & _). intros k0. by rewrite Hv, Hd.
Qed.
Lemma tr_flush : runs tracks flush.
Proof.
  unfold flush. apply runs_bind; [apply _| |intros []; [apply runs_ret|apply runs_raise..]; apply _].
  apply runs_step. intros w k0. unfold view, durable. pose proof (view_flush (w_db w)) as Hv.
  pose proof (durable_flush (w_db w)) as Hd. destruct (db_flush (w_db w)) as [o s]. simpl in *. by rewrite Hv, Hd.
Qed.
Lemma tr_commit : runs tracks commit.
Proof.
  intros w k0 [Hd Hv]. destruct (commit_spec w) as [H1 H2]. rewrite H1.
  destruct (commit w) as [[[]|e] w']; simpl in *; destruct H2 as [-> _]; done.
Qed.
Lemma tr_rollback : runs tracks rollback.
Proof. intros w k0 [Hd Hv]. destruct (rollback_spec w) as (_ & -> & ->). done. Qed.
(** Going back to a savepoint. *)
Lemma tr_now : runs tracks now_utc.
Proof. apply tr_host. Qed.
Lemma tr_mono : runs tracks monotonic.
Proof. apply tr_host. Qed.
Lemma tr_urandom n : runs tracks (urandom n).
Proof. apply tr_host. Qed.
Hint Resolve tr_host tr_http tr_moment tr_get_key tr_query tr_flush tr_commit tr_rollback tr_now tr_mono tr_urandom : effects.
Hint Extern 4 (runs _ (assign _)) => apply tr_assign; intros; reflexivity : effects.

Lemma tr_commit_or_rollback m : runs tracks m → runs tracks (commit_or_rollback m).
Proof. intros Hm. unfold commit_or_rollback. runs_auto. Qed.
Lemma tr_audit request action rt rid : runs tracks (_audit request action rt rid).
Proof. unfold _audit. runs_auto. Qed.
Lemma tr_audit_key request action key : runs tracks (audit_key request action key).
Proof. apply tr_audit. Qed.
Lemma tr_refresh : runs tracks refresh.
Proof. unfold refresh. runs_auto. Qed.
Lemma tr_find_key id : runs tracks (find_key id).
Proof. unfold find_key. runs_auto. Qed.
Lemma tr_key_item self key : runs tracks (_key_item self key).
Proof. unfold _key_item. runs_auto. Qed.
Lemma tr_master secrets : runs tracks (require_master_key secrets).
Proof. unfold require_master_key. runs_auto. Qed.
Lemma tr_today tz : runs tracks (today_in_timezone tz).
Proof. unfold today_in_timezone, local_now. runs_auto. Qed.
Hint Resolve tr_commit_or_rollback tr_audit tr_audit_key tr_refresh tr_find_key tr_key_item tr_master tr_today : effects.
Lemma tr_or_unavailable {A} e (m : Prog A) : runs tracks m → runs tracks (or_unavailable e m).
Proof. intros Hm. unfold or_unavailable. runs_auto. Qed.
Lemma tr_accept {A} b (m : Prog A) : (b = true → runs tracks m) → runs tracks (accept b m).
Proof. intros Hm. unfold accept. destruct b; [by apply Hm|runs_auto]. Qed.
Lemma tr_in_session {A} (m : Prog A) : runs tracks m → runs tracks (in_session m).
Proof. intros Hm. unfold in_session. runs_auto. Qed.
Lemma tr_try_commit : runs tracks try_commit.
Proof. unfold try_commit. runs_auto. Qed.
Hint Resolve tr_try_commit : effects.

(** A request whose edits [S] respects. *)
Context (rq : KeyRequest) (Hrq : ∀ K K', edit rq K K' → S K K').
Lemma tr_alter id f : altered rq id f → runs tracks (assign_key id f).
Proof. intros Hf. apply tr_assign. intros t. simpl. apply Hrq. by constructor. Qed.
Lemma tr_add {A} (mk : Z → ApiKey) (k : Z → Prog A) :
  (∀ id, added rq (mk id) ∧ k_id (mk id) = id) → (∀ id, runs tracks (k id)) →
  runs tracks (let! id := gets (λ w, db_next_id (w_db w)) in insert_key (mk id) ;;! k id).
Proof.
  intros Hmk Hk w. unfold bind at 1, gets. set (id := db_next_id (w_db w)). destruct (Hmk id) as [Ha Hid].
  assert (tracks w (insert_key (mk id) w).2) as Hi.
  { intros k0 [Hd Hv]. unfold insert_key, view, durable in *. simpl. rewrite view_assign, durable_assign, Hid.
    split; [done|]. etrans; [exact Hv|]. apply Hrq. constructor; [by apply next_id_fresh|done|done]. }
  unfold bind. unfold insert_key in *. simpl in *. etrans; [exact Hi|apply Hk].
Qed.

(** Tests. *)
Section Test.
Context (self : Self) (id : Z) (Hm : ∀ f, measured f → altered rq id f).
Lemma tr_measured f : measured f → runs tracks (assign_key id f).
Proof. intros Hf. by apply tr_alter, Hm. Qed.
Ltac writes := first
  [ apply tr_measured; intros ?; (split_and!; [done|done|]); simpl; tauto
  | apply tr_commit_or_rollback, tr_measured; intros ?; (split_and!; [done|done|]); simpl; tauto
  | apply tr_modify; done
  | apply tr_step; intros; repeat case_match; by simplify_eq/= ].
Ltac walk := repeat (runs_auto; try writes).
Lemma tr_record_failure i r s : runs tracks (record_failure i r s).
Proof. unfold record_failure. walk. Qed.
Hint Resolve tr_record_failure : effects.
Lemma tr_fwd_failure r s : runs tracks (_record_failure self id r s).
Proof. unfold _record_failure. walk. Qed.
Lemma tr_disable : runs tracks (_disable_key id).
Proof. unfold _disable_key. walk. Qed.
Lemma tr_disable_decrypt : runs tracks (_disable_key_decrypt_failed id).
Proof. unfold _disable_key_decrypt_failed. walk. Qed.
Lemma tr_mark_cooling n : runs tracks (_mark_cooling id n).
Proof. unfold _mark_cooling. walk. Qed.
Lemma tr_mark_active : runs tracks (_mark_active id).
Proof. unfold _mark_active. walk. Qed.
Lemma tr_observed ok st l : runs tracks (observed id ok st l).
Proof. unfold observed. walk. Qed.
Lemma tr_try_decrypt m c : runs tracks (CreditFetcher.try_decrypt m c).
Proof. unfold CreditFetcher.try_decrypt. walk. Qed.
Hint Resolve tr_fwd_failure tr_disable tr_disable_decrypt tr_mark_cooling tr_mark_active tr_observed tr_try_decrypt : effects.
Lemma tr_try_paths base hs body paths : ∀ l, runs tracks (try_paths base hs body paths l).
Proof. induction paths as [|x paths IH]; intros l; simpl; walk. Qed.
Lemma tr_exchange mk prov rid ask : (∀ b h, runs tracks (ask b h)) → runs tracks (exchange self id mk prov rid ask).
Proof.
  intros Ha. unfold exchange, latency_since. apply runs_bind; [apply _|walk|]. intros start.
  apply runs_try_except; [apply _|walk|]. intros [] k; try done; intros [= <-]; walk.
Qed.
Lemma tr_test_key rid mode url : runs tracks (KeyTest.test_key self rid id mode url).
Proof.
  unfold KeyTest.test_key, _test_key_exa. pose proof tr_try_paths. 
  walk; apply tr_exchange; intros; walk.
Qed.

(** A refresh of the credits. *)
Lemma tr_add_snapshot r p ps pe ok m : runs tracks (add_snapshot id r p ps pe ok m).
Proof. unfold add_snapshot. walk. Qed.
Lemma tr_schedule key config : runs tracks (calculate_next_refresh_time key config).
Proof. unfold calculate_next_refresh_time. walk. Qed.
Hint Resolve tr_add_snapshot tr_schedule : effects.
Lemma tr_apply result config : runs tracks (apply_credit_fetch_result id result config).
Proof. unfold apply_credit_fetch_result. walk. Qed.
Lemma tr_json_get k j : runs tracks (json_get k j).
Proof. unfold json_get. walk. Qed.
Lemma tr_int_or_0 v : runs tracks (int_or_0 v).
Proof. unfold int_or_0. walk. Qed.
Hint Resolve tr_apply tr_json_get tr_int_or_0 : effects.
Lemma tr_probe plain config rid' : runs tracks (probe_credit_from_firecrawl id plain config rid').
Proof. unfold probe_credit_from_firecrawl, probe_send, probe_receive, read_response, read_payload. walk. simplify_eq. walk. Qed.
Hint Resolve tr_probe : effects.
Lemma tr_fetch mk config rid' : runs tracks (fetch_credit_from_firecrawl id mk config rid').
Proof. unfold fetch_credit_from_firecrawl, or_rollback. walk. Qed.
End Test.

Lemma tr_attempt {A} (m : Prog A) : runs tracks m → runs tracks (attempt m).
Proof. intros Hm. unfold attempt. runs_auto. Qed.
Definition related k0 (w : World) : Prop := S k0 (t_keys (durable w)) ∧ S k0 (t_keys (view w)).
Lemma tr_back saved k0 w : S k0 (t_keys saved) → related k0 w → related k0 (assign (λ _, saved) w).2.
Proof. intros Hs [Hd _]. unfold related, view, durable. simpl. by rewrite view_assign, durable_assign. Qed.
Lemma tr_bind_at {A B} (m : Prog A) (f : A → Prog B) k0 w : runs tracks m → related k0 w →
  (∀ a w1, related k0 w1 → related k0 (f a w1).2) → related k0 (bind m f w).2.
Proof.
  intros Hm Hw Hf. unfold bind. specialize (Hm w k0 Hw). destruct (m w) as [[a|e] w1]; [by apply Hf|done].
Qed.
Lemma tr_nested {A} (m : Prog A) : runs tracks m → runs tracks (nested m).
Proof.
  intros Hm. unfold nested. apply runs_bind; [apply _|apply tr_attempt; runs_auto|]. intros [[]|e]; [|runs_auto].
  intros w k0 H0. refine (_ : related k0 _). rewrite (bind_run (gets view) _ w (view w) w eq_refl).
  apply tr_bind_at; [by apply tr_attempt|done|]. intros [a|e] w1 Hw1.
  - apply tr_bind_at; [apply tr_attempt; runs_auto|done|]. intros [b|e] w2 Hw2; [done|].
    unfold bind. apply (tr_back (view w)); [apply H0|done].
  - unfold bind. apply (tr_back (view w)); [apply H0|done].
Qed.

(** The handlers. *)
Context (self : Self) (secrets : Secrets) (request : Request).
Hint Resolve tr_or_unavailable tr_in_session tr_nested tr_attempt : effects.
Ltac walk := repeat (runs_auto; try (apply tr_or_unavailable || apply tr_nested)).

Lemma str_in_In x l : str_in x l = true → In x l.
Proof. rewrite str_in_true. apply list_elem_of_In. Qed.
Lemma last4_short s : slen (last_chars 4 s) ≤ 4.
Proof.
  unfold last_chars, slen. assert (∀ n s, (String.length (slice_from n s) = String.length s - n)%nat) as ->; [|lia].
  intros n. induction n as [|n IH]; intros [|c s']; simpl; try lia. apply IH.
Qed.

Lemma tr_create p : rq = RqCreate p → runs tracks (create_key self secrets request p).
Proof.
  intros Hq. unfold create_key. apply tr_accept. intros Hv. apply runs_bind; [apply _|runs_auto|]. intros master.
  destruct (str_in (ck_provider p) _VALID_PROVIDERS) eqn:Hp; simpl; [|runs_auto].
  apply runs_bind; [apply _|runs_auto|]. intros nonce. apply runs_bind; [apply _|runs_auto|]. intros today.
  apply runs_bind; [apply _| |runs_auto]. apply tr_or_unavailable. apply runs_bind; [apply _|runs_auto|]. intros now.
  apply tr_add; [|runs_auto]. intros id. split; [|done]. split_and!; try done; [apply last4_short|].
  apply str_in_In in Hp. rewrite Hq. by split_and!.
Qed.
Lemma tr_import p : rq = RqImport p → runs tracks (import_keys_text self secrets request p).
Proof.
  intros Hq. unfold import_keys_text. apply tr_accept. intros Hv. apply runs_bind; [apply _|runs_auto|]. intros master.
  destruct (str_in (im_provider p) _VALID_PROVIDERS) eqn:Hp; simpl; [|runs_auto]. apply str_in_In in Hp.
  assert (∀ mk today item c, runs tracks (import_item request p mk today item c)) as Hitem.
  { intros mk today item c. unfold import_item. apply runs_bind; [apply _|runs_auto|]. intros nonce.
    apply runs_bind; [apply _|runs_auto|]. intros password. apply runs_bind; [apply _| |].
    - apply tr_nested. apply runs_bind; [apply _|runs_auto|]. intros now. apply tr_add; [|runs_auto].
      intros id. split; [|done]. split_and!; try done; [apply last4_short|rewrite Hq; by split_and!].
    - intros [created out]. destruct out as [[]|]; simpl; try runs_auto.
      apply tr_nested. unfold merge_existing. runs_auto. apply tr_alter. rewrite Hq. simpl. eauto. }
  assert (∀ mk today items c, runs tracks (import_items request p mk today items c)) as Hitems.
  { intros mk today items. induction items as [|i l IH]; intros c; simpl; runs_auto. }
  destruct (parse_keys_text (im_text p)) as [items failures]. runs_auto.
Qed.
Lemma tr_update id p : rq = RqUpdate id p → runs tracks (update_key self secrets request id p).
Proof.
  intros Hq. unfold update_key. apply tr_accept. intros Hv. walk; apply tr_alter; rewrite Hq; simpl; split_and!; auto.
  right. left. do 3 eexists. split; [apply (last4_short s)|reflexivity].
Qed.
Lemma tr_delete id : rq = RqDelete id → runs tracks (delete_key request id).
Proof. intros Hq. unfold delete_key. walk. apply tr_alter. by rewrite Hq. Qed.
Lemma tr_purge_row action id key : removed rq id → runs tracks (purge_row request action id key).
Proof.
  intros Hr. unfold purge_row. walk. apply tr_assign. intros t. simpl. apply Hrq. by constructor.
Qed.
Lemma tr_purge id : rq = RqPurge id → runs tracks (purge_key request id).
Proof. intros Hq. unfold purge_key. walk. apply tr_purge_row. by rewrite Hq. Qed.
Lemma tr_or_upstream {A} (m : Prog A) : runs tracks m → runs tracks (or_upstream_unavailable m).
Proof.
  intros Hm. unfold or_upstream_unavailable. apply runs_try_except; [apply _|done|].
  intros [] k; try done; intros [= <-]; runs_auto.
Qed.
Lemma tr_test id mode url : rq = RqTest id mode url → runs tracks (test_key self request id mode url).
Proof.
  intros Hq. unfold test_key. walk. apply tr_or_upstream. walk. apply tr_test_key. intros f Hf. by rewrite Hq.
Qed.
Lemma tr_revive id p : rq = RqRevive id p → runs tracks (revive_key self request id p).
Proof.
  intros Hq. unfold revive_key. walk.
  - apply tr_alter. rewrite Hq. simpl. eauto.
  - apply tr_or_upstream. walk. apply tr_test_key. intros f Hf. rewrite Hq. simpl. eauto.
Qed.
Lemma tr_reset : rq = RqReset → runs tracks (reset_keys_quota self request).
Proof.
  intros Hq. unfold reset_keys_quota. walk. apply tr_assign. intros t. simpl. apply Hrq. constructor. rewrite Hq. simpl. eauto.
Qed.
Lemma tr_find_key_or e id : runs tracks (AdminCredits.find_key_or e id).
Proof. unfold AdminCredits.find_key_or. walk. Qed.
Hint Resolve tr_find_key_or : effects.
Lemma tr_refresh_key id : rq = RqRefresh id → runs tracks (AdminCredits.refresh_key_credits_api self secrets id).
Proof.
  intros Hq. assert (∀ mk config rid, runs tracks (fetch_credit_from_firecrawl id mk config rid)) as Hf
    by (intros; apply tr_fetch; intros f Hf; by rewrite Hq).
  unfold AdminCredits.refresh_key_credits_api. walk.
Qed.
Lemma tr_refresh_each p master force now keys : rq = RqRefreshAll p → Forall (λ k, refresh_selects p (k_id k)) keys →
  runs tracks (AdminCredits.refresh_each self master force now keys).
Proof.
  intros Hq. induction 1 as [|key keys Hk _ IH]; simpl; [walk|].
  assert (∀ mk config rid, runs tracks (fetch_credit_from_firecrawl (k_id key) mk config rid)) as Hf
    by (intros; apply tr_fetch; intros f Hf; by rewrite Hq).
  unfold AdminCredits.refresh_one. walk.
Qed.
Lemma tr_refresh_all p : rq = RqRefreshAll p → runs tracks (AdminCredits.refresh_all_credits_api self secrets p).
Proof.
  intros Hq. unfold AdminCredits.refresh_all_credits_api. apply runs_bind; [apply _|walk|]. intros master.
  apply runs_bind; [apply _|walk|]. intros t. apply runs_bind; [apply _|walk|]. intros now.
  apply runs_bind; [apply _| |intros rs; walk]. eapply tr_refresh_each; [done|]. apply Forall_forall. intros k Hk.
  apply list_elem_of_In, List.filter_In in Hk as [_ Hk]. unfold refresh_selects.
  destruct (List.filter _ (AdminCredits.ra_key_ids p)) as [|x l]; [done|]. apply andb_true_iff in Hk as [_ Hk].
  unfold z_in in Hk. apply existsb_exists in Hk as (y & Hy & ->%Z.eqb_eq). done.
Qed.
Lemma tr_purge_client id : rq = RqPurgeClient id → runs tracks (AdminClients.purge_client request id).
Proof.
  intros Hq. unfold AdminClients.purge_client, find_client, audit_client. walk.
  apply tr_assign. intros t. simpl. apply Hrq, edit_sweep. by rewrite Hq.
Qed.
(** The key a result is about. *)
Definition batch_id (r : BatchResult) : Z :=
  match r with BatchPurged id | BatchDone id _ _ | BatchFailed id _ _ => id end.
Lemma runs_bind_known {A B} (m : Prog A) (f : A → Prog B) :
  runs tracks m → (∀ w a w', m w = (Ok a, w') → runs tracks (f a)) → runs tracks (bind m f).
Proof.
  intros Hm Hf w. unfold bind. specialize (Hm w). destruct (m w) as [[a|e] w1] eqn:Hw; simpl in *; [|done].
  etrans; [exact Hm|by eapply Hf].
Qed.
Lemma batch_one_id p id w r w' : batch_one self request p id w = (Ok r, w') → batch_id r = id.
Proof.
  unfold batch_one, catch_all, try_except. destruct (bind _ _ w) as [[x|e] w1] eqn:Hx.
  - intros [= <- <-]. apply bind_ok in Hx as (key & w2 & _ & Hx). apply bind_ok in Hx as ([] & w3 & _ & Hx).
    destruct (bq_purge p); [by apply bind_ok in Hx as (? & ? & _ & [= <- <-])|].
    apply bind_ok in Hx as ([] & w4 & _ & Hx). apply bind_ok in Hx as (k & w5 & _ & Hx).
    by apply bind_ok in Hx as (i & w6 & _ & [= <- <-]).
  - intros Hr. apply bind_ok in Hr as ([] & w2 & _ & [= <- <-]). by destruct e.
Qed.
Lemma batch_all_ids p ids : ∀ w rs w', batch_all self request p ids w = (Ok rs, w') → map batch_id rs = ids.
Proof.
  induction ids as [|id ids IH]; intros w rs w' Hr; simpl in Hr; [by injection Hr as <- <-|].
  apply bind_ok in Hr as (r & w1 & Hone & Hr). apply bind_ok in Hr as (l & w2 & Hall & [= <- <-]).
  simpl. f_equal; [by eapply batch_one_id|by eapply IH].
Qed.

Lemma tr_batch p : rq = RqBatch p → runs tracks (batch_keys self request p).
Proof.
  intros Hq. unfold batch_keys. apply tr_accept. intros Hv.
  assert (∀ id, In id (bq_ids p) → runs tracks (batch_one self request p id)) as Hone.
  { intros id Hin. unfold batch_one. walk.
    - apply tr_alter. rewrite Hq. simpl. eauto.
    - apply tr_purge_row. by rewrite Hq. }
  assert (∀ ids, incl ids (bq_ids p) → runs tracks (batch_all self request p ids)) as Hall.
  { intros ids. induction ids as [|id ids IH]; intros Hin; simpl; [runs_auto|].
    apply runs_bind; [apply _|apply Hone, Hin; by left|]. intros r. apply runs_bind; [apply _| |runs_auto].
    apply IH. intros x Hx. apply Hin. by right. }
  assert (∀ t rs, bq_test p = Some t → incl (map batch_id rs) (bq_ids p) →
    runs tracks (test_all self request t rs)) as Htests.
  { intros t rs Ht. induction rs as [|r rs IH]; intros Hin; simpl; [runs_auto|].
    assert (runs tracks (test_all self request t rs)) as Hrest by (apply IH; intros x Hx; apply Hin; by right).
    destruct r as [id|id key test|id code msg]; [runs_auto| |runs_auto].
    apply runs_bind; [apply _| |runs_auto]. apply runs_catch_all; [apply _| |runs_auto].
    apply runs_bind; [apply _| |intros [test' item]; runs_auto].
    unfold test_one. apply runs_bind; [apply _|runs_auto|]. intros _. apply tr_in_session. walk.
    apply tr_test_key. intros f Hf. rewrite Hq. simpl. split; [apply Hin; by left|].
    split; [done|]. right. split; [congruence|done]. }
  apply runs_bind; [apply _|runs_auto|]. intros _. apply runs_bind_known; [apply Hall, incl_refl|].
  intros w rs w' Hrs%batch_all_ids. destruct (bq_test p) as [t|]; [|runs_auto].
  apply runs_bind; [apply _| |runs_auto]. apply Htests; [done|]. rewrite Hrs. apply incl_refl.
Qed.
Lemma tr_run : runs tracks (run_request self secrets request rq).
Proof.
  unfold run_request. apply tr_in_session.
  assert (∀ q, rq = q → runs tracks (match q with
    | RqCreate p => create_key self secrets request p ;;! ret tt
    | RqImport p => import_keys_text self secrets request p ;;! ret tt
    | RqUpdate id p => update_key self secrets request id p ;;! ret tt
    | RqDelete id => delete_key request id
    | RqPurge id => purge_key request id
    | RqTest id mode test_url => test_key self request id mode test_url ;;! ret tt
    | RqRevive id p => revive_key self request id p ;;! ret tt
    | RqReset => reset_keys_quota self request ;;! ret tt
    | RqBatch p => batch_keys self request p ;;! ret tt
    | RqRefresh id => AdminCredits.refresh_key_credits_api self secrets id ;;! ret tt
    | RqRefreshAll p => AdminCredits.refresh_all_credits_api self secrets p ;;! ret tt
    | RqPurgeClient id => AdminClients.purge_client request id
    end)) as H; [|by apply H].
  intros q Hq.
  destruct q; first [by apply tr_delete | by apply tr_purge | by apply tr_purge_client | (apply runs_bind; [apply _| |runs_auto])].
  - by apply tr_create.
  - by apply tr_import.
  - by apply tr_update.
  - by eapply tr_test.
  - by eapply tr_revive.
  - by apply tr_reset.
  - by apply tr_batch.
  - by apply tr_refresh_key.
  - by apply tr_refresh_all.
Qed.
End Walk.

(** * Edits and the life cycle *)

Lemma switched_same m : switched None m m.
Proof. done. Qed.
Lemma set_active_mode b k : switched (Some b) (mode_of k) (mode_of (set_active b k)).
Proof.
  unfold set_active, mode_of. destruct b; simpl; [|done].
  destruct (String.eqb_spec (k_status k) "disabled") as [He|He]; simpl; [by destruct (k_is_active k)|].
  unfold terminal_status. simpl. destruct (k_is_active k); simpl; by case_match.
Qed.
Lemma set_active_opt_mode b k : switched b (mode_of k) (mode_of (when_set b set_active k)).
Proof. destruct b; [apply set_active_mode|done]. Qed.
Lemma when_set_mode {A} (x : option A) (f : A → ApiKey → ApiKey) k :
  (∀ v k, mode_of (f v k) = mode_of k) → mode_of (when_set x f k) = mode_of k.
Proof. intros Hf. destruct x; [apply Hf|done]. Qed.
Ltac same_mode := repeat rewrite when_set_mode by done.
Lemma update_fields_mode p k : switched (uk_is_active p) (mode_of k) (mode_of (update_fields p k)).
Proof.
  unfold update_fields. match goal with |- switched _ _ (mode_of (when_set _ _ ?k1)) => set (k' := k1) end.
  assert (mode_of k = mode_of k') as -> by (unfold k'; by same_mode). apply set_active_opt_mode.
Qed.
Lemma apply_patch_mode p k : switched (bk_is_active p) (mode_of k) (mode_of (apply_patch p k)).
Proof.
  unfold apply_patch. match goal with |- switched _ _ (mode_of (when_set _ _ ?k1)) => set (k' := k1) end.
  assert (mode_of k = mode_of k') as -> by (unfold k'; by same_mode). apply set_active_opt_mode.
Qed.
(** Putting a key that is on from a passing status to "active". *)
Lemma activated_mode k (s : list string) :
  (∀ x, In x s → str_in (lower x) DISABLED_STATUSES = false) →
  mode_of (if str_in (k_status k) s && k_is_active k then set_k_status "active" k else k) = mode_of k.
Proof.
  intros Hs. destruct (str_in (k_status k) s) eqn:Hin; [|done]. apply str_in_In, Hs in Hin.
  destruct (k_is_active k) eqn:Ha; simpl; [|done].
  assert (mode_of (set_k_status "active" k) = if negb (k_is_active k) then Off else InService) as -> by done.
  unfold mode_of, terminal_status. by rewrite Hin.
Qed.
Lemma reset_cooldown_mode k : mode_of (reset_cooldown k) = mode_of k.
Proof.
  unfold reset_cooldown. rewrite (activated_mode (set_k_cooldown_until None k) ["cooling"; "failed"]); [done|].
  intros x [<-|[<-|[]]]; reflexivity.
Qed.
Lemma reset_quota_mode today k : mode_of (reset_quota_row today k) = mode_of k.
Proof.
  unfold reset_quota_row. set (k' := set_k_quota_reset_at _ _).
  pose proof (activated_mode k' ["quota_exceeded"]) as H. unfold str_in in H. cbn [existsb] in H.
  rewrite orb_false_r, String.eqb_sym in H. rewrite String.eqb_sym in H. rewrite H; [done|]. by intros x [<-|[]].
Qed.
Lemma batch_edit_mode p k :
  if soft_deletes p then mode_of (batch_edit p k) = Off
  else switched (patched_active p) (mode_of k) (mode_of (batch_edit p k)).
Proof.
  unfold batch_edit, soft_deletes. case_match; [done|]. unfold patched_active.
  assert (mode_of k = mode_of (if bq_reset_cooldown p then reset_cooldown k else k)) as ->
    by (case_match; [by rewrite reset_cooldown_mode|done]).
  pose proof (apply_patch_mode (default no_patch (bq_patch p))) as Hp. by destruct (bq_patch p).
Qed.
Lemma measured_mode f k : measured f → tested (mode_of k) (mode_of (f k)).
Proof.
  intros Hf. destruct (Hf k) as (_ & Ha & _). unfold tested, mode_of.
  destruct (k_is_active k), (k_is_active (f k)); simpl; try done; [by case_match|naive_solver].
Qed.
Lemma merge_account_mode item password k : mode_of (merge_account item password k).1 = mode_of k.
Proof. unfold merge_account. by repeat case_match; simplify_eq/=. Qed.
Lemma new_key_mode rq id k : added rq k → allowed rq (Created id (mode_of k)).
Proof.
  intros (_ & _ & _ & Ha). destruct rq; try done; destruct Ha as (_ & _ & _ & _ & _ & Hact & Hst & _); simpl;
    unfold mode_of, initial_mode, terminal_status; rewrite Hact, Hst; by case_match.
Qed.
Lemma altered_mode rq id f k : altered rq id f →
  mode_of (f k) = mode_of k ∨ allowed rq (Changed id (mode_of k) (mode_of (f k))).
Proof.
  destruct rq; simpl; try done.
  - intros (item & password & ->). left. apply merge_account_mode.
  - intros (-> & _ & [->|[(c & h & l & _ & ->)| ->]]); [by left..|]. right. split; [done|apply update_fields_mode].
  - intros [-> ->]. by right.
  - intros [-> Hf]. right. split; [done|by apply measured_mode].
  - intros [-> [[now ->]|[Ht Hf]]]; right; (split; [done|]); [left; by destruct now|right].
    split; [done|by apply measured_mode].
  - intros (Hin & _ & [->|[Ht Hf]]); right; (split; [done|]); [left; apply batch_edit_mode|right].
    split; [done|by apply measured_mode].
  - intros [-> Hf]. right. split; [done|by apply measured_mode].
  - intros [Hs Hf]. right. split; [done|by apply measured_mode].
Qed.
Lemma swept_mode rq f k : swept rq f → mode_of (f k) = mode_of k.
Proof. destruct rq; simpl; try done; [intros [today ->]; apply reset_quota_mode|intros ->]. unfold detached. by case_decide. Qed.

Lemma fmap_alter_same {A B} (g : A → B) (f : A → A) id (K : gmap Z A) k :
  K !! id = Some k → g <$> alter f id K = <[id := g (f k)]> (g <$> K).
Proof.
  intros Hk. apply map_eq. intros j. rewrite lookup_fmap. destruct (decide (j = id)) as [->|Hne].
  - by rewrite lookup_alter, decide_True, lookup_insert_eq, Hk by done.
  - by rewrite lookup_alter_ne, lookup_insert_ne, lookup_fmap by congruence.
Qed.
Lemma alter_absent {A} (f : A → A) id (K : gmap Z A) : K !! id = None → alter f id K = K.
Proof.
  intros Hk. apply map_eq. intros j. destruct (decide (j = id)) as [->|Hne].
  - by rewrite lookup_alter, decide_True, Hk by done.
  - by rewrite lookup_alter_ne by congruence.
Qed.
Lemma edit_lives rq K K' :
  edit rq K K' → rtc (life_step (allowed rq)) (mode_of <$> K) (mode_of <$> K').
Proof.
  destruct 1 as [K id k Hn Hid Ha|K id f Ha|K id Hr|K f Hf].
  - rewrite fmap_insert. apply rtc_once. constructor; [by rewrite lookup_fmap, Hn|by apply new_key_mode].
  - destruct (K !! id) as [k|] eqn:Hk; [|by rewrite alter_absent].
    rewrite (fmap_alter_same _ _ _ _ k) by done. destruct (altered_mode rq id f k Ha) as [->|Hall].
    + rewrite insert_id; [done|by rewrite lookup_fmap, Hk].
    + apply rtc_once, (step_change _ _ _ (mode_of k)); [by rewrite lookup_fmap, Hk|done].
  - rewrite fmap_delete. apply rtc_once. constructor. by destruct rq.
  - rewrite <-map_fmap_compose, (map_fmap_ext (mode_of ∘ f) mode_of K); [done|].
    intros i k _. by apply (swept_mode rq).
Qed.

(** * Edits and the shape of a row *)

Lemma added_typed rq k : added rq k → key_typed k.
Proof.
  intros (Hq & Hu & Hl & Ha).
  destruct rq; try done; destruct Ha as (Hv & Hp & Hn & Hpl & Hpr & Hact & Hst & Hmc & Hrl);
    unfold create_key_valid, import_valid in Hv; rewrite !andb_true_iff, !Z.leb_le in Hv; destruct_and!;
    (split; [congruence| | | |by rewrite ?Hn|congruence|lia|lia|lia|lia]); rewrite ?Hst, ?Hact; try done;
    case_match; simpl; tauto || done.
Qed.
Ltac status_ok := unfold STATUSES; simpl; first [done | tauto | intuition discriminate].
(** A row with the same columns of the administrator and a well-formed status. *)
Lemma typed_of k k' : key_typed k → admin_fields k' = admin_fields k → In (k_status k') STATUSES →
  (k_status k' = "disabled" → k_is_active k' = false) → key_typed k'.
Proof. intros []. unfold admin_fields. intros [= _ Hn Hpl Hpr Hl Hq Hu Hmc Hrl] Hst Hd. split; congruence || done. Qed.
Lemma kept_typed k k' : key_typed k → admin_fields k' = admin_fields k → k_status k' = k_status k →
  k_is_active k' = k_is_active k → key_typed k'.
Proof. intros Hk Hf Hst Ha. apply (typed_of k); [done|done|rewrite Hst|rewrite Hst, Ha]; by destruct Hk. Qed.
Lemma set_active_typed b k : key_typed k → key_typed (when_set b set_active k).
Proof.
  intros Hk. destruct b as [b|]; simpl; [|done]. unfold set_active.
  destruct b; simpl; [|apply (typed_of k); status_ok].
  destruct (String.eqb_spec (k_status k) "disabled"); apply (typed_of k); try status_ok; by destruct Hk.
Qed.
Lemma when_set_typed {A} (x : option A) (f : A → ApiKey → ApiKey) k :
  key_typed k → (∀ v, x = Some v → key_typed k → key_typed (f v k)) → key_typed (when_set x f k).
Proof. destruct x; simpl; auto. Qed.
Ltac typed := repeat (apply when_set_typed; [|intros ? -> []; split; simpl; first [done | by apply Z.leb_le]]).
Lemma update_fields_typed p k : update_key_valid p = true → key_typed k → key_typed (update_fields p k).
Proof.
  unfold update_key_valid, at_least, at_most. destruct p as [ci nm pl dq mc rl ac ak]. simpl. intros Hv Hk.
  rewrite !andb_true_iff in Hv. destruct_and!. apply set_active_typed. simpl. typed; done.
Qed.
Lemma apply_patch_typed p k :
  at_most 255 (mjoin (bk_name p)) && at_most 32 (bk_plan_type p) && at_least 0 (bk_daily_quota p) &&
    at_least 0 (bk_max_concurrent p) && at_least 0 (bk_rate_limit_per_min p) = true →
  key_typed k → key_typed (apply_patch p k).
Proof.
  unfold at_least, at_most. destruct p as [nm pl dq mc rl ac]. simpl. intros Hv Hk.
  rewrite !andb_true_iff in Hv. destruct_and!. apply set_active_typed. simpl. typed; done.
Qed.
Lemma typed_status k st : key_typed k → In st STATUSES → (st = "disabled" → k_is_active k = false) →
  key_typed (set_k_status st k).
Proof. intros Hk Hin Hd. by apply (typed_of k). Qed.
Lemma batch_edit_typed p k : batch_keys_valid p = true → key_typed k → key_typed (batch_edit p k).
Proof.
  unfold batch_keys_valid. rewrite !andb_true_iff. intros [_ Hp] Hk. unfold batch_edit.
  set (k1 := if bq_reset_cooldown p then reset_cooldown k else k).
  assert (key_typed k1) as Hk1.
  { unfold k1, reset_cooldown. destruct (bq_reset_cooldown p); [|done].
    assert (key_typed (set_k_cooldown_until None k)) as Hk0 by (by apply (kept_typed k)).
    destruct (_ && _); [apply typed_status; [done|status_ok|done]|done]. }
  set (k2 := apply_patch _ k1).
  assert (key_typed k2) as Hk2.
  { apply apply_patch_typed; [|done]. destruct (bq_patch p); [exact Hp|done]. }
  destruct (_ && _); [apply (typed_of k2); status_ok|done].
Qed.
Lemma measured_typed f k : measured f → key_typed k → key_typed (f k).
Proof.
  intros Hf Hk. destruct (Hf k) as (Hs & Ha & Hst). pose proof (ty_disabled k Hk) as Hd. pose proof (ty_status k Hk).
  apply (typed_of k); [done|done| |].
  - destruct Hst as [->|Hst]; [done|]. simpl in *. tauto.
  - destruct Hst as [->|Hst]; intros He.
    + specialize (Hd He). destruct (k_is_active (f k)); [|done]. by rewrite Ha in Hd.
    + rewrite He in Hst. simpl in Hst. intuition discriminate.
Qed.
Lemma altered_typed rq id f k : altered rq id f → key_typed k → key_typed (f k).
Proof.
  destruct rq; simpl; try done.
  - intros (item & password & ->) Hk. apply (typed_of k); [done| | |]; unfold merge_account;
      repeat case_match; simplify_eq/=; try done; by destruct Hk.
  - intros (_ & Hv & [->|[(c & h & l & Hl & ->)| ->]]) Hk; [by apply (kept_typed k)| |by apply update_fields_typed].
    destruct Hk. by split.
  - intros [_ ->] Hk. apply (typed_of k); status_ok.
  - intros [_ Hf]. by apply measured_typed.
  - intros [_ [[now ->]|[_ Hf]]]; [|by apply measured_typed]. intros Hk.
    apply (typed_of k); destruct now; status_ok.
  - intros (_ & Hv & [->|[_ Hf]]); [by apply batch_edit_typed|by apply measured_typed].
  - intros [_ Hf]. by apply measured_typed.
  - intros [_ Hf]. by apply measured_typed.
Qed.
Lemma reset_quota_typed today k : key_typed k → key_typed (reset_quota_row today k).
Proof.
  intros Hk. unfold reset_quota_row. assert (key_typed (set_k_quota_reset_at (Some today) (set_k_daily_usage 0 k))) as H
    by (destruct Hk; by split).
  destruct (_ && _); [apply typed_status; [done|status_ok|done]|done].
Qed.
Lemma swept_typed rq f k : swept rq f → key_typed k → key_typed (f k) ∧ k_id (f k) = k_id k.
Proof.
  destruct rq; simpl; try done.
  - intros [today ->] Hk. split; [by apply reset_quota_typed|]. unfold reset_quota_row. by case_match.
  - intros -> Hk. unfold detached. case_decide; [split; [by apply (kept_typed k)|done]|done].
Qed.
(** A well-formed table: every row has its shape and is stored under its primary key. *)
Definition typed (K : gmap Z ApiKey) : Prop := map_Forall (λ id k, key_typed k ∧ k_id k = id) K.
Lemma altered_id rq id f k : altered rq id f → k_id (f k) = k_id k.
Proof.
  assert (∀ g, measured g → k_id (g k) = k_id k) as Hg.
  { intros g Hg. destruct (Hg k) as [Hf _]. by injection Hf. }
  destruct rq; simpl; try done.
  - intros (item & password & ->). unfold merge_account. by repeat case_match; simplify_eq/=.
  - intros (_ & _ & [->|[(c & h & l & Hl & ->)| ->]]); [done..|].
    unfold update_fields, when_set, set_active. by repeat case_match.
  - by intros [_ ->].
  - intros [_ Hf]. by apply Hg.
  - intros [_ [[now ->]|[_ Hf]]]; [by destruct now|by apply Hg].
  - intros (_ & _ & [->|[_ Hf]]); [|by apply Hg].
    unfold batch_edit, apply_patch, reset_cooldown, when_set, set_active. by repeat case_match.
  - intros [_ Hf]. by apply Hg.
  - intros [_ Hf]. by apply Hg.
Qed.
Lemma edit_typed rq K K' : edit rq K K' → typed K → typed K'.
Proof.
  unfold typed. destruct 1 as [K id k Hn Hid Ha|K id f Ha|K id Hr|K f Hf]; intros HK.
  - apply map_Forall_insert_2; [|done]. split; [by eapply added_typed|done].
  - intros j k' Hj. apply lookup_alter_Some in Hj as [(<- & k & Hk & ->)|[_ Hj]]; [|by apply HK].
    destruct (HK id k Hk) as [Ht Hid]. erewrite altered_id by done. split; [by eapply altered_typed|done].
  - by apply map_Forall_delete.
  - intros j k' Hj. apply lookup_fmap_Some in Hj as (k & <- & Hk). destruct (HK j k Hk) as [Ht <-].
    by apply (swept_typed rq).
Qed.

(** * Sessions *)

Section Sessions.
Context {E : Env} {OL : OrmLaws} {DG : Digests} {ZI : ZoneInfo} (self : Self) (secrets : Secrets).
Lemma in_session_clean {A} (m : Prog A) w : clean (in_session m w).2.
Proof.
  unfold in_session, finally, clean. destruct (m w) as [r w1]. destruct (rollback_spec w1) as (Hr & Hv & Hd).
  destruct (rollback w1) as [[[]|e] w2]; simpl in *; congruence.
Qed.
(** A request takes the database from one table to another by edits that [S] respects. *)
Lemma run_request_tracks (S : relation (gmap Z ApiKey)) `{!PreOrder S} request rq w :
  (∀ K K', edit rq K K' → S K K') → clean w →
  S (t_keys (durable w)) (t_keys (durable (run_request self secrets request rq w).2)).
Proof.
  intros Hrq Hc. destruct (tr_run S rq Hrq self secrets request w (t_keys (durable w))) as [Hd _]; [|done].
  rewrite Hc. by split.
Qed.
#[export] Instance typed_preorder : PreOrder (λ K K', typed K → typed K').
Proof. split; [by intros K|]. intros K1 K2 K3 H1 H2 H. by apply H2, H1. Qed.
#[export] Instance lives_preorder rq :
  PreOrder (λ K K' : gmap Z ApiKey, rtc (life_step (allowed rq)) (mode_of <$> K) (mode_of <$> K')).
Proof. split; [by intros K|]. intros K1 K2 K3 H1 H2. by etrans. Qed.
Lemma run_request_typed request rq w :
  clean w → typed (t_keys (durable w)) → typed (t_keys (durable (run_request self secrets request rq w).2)).
Proof. intros Hc. apply (run_request_tracks (λ K K', typed K → typed K')); [apply edit_typed|done]. Qed.
Lemma run_request_lives request rq w : clean w →
  rtc (life_step (allowed rq)) (mode_of <$> t_keys (durable w))
    (mode_of <$> t_keys (durable (run_request self secrets request rq w).2)).
Proof.
  apply (run_request_tracks (λ K K' : gmap Z ApiKey, rtc (life_step (allowed rq)) (mode_of <$> K) (mode_of <$> K'))).
  apply edit_lives.
Qed.
Lemma run_requests_clean rqs : ∀ w, clean w → clean (run_requests self secrets rqs w).
Proof. induction rqs as [|[request rq] rqs IH]; intros w Hc; simpl; [done|]. apply IH, in_session_clean. Qed.
Lemma run_requests_typed rqs : ∀ w, clean w → typed (t_keys (durable w)) →
  typed (t_keys (durable (run_requests self secrets rqs w))).
Proof.
  induction rqs as [|[request rq] rqs IH]; intros w Hc Ht; simpl; [done|].
  apply IH; [apply in_session_clean|by apply run_request_typed].
Qed.
Lemma run_requests_off id rqs :
  Forall (λ r, may_switch_on r.2 id = false ∧ may_remove r.2 id = false) rqs → ∀ w, clean w →
  (mode_of <$> t_keys (durable w)) !! id = Some Off →
  (mode_of <$> t_keys (durable (run_requests self secrets rqs w))) !! id = Some Off.
Proof.
  induction 1 as [|[request rq] rqs [Hon Hrem] _ IH]; intros w Hc Hoff; simpl; [done|].
  apply IH; [apply in_session_clean|]. by apply (off_stays_off rq id (mode_of <$> t_keys (durable w))), Hoff;
    [..|apply run_request_lives].
Qed.
End Sessions.
End AdminKeysFacts.

Module AdminKeysTheorems.
Import AdminKeysFacts.
Section AdminKeysTheorems.
Context {E : Env} {OL : OrmLaws} {DG : Digests} {ZI : ZoneInfo} (self : Self) (secrets : Secrets).

(** C7. The administration of keys refines the life cycle: whatever a request to create,
    import, update, delete, purge, test, revive, reset or batch-edit keys does, to refresh
    the credits of one key or of all, or to purge a client, how ever far it gets and
    whatever it answers, the keys that the database holds afterwards are reached from
    those before by the events the request allows - a deletion switches off the one key
    it names, a test or a refresh never switches one on, a quota reset and the purge of a
    client move no key - and the session ends clean, so that requests compose. *)
Theorem requests_refine_the_life_cycle request rq w :
  clean w →
  rtc (life_step (allowed rq)) (mode_of <$> t_keys (durable w))
    (mode_of <$> t_keys (durable (run_request self secrets request rq w).2)) ∧
  clean (run_request self secrets request rq w).2.
Proof. intros Hc. split; [by apply run_request_lives|apply in_session_clean]. Qed.

(** C9. Rows stay well formed: after any sequence of the administrative requests that write
    rows of keys (create, import, update, delete, purge, test, revive, batch edit, quota
    reset, refresh of the credits of one key or of all, purge of a client) every row of the
    table of keys is stored under its primary key, has a known provider and status, is
    switched off if its status is "disabled", shows at most four characters of the
    credential, and keeps its columns within the widths and bounds of the payloads, if all
    rows were so before. *)
Theorem requests_keep_rows_typed rqs w :
  clean w → map_Forall (λ id k, key_typed k ∧ k_id k = id) (t_keys (durable w)) →
  map_Forall (λ id k, key_typed k ∧ k_id k = id) (t_keys (durable (run_requests self secrets rqs w))).
Proof. apply run_requests_typed. Qed.

(** C10. A key that was switched off stays out of use: after any sequence of the administrative
    requests that write rows of keys (those of C9), none of which asks to switch that key
    on or to remove it - tests, credit refreshes, quota resets, batches on other keys,
    purges of its client and imports of its credential included - the scheduler does not
    choose it, for no provider, settings and load. *)
Theorem off_keys_stay_out_of_use `{!MathLaws} id k rqs w rt config provider ex :
  clean w → map_Forall (λ id k, key_typed k ∧ k_id k = id) (t_keys (durable w)) →
  t_keys (durable w) !! id = Some k → k_is_active k = false →
  Forall (λ r, may_switch_on r.2 id = false ∧ may_remove r.2 id = false) rqs →
  match (KeyPool.select rt config provider ex (run_requests self secrets rqs w)).1 with
  | Ok sel => sel_api_key sel ≠ id
  | Raise _ => True
  end.
Proof.
  intros Hc Ht Hk Hoff Hrqs. set (w' := run_requests self secrets rqs w).
  assert ((mode_of <$> t_keys (durable w')) !! id = Some Off) as Ho.
  { apply run_requests_off; [done|done|]. rewrite lookup_fmap, Hk. simpl. unfold mode_of. by rewrite Hoff. }
  assert (typed (t_keys (durable w'))) as Ht' by by apply run_requests_typed.
  assert (clean w') as Hc' by by apply run_requests_clean. clearbody w'.
  destruct (select rt config provider ex w') as [[sel|e] w2] eqn:Hsel; [|done]. simpl. intros <-.
  apply KeyPoolFacts.select_in_service in Hsel as (i & key & Hkey & Hid & Hact). rewrite Hc' in Hkey.
  destruct (Ht' i key Hkey) as [_ Hi]. rewrite lookup_fmap in Ho. rewrite <-Hid, Hi, Hkey in Ho. simpl in Ho.
  unfold mode_of in Ho. rewrite Hact in Ho. simpl in Ho. by case_match.
Qed.
End AdminKeysTheorems.

(** * Concrete inputs *)

Import AdminKeysFacts Simulation SimApp.

Definition admin_call (path : string) : Request := app_request "POST" path.
Definition ok_reply : HttpOutcome := HttpReply (mkHttpResponse 200 [] "{}").
(** Key 1 is deleted, key 3, which is off, is tested with success and batch-edited, key 2
    is switched off and on again, the quotas are reset, the credits of key 3 are asked for,
    then those of all keys that are on, and the client with the id 5 is purged. *)
Definition off_requests : list (Request * KeyRequest) :=
  [(admin_call "/admin/keys/1", RqDelete 1);
   (admin_call "/admin/keys/3/test", RqTest 3 "scrape" "https://example.com");
   (admin_call "/admin/keys/batch", RqBatch (mkBatchKeysRequest [3; 2] (Some (mkBatchKeyPatch (Some (Some "spare")) None (Some 9) None None None))
      true false false None));
   (admin_call "/admin/keys/2", RqUpdate 2 (mkUpdateKeyRequest None None None None None None (Some false) None));
   (admin_call "/admin/keys/2", RqUpdate 2 (mkUpdateKeyRequest None None None None None None (Some true) None));
   (admin_call "/admin/keys/reset-quota", RqReset);
   (admin_call "/admin/keys/3/credits/refresh", RqRefresh 3);
   (admin_call "/admin/keys/credits/refresh-all", RqRefreshAll (AdminCredits.mkRefreshAllCreditsRequest [] true));
   (admin_call "/admin/clients/5/purge", RqPurgeClient 5)].
Definition credits_reply : HttpOutcome := HttpReply (mkHttpResponse 429 [] "").
Definition admin_world : World := app_world [ok_reply; credits_reply; credits_reply].
Definition modes (w : World) : list Mode := mode_of <$> by_id (t_keys (durable w)).

Lemma admin_world_typed : map_Forall (λ id k, key_typed k ∧ k_id k = id) (t_keys (durable admin_world)).
Proof.
  intros id k Hk%elem_of_list_to_map_2. simpl in Hk.
  repeat (apply elem_of_cons in Hk as [[= -> ->]|Hk]; [split; [split; vm_compute; auto 10; discriminate|reflexivity]|]).
  by apply not_elem_of_nil in Hk.
Qed.
Lemma admin_runs : modes admin_world = [InService; InService; Off] ∧
  modes (run_requests app_self app_secrets off_requests admin_world) = [Off; InService; Off] ∧
  (k_status <$> by_id (t_keys (durable (run_requests app_self app_secrets off_requests admin_world)))) =
    ["disabled"; "cooling"; "cooling"].
Proof. vm_compute. split_and!; reflexivity. Qed.

Lemma requests_refine_the_life_cycle_witness :
  rtc (life_step (allowed (RqDelete 1))) (mode_of <$> t_keys (durable admin_world))
    (<[1 := Off]> (mode_of <$> t_keys (durable admin_world))) ∧
  (mode_of <$> t_keys (durable admin_world)) !! 1 = Some InService.
Proof.
  split; [|vm_compute; reflexivity].
  destruct (requests_refine_the_life_cycle app_self app_secrets (admin_call "/admin/keys/1") (RqDelete 1) admin_world)
    as [Hr _]; [vm_compute; reflexivity|].
  assert (mode_of <$> t_keys (durable (run_request app_self app_secrets (admin_call "/admin/keys/1") (RqDelete 1)
    admin_world).2) = <[1 := Off]> (mode_of <$> t_keys (durable admin_world))) as He by (vm_compute; reflexivity).
  rewrite <-He. exact Hr.
Defined.
Lemma requests_keep_rows_typed_witness :
  map_Forall (λ id k, key_typed k ∧ k_id k = id)
    (t_keys (durable (run_requests app_self app_secrets off_requests admin_world))).
Proof. apply (requests_keep_rows_typed app_self app_secrets off_requests); [vm_compute; reflexivity|apply admin_world_typed]. Defined.
Lemma off_keys_stay_out_of_use_witness :
  match (KeyPool.select None default_AppConfig "firecrawl" ∅ (run_requests app_self app_secrets off_requests admin_world)).1 with
  | Ok sel => sel_api_key sel = 2 ∧ sel_api_key sel ≠ 3
  | Raise _ => False
  end.
Proof.
  pose proof (off_keys_stay_out_of_use app_self app_secrets 3 (set_k_status "disabled" (set_k_is_active false (sim_key 3 "firecrawl" None)))
    off_requests admin_world None default_AppConfig "firecrawl" ∅) as H.
  assert (sel_api_key <$> (match (KeyPool.select None default_AppConfig "firecrawl" ∅
    (run_requests app_self app_secrets off_requests admin_world)).1 with Ok sel => Some sel | Raise _ => None end) = Some 2)
    as Hs by (vm_compute; reflexivity).
  destruct (KeyPool.select _ _ _ _ _) as [[sel|e] w']; simpl in *; [|discriminate Hs].
  split; [by injection Hs|]. apply H; try (vm_compute; reflexivity); [apply admin_world_typed|].
  repeat constructor.
Defined.
End AdminKeysTheorems.
