(* ===== verification/AdminClientsProps.v ===== *)
(** What becomes of a client's token: a token that the administration has issued lets its
    client in and can be shown again, a rotation ends the token before it; and when a
    purge cannot succeed. *)

From S2P Require Import Prelude Effects PyText PyTime Json Models Config Env Transactions RuntimeSettings.
From S2P Require Import Security.
From S2P Require Import KeyPool Forwarder Deps Rfc3339 AdminRows AdminViews AdminKeys AdminKeyOps.
From S2P Require Import AdminClients Sim SimApp.
Import Forwarder Deps Admin AdminKeys AdminKeyOps AdminClients.
Open Scope Z_scope.

Module AdminClientsFacts.
Section Facts.
Context {E : Env} {OL : OrmLaws} {DG : Digests} {ZI : ZoneInfo}.

(** * Statements that leave the tables alone, but for the audit log *)

Definition core (t : Tables) : Tables := set_t_audit_logs ∅ t.
Definition quiet (w w' : World) : Prop := core (view w') = core (view w) ∧ durable w' = durable w.
#[export] Instance quiet_preorder : PreOrder quiet.
Proof. split; [by intros w|]. intros w1 w2 w3 [H1 H2] [H3 H4]. split; congruence. Qed.
Lemma quiet_same w w' : w_db w' = w_db w → quiet w w'.
Proof. intros Hdb. unfold quiet, view, durable. by rewrite Hdb. Qed.
Lemma qu_host {A} (f : HostState → A * HostState) : runs quiet (on_host f).
Proof. intros w. apply quiet_same. by apply frame_on_host. Qed.
Lemma qu_query : runs quiet query.
Proof. intros w. destruct (query_spec w) as (Hv & Hd & _). unfold quiet. by rewrite Hv, Hd. Qed.
Lemma qu_flush : runs quiet flush.
Proof.
  unfold flush. apply runs_bind; [apply _| |intros []; [apply runs_ret|apply runs_raise..]; apply _].
  apply runs_step. intros w. unfold quiet, view, durable. pose proof (view_flush (w_db w)) as Hv.
  pose proof (durable_flush (w_db w)) as Hd. destruct (db_flush (w_db w)) as [o s]. simpl in *. by rewrite Hv, Hd.
Qed.
Lemma qu_assign f : (∀ t, core (f t) = core t) → runs quiet (assign f).
Proof. intros Hf w. destruct (assign_spec f w) as (_ & Hv & Hd). unfold quiet. by rewrite Hv, Hd, Hf. Qed.
Lemma qu_now : runs quiet now_utc.
Proof. apply qu_host. Qed.
Lemma qu_urandom n : runs quiet (urandom n).
Proof. apply qu_host. Qed.
Hint Resolve qu_host qu_query qu_flush qu_now qu_urandom : effects.
Hint Extern 4 (runs _ (assign _)) => apply qu_assign; intros; reflexivity : effects.
Lemma qu_audit request action rt rid : runs quiet (_audit request action rt rid).
Proof. unfold _audit. runs_auto. Qed.
Lemma qu_refresh : runs quiet refresh.
Proof. unfold refresh. runs_auto. Qed.
Lemma qu_master secrets : runs quiet (require_master_key secrets).
Proof. unfold require_master_key. runs_auto. Qed.
Lemma qu_today tz : runs quiet (today_in_timezone tz).
Proof. unfold today_in_timezone, local_now. runs_auto. Qed.
Lemma qu_find_client id : runs quiet (Admin.find_client id).
Proof. unfold Admin.find_client. runs_auto. Qed.
Lemma qu_token : runs quiet new_token.
Proof. unfold new_token. runs_auto. Qed.
Hint Resolve qu_token : effects.
Lemma qu_choose token : runs quiet (choose_token token).
Proof. unfold choose_token. runs_auto. Qed.

(** A step of a computation that succeeds. *)
Lemma quiet_ok {A B} (m : Prog A) (f : A → Prog B) w b w' :
  runs quiet m → bind m f w = (Ok b, w') → ∃ a w1, quiet w w1 ∧ m w = (Ok a, w1) ∧ f a w1 = (Ok b, w').
Proof.
  intros Hm (a & w1 & H1 & H2)%bind_ok. exists a, w1. split_and!; [|done..]. specialize (Hm w). by rewrite H1 in Hm.
Qed.
Lemma commit_ok w w' : commit w = (Ok tt, w') →
  view w' = view w ∧ durable w' = view w ∧ constraints_hold (view w).
Proof. intros Hc. destruct (commit_spec w) as [Hv Hd]. rewrite Hc in *. simpl in *. by destruct Hd. Qed.
Lemma or_unavailable_ok {A} e (m : Prog A) w a w' : or_unavailable e m w = (Ok a, w') → m w = (Ok a, w').
Proof.
  unfold or_unavailable, catch_all, try_except. destruct (m w) as [[x|x] w1]; [done|].
  intros (? & ? & _ & [=])%bind_ok.
Qed.
Lemma in_session_ok {A} (m : Prog A) w a w' : in_session m w = (Ok a, w') →
  ∃ w1, m w = (Ok a, w1) ∧ durable w' = durable w1.
Proof.
  unfold in_session, finally. destruct (m w) as [r w1]. destruct (rollback_spec w1) as (Hr & _ & Hd).
  destruct (rollback w1) as [[[]|e] w2]; simpl in *; [|done]. intros [= -> <-]. eauto.
Qed.
Lemma core_clients t t' : core t = core t' → t_clients t = t_clients t'.
Proof. intros H. exact (f_equal t_clients H). Qed.

(** * A token on record *)

Context {UL : UrandomLaws} {AL : AesLaws} (secrets : Secrets).

(** The database has the token of the client [id] under the master key. *)
Record on_record (mk token : string) (client : Client) (t : Tables) : Prop := {
  or_row : t_clients t !! c_id client = Some client;
  or_unique : unique_by c_token_hash (t_clients t);
  or_hash : c_token_hash client = hmac_sha256_hex mk token;
  or_cipher : ∃ nonce, String.length nonce = NONCE_BYTES ∧
    c_token_ciphertext client = Some (encrypt_client_token mk nonce token)
}.
Lemma find_client_unique h client t i :
  unique_by c_token_hash (t_clients t) → t_clients t !! i = Some client → c_token_hash client = h →
  Deps.find_client h t = Some client.
Proof.
  intros Hu Hi Hh. unfold Deps.find_client. destruct (List.find _ _) as [c|] eqn:Hf.
  - apply find_some in Hf as [Hin Heq%String.eqb_eq]. apply list_elem_of_In, elem_of_by_id in Hin as [j Hj].
    assert (i = j) as -> by (eapply Hu; [done..|congruence]). congruence.
  - assert (client ∈ by_id (t_clients t)) as Hin by (apply elem_of_by_id; eauto).
    apply list_elem_of_In, (find_none _ _ Hf) in Hin. by rewrite Hh, String.eqb_refl in Hin.
Qed.
(** What authentication answers to a token. *)
Definition client_disabled : FcamError := mkFcamError 403 "CLIENT_DISABLED" "Client disabled" None.
Definition client_unauthorized : FcamError := mkFcamError 401 "CLIENT_UNAUTHORIZED" "Missing or invalid client token" None.
Definition verdict (found : option Client) : Res Z :=
  match found with
  | Some c => if c_is_active c then Ok (c_id c) else Raise (EFcam client_disabled)
  | None => Raise (EFcam client_unauthorized)
  end.
Lemma require_client_spec master token request w :
  sec_master_key secrets = Some master → master ≠ "" →
  _bearer_token (req_header "authorization" request) = Some token →
  (require_client secrets request w).1 = Raise (EFcam KeyPool.db_unavailable) ∨
  (require_client secrets request w).1 =
    verdict (Deps.find_client (hmac_sha256_hex (derive_master_key_bytes master) token) (view w)).
Proof.
  intros Hm Hne Ht. unfold require_client. rewrite Hm, Ht. simpl.
  rewrite (proj2 (String.eqb_neq _ _) Hne). destruct (query_spec w) as (_ & _ & Hr).
  unfold bind, catch_all, try_except. destruct (query w) as [r w1]. simpl in Hr.
  destruct Hr as [->| ->]; [right|by left]. unfold verdict. destruct (Deps.find_client _ _) as [c|]; [|done].
  by destruct (c_is_active c).
Qed.
Lemma on_record_verdict mk token client t :
  on_record mk token client t →
  Deps.find_client (hmac_sha256_hex mk token) t = Some client.
Proof. intros []. by eapply find_client_unique. Qed.
Lemma encrypted_not_empty mk nonce token :
  String.length nonce = NONCE_BYTES → String.eqb (encrypt_client_token mk nonce token) "" = false.
Proof. unfold encrypt_client_token, encrypt_with. by destruct nonce. Qed.
Lemma master_run master w : sec_master_key secrets = Some master → master ≠ "" →
  require_master_key secrets w = (Ok master, w).
Proof. intros Hm Hne. unfold require_master_key. by rewrite Hm, (proj2 (String.eqb_neq _ _) Hne). Qed.
Lemma find_client_run id c w : t_clients (view w) !! id = Some c →
  (∃ w', Admin.find_client id w = (Raise operational, w')) ∨ ∃ w', Admin.find_client id w = (Ok c, w').
Proof.
  intros Hc. unfold Admin.find_client, bind. destruct (query_spec w) as (_ & _ & Hr).
  destruct (query w) as [r w1]. simpl in Hr. destruct Hr as [->| ->]; [right|left]; [|by exists w1].
  rewrite Hc. by exists w1.
Qed.
Lemma on_record_revealed master token client request w :
  sec_master_key secrets = Some master → master ≠ "" → c_status client ≠ "deleted" →
  on_record (derive_master_key_bytes master) token client (view w) →
  (reveal_client_token secrets request (c_id client) w).1 = Raise operational ∨
  (reveal_client_token secrets request (c_id client) w).1 = Ok (c_id client, c_name client, token).
Proof.
  intros Hm Hne Hst [Hrow _ _ (nonce & Hn & Hc)]. unfold reveal_client_token.
  rewrite (bind_run _ _ _ _ _ (master_run _ _ Hm Hne)).
  destruct (find_client_run _ _ _ Hrow) as [[w1 Hf]|[w1 Hf]]; [left; unfold bind; by rewrite Hf|right].
  rewrite (bind_run _ _ _ _ _ Hf). rewrite (proj2 (String.eqb_neq _ _) Hst), Hc. cbn [from_option id].
  rewrite encrypted_not_empty by done. unfold decrypt_client_token, encrypt_client_token.
  rewrite decrypt_encrypt, decide_True by done.
  unfold catch_all, try_except, bind. destruct (audit_client _ _ _ w1) as [[[]|e] w2]; [|done].
  by destruct (commit w2) as [[[]|e] w3].
Qed.
(** [commit] and what follows it in the session. *)
Lemma committed_ok {A} (m : Prog A) w a w' :
  runs quiet m → (commit ;;! m)%fcam w = (Ok a, w') → durable w' = view w ∧ constraints_hold (view w).
Proof.
  intros Hm ([] & w1 & Hc & Ha)%bind_ok. apply commit_ok in Hc as (_ & Hd & Hh). specialize (Hm w1).
  rewrite Ha in Hm. destruct Hm as [_ Hm]. simpl in Hm. by rewrite Hm, Hd.
Qed.
Lemma master_ok master w w' : require_master_key secrets w = (Ok master, w') →
  sec_master_key secrets = Some master ∧ master ≠ "" ∧ w' = w.
Proof.
  unfold require_master_key. destruct (sec_master_key secrets) as [k|]; [|done].
  destruct (String.eqb_spec k ""); [done|]. by intros [= <- <-].
Qed.
Lemma urandom_ok n w nonce w' : urandom n w = (Ok nonce, w') → String.length nonce = n.
Proof.
  unfold urandom, on_host, step. intros H. pose proof (urandom_length n (w_host w)) as Hl.
  destruct (h_urandom n (w_host w)) as [x h]. simpl in *. by injection H as <- <-.
Qed.

Lemma created_on_record config request p w item token w' :
  create_client config secrets request p w = (Ok (item, token), w') →
  ∃ master client, sec_master_key secrets = Some master ∧ master ≠ "" ∧
    c_name client = cq_name p ∧ c_is_active client = cq_is_active p ∧
    c_status client = (if cq_is_active p then "active" else "disabled") ∧
    on_record (derive_master_key_bytes master) token client (durable w').
Proof.
  unfold create_client, accept. destruct (create_client_valid p); [|done].
  intros (master & w1 & _ & (Hm & Hne & _)%master_ok & H)%quiet_ok; [|apply qu_master].
  apply quiet_ok in H as (tok & w2 & _ & Htok & H); [|apply qu_choose].
  apply quiet_ok in H as (nonce & w3 & _ & Hn%urandom_ok & H); [|apply qu_urandom].
  apply quiet_ok in H as (today & w4 & _ & _ & H); [|apply qu_today].
  apply bind_ok in H as (c & w5 & Hc%or_unavailable_ok & [= <- <- <-]).
  apply quiet_ok in Hc as (now & w6 & _ & _ & Hc); [|apply qu_now].
  apply bind_ok in Hc as (id & w7 & [= <- <-] & Hc).
  set (client := mkClient _ _ _ _ _ _ _ _ _ _ _ _ _ _) in Hc.
  apply bind_ok in Hc as ([] & w8 & Hi & Hc).
  apply quiet_ok in Hc as ([] & w9 & [Hq1 _] & _ & Hc); [|apply qu_flush].
  apply quiet_ok in Hc as ([] & w10 & [Hq2 _] & _ & Hc); [|apply qu_audit].
  assert (c = client) as ->.
  { apply bind_ok in Hc as (? & ? & _ & Hc). by apply bind_ok in Hc as (? & ? & _ & [= <- _]). }
  apply committed_ok in Hc as [Hd Hh]; [|apply runs_bind; [apply _|apply qu_refresh|intros; apply runs_ret, _]].
  assert (t_clients (view w10) = <[c_id client := client]> (t_clients (view w6))) as Hcl.
  { rewrite (core_clients _ (view w9)), (core_clients (view w9) (view w8)) by done.
    destruct (assign_spec (λ t, set_t_clients (<[c_id client := client]> (t_clients t)) t) w6) as (_ & Hv & _).
    unfold insert_client in Hi. rewrite Hi in Hv. simpl in Hv. by rewrite Hv. }
  exists master, client. split_and!; [done..|]. rewrite Hd. split; [|apply Hh|done|by exists nonce].
  by rewrite Hcl, lookup_insert_eq.
Qed.

Definition rotated (mk nonce token : string) (c : Client) : Client :=
  set_c_token_ciphertext (Some (encrypt_client_token mk nonce token)) (set_c_token_hash (hmac_sha256_hex mk token) c).
Lemma rotated_on_record request id w i token w' :
  rotate_client_token secrets request id w = (Ok (i, token), w') →
  ∃ master client nonce, sec_master_key secrets = Some master ∧ master ≠ "" ∧ i = id ∧ String.length nonce = NONCE_BYTES ∧
    t_clients (view w) !! id = Some client ∧
    t_clients (durable w') = <[id := rotated (derive_master_key_bytes master) nonce token client]> (t_clients (view w)) ∧
    constraints_hold (durable w').
Proof.
  unfold rotate_client_token. intros (master & w1 & [Hv1 _] & (Hm & Hne & _)%master_ok & H)%quiet_ok; [|apply qu_master].
  apply quiet_ok in H as (client & w2 & [Hv2 _] & Hf & H); [|apply qu_find_client].
  apply quiet_ok in H as (tok & w3 & [Hv3 _] & _ & H); [|apply qu_token].
  apply quiet_ok in H as (nonce & w4 & [Hv4 _] & Hn%urandom_ok & H); [|apply qu_urandom].
  apply bind_ok in H as ([] & w5 & Ha & H).
  apply bind_ok in H as ([] & w6 & Hc%or_unavailable_ok & [= <- <- <-]).
  apply quiet_ok in Hc as ([] & w7 & [Hv5 _] & _ & Hc); [|apply qu_audit].
  apply commit_ok in Hc as (_ & Hd & Hh).
  assert (t_clients (view w4) = t_clients (view w)) as Hv by (apply core_clients; congruence).
  assert (t_clients (view w) !! id = Some client) as Hrow.
  { unfold Admin.find_client in Hf. apply bind_ok in Hf as (t & w8 & Hq & Hf).
    destruct (query_spec w1) as (Hqv & _ & Hr). rewrite Hq in *. simpl in *. destruct Hr as [[= ->]|]; [|done].
    rewrite <-(core_clients (view w1) (view w)) by done.
    destruct (t_clients (view w1) !! id) as [c|]; [by injection Hf as <- _|done]. }
  exists master, client, nonce. rewrite Hd. split_and!; try done. rewrite (core_clients _ _ Hv5).
  unfold assign_client in Ha. match type of Ha with assign ?f w4 = _ => pose proof (assign_spec f w4) as (_ & Hav & _) end.
  rewrite Ha in Hav. simpl in Hav. rewrite Hav. simpl. rewrite Hv. apply map_eq. intros j.
  destruct (decide (j = id)) as [->|Hj].
  - by rewrite lookup_alter, decide_True, Hrow, lookup_insert_eq by done.
  - by rewrite lookup_alter_ne, lookup_insert_ne by congruence.
Qed.

(** * Transactions that cannot be committed *)

Definition same_durable : relation World := λ w w', durable w' = durable w.
#[export] Instance same_durable_preorder : PreOrder same_durable.
Proof. split; [by intros w|]. intros w1 w2 w3 H1 H2. unfold same_durable in *. congruence. Qed.
Lemma du_quiet {A} (m : Prog A) : runs quiet m → runs same_durable m.
Proof. intros Hm w. apply Hm. Qed.
Lemma du_assign f : runs same_durable (assign f).
Proof. intros w. apply assign_spec. Qed.
Definition unavailable {A} (o : Res A * World) (w : World) : Prop :=
  (o.1 = Raise (EFcam KeyPool.db_unavailable) ∨ o.1 = Raise operational) ∧ durable o.2 = durable w.
Lemma doomed_commit (m : Prog unit) w :
  runs same_durable m → (∀ w1, m w = (Ok tt, w1) → ¬ constraints_hold (view w1)) →
  unavailable (or_unavailable KeyPool.db_unavailable (m ;;! commit) w) w.
Proof.
  intros Hm Hno. specialize (Hm w). unfold or_unavailable, catch_all, try_except.
  assert (∃ x w1, (m ;;! commit)%fcam w = (Raise x, w1) ∧ durable w1 = durable w) as (x & w1 & Hr & Hd).
  { unfold bind. destruct (m w) as [[[]|x] w1] eqn:Hw; [|by exists x, w1].
    destruct (commit_spec w1) as [_ Hc]. unfold same_durable in Hm. simpl in Hm.
    destruct (commit w1) as [[[]|x] w2]; simpl in Hc; [by destruct (Hno w1 eq_refl), Hc|].
    exists x, w2. split; [done|]. by destruct Hc as [-> _]. }
  rewrite Hr. unfold bind at 1. destruct (rollback_spec w1) as (Hrb & _ & Hrd).
  destruct (rollback w1) as [[[]|?] w2]; simpl in *; [|done].
  split; simpl; [left; by destruct x|congruence].
Qed.
Lemma doomed_purge f g (a : Prog unit) w :
  runs quiet a → (∀ t, core t = core (f (view w)) → ¬ constraints_hold (g t)) →
  unavailable (or_unavailable KeyPool.db_unavailable (query ;;! assign f ;;! a ;;! assign g ;;! commit) w) w.
Proof.
  intros Ha Hno. assert (∀ m m' : Prog unit, m w = m' w →
    or_unavailable KeyPool.db_unavailable m w = or_unavailable KeyPool.db_unavailable m' w) as Hext.
  { intros m m' Hm. unfold or_unavailable, catch_all, try_except. by rewrite Hm. }
  rewrite (Hext _ ((query ;;! assign f ;;! a ;;! assign g) ;;! commit)%fcam).
  2: { unfold bind. destruct (query w) as [[t|x] w1]; [|done]. destruct (assign f w1) as [[[]|x] w2]; [|done].
       by destruct (a w2) as [[[]|x] w3]. }
  apply doomed_commit.
  - apply runs_bind; [apply _|apply du_quiet, qu_query|]. intros _. apply runs_bind; [apply _|apply du_assign|].
    intros _. apply runs_bind; [apply _|by apply du_quiet|]. intros _. apply du_assign.
  - intros w4 (t & w1 & Hq & H)%bind_ok. apply bind_ok in H as ([] & w2 & Hf & H).
    apply quiet_ok in H as ([] & w3 & [Hc _] & _ & Hg); [|done].
    destruct (query_spec w) as (Hv & _). rewrite Hq in Hv. simpl in Hv.
    pose proof (assign_spec f w1) as (_ & Hfv & _). rewrite Hf in Hfv. simpl in Hfv.
    pose proof (assign_spec g w3) as (_ & Hgv & _). rewrite Hg in Hgv. simpl in Hgv.
    rewrite Hgv. apply Hno. by rewrite Hc, Hfv, Hv.
Qed.
End Facts.
End AdminClientsFacts.

Module AdminClientsTheorems.
Import AdminClientsFacts.
Section AdminClientsTheorems.
Context {E : Env} {OL : OrmLaws} {DG : Digests} {ZI : ZoneInfo} {UL : UrandomLaws} {AL : AesLaws} (secrets : Secrets).

(** C28. A new client's token works: when the administration has answered a request to
    create a client with a token, a request that bears the token is authenticated as that
    client - unless the client was created inactive, then it is refused as disabled - and
    the administration can show the same token again, in every session that sees what the
    creation left in the database; only a failure of the database keeps it from it. *)
Theorem created_client_is_let_in config request p w item token w' :
  in_session (create_client config secrets request p) w = (Ok (item, token), w') →
  ∃ id, ∀ w2, view w2 = durable w' →
    (∀ rq, _bearer_token (req_header "authorization" rq) = Some token →
      (require_client secrets rq w2).1 = Raise (EFcam KeyPool.db_unavailable) ∨
      (require_client secrets rq w2).1 = if cq_is_active p then Ok id else Raise (EFcam client_disabled)) ∧
    (∀ rq, (reveal_client_token secrets rq id w2).1 = Raise operational ∨
           (reveal_client_token secrets rq id w2).1 = Ok (id, cq_name p, token)).
Proof.
  intros (w1 & Hc & Hd)%in_session_ok. apply created_on_record in Hc as (master & client & Hm & Hne & Hn & Ha & Hst & Hr).
  exists (c_id client). intros w2 Hv. rewrite Hd in Hv. rewrite <-Hv in Hr. split; intros rq.
  - intros Ht. rewrite <-Ha. destruct (require_client_spec secrets master token rq w2 Hm Hne Ht) as [->| ->]; [by left|].
    rewrite (on_record_verdict _ _ _ _ Hr). by right.
  - rewrite <-Hn. apply (on_record_revealed secrets master); [done..| |done]. rewrite Hst. by destruct (cq_is_active p).
Qed.

(** C27. A rotation revokes: once the administration has answered a rotation with a new
    token, requests that bear it are authenticated as the client if it is active, and a
    request with the token before it - any whose keyed hash was the client's and is not
    the new one - is refused as unauthorized, in every session that sees what the rotation
    left in the database. *)
Theorem rotation_revokes request id w i token w' old :
  unique_by c_token_hash (t_clients (view w)) → t_clients (view w) !! id = Some old → c_id old = id →
  in_session (rotate_client_token secrets request id) w = (Ok (i, token), w') →
  ∃ mk, derive_master_key_bytes <$> sec_master_key secrets = Some mk ∧ i = id ∧ ∀ w2 rq t, view w2 = durable w' → _bearer_token (req_header "authorization" rq) = Some t →
    (t = token → (require_client secrets rq w2).1 = Raise (EFcam KeyPool.db_unavailable) ∨
      (require_client secrets rq w2).1 = if c_is_active old then Ok id else Raise (EFcam client_disabled)) ∧
    (hmac_sha256_hex mk t = c_token_hash old → hmac_sha256_hex mk t ≠ hmac_sha256_hex mk token →
      (require_client secrets rq w2).1 = Raise (EFcam KeyPool.db_unavailable) ∨
      (require_client secrets rq w2).1 = Raise (EFcam client_unauthorized)).
Proof.
  intros Hu Hold Hid (w1 & Hr & Hd)%in_session_ok.
  apply rotated_on_record in Hr as (master & client & nonce & Hm & Hne & -> & Hn & Hc & Hrow & Hh).
  assert (client = old) as -> by congruence. set (mk := derive_master_key_bytes master) in *.
  exists mk. split; [by rewrite Hm|]. split; [done|]. intros w2 rq t Hv Ht. rewrite Hd in Hv. rewrite <-Hv in Hrow, Hh.
  pose proof (require_client_spec secrets master t rq w2 Hm Hne Ht) as Hs. fold mk in Hs.
  split.
  - intros ->. rewrite (on_record_verdict mk token (rotated mk nonce token old)) in Hs; [by rewrite <-Hid|].
    split; [|apply Hh|done|by exists nonce]. simpl. by rewrite Hid, Hrow, lookup_insert_eq.
  - intros Hhash Hnew. destruct Hs as [Hs|Hs]; [by left|right]. rewrite Hs.
    destruct (Deps.find_client _ _) as [c|] eqn:Hf; [exfalso|done].
    apply find_some in Hf as [Hin Heq%String.eqb_eq]. apply list_elem_of_In, elem_of_by_id in Hin as [j Hj].
    rewrite Hrow, lookup_insert_Some in Hj. destruct Hj as [[_ <-]|[Hne' Hj]]; [by rewrite <-Heq in Hnew|].
    apply Hne', (Hu id j old c); [done|done|congruence].
Qed.

(** C40. What a job is bound to cannot be purged: while a binding of an upstream resource
    names a key or a client, a request to purge that key or client answers that the
    database is unavailable - or that it failed - and changes nothing, for the foreign
    keys of the binding, which the purge does not remove, refuse the commit. *)
Theorem bound_rows_cannot_be_purged request w i b :
  constraints_hold (view w) → t_bindings (view w) !! i = Some b →
  unavailable (purge_key request (b_api_key_id b) w) w ∧ unavailable (purge_client request (b_client_id b) w) w.
Proof.
  intros Hh Hb. destruct (fk_binding_key _ Hh i b Hb) as [k Hk]. destruct (fk_binding_client _ Hh i b Hb) as [c Hc].
  destruct (query_spec w) as (Hv & Hd & Hr). split.
  - unfold purge_key, AdminViews.Admin.find_key, purge_row. rewrite bind_assoc. unfold bind at 1.
    destruct (query w) as [r w1]. simpl in Hr, Hv, Hd. destruct Hr as [->| ->]; [|by split; [right|]].
    rewrite Hk. unfold bind at 1, ret at 1. unfold unavailable. rewrite <-Hd.
    apply doomed_purge; [apply qu_audit|]. rewrite Hv. intros t Ht Ht'.
    assert (t_bindings t !! i = Some b) as Hbt by (rewrite <-Hb; exact (f_equal (λ t, t_bindings t !! i) Ht)).
    destruct (fk_binding_key _ Ht' i b Hbt) as [k' Hk']. simpl in Hk'. by rewrite lookup_delete_eq in Hk'.
  - unfold purge_client, Admin.find_client. rewrite bind_assoc. unfold bind at 1.
    destruct (query w) as [r w1]. simpl in Hr, Hv, Hd. destruct Hr as [->| ->]; [|by split; [right|]].
    rewrite Hc. unfold bind at 1, ret at 1. unfold unavailable. rewrite <-Hd.
    apply doomed_purge; [apply qu_audit|]. rewrite Hv. intros t Ht Ht'.
    assert (t_bindings t !! i = Some b) as Hbt by (rewrite <-Hb; exact (f_equal (λ t, t_bindings t !! i) Ht)).
    destruct (fk_binding_client _ Ht' i b Hbt) as [c' Hc']. simpl in Hc'. by rewrite lookup_delete_eq in Hc'.
Qed.
End AdminClientsTheorems.

(** * Concrete inputs *)

Import AdminClientsFacts Simulation SimApp.

Definition client_call (token : string) : Request :=
  mkRequest "POST" "/v1/scrape" "" [("authorization", "Bearer " +:+ token)] (Some "10.0.0.1") "req-0002".
Definition admin_call : Request := app_request "POST" "/admin/clients".
Definition new_client : CreateClientRequest :=
  mkCreateClientRequest "batch jobs" (Some 100) 60 5 2 true (Some " Fcam-Token-0123456789-abcdef ").
Definition created : Res (Json * string) * World :=
  in_session (create_client default_AppConfig app_secrets admin_call new_client) (app_world []).
Definition rotation : Res (Z * string) * World :=
  in_session (rotate_client_token app_secrets admin_call 5) (app_world []).
Definition bound_world : World :=
  sim_world (set_t_bindings {[ 9 := mkUpstreamResourceBinding 9 5 1 "crawl" "job-1" (Aware T0) None ]} app_tables) [] [].

Lemma created_client_is_let_in_witness :
  (require_client app_secrets (client_call "Fcam-Token-0123456789-abcdef") created.2).1 = Ok 6 ∧
  ∃ id, (require_client app_secrets (client_call "Fcam-Token-0123456789-abcdef") created.2).1 =
          Raise (EFcam KeyPool.db_unavailable) ∨
        (require_client app_secrets (client_call "Fcam-Token-0123456789-abcdef") created.2).1 = Ok id.
Proof.
  split; [vm_compute; reflexivity|].
  assert (∃ item, created.1 = Ok (item, "Fcam-Token-0123456789-abcdef")) as [item Hc] by (eexists; vm_compute; reflexivity).
  destruct (created_client_is_let_in app_secrets default_AppConfig admin_call new_client (app_world []) item
    "Fcam-Token-0123456789-abcdef" created.2) as (id & Hid); [by rewrite <-Hc; apply surjective_pairing|].
  exists id. apply (Hid created.2); [vm_compute; reflexivity|reflexivity].
Defined.
Lemma rotation_revokes_witness :
  (require_client app_secrets (client_call "fcam-5") (app_world [])).1 = Ok 5 ∧
  ((require_client app_secrets (client_call "fcam-5") rotation.2).1 = Raise (EFcam KeyPool.db_unavailable) ∨
   (require_client app_secrets (client_call "fcam-5") rotation.2).1 = Raise (EFcam client_unauthorized)).
Proof.
  split; [vm_compute; reflexivity|].
  assert (rotation.1 = Ok (5, "fcam_client_token-1768478400000000")) as Hr by (vm_compute; reflexivity).
  destruct (rotation_revokes app_secrets admin_call 5 (app_world []) 5 "fcam_client_token-1768478400000000" rotation.2
    (app_client 5)) as (mk & Hmk & _ & H); [|reflexivity|reflexivity|by rewrite <-Hr; apply surjective_pairing|].
  - apply (uq_client_token (view (app_world []))), constraintsb_spec. vm_compute. reflexivity.
  - assert (mk = derive_master_key_bytes "master") as -> by by injection Hmk.
    apply (H rotation.2 (client_call "fcam-5") "fcam-5"); [vm_compute; reflexivity|reflexivity|reflexivity|]. vm_compute. discriminate.
Defined.
Lemma bound_rows_cannot_be_purged_witness :
  (purge_key admin_call 1 bound_world).1 = Raise (EFcam KeyPool.db_unavailable) ∧
  unavailable (purge_key admin_call 1 bound_world) bound_world ∧
  unavailable (purge_client admin_call 5 bound_world) bound_world.
Proof.
  split; [vm_compute; reflexivity|].
  apply (bound_rows_cannot_be_purged admin_call bound_world 9
    (mkUpstreamResourceBinding 9 5 1 "crawl" "job-1" (Aware T0) None)); [|reflexivity].
  apply constraintsb_spec. vm_compute. reflexivity.
Defined.
End AdminClientsTheorems.
