(* ===== verification/RedisLimitsProps.v ===== *)
(** The limiters shared through Redis do what the in-process ones do.  A run is the
    sequence of the calls that all processes make, in the order Redis serves them, with
    the moments at which the server drops keys whose time to live has run out. *)

From S2P Require Import Prelude Effects PyText PyTime Env RateLimit RedisLimits.
Open Scope Z_scope.

(** The server runs scripts, or it does not and transactions go through. *)
Definition served `{!Redis} (s : RedisDb) : Prop :=
  (rd_call s).1 = Answered ∨ (rd_call s).1 = UnknownCommand ∧ ∀ s', (rd_exec s').1 = Executed.

Module RedisBucketFacts.
Import RedisBucket.

(** * Runs *)

Inductive Event :=
  | Ask (key : string) (rate : Z) (t : Moment)
  | Lapse (key : string) (at_ms : Z).

Section Runs.
Context `{!Redis, !RedisLaws} (self : RedisNames).
Definition name (key : string) : string := redis_name "rate_limit" self key.

Fixpoint run_shared (es : list Event) (s : RedisDb) : list (Res (bool * Z)) :=
  match es with
  | [] => []
  | Ask key rate t :: es' => let '(r, s') := allow self key rate t s in r :: run_shared es' s'
  | Lapse key _ :: es' => run_shared es' (rd_lapse (name key) s)
  end.
(** The in-process limiter on the same calls; nothing lapses there. *)
Fixpoint run_memory (es : list Event) (m : gmap string TokenBucket.Bucket) : list (bool * Z) :=
  match es with
  | [] => []
  | Ask key rate t :: es' =>
      let '(r, m') := TokenBucket.allow (name key) rate (inject_Z (now_ms t) / 1000) m in r :: run_memory es' m'
  | Lapse _ _ :: es' => run_memory es' m
  end.
(** The clocks agree well enough: they do not go back from one event to the next, and no
    bucket lapses within a minute of the last call on it (the script asks for two). *)
Fixpoint timely (clock : Z) (last : gmap string Z) (es : list Event) : Prop :=
  match es with
  | [] => True
  | Ask key rate t :: es' =>
      clock ≤ now_ms t ∧ timely (now_ms t) (if 0 <? rate then <[name key := now_ms t]> last else last) es'
  | Lapse key at_ms :: es' =>
      clock ≤ at_ms ∧ (∀ x, last !! name key = Some x → x + 60000 ≤ at_ms) ∧ timely at_ms last es'
  end.

(** * The simulation *)

(** What Redis holds for a bucket: the bucket, or nothing once it would be full again. *)
Record held_bucket (clock : Z) (data : option Q * option Z) (x : Z) (b : TokenBucket.Bucket) : Prop := {
  hb_time : (TokenBucket.last_refill b == inject_Z x / 1000)%Q;
  hb_nonneg : (0 <= TokenBucket.tokens b)%Q;
  hb_past : x ≤ clock;
  hb_data : (∃ q, data = (Some q, Some x) ∧ (q == TokenBucket.tokens b)%Q) ∨ data = (None, None) ∧ x + 60000 ≤ clock
}.
Definition in_step (clock : Z) (last : gmap string Z) (s : RedisDb) (m : gmap string TokenBucket.Bucket) : Prop := ∀ n,
  match m !! n with
  | None => rd_hmget n s = (None, None) ∧ last !! n = None
  | Some b => ∃ x, last !! n = Some x ∧ held_bucket clock (rd_hmget n s) x b
  end.

(** What the script takes the bucket to hold. *)
Definition script_tokens (now : Z) (capacity refill_per_ms : Q) (data : option Q * option Z) : Q :=
  let elapsed := now - default now data.2 in
  Qmin capacity (default capacity data.1 + inject_Z (if elapsed <? 0 then 0 else elapsed) * refill_per_ms).
Lemma Qmin_ext a b c d : (a == b)%Q → (c == d)%Q → (Qmin a c == Qmin b d)%Q.
Proof. intros -> ->. reflexivity. Qed.
Lemma elapsed_seconds x now l :
  x ≤ now → (l == inject_Z x / 1000)%Q →
  (Qmax (inject_Z now / 1000 - l) 0 == inject_Z (now - x) / 1000)%Q.
Proof.
  intros Hx ->. assert (inject_Z (now - x) == inject_Z now - inject_Z x)%Q as ->.
  { unfold Z.sub. rewrite inject_Z_plus, inject_Z_opp. reflexivity. }
  rewrite Zle_Qle in Hx. rewrite Q.max_l; [field|]. unfold Qdiv. change (/ 1000)%Q with (1 # 1000)%Q. lra.
Qed.
Lemma script_refills clock now rate data x b :
  0 < rate → clock ≤ now → held_bucket clock data x b →
  (script_tokens now (inject_Z rate) (inject_Z rate / 60000) data == TokenBucket.refilled rate (inject_Z now / 1000) b)%Q.
Proof.
  intros Hr Hc [Ht Hn Hp Hd]. unfold script_tokens, TokenBucket.refilled, TokenBucket.refill_per_sec, TokenBucket.capacity.
  assert (0 < inject_Z rate)%Q as HrQ by (rewrite (Zlt_Qlt 0 rate) in Hr; exact Hr).
  rewrite (elapsed_seconds x now) by (lia || done).
  destruct Hd as [(q & -> & Hq)|[-> Hold]]; cbn [fst snd from_option default id].
  - rewrite (proj2 (Z.ltb_ge _ _)) by lia. apply Qmin_ext; [reflexivity|]. rewrite Hq. field.
  - rewrite Z.sub_diag. cbn [Z.ltb Z.compare]. rewrite !Q.min_l; [reflexivity| |].
    + assert (60000 ≤ now - x) as Hx by lia. rewrite Zle_Qle in Hx. change (inject_Z 60000) with 60000%Q in Hx.
      set (e := (inject_Z (now - x) / 1000)%Q).
      assert (e == inject_Z (now - x) * (1 # 1000))%Q as He by (unfold e; field).
      assert (e * (inject_Z rate / 60) == e * inject_Z rate * (1 # 60))%Q as -> by field. nra.
    + change (inject_Z 0) with 0%Q. lra.
Qed.

(** * One call *)

(** The answer to a bucket that holds [q]. *)
Definition answer (rate : Z) (q : Q) : bool * Z :=
  (Qle_bool 1 q, if Qle_bool 1 q then 0 else TokenBucket.retry_after rate q).
Definition remains (q : Q) : Q := if Qle_bool 1 q then (q - 1)%Q else q.
Lemma answer_ext rate q q' : (q == q')%Q → answer rate q = answer rate q' ∧ (remains q == remains q')%Q.
Proof.
  intros Hq. unfold answer, remains, TokenBucket.retry_after. assert (Qle_bool 1 q = Qle_bool 1 q') as -> by by rewrite Hq.
  split; [|destruct (Qle_bool 1 q'); [by rewrite Hq|done]].
  by rewrite (Qceiling_comp ((1 - q) / _) ((1 - q') / TokenBucket.refill_per_sec rate)) by by rewrite Hq.
Qed.
Lemma ms_wait rate q : 0 < rate →
  Z.max (Qceiling ((1 - q) / (inject_Z rate / 60000) / 1000)) 1 = TokenBucket.retry_after rate q.
Proof.
  intros Hr. rewrite (Zlt_Qlt 0 rate) in Hr. change (inject_Z 0) with 0%Q in Hr.
  unfold TokenBucket.retry_after, TokenBucket.refill_per_sec, TokenBucket.capacity. f_equal.
  apply Qceiling_comp. field. lra.
Qed.
Lemma memory_allow key rate now m : 0 < rate → ∃ b,
  match m !! key with Some b' => b = b' | None => (b = TokenBucket.mkBucket (TokenBucket.capacity rate) now) end ∧
  let q := TokenBucket.refilled rate now b in
  TokenBucket.allow key rate now m = (answer rate q, <[key := TokenBucket.mkBucket (remains q) now]> m).
Proof.
  intros Hr. unfold TokenBucket.allow, answer, remains. rewrite (proj2 (Z.leb_gt _ _)) by done.
  destruct (m !! key) as [b|]; eexists; (split; [reflexivity|]); by destruct (Qle_bool 1 _).
Qed.

Context (Havail : ∀ s, served s).
Lemma shared_allow key rate t s : 0 < rate → ∃ s1, (∀ k, rd_hmget k s1 = rd_hmget k s) ∧
  let q := script_tokens (now_ms t) (inject_Z rate) (inject_Z rate / 60000) (rd_hmget (name key) s) in
  allow self key rate t s = (Ok (answer rate q), rd_hmset (name key) (remains q) (now_ms t) s1).
Proof.
  intros Hr. unfold allow. fold (name key). rewrite (proj2 (Z.leb_gt _ _)) by done.
  pose proof (hmget_call) as Hcall. pose proof (Havail s) as Hav. unfold served in Hav. assert (∀ k, rd_hmget k (rd_call s).2 = rd_hmget k s) as Hs by auto.
  destruct (rd_call s) as [o s1]. simpl in Hav, Hs.
  assert (Qle_bool (inject_Z rate) 0 = false) as Hcap.
  { apply not_true_iff_false. intros Hle%Qle_bool_iff. rewrite (Zlt_Qlt 0 rate) in Hr. change (inject_Z 0) with 0%Q in Hr. lra. }
  destruct Hav as [->|[-> He]].
  - exists s1. split; [done|]. unfold _ALLOW_LUA, script_step. rewrite Hcap, Hs. unfold answer, remains.
    fold (script_tokens (now_ms t) (inject_Z rate) (inject_Z rate / 60000) (rd_hmget (name key) s)).
    rewrite <-(ms_wait rate) by done. destruct (Qle_bool 1 _); [done|]. f_equal. f_equal.
    f_equal. case_match; lia.
  - specialize (He s1). destruct (rd_exec s1) as [o s2] eqn:Hex. simpl in He. subst o. exists s2.
    split; [intros k; by rewrite (hmget_exec k _ _ Hex)|]. simpl. rewrite Hex, Hs. unfold answer, remains.
    destruct (rd_hmget (name key) s) as [raw_tokens raw_last] eqn:Hraw. unfold script_tokens. simpl.
    assert (Z.max (now_ms t - default (now_ms t) raw_last) 0 =
      (if now_ms t - default (now_ms t) raw_last <? 0 then 0 else now_ms t - default (now_ms t) raw_last)) as ->
      by (destruct (Z.ltb_spec (now_ms t - default (now_ms t) raw_last) 0); lia).
    rewrite <-(ms_wait rate) by done. by destruct (Qle_bool 1 _).
Qed.
Lemma allow_in_step clock last key rate t s m : 0 < rate → clock ≤ now_ms t → in_step clock last s m →
  let x := allow self key rate t s in let y := TokenBucket.allow (name key) rate (inject_Z (now_ms t) / 1000) m in
  x.1 = Ok y.1 ∧ in_step (now_ms t) (<[name key := now_ms t]> last) x.2 y.2.
Proof.
  intros Hr Hc Hst x y. subst x y. set (now := now_ms t) in *.
  destruct (shared_allow key rate t s Hr) as (s1 & Hs1 & ->). fold now.
  destruct (memory_allow (name key) rate (inject_Z now / 1000) m Hr) as (b & Hb & ->).
  set (q := script_tokens _ _ _ _). set (q' := TokenBucket.refilled _ _ _).
  assert (q == q' ∧ 0 <= q')%Q as [Hq Hq0].
  { specialize (Hst (name key)). unfold q, q'. destruct (m !! name key) as [b'|].
    - subst b'. destruct Hst as (x & _ & Hh). split; [by eapply script_refills|].
      apply TokenBucketFacts.refilled_bounds; [done|apply Hh].
    - destruct Hst as [-> _]. subst b. pose proof (TokenBucketFacts.capacity_ge1 rate Hr).
      rewrite TokenBucketFacts.refilled_now; simpl; [|done|done|unfold TokenBucket.capacity in *; lra].
      split; [|unfold TokenBucket.capacity in *; lra]. unfold script_tokens. simpl. rewrite Z.sub_diag. simpl.
      unfold TokenBucket.capacity. rewrite Q.min_l; [reflexivity|]. change (inject_Z 0) with 0%Q. lra. }
  destruct (answer_ext rate q q' Hq) as [-> Hrem]. split; [done|]. simpl. intros n.
  destruct (decide (n = name key)) as [->|Hne].
  - rewrite !lookup_insert_eq, hmget_hmset. exists now. split; [done|]. split; simpl; [reflexivity| |done|left; eauto].
    unfold remains in *. destruct (Qle_bool 1 q') eqn:Hle; [|done]. apply Qle_bool_iff in Hle. lra.
  - rewrite !lookup_insert_ne, hmget_hmset_ne, Hs1 by done. specialize (Hst n).
    destruct (m !! n) as [b'|]; [|done]. destruct Hst as (x & Hx & [H1 H2 H3 H4]). exists x. split; [done|].
    split; [done|done|lia|]. destruct H4 as [H4|[H4 H5]]; [by left|right; split; [done|lia]].
Qed.
Lemma in_step_later clock clock' last s m : clock ≤ clock' → in_step clock last s m → in_step clock' last s m.
Proof.
  intros Hc Hst n. specialize (Hst n). destruct (m !! n) as [b|]; [|done].
  destruct Hst as (x & Hx & [H1 H2 H3 H4]). exists x. split; [done|]. split; [done|done|lia|].
  destruct H4 as [H4|[H4 H5]]; [by left|right; split; [done|lia]].
Qed.
Lemma run_in_step es : ∀ clock last s m,
  timely clock last es → in_step clock last s m → run_shared es s = map Ok (run_memory es m).
Proof.
  induction es as [|[key rate t|key at_ms] es IH]; intros clock last s m Ht Hst; simpl in *; [done| |].
  - destruct Ht as [Hc Ht]. destruct (Z.ltb_spec 0 rate) as [Hr|Hr].
    + destruct (allow_in_step clock last key rate t s m Hr Hc Hst) as [Ha Hst'].
      destruct (allow self key rate t s) as [r s']. destruct (TokenBucket.allow _ _ _ m) as [r' m']. simpl in *.
      subst r. f_equal. by eapply IH.
    + unfold allow, TokenBucket.allow. rewrite (proj2 (Z.leb_le _ _)) by done. simpl. f_equal.
      eapply IH; [exact Ht|by eapply in_step_later].
  - destruct Ht as (Hc & Hl & Ht). apply (IH at_ms last); [done|]. intros n. specialize (Hst n).
    destruct (decide (n = name key)) as [->|Hne].
    + rewrite hmget_lapse. destruct (m !! name key) as [b|]; [|by destruct Hst].
      destruct Hst as (x & Hx & [H1 H2 H3 H4]). exists x. split; [done|]. split; [done|done|lia|].
      right. split; [done|by apply Hl].
    + rewrite hmget_lapse_ne by done. destruct (m !! n) as [b|]; [|done].
      destruct Hst as (x & Hx & [H1 H2 H3 H4]). exists x. split; [done|]. split; [done|done|lia|].
      destruct H4 as [H4|[H4 H5]]; [by left|right; split; [done|lia]].
Qed.
End Runs.
End RedisBucketFacts.

Module RedisLeaseFacts.
Import RedisConcurrency.

(** * The leases of all processes *)

Section Leases.
Context `{!Redis, !RedisLaws} (self : RedisNames) (lease_ttl_ms : Z) (limit : string → Z).
Definition lease_name (key : string) : string := redis_name "concurrency" self key.
(** The leases given out and not returned, by name, with their deadlines. *)
Definition Book := string → gmap string Z.
Definition write (n : string) (leases : gmap string Z) (b : Book) : Book := λ n', if decide (n' = n) then leases else b n'.
Definition running (now : Z) (leases : gmap string Z) : gmap string Z := filter (λ p, now < p.2) leases.
Definition booked (r : Res (option RedisLease)) (deadline : Z) (b : Book) : Book :=
  match r with Ok (Some (Some (n, token))) => write n (<[token := deadline]> (b n)) b | _ => b end.
(** A lease is struck out when Redis got the message. *)
Definition returned (l : RedisLease) (s : RedisDb) (b : Book) : Book :=
  match l, (rd_call s).1 with Some (n, token), Answered => write n (delete token (b n)) b | _, _ => b end.

(** Any process acquires under the name's limit, with a token nobody has, and a clock
    that does not go back; any process releases any lease; the server drops a set when
    its last lease is past its deadline. *)
Inductive leased : Z → Book → RedisDb → Prop :=
  | leased_start clock s : (∀ n, rd_zset n s = ∅) → leased clock (λ _, ∅) s
  | leased_acquire clock b s key t :
      leased clock b s → clock ≤ now_ms t → served (rd_uuid s).2 → (∀ n, b n !! (rd_uuid s).1 = None) →
      let x := try_acquire self lease_ttl_ms key (limit (lease_name key)) t s in
      leased (now_ms t) (booked x.1 (now_ms t + ttl_ms lease_ttl_ms) b) x.2
  | leased_release clock b s l : leased clock b s → leased clock (returned l s b) (release l s)
  | leased_lapse clock b s n at_ms :
      leased clock b s → clock ≤ at_ms → map_Forall (λ _ d, d ≤ at_ms) (b n) → leased at_ms b (rd_lapse n s).

Lemma running_filter t t' m : t ≤ t' → running t' (running t m) = running t' m.
Proof. intros Ht. unfold running. rewrite map_filter_filter. apply map_filter_ext. intros i x _. simpl. lia. Qed.
Lemma running_later t t' m m' : t ≤ t' → running t m = running t m' → running t' m = running t' m'.
Proof. intros Ht He. by rewrite <-(running_filter t t' m), <-(running_filter t t' m'), He by done. Qed.
Lemma running_insert t k d m m' : running t m = running t m' → running t (<[k := d]> m) = running t (<[k := d]> m').
Proof.
  intros He. apply map_eq. intros i. apply (f_equal (.!! i)) in He. unfold running in *.
  rewrite !map_lookup_filter in *. destruct (decide (i = k)) as [->|Hne]; [by rewrite !lookup_insert_eq|].
  by rewrite !lookup_insert_ne by done.
Qed.
Lemma running_delete t k m m' : running t m = running t m' → running t (delete k m) = running t (delete k m').
Proof. intros He. unfold running in *. by rewrite !map_filter_delete, He. Qed.
Lemma running_size_later t t' m : t ≤ t' → (size (running t' m) ≤ size (running t m))%nat.
Proof. intros Ht. rewrite <-(running_filter t t' m Ht). apply map_subseteq_size, map_filter_subseteq. Qed.

(** One acquisition. *)
Lemma acquire_spec key max t s : 0 < max → served (rd_uuid s).2 →
  let n := lease_name key in let kept := running (now_ms t) (rd_zset n s) in
  let x := try_acquire self lease_ttl_ms key max t s in
  (∀ k, k ≠ n → rd_zset k x.2 = rd_zset k s) ∧
  if Z.of_nat (size kept) >=? max then x.1 = Ok None ∧ rd_zset n x.2 = kept
  else x.1 = Ok (Some (Some (n, (rd_uuid s).1))) ∧
       rd_zset n x.2 = <[(rd_uuid s).1 := now_ms t + ttl_ms lease_ttl_ms]> kept.
Proof.
  intros Hm Hs n kept x. subst x. unfold try_acquire. fold (lease_name key). fold n. rewrite (proj2 (Z.leb_gt _ _)) by done.
  assert (∀ k, rd_zset k (rd_uuid s).2 = rd_zset k s) as Hu by (intros; apply zset_uuid).
  destruct (rd_uuid s) as [token s0]. simpl in Hs, Hu |- *.
  assert (∀ k, rd_zset k (rd_call s0).2 = rd_zset k s) as Hc by (intros; by rewrite zset_call).
  unfold served in Hs. destruct (rd_call s0) as [o s1]. simpl in Hs, Hc.
  assert (∀ k, k ≠ n → rd_zset k (rd_zremrangebyscore n (now_ms t) s1) = rd_zset k s) as Ho
    by (intros; by rewrite zset_range_ne).
  assert (rd_zset n (rd_zremrangebyscore n (now_ms t) s1) = kept) as Hk by (by rewrite zset_range, Hc).
  destruct Hs as [->|[-> He]].
  - unfold _ACQUIRE_LUA, rd_zcard. rewrite Hk. destruct (_ >=? _); simpl; [done|].
    split; [intros k Hne; by rewrite zset_zadd_ne, Ho|]. by rewrite zset_zadd, Hk.
  - simpl. unfold rd_zcard. rewrite Hk. destruct (_ >=? _); simpl; [done|].
    specialize (He (rd_zremrangebyscore n (now_ms t) s1)).
    destruct (rd_exec _) as [o s2] eqn:Hex. simpl in He. subst o. simpl.
    assert (∀ k, rd_zset k s2 = rd_zset k (rd_zremrangebyscore n (now_ms t) s1)) as Hx by (intros; by apply zset_exec).
    split; [intros k Hne; by rewrite zset_zadd_ne, Hx, Ho|]. by rewrite zset_zadd, Hx, Hk.
Qed.

(** What Redis keeps for a name is what the book says, up to leases past their deadline. *)
Definition agrees (clock : Z) (b : Book) (s : RedisDb) : Prop :=
  ∀ n, running clock (rd_zset n s) = running clock (b n).
Definition within (clock : Z) (b : Book) : Prop :=
  ∀ n t, clock ≤ t → 0 < limit n → Z.of_nat (size (running t (b n))) ≤ limit n.
Lemma write_eq n m b : write n m b n = m.
Proof. unfold write. by rewrite decide_True. Qed.
Lemma write_ne n n' m b : n' ≠ n → write n m b n' = b n'.
Proof. intros Hne. unfold write. by rewrite decide_False. Qed.
Lemma agrees_later t t' b s : t ≤ t' → agrees t b s → agrees t' b s.
Proof. intros Ht Ha n. by apply (running_later t). Qed.
Lemma within_later t t' b : t ≤ t' → within t b → within t' b.
Proof. intros Ht Hw n u Hu. apply Hw. lia. Qed.
Lemma within_write clock b n m :
  within clock b → (∀ t, clock ≤ t → (size (running t m) ≤ size (running t (b n)))%nat) → within clock (write n m b).
Proof.
  intros Hw Hm k t Ht Hl. destruct (decide (k = n)) as [->|Hne]; [rewrite write_eq|rewrite write_ne by done; by apply Hw].
  specialize (Hw n t Ht Hl). specialize (Hm t Ht). lia.
Qed.
Lemma acquire_agrees clock b s key t :
  agrees clock b s → within clock b → clock ≤ now_ms t → served (rd_uuid s).2 → (∀ n, b n !! (rd_uuid s).1 = None) →
  let x := try_acquire self lease_ttl_ms key (limit (lease_name key)) t s in
  let b' := booked x.1 (now_ms t + ttl_ms lease_ttl_ms) b in
  agrees (now_ms t) b' x.2 ∧ within (now_ms t) b'.
Proof.
  intros Ha Hw Hc Hs Hf. set (now := now_ms t). apply (agrees_later _ now) in Ha; [|done]. apply (within_later _ now) in Hw; [|done].
  destruct (Z.leb_spec (limit (lease_name key)) 0) as [Hm|Hm].
  { unfold try_acquire. rewrite (proj2 (Z.leb_le _ _)) by done. by simpl. }
  pose proof (acquire_spec key _ t s Hm Hs) as Hx. destruct (try_acquire _ _ _ _ _ _) as [r s'].
  simpl in Hx. destruct Hx as [Hother Hx]. fold now in Hx. rewrite (Ha (lease_name key)) in Hx. set (n := lease_name key) in *.
  destruct (Z.of_nat (size (running now (b n))) >=? limit n) eqn:Hfull; rewrite Z.geb_leb in Hfull; destruct Hx as [-> Hz]; simpl.
  - split; [|done]. intros k. destruct (decide (k = n)) as [->|Hne]; [|by rewrite Hother].
    rewrite Hz. by apply running_filter.
  - apply Z.leb_gt in Hfull. split; intros k; (destruct (decide (k = n)) as [->|Hne]; [rewrite write_eq|rewrite write_ne by done]).
    + rewrite Hz. apply running_insert. by apply running_filter.
    + by rewrite Hother.
    + intros u Hu _. pose proof (running_size_later now u (<[(rd_uuid s).1:=now + ttl_ms lease_ttl_ms]> (b n)) Hu) as Hle.
      assert (size (running now (<[(rd_uuid s).1:=now + ttl_ms lease_ttl_ms]> (b n))) = S (size (running now (b n)))) as Hsz.
      { unfold running. rewrite map_filter_insert_True by (unfold ttl_ms; simpl; lia).
        apply map_size_insert_None. rewrite map_lookup_filter, Hf. done. }
      lia.
    + apply Hw.
Qed.
Lemma leased_agrees clock b s : leased clock b s → agrees clock b s ∧ within clock b.
Proof.
  induction 1 as [clock s Hz|clock b s key t Hl [Ha Hw] Hc Hs Hf x|clock b s l Hl [Ha Hw]|clock b s n at_ms Hl [Ha Hw] Hc Hd].
  - split; [intros n; by rewrite Hz|]. intros n t _ Hlim. unfold running. rewrite map_filter_empty, map_size_empty. lia.
  - by apply (acquire_agrees clock).
  - unfold release, returned. destruct l as [[n token]|]; [|done].
    pose proof (λ k, zset_call k s) as Hz. destruct (rd_call s) as [[] s1]; simpl in *;
      try (split; [intros k; by rewrite Hz|done]). split.
    + intros k. destruct (decide (k = n)) as [->|Hne].
      * rewrite write_eq, zset_zrem, Hz. by apply running_delete.
      * by rewrite write_ne, zset_zrem_ne, Hz.
    + apply within_write; [done|]. intros t _. apply map_subseteq_size. unfold running.
      rewrite map_filter_delete. apply delete_subseteq.
  - split; [|by apply (within_later clock)]. intros k. destruct (decide (k = n)) as [->|Hne].
    + rewrite zset_lapse. unfold running. rewrite map_filter_empty. symmetry. apply map_empty. intros i.
      apply map_lookup_filter_None. right. intros d Hi Hlt. specialize (Hd i d Hi). simpl in *. lia.
    + rewrite zset_lapse_ne by done. by apply (running_later clock).
Qed.
End Leases.
End RedisLeaseFacts.

Module RedisTheorems.
Import RedisBucketFacts RedisLeaseFacts.
Section RedisTheorems.
Context `{!Redis, !RedisLaws} (self : RedisNames).

(** C15. The shared rate limiter is the in-process one, while Redis serves every call: on any
    sequence of calls by any number of processes, starting with no buckets, it gives
    the answers, and announces the waits, that one in-process token bucket per name
    would give on the same readings of the clock in seconds.  The conditions: no call
    fails and no transaction meets a conflict (the server runs the script, or it does
    not know scripts and the transaction goes through); the readings of the clock never
    go back from one call to the next, whichever process makes it; and no bucket is
    dropped less than a minute after the last call on it (the script asks for two).
    Under these, neither the expiry of idle buckets nor the lack of scripts on the
    server makes a difference: a bucket idle for a minute is full. *)
Theorem shared_bucket_is_the_memory_bucket es clock s :
  (∀ s, served s) → (∀ n, rd_hmget n s = (None, None)) → timely self clock ∅ es →
  run_shared self es s = map Ok (run_memory self es ∅).
Proof. intros Hs Hn Ht. apply (run_in_step self Hs es clock ∅); [done|]. intros n. by rewrite lookup_empty. Qed.

(** C14. Leases are counted across processes, while every acquisition is served: starting with
    no leases, whatever the processes acquire and release, in whatever order Redis
    serves them, the number in use that it reports for a name, when that call is
    answered, is the number of leases given out for it, not returned and not past their
    deadline, and that never exceeds the limit of the name, if it has one (the limit of
    a name being the same for all processes).  A slot whose holder died is free again
    after its deadline.  The conditions: no acquisition fails or meets a conflict of
    transactions (a release may fail: its lease then stands until its deadline); its
    token is one nobody holds; the readings of the clock never go back from one
    acquisition or question to the next, whichever process makes it; and the server
    drops a set only when the deadlines of all its leases are over. *)
Theorem shared_leases_are_counted ttl limit clock b s key t :
  leased self ttl limit clock b s → clock ≤ now_ms t → (rd_call s).1 = Answered →
  RedisConcurrency.current self key t s = Z.of_nat (size (running (now_ms t) (b (lease_name self key)))) ∧
  (0 < limit (lease_name self key) → RedisConcurrency.current self key t s ≤ limit (lease_name self key)).
Proof.
  intros Hl Ht Hc. destruct (leased_agrees _ _ _ _ _ _ Hl) as [Ha Hw].
  assert (RedisConcurrency.current self key t s = Z.of_nat (size (running (now_ms t) (b (lease_name self key))))) as ->.
  { unfold RedisConcurrency.current. fold (lease_name self key). pose proof (λ k, zset_call k s) as Hz.
    destruct (rd_call s) as [o s1]. simpl in Hc, Hz. subst o. simpl. unfold rd_zcard.
    rewrite zset_range, Hz. do 2 f_equal. by apply (running_later clock). }
  split; [done|]. intros Hlim. by apply Hw.
Qed.
End RedisTheorems.

(** * Concrete inputs *)

(** A Redis in memory; [dm_scripts] tells whether it runs scripts. *)
Record DemoRedis := mkDemoRedis {
  dm_hashes : gmap string (Q * Z); dm_sets : gmap string (gmap string Z); dm_uuids : Z; dm_scripts : bool
}.
Definition demo_redis : Redis := {|
  RedisDb := DemoRedis;
  rd_hmget k s := (fst <$> dm_hashes s !! k, snd <$> dm_hashes s !! k);
  rd_hmset k q n s := mkDemoRedis (<[k := (q, n)]> (dm_hashes s)) (dm_sets s) (dm_uuids s) (dm_scripts s);
  rd_zset k s := default ∅ (dm_sets s !! k);
  rd_zremrangebyscore k x s :=
    mkDemoRedis (dm_hashes s) (<[k := filter (λ p, x < p.2) (default ∅ (dm_sets s !! k))]> (dm_sets s)) (dm_uuids s) (dm_scripts s);
  rd_zadd k x m _ s :=
    mkDemoRedis (dm_hashes s) (<[k := <[m := x]> (default ∅ (dm_sets s !! k))]> (dm_sets s)) (dm_uuids s) (dm_scripts s);
  rd_zrem k m s :=
    mkDemoRedis (dm_hashes s) (<[k := delete m (default ∅ (dm_sets s !! k))]> (dm_sets s)) (dm_uuids s) (dm_scripts s);
  rd_lapse k s := mkDemoRedis (delete k (dm_hashes s)) (delete k (dm_sets s)) (dm_uuids s) (dm_scripts s);
  rd_call s := (if dm_scripts s then Answered else UnknownCommand, s);
  rd_exec s := (Executed, s);
  rd_uuid s := ("token-" +:+ str_int (dm_uuids s), mkDemoRedis (dm_hashes s) (dm_sets s) (dm_uuids s + 1) (dm_scripts s))
|}.
Lemma demo_laws : @RedisLaws demo_redis.
Proof.
  split; simpl; intros; rewrite ?lookup_insert_eq, ?lookup_delete_eq, ?lookup_insert_ne, ?lookup_delete_ne by done;
    by simplify_eq.
Qed.
Definition demo_names : RedisNames := redis_names ":fcam:" "key".
Definition at_ms (ms : Z) : Moment := mkMoment 0 (ms * 1000).
Definition demo_events : list Event :=
  [Ask "7" 2 (at_ms 0); Ask "7" 2 (at_ms 10); Ask "7" 2 (at_ms 20); Ask "8" 1 (at_ms 30); Lapse "7" 120030;
   Ask "7" 2 (at_ms 120040); Ask "8" 0 (at_ms 120050)].
Definition demo_empty (scripts : bool) : DemoRedis := mkDemoRedis ∅ ∅ 0 scripts.

Lemma shared_bucket_is_the_memory_bucket_witness :
  @run_shared demo_redis demo_names demo_events (demo_empty false) =
    [Ok (true, 0); Ok (true, 0); Ok (false, 30); Ok (true, 0); Ok (true, 0); Ok (true, 0)] ∧
  @run_shared demo_redis demo_names demo_events (demo_empty false) = map Ok (run_memory demo_names demo_events ∅).
Proof.
  split; [vm_compute; reflexivity|].
  apply (@shared_bucket_is_the_memory_bucket demo_redis demo_laws demo_names demo_events 0 (demo_empty false)).
  - intros s. unfold served. simpl. destruct (dm_scripts s); [by left|by right].
  - intros n. reflexivity.
  - repeat split; try (vm_compute; discriminate).
    intros x Hx. vm_compute in Hx. injection Hx as <-. vm_compute. discriminate.
Defined.
Lemma shared_leases_are_counted_witness :
  let x := @RedisConcurrency.try_acquire demo_redis demo_names 30000 "7" 1 (at_ms 1000) (demo_empty true) in
  @RedisConcurrency.current demo_redis demo_names "7" (at_ms 2000) x.2 = 1 ∧
  @RedisConcurrency.current demo_redis demo_names "7" (at_ms 31000) x.2 ≤ 1.
Proof.
  split; [vm_compute; reflexivity|].
  apply (@shared_leases_are_counted demo_redis demo_laws demo_names 30000 (λ _, 1) (now_ms (at_ms 1000))
    (booked (@RedisConcurrency.try_acquire demo_redis demo_names 30000 "7" 1 (at_ms 1000) (demo_empty true)).1
      31000 (λ _, ∅))); [|vm_compute; discriminate|reflexivity|lia].
  apply (@leased_acquire demo_redis demo_names 30000 (λ _, 1) 0 (λ _, ∅) (demo_empty true) "7" (at_ms 1000)).
  - by apply leased_start.
  - vm_compute. discriminate.
  - by left.
  - done.
Defined.
End RedisTheorems.
