(* ===== verification/Schema.v ===== *)
(** Database schemas: what the migrations under [migrations/versions/] are written in.
    A migration is a list of [SchemaOp], the calls of [alembic.op]; [apply_op] says
    what each does to a schema and when a database accepts it, and a database engine is
    anything that does this to its own catalogue ([SchemaEngine]). *)

From S2P Require Import Prelude PyText.

Inductive SqlType :=
  | SqlInteger
  | SqlString (length : Z)
  | SqlText
  | SqlBoolean
  | SqlDate
  | SqlDateTime (timezone : bool)
  | SqlLargeBinary.
#[export] Instance sqltype_eq_dec : EqDecision SqlType.
Proof. solve_decision. Defined.

(** [sa.Column]; [co_ref] is the table of a foreign key to that table's [id]. *)
Record Column := mkColumn {
  co_name : string;
  co_type : SqlType;
  co_nullable : bool;
  co_default : option string;     (* server_default *)
  co_primary : bool;
  co_unique : bool;
  co_ref : option string;
  co_cascade : bool               (* ondelete="CASCADE" *)
}.
Record TableDef := mkTableDef { td_columns : list Column; td_unique : list (string * list string) }.
Record IndexDef := mkIndexDef { ix_table : string; ix_columns : list string }.
Record Schema := mkSchema { sm_tables : gmap string TableDef; sm_indexes : gmap string IndexDef }.
Definition empty_schema : Schema := mkSchema ∅ ∅.

(** ** Columns as they are written *)

Definition not_null (name : string) (ty : SqlType) : Column := mkColumn name ty false None false false None false.
Definition null (name : string) (ty : SqlType) : Column := mkColumn name ty true None false false None false.
Definition primary_key (name : string) : Column := mkColumn name SqlInteger false None true false None false.
Definition with_default (d : string) (c : Column) : Column :=
  mkColumn (co_name c) (co_type c) (co_nullable c) (Some d) (co_primary c) (co_unique c) (co_ref c) (co_cascade c).
Definition with_unique (c : Column) : Column :=
  mkColumn (co_name c) (co_type c) (co_nullable c) (co_default c) (co_primary c) true (co_ref c) (co_cascade c).
Definition with_foreign_key (table : string) (cascade : bool) (c : Column) : Column :=
  mkColumn (co_name c) (co_type c) (co_nullable c) (co_default c) (co_primary c) (co_unique c) (Some table) cascade.

(** ** Operations *)

(** The UPDATE statements of the migrations; they leave the schema alone. *)
Inductive DataUpdate := ClientStatusFromActive | ZeroKeyQuotas | DetachKeys.

Inductive SchemaOp :=
  | CreateTable (name : string) (columns : list Column) (unique : list (string * list string))
  | DropTable (name : string)
  | AddColumn (table : string) (c : Column)
  | DropColumn (table name : string)
  | CreateIndex (name table : string) (columns : list string)
  | DropIndex (name table : string)
  | Execute (u : DataUpdate).

Definition column_names (t : TableDef) : list string := co_name <$> td_columns t.
Definition names_in (l : list string) (t : TableDef) : bool := forallb (λ c, str_in c (column_names t)) l.
(** The table a column refers to is there. *)
Definition ref_known (tables : gmap string TableDef) (c : Column) : bool :=
  match co_ref c with Some r => bool_decide (is_Some (tables !! r)) | None => true end.
Definition refers_to (name : string) (t : TableDef) : bool :=
  existsb (λ c, bool_decide (co_ref c = Some name)) (td_columns t).

(** What a database does, [None] where it refuses: a column that is added must have
    something to put into the rows there are, a column that an index, a constraint or a
    key uses is not dropped, nor a table that another refers to. *)
Definition apply_op (op : SchemaOp) (s : Schema) : option Schema :=
  match op with
  | CreateTable name columns unique =>
      let t := mkTableDef columns unique in
      if bool_decide (sm_tables s !! name = None) && forallb (ref_known (<[name := t]> (sm_tables s))) columns
         && forallb (λ u, names_in u.2 t) unique
      then Some (mkSchema (<[name := t]> (sm_tables s)) (sm_indexes s)) else None
  | DropTable name =>
      if bool_decide (is_Some (sm_tables s !! name)) &&
         bool_decide (map_Forall (λ _ t, refers_to name t = false) (delete name (sm_tables s)))
      then Some (mkSchema (delete name (sm_tables s)) (filter (λ p, ix_table p.2 ≠ name) (sm_indexes s)))
      else None
  | AddColumn table c =>
      match sm_tables s !! table with
      | Some t =>
          if negb (str_in (co_name c) (column_names t)) && ref_known (sm_tables s) c
             && (co_nullable c || bool_decide (is_Some (co_default c)))
          then Some (mkSchema (<[table := mkTableDef (td_columns t ++ [c]) (td_unique t)]> (sm_tables s)) (sm_indexes s))
          else None
      | None => None
      end
  | DropColumn table name =>
      match sm_tables s !! table with
      | Some t =>
          if str_in name (column_names t)
             && forallb (λ u, negb (str_in name u.2)) (td_unique t)
             && forallb (λ c, negb (String.eqb (co_name c) name && co_primary c)) (td_columns t)
             && bool_decide (map_Forall (λ _ i, ix_table i = table → str_in name (ix_columns i) = false) (sm_indexes s))
          then Some (mkSchema (<[table := mkTableDef (List.filter (λ c, negb (String.eqb (co_name c) name)) (td_columns t))
                                                     (td_unique t)]> (sm_tables s)) (sm_indexes s))
          else None
      | None => None
      end
  | CreateIndex name table columns =>
      match sm_tables s !! table with
      | Some t =>
          if bool_decide (sm_indexes s !! name = None) && names_in columns t
          then Some (mkSchema (sm_tables s) (<[name := mkIndexDef table columns]> (sm_indexes s)))
          else None
      | None => None
      end
  | DropIndex name table =>
      match sm_indexes s !! name with
      | Some i => if String.eqb (ix_table i) table then Some (mkSchema (sm_tables s) (delete name (sm_indexes s))) else None
      | None => None
      end
  | Execute _ => Some s
  end.

Fixpoint apply_ops (ops : list SchemaOp) (s : Schema) : option Schema :=
  match ops with
  | [] => Some s
  | op :: ops => match apply_op op s with Some s' => apply_ops ops s' | None => None end
  end.

(** A database engine that runs the operations, and the catalogue it shows. *)
Class SchemaEngine := {
  EngineDb : Type;
  en_schema : EngineDb → Schema;
  en_run : SchemaOp → EngineDb → option EngineDb
}.
Class SchemaEngineLaws `{!SchemaEngine} := {
  engine_accepts : ∀ op d s', apply_op op (en_schema d) = Some s' → ∃ d', en_run op d = Some d' ∧ en_schema d' = s'
}.
Fixpoint run_ops `{!SchemaEngine} (ops : list SchemaOp) (d : EngineDb) : option EngineDb :=
  match ops with
  | [] => Some d
  | op :: ops => match en_run op d with Some d' => run_ops ops d' | None => None end
  end.

Lemma run_ops_follow `{!SchemaEngine, !SchemaEngineLaws} ops : ∀ d s',
  apply_ops ops (en_schema d) = Some s' → ∃ d', run_ops ops d = Some d' ∧ en_schema d' = s'.
Proof.
  induction ops as [|op ops IH]; intros d s' Ha; simpl in *; [injection Ha as <-; eauto|].
  destruct (apply_op op (en_schema d)) as [s1|] eqn:E; [|done].
  apply engine_accepts in E as (d1 & -> & <-). by apply IH.
Qed.

(** ** Undoing an operation *)

Definition undo (op : SchemaOp) : option SchemaOp :=
  match op with
  | CreateTable name _ _ => Some (DropTable name)
  | AddColumn table c => Some (DropColumn table (co_name c))
  | CreateIndex name table _ => Some (DropIndex name table)
  | _ => None
  end.
(** Operations that only build. *)
Definition builds (op : SchemaOp) : bool :=
  match op with
  | CreateTable _ _ _ | CreateIndex _ _ _ | Execute _ => true
  | AddColumn _ c => negb (co_primary c)
  | _ => false
  end.
Definition undo_all (ops : list SchemaOp) : list SchemaOp := reverse (omap undo ops).

(** What a schema keeps: indexes are on columns of tables that are there, constraints on
    columns of their table, and references go to tables that are there. *)
Record well_formed (s : Schema) : Prop := {
  wf_index : ∀ n i, sm_indexes s !! n = Some i →
    ∃ t, sm_tables s !! ix_table i = Some t ∧ names_in (ix_columns i) t = true;
  wf_unique : ∀ n t, sm_tables s !! n = Some t → forallb (λ u, names_in u.2 t) (td_unique t) = true;
  wf_ref : ∀ n t, sm_tables s !! n = Some t → forallb (ref_known (sm_tables s)) (td_columns t) = true
}.

Lemma empty_well_formed : well_formed empty_schema.
Proof. split; intros ? ? H; simpl in H; by rewrite lookup_empty in H. Qed.

Lemma names_in_spec l t : names_in l t = true ↔ ∀ c, c ∈ l → c ∈ column_names t.
Proof.
  unfold names_in. rewrite forallb_forall. setoid_rewrite str_in_true. by setoid_rewrite list_elem_of_In.
Qed.
Lemma names_in_mono l t t' : (∀ c, c ∈ column_names t → c ∈ column_names t') → names_in l t = true → names_in l t' = true.
Proof. rewrite !names_in_spec. auto. Qed.
Lemma ref_known_mono tables tables' c :
  (∀ n, is_Some (tables !! n) → is_Some (tables' !! n)) → ref_known tables c = true → ref_known tables' c = true.
Proof. unfold ref_known. destruct (co_ref c); [|done]. rewrite !bool_decide_eq_true. auto. Qed.
Lemma forallb_mono {A} (p q : A → bool) l : (∀ x, p x = true → q x = true) → forallb p l = true → forallb q l = true.
Proof. rewrite !forallb_forall. auto. Qed.

(** The tables of a schema that grows. *)
Lemma well_formed_tables s name t :
  well_formed s →
  (∀ t0, sm_tables s !! name = Some t0 → ∀ c, c ∈ column_names t0 → c ∈ column_names t) →
  forallb (λ u, names_in u.2 t) (td_unique t) = true →
  forallb (ref_known (<[name := t]> (sm_tables s))) (td_columns t) = true →
  well_formed (mkSchema (<[name := t]> (sm_tables s)) (sm_indexes s)).
Proof.
  intros [Hi Hu Hr] Hgrow Hut Hrt. split; simpl.
  - intros n i Hn. destruct (Hi n i Hn) as (t0 & Ht0 & Hin). destruct (decide (ix_table i = name)) as [<-|Hne].
    + exists t. rewrite lookup_insert_eq. split; [done|]. by apply (names_in_mono _ t0); [apply Hgrow|].
    + exists t0. by rewrite lookup_insert_ne.
  - intros n t1 [[<- <-]|[Hne Ht1]]%lookup_insert_Some; [done|]. by eapply Hu.
  - intros n t1 [[<- <-]|[Hne Ht1]]%lookup_insert_Some; [done|].
    eapply forallb_mono, Hr, Ht1. intros c. apply ref_known_mono. intros m Hm.
    destruct (decide (m = name)) as [->|]; [by rewrite lookup_insert_eq|by rewrite lookup_insert_ne].
Qed.

Lemma column_names_app t c : column_names (mkTableDef (td_columns t ++ [c]) (td_unique t)) = column_names t ++ [co_name c].
Proof. unfold column_names. simpl. by rewrite fmap_app. Qed.
Lemma filter_append_drop cols c : co_name c ∉ (co_name <$> cols) →
  List.filter (λ d, negb (String.eqb (co_name d) (co_name c))) (cols ++ [c]) = cols.
Proof.
  intros Hc. rewrite List.filter_app. simpl. rewrite String.eqb_refl. simpl. rewrite app_nil_r.
  induction cols as [|d cols IH]; simpl; [done|]. rewrite fmap_cons, not_elem_of_cons in Hc. destruct Hc as [Hne Hc].
  destruct (String.eqb_spec (co_name d) (co_name c)); [congruence|]. simpl. by rewrite IH.
Qed.

Lemma undo_create_table s s' name cols uq : well_formed s → apply_op (CreateTable name cols uq) s = Some s' →
  well_formed s' ∧ apply_op (DropTable name) s' = Some s.
Proof.
  intros Hwf H. simpl in H. case_match eqn:Hc; [|done]. injection H as <-.
  apply andb_prop in Hc as [[Hn Hrefs]%andb_prop Hu]. apply bool_decide_eq_true in Hn. split.
  { apply well_formed_tables; [done|intros t0 Ht0; congruence|done|done]. }
  destruct Hwf as [Hi _ Hr]. simpl. rewrite lookup_insert_eq. rewrite delete_insert_eq, (delete_id _ _ Hn).
  rewrite bool_decide_eq_true_2 by done. rewrite bool_decide_eq_true_2; simpl.
  - f_equal. destruct s as [tables indexes]; simpl in *. f_equal. apply map_filter_id. intros n i Hni E.
    destruct (Hi n i Hni) as (t & Ht & _). simpl in E. subst name. congruence.
  - intros n t Ht. unfold refers_to. apply not_true_iff_false. rewrite existsb_exists. intros (c & Hc & Hcr).
    apply bool_decide_eq_true in Hcr. specialize (Hr n t Ht). apply (proj1 (forallb_forall _ _) Hr) in Hc.
    unfold ref_known in Hc. rewrite Hcr in Hc. apply bool_decide_eq_true in Hc. rewrite Hn in Hc. by destruct Hc.
Qed.

Lemma undo_add_column s s' table c : well_formed s → co_primary c = false → apply_op (AddColumn table c) s = Some s' →
  well_formed s' ∧ apply_op (DropColumn table (co_name c)) s' = Some s.
Proof.
  intros Hwf Hp H. simpl in H. destruct (sm_tables s !! table) as [t|] eqn:Ht; [|done]. case_match eqn:Hc; [|done].
  injection H as <-. apply andb_prop in Hc as [[Hn Href]%andb_prop _]. apply negb_true_iff, str_in_false in Hn.
  set (t' := mkTableDef _ _). pose proof (wf_unique s Hwf _ _ Ht) as Hut. pose proof (wf_ref s Hwf _ _ Ht) as Hrt.
  assert (∀ d, d ∈ column_names t → d ∈ column_names t') as Hgrow.
  { intros d Hd. unfold t'. rewrite column_names_app. set_solver. }
  assert (∀ n, is_Some (sm_tables s !! n) → is_Some (<[table := t']> (sm_tables s) !! n)) as Htab.
  { intros m Hm. destruct (decide (m = table)) as [->|]; [by rewrite lookup_insert_eq|by rewrite lookup_insert_ne]. }
  split.
  { apply well_formed_tables; [done|intros t0 Ht0; by simplify_eq| |].
    - eapply forallb_mono, Hut. intros u. by apply names_in_mono.
    - simpl. rewrite forallb_app. apply andb_true_iff. split.
      + eapply forallb_mono, Hrt. intros d. by apply ref_known_mono.
      + simpl. rewrite andb_true_r. by eapply ref_known_mono. }
  simpl. rewrite lookup_insert_eq, insert_insert_eq. fold t'.
  replace (str_in (co_name c) (column_names t')) with true
    by (symmetry; apply str_in_true; unfold t'; rewrite column_names_app; set_solver).
  assert (forallb (λ u, negb (str_in (co_name c) u.2)) (td_unique t) = true) as Hunused.
  { eapply forallb_mono, Hut. intros u Hu. apply negb_true_iff, str_in_false. intros Hcu.
      by apply Hn, (proj1 (names_in_spec u.2 t) Hu). }
  replace (forallb _ (td_columns t ++ [c])) with true.
  2:{ symmetry. rewrite forallb_app. simpl. rewrite Hp, andb_false_r. simpl. rewrite andb_true_r.
      apply forallb_forall. intros d Hd. destruct (String.eqb_spec (co_name d) (co_name c)) as [E|]; [|done].
      exfalso. apply Hn. rewrite <-E. apply list_elem_of_fmap_2, list_elem_of_In, Hd. }
  rewrite bool_decide_eq_true_2; simpl.
  - rewrite Hunused, filter_append_drop by done. simpl. destruct s as [tables indexes]; simpl in *. do 2 f_equal.
    rewrite insert_id; [done|]. rewrite Ht. by destruct t.
  - intros n i Hi E. destruct (wf_index s Hwf n i Hi) as (t0 & Ht0 & Hin). rewrite E, Ht in Ht0. injection Ht0 as <-.
    apply str_in_false. intros Hc. by apply Hn, (proj1 (names_in_spec (ix_columns i) t) Hin).
Qed.

Lemma undo_create_index s s' name table cols : well_formed s → apply_op (CreateIndex name table cols) s = Some s' →
  well_formed s' ∧ apply_op (DropIndex name table) s' = Some s.
Proof.
  intros [Hi Hu Hr] H. simpl in H. destruct (sm_tables s !! table) as [t|] eqn:Ht; [|done]. case_match eqn:Hc; [|done].
  injection H as <-. apply andb_prop in Hc as [Hn Hin]. apply bool_decide_eq_true in Hn. split.
  - split; simpl; [|done..]. intros n i [[<- <-]|[Hne Hni]]%lookup_insert_Some; [by exists t|by apply (Hi n)].
  - simpl. rewrite lookup_insert_eq. simpl. rewrite String.eqb_refl, delete_insert_id by done. by destruct s.
Qed.

(** Undoing what was built, last first, gives the schema back. *)
Lemma undo_ops ops : ∀ s s', well_formed s → forallb builds ops = true → apply_ops ops s = Some s' →
  well_formed s' ∧ apply_ops (undo_all ops) s' = Some s.
Proof.
  assert (∀ a b s s1 s2, apply_ops a s = Some s1 → apply_ops b s1 = Some s2 → apply_ops (a ++ b) s = Some s2) as Happ.
  { intros a. induction a as [|op a IH]; intros b s s1 s2 Ha Hb; simpl in *; [by injection Ha as ->|].
    destruct (apply_op op s); [|done]. by eapply IH. }
  induction ops as [|op ops IH]; intros s s' Hwf Hb H; simpl in *; [by injection H as <-|].
  apply andb_prop in Hb as [Hop Hb]. destruct (apply_op op s) as [s1|] eqn:E; [|done].
  assert (well_formed s1 ∧ match undo op with Some op' => apply_op op' s1 = Some s | None => s1 = s end) as [Hwf1 Hundo].
  { destruct op; try done; simpl.
    - by eapply undo_create_table.
    - eapply undo_add_column; [done|by apply negb_true_iff|done].
    - by eapply undo_create_index.
    - simpl in E. by injection E as <-. }
  destruct (IH _ _ Hwf1 Hb H) as [Hwf' Hrest]. split; [done|]. unfold undo_all in *. simpl.
  destruct (undo op) as [op'|]; [|by subst]. rewrite reverse_cons. eapply Happ; [done|]. simpl. by rewrite Hundo.
Qed.
