(* ===== verification/Migrations.v ===== *)
(** The schema migrations, [migrations/versions/0001_init.py] to [0012_perf_indexes.py],
    as the operations they call; the tables [app/db/models.py] declares; and the room
    [migrations/env.py] makes for the revision identifiers. *)

From S2P Require Import Prelude PyText Models AdminRows Schema.
Open Scope Z_scope.

Definition upgrade_0001 : list SchemaOp :=
  [CreateTable "api_keys"
     [primary_key "id";
      not_null "api_key_ciphertext" SqlLargeBinary;
      with_unique (not_null "api_key_hash" (SqlString 64));
      not_null "api_key_last4" (SqlString 4);
      null "name" (SqlString 255);
      with_default "free" (not_null "plan_type" (SqlString 32));
      with_default "true" (not_null "is_active" SqlBoolean);
      with_default "5" (not_null "daily_quota" SqlInteger);
      with_default "0" (not_null "daily_usage" SqlInteger);
      null "quota_reset_at" SqlDate;
      with_default "2" (not_null "max_concurrent" SqlInteger);
      with_default "0" (not_null "current_concurrent" SqlInteger);
      with_default "10" (not_null "rate_limit_per_min" SqlInteger);
      null "rate_limit_reset_at" (SqlDateTime true);
      null "cooldown_until" (SqlDateTime true);
      with_default "0" (not_null "total_requests" SqlInteger);
      null "last_used_at" (SqlDateTime true);
      with_default "CURRENT_TIMESTAMP" (not_null "created_at" (SqlDateTime true));
      with_default "active" (not_null "status" (SqlString 32))]
     [];
   CreateIndex "idx_api_keys_active" "api_keys" ["is_active"; "status"];
   CreateIndex "idx_api_keys_cooldown" "api_keys" ["cooldown_until"];
   CreateIndex "idx_api_keys_quota_reset" "api_keys" ["quota_reset_at"];
   CreateTable "clients"
     [primary_key "id";
      with_unique (not_null "name" (SqlString 255));
      with_unique (not_null "token_hash" (SqlString 64));
      with_default "true" (not_null "is_active" SqlBoolean);
      null "daily_quota" SqlInteger;
      with_default "0" (not_null "daily_usage" SqlInteger);
      null "quota_reset_at" SqlDate;
      with_default "60" (not_null "rate_limit_per_min" SqlInteger);
      with_default "10" (not_null "max_concurrent" SqlInteger);
      with_default "CURRENT_TIMESTAMP" (not_null "created_at" (SqlDateTime true));
      null "last_used_at" (SqlDateTime true)]
     [];
   CreateIndex "idx_clients_active" "clients" ["is_active"];
   CreateTable "request_logs"
     [primary_key "id";
      not_null "request_id" (SqlString 64);
      with_foreign_key "clients" false (null "client_id" SqlInteger);
      with_foreign_key "api_keys" false (null "api_key_id" SqlInteger);
      not_null "endpoint" (SqlString 32);
      not_null "method" (SqlString 16);
      null "status_code" SqlInteger;
      null "response_time_ms" SqlInteger;
      null "success" SqlBoolean;
      null "error_message" SqlText;
      null "idempotency_key" (SqlString 128);
      with_default "CURRENT_TIMESTAMP" (not_null "created_at" (SqlDateTime true))]
     [];
   CreateIndex "idx_request_logs_request_id" "request_logs" ["request_id"];
   CreateIndex "idx_request_logs_created_at" "request_logs" ["created_at"];
   CreateTable "idempotency_records"
     [primary_key "id";
      with_foreign_key "clients" false (not_null "client_id" SqlInteger);
      not_null "idempotency_key" (SqlString 128);
      not_null "request_hash" (SqlString 64);
      not_null "status" (SqlString 32);
      null "response_status_code" SqlInteger;
      null "response_body" SqlText;
      with_default "CURRENT_TIMESTAMP" (not_null "created_at" (SqlDateTime true));
      null "expires_at" (SqlDateTime true)]
     [("uq_idempotency_client_key", ["client_id"; "idempotency_key"])];
   CreateIndex "idx_idempotency_expires_at" "idempotency_records" ["expires_at"];
   CreateTable "audit_logs"
     [primary_key "id";
      not_null "actor_type" (SqlString 32);
      null "actor_id" (SqlString 255);
      not_null "action" (SqlString 255);
      null "resource_type" (SqlString 64);
      null "resource_id" (SqlString 255);
      null "ip" (SqlString 64);
      null "user_agent" (SqlString 512);
      with_default "CURRENT_TIMESTAMP" (not_null "created_at" (SqlDateTime true))]
     [];
   CreateIndex "idx_audit_logs_created_at" "audit_logs" ["created_at"]].

Definition downgrade_0001 : list SchemaOp :=
  [DropIndex "idx_audit_logs_created_at" "audit_logs";
   DropTable "audit_logs";
   DropIndex "idx_idempotency_expires_at" "idempotency_records";
   DropTable "idempotency_records";
   DropIndex "idx_request_logs_created_at" "request_logs";
   DropIndex "idx_request_logs_request_id" "request_logs";
   DropTable "request_logs";
   DropIndex "idx_clients_active" "clients";
   DropTable "clients";
   DropIndex "idx_api_keys_quota_reset" "api_keys";
   DropIndex "idx_api_keys_cooldown" "api_keys";
   DropIndex "idx_api_keys_active" "api_keys";
   DropTable "api_keys"].

Definition upgrade_0002 : list SchemaOp :=
  [AddColumn "request_logs" (with_default "0" (not_null "retry_count" SqlInteger))].

Definition downgrade_0002 : list SchemaOp :=
  [DropColumn "request_logs" "retry_count"].

Definition upgrade_0003 : list SchemaOp :=
  [AddColumn "api_keys" (null "account_username" (SqlString 255));
   AddColumn "api_keys" (null "account_password_ciphertext" SqlLargeBinary);
   AddColumn "api_keys" (null "account_verified_at" (SqlDateTime true))].

Definition downgrade_0003 : list SchemaOp :=
  [DropColumn "api_keys" "account_verified_at";
   DropColumn "api_keys" "account_password_ciphertext";
   DropColumn "api_keys" "account_username"].

Definition upgrade_0004 : list SchemaOp :=
  [AddColumn "api_keys" (null "client_id" SqlInteger);
   CreateIndex "ix_api_keys_client_id" "api_keys" ["client_id"]].

Definition downgrade_0004 : list SchemaOp :=
  [DropIndex "ix_api_keys_client_id" "api_keys";
   DropColumn "api_keys" "client_id"].

Definition upgrade_0005 : list SchemaOp :=
  [AddColumn "request_logs" (null "error_details" SqlText)].

Definition downgrade_0005 : list SchemaOp :=
  [DropColumn "request_logs" "error_details"].

Definition upgrade_0006 : list SchemaOp :=
  [CreateTable "upstream_resource_bindings"
     [primary_key "id";
      with_foreign_key "clients" false (not_null "client_id" SqlInteger);
      with_foreign_key "api_keys" false (not_null "api_key_id" SqlInteger);
      not_null "resource_type" (SqlString 32);
      not_null "resource_id" (SqlString 128);
      with_default "CURRENT_TIMESTAMP" (not_null "created_at" (SqlDateTime true));
      null "expires_at" (SqlDateTime true)]
     [("uq_upstream_resource_binding", ["client_id"; "resource_type"; "resource_id"])];
   CreateIndex "idx_upstream_resource_binding_lookup" "upstream_resource_bindings" ["client_id"; "resource_type"; "resource_id"];
   CreateIndex "idx_upstream_resource_binding_expires_at" "upstream_resource_bindings" ["expires_at"]].

Definition downgrade_0006 : list SchemaOp :=
  [DropIndex "idx_upstream_resource_binding_expires_at" "upstream_resource_bindings";
   DropIndex "idx_upstream_resource_binding_lookup" "upstream_resource_bindings";
   DropTable "upstream_resource_bindings"].

Definition upgrade_0007 : list SchemaOp :=
  [AddColumn "clients" (with_default "active" (not_null "status" (SqlString 32)));
   Execute ClientStatusFromActive].

Definition downgrade_0007 : list SchemaOp :=
  [DropColumn "clients" "status"].

Definition upgrade_0008 : list SchemaOp :=
  [CreateTable "credit_snapshots"
     [primary_key "id";
      with_foreign_key "api_keys" true (not_null "api_key_id" SqlInteger);
      not_null "remaining_credits" SqlInteger;
      not_null "plan_credits" SqlInteger;
      null "billing_period_start" (SqlDateTime true);
      null "billing_period_end" (SqlDateTime true);
      with_default "CURRENT_TIMESTAMP" (not_null "snapshot_at" (SqlDateTime true));
      with_default "true" (not_null "fetch_success" SqlBoolean);
      null "error_message" SqlText]
     [];
   CreateIndex "idx_credit_snapshots_api_key_id" "credit_snapshots" ["api_key_id"];
   CreateIndex "idx_credit_snapshots_snapshot_at" "credit_snapshots" ["snapshot_at"];
   AddColumn "api_keys" (null "last_credit_snapshot_id" SqlInteger);
   AddColumn "api_keys" (null "last_credit_check_at" (SqlDateTime true));
   AddColumn "api_keys" (null "cached_remaining_credits" SqlInteger);
   AddColumn "api_keys" (null "cached_plan_credits" SqlInteger);
   AddColumn "api_keys" (null "next_refresh_at" (SqlDateTime true))].

Definition downgrade_0008 : list SchemaOp :=
  [DropColumn "api_keys" "next_refresh_at";
   DropColumn "api_keys" "cached_plan_credits";
   DropColumn "api_keys" "cached_remaining_credits";
   DropColumn "api_keys" "last_credit_check_at";
   DropColumn "api_keys" "last_credit_snapshot_id";
   DropIndex "idx_credit_snapshots_snapshot_at" "credit_snapshots";
   DropIndex "idx_credit_snapshots_api_key_id" "credit_snapshots";
   DropTable "credit_snapshots"].

Definition upgrade_0009 : list SchemaOp :=
  [CreateIndex "idx_credit_snapshots_api_key_id_snapshot_at" "credit_snapshots" ["api_key_id"; "snapshot_at"];
   CreateIndex "idx_api_keys_next_refresh_at" "api_keys" ["next_refresh_at"]].

Definition downgrade_0009 : list SchemaOp :=
  [DropIndex "idx_api_keys_next_refresh_at" "api_keys";
   DropIndex "idx_credit_snapshots_api_key_id_snapshot_at" "credit_snapshots"].

Definition upgrade_0010 : list SchemaOp :=
  [AddColumn "api_keys" (with_default "firecrawl" (not_null "provider" (SqlString 32)));
   CreateIndex "idx_api_keys_provider" "api_keys" ["provider"]].

Definition downgrade_0010 : list SchemaOp :=
  [DropIndex "idx_api_keys_provider" "api_keys";
   DropColumn "api_keys" "provider"].

Definition upgrade_0011 : list SchemaOp :=
  [AddColumn "clients" (with_default "3" (not_null "max_retries" SqlInteger));
   Execute ZeroKeyQuotas;
   Execute DetachKeys].

Definition downgrade_0011 : list SchemaOp :=
  [DropColumn "clients" "max_retries"].

Definition upgrade_0012 : list SchemaOp :=
  [CreateIndex "ix_request_logs_created_at" "request_logs" ["created_at"];
   CreateIndex "ix_request_logs_client_created" "request_logs" ["client_id"; "created_at"];
   CreateIndex "ix_request_logs_request_id" "request_logs" ["request_id"];
   CreateIndex "ix_api_keys_next_refresh_at" "api_keys" ["next_refresh_at"];
   CreateIndex "ix_api_keys_status_active" "api_keys" ["is_active"; "status"];
   CreateIndex "ix_upstream_bindings_expires" "upstream_resource_bindings" ["expires_at"];
   CreateIndex "ix_idempotency_expires" "idempotency_records" ["expires_at"]].

Definition downgrade_0012 : list SchemaOp :=
  [DropIndex "ix_idempotency_expires" "idempotency_records";
   DropIndex "ix_upstream_bindings_expires" "upstream_resource_bindings";
   DropIndex "ix_api_keys_status_active" "api_keys";
   DropIndex "ix_api_keys_next_refresh_at" "api_keys";
   DropIndex "ix_request_logs_request_id" "request_logs";
   DropIndex "ix_request_logs_client_created" "request_logs";
   DropIndex "ix_request_logs_created_at" "request_logs"].

(** ** The version graph *)

Record Revision := mkRevision {
  rv_revision : string;
  rv_down : option string;
  rv_upgrade : list SchemaOp;
  rv_downgrade : list SchemaOp
}.
Definition revisions : list Revision :=
  [mkRevision "0001_init" None upgrade_0001 downgrade_0001;
   mkRevision "0002_add_retry_count_to_request_logs" (Some "0001_init") upgrade_0002 downgrade_0002;
   mkRevision "0003_add_account_fields_to_api_keys" (Some "0002_add_retry_count_to_request_logs") upgrade_0003 downgrade_0003;
   mkRevision "0004_add_client_id_to_api_keys" (Some "0003_add_account_fields_to_api_keys") upgrade_0004 downgrade_0004;
   mkRevision "0005_add_error_details_to_request_logs" (Some "0004_add_client_id_to_api_keys") upgrade_0005 downgrade_0005;
   mkRevision "0006_add_upstream_resource_bindings" (Some "0005_add_error_details_to_request_logs") upgrade_0006 downgrade_0006;
   mkRevision "0007_add_status_to_clients" (Some "0006_add_upstream_resource_bindings") upgrade_0007 downgrade_0007;
   mkRevision "0008_add_credit_monitoring" (Some "0007_add_status_to_clients") upgrade_0008 downgrade_0008;
   mkRevision "0009_add_credit_monitoring_indexes" (Some "0008_add_credit_monitoring") upgrade_0009 downgrade_0009;
   mkRevision "0010_add_provider_to_api_keys" (Some "0009_add_credit_monitoring_indexes") upgrade_0010 downgrade_0010;
   mkRevision "0011_unified_pool_client_retries" (Some "0010_add_provider_to_api_keys") upgrade_0011 downgrade_0011;
   mkRevision "0012_perf_indexes" (Some "0011_unified_pool_client_retries") upgrade_0012 downgrade_0012].

(** The revisions no other revision comes after. *)
Definition heads (l : list Revision) : list string :=
  rv_revision <$> List.filter (λ r, negb (existsb (λ r', bool_decide (rv_down r' = Some (rv_revision r))) l)) l.
(** [alembic upgrade head] from an empty database, and [alembic downgrade base]. *)
Definition upgrade_ops : list SchemaOp := l ← revisions; rv_upgrade l.
Definition downgrade_ops : list SchemaOp := l ← reverse revisions; rv_downgrade l.
Definition head_schema : Schema := default empty_schema (apply_ops upgrade_ops empty_schema).

(** The UPDATE statements on the rows. *)
Definition data_update (u : DataUpdate) (t : Tables) : Tables :=
  match u with
  | ClientStatusFromActive =>
      set_t_clients ((λ c, set_c_status (if c_is_active c then "active" else "disabled") c) <$> t_clients t) t
  | ZeroKeyQuotas => set_t_keys (set_k_daily_quota 0 <$> t_keys t) t
  | DetachKeys => set_t_keys (set_k_client_id None <$> t_keys t) t
  end.

(** ** The tables of the ORM *)

Definition orm_api_keys : TableDef := mkTableDef
  [primary_key "id";
   with_foreign_key "clients" false (null "client_id" SqlInteger);
   not_null "api_key_ciphertext" SqlLargeBinary;
   with_unique (not_null "api_key_hash" (SqlString 64));
   not_null "api_key_last4" (SqlString 4);
   null "account_username" (SqlString 255);
   null "account_password_ciphertext" SqlLargeBinary;
   null "account_verified_at" (SqlDateTime true);
   null "name" (SqlString 255);
   not_null "plan_type" (SqlString 32);
   not_null "is_active" SqlBoolean;
   not_null "daily_quota" SqlInteger;
   not_null "daily_usage" SqlInteger;
   null "quota_reset_at" SqlDate;
   not_null "max_concurrent" SqlInteger;
   not_null "current_concurrent" SqlInteger;
   not_null "rate_limit_per_min" SqlInteger;
   null "rate_limit_reset_at" (SqlDateTime true);
   null "cooldown_until" (SqlDateTime true);
   not_null "total_requests" SqlInteger;
   null "last_used_at" (SqlDateTime true);
   not_null "created_at" (SqlDateTime true);
   null "last_credit_snapshot_id" SqlInteger;
   null "last_credit_check_at" (SqlDateTime true);
   null "cached_remaining_credits" SqlInteger;
   null "cached_plan_credits" SqlInteger;
   null "next_refresh_at" (SqlDateTime true);
   not_null "provider" (SqlString 32);
   not_null "status" (SqlString 32)]
  [].
Definition orm_clients : TableDef := mkTableDef
  [primary_key "id";
   with_unique (not_null "name" (SqlString 255));
   with_unique (not_null "token_hash" (SqlString 64));
   null "token_ciphertext" SqlLargeBinary;
   not_null "is_active" SqlBoolean;
   null "daily_quota" SqlInteger;
   not_null "daily_usage" SqlInteger;
   null "quota_reset_at" SqlDate;
   not_null "rate_limit_per_min" SqlInteger;
   not_null "max_concurrent" SqlInteger;
   not_null "max_retries" SqlInteger;
   not_null "created_at" (SqlDateTime true);
   null "last_used_at" (SqlDateTime true);
   not_null "status" (SqlString 32)]
  [].
Definition orm_request_logs : TableDef := mkTableDef
  [primary_key "id";
   not_null "request_id" (SqlString 64);
   with_foreign_key "clients" false (null "client_id" SqlInteger);
   with_foreign_key "api_keys" false (null "api_key_id" SqlInteger);
   not_null "endpoint" (SqlString 32);
   not_null "method" (SqlString 16);
   null "status_code" SqlInteger;
   null "response_time_ms" SqlInteger;
   null "success" SqlBoolean;
   not_null "retry_count" SqlInteger;
   null "error_message" SqlText;
   null "error_details" SqlText;
   null "idempotency_key" (SqlString 128);
   not_null "created_at" (SqlDateTime true)]
  [].
Definition orm_credit_snapshots : TableDef := mkTableDef
  [primary_key "id";
   with_foreign_key "api_keys" true (not_null "api_key_id" SqlInteger);
   not_null "remaining_credits" SqlInteger;
   not_null "plan_credits" SqlInteger;
   null "billing_period_start" (SqlDateTime true);
   null "billing_period_end" (SqlDateTime true);
   not_null "snapshot_at" (SqlDateTime true);
   not_null "fetch_success" SqlBoolean;
   null "error_message" SqlText]
  [].
Definition orm_idempotency_records : TableDef := mkTableDef
  [primary_key "id";
   with_foreign_key "clients" false (not_null "client_id" SqlInteger);
   not_null "idempotency_key" (SqlString 128);
   not_null "request_hash" (SqlString 64);
   not_null "status" (SqlString 32);
   null "response_status_code" SqlInteger;
   null "response_body" SqlText;
   not_null "created_at" (SqlDateTime true);
   null "expires_at" (SqlDateTime true)]
  [("uq_idempotency_client_key", ["client_id"; "idempotency_key"])].
Definition orm_upstream_resource_bindings : TableDef := mkTableDef
  [primary_key "id";
   with_foreign_key "clients" false (not_null "client_id" SqlInteger);
   with_foreign_key "api_keys" false (not_null "api_key_id" SqlInteger);
   not_null "resource_type" (SqlString 32);
   not_null "resource_id" (SqlString 128);
   not_null "created_at" (SqlDateTime true);
   null "expires_at" (SqlDateTime true)]
  [("uq_upstream_resource_binding", ["client_id"; "resource_type"; "resource_id"])].
Definition orm_audit_logs : TableDef := mkTableDef
  [primary_key "id";
   not_null "actor_type" (SqlString 32);
   null "actor_id" (SqlString 255);
   not_null "action" (SqlString 255);
   null "resource_type" (SqlString 64);
   null "resource_id" (SqlString 255);
   null "ip" (SqlString 64);
   null "user_agent" (SqlString 512);
   not_null "created_at" (SqlDateTime true)]
  [].
Definition orm_tables : list (string * TableDef) :=
  [("api_keys", orm_api_keys); ("clients", orm_clients); ("request_logs", orm_request_logs);
   ("credit_snapshots", orm_credit_snapshots); ("idempotency_records", orm_idempotency_records);
   ("upstream_resource_bindings", orm_upstream_resource_bindings); ("audit_logs", orm_audit_logs)].

(** ** [migrations/env.py]: the column for the revision *)

(** [_ensure_alembic_version_column_capacity]: what it does to the version table, given
    the dialect and the answer about the column ([None]: no such table; [Some None]: no
    maximum). *)
Inductive VersionTable := LeaveIt | CreateWide | WidenIt.
Definition _ensure_alembic_version_column_capacity (dialect : string) (row : option (option Z)) : VersionTable :=
  if negb (String.eqb dialect "postgresql") then LeaveIt
  else match row with
       | None => CreateWide
       | Some max_len => match max_len with
                         | Some n => if n <? 64 then WidenIt else LeaveIt
                         | None => LeaveIt
                         end
       end.
(** The length the column then has room for. *)
Definition version_capacity (row : option (option Z)) (a : VersionTable) : option Z :=
  match a with
  | CreateWide | WidenIt => Some 255
  | LeaveIt => match row with Some max_len => max_len | None => None end
  end.
