(* ===== verification/MigrationsProps.v ===== *)
(** The migrations build the schema step by step, each can be undone, and what they
    reach is what the ORM declares, up to two columns. *)

From S2P Require Import Prelude PyText Models Schema Migrations.
Open Scope Z_scope.

(** A column as the ORM declares it is in the database: name, type, nullability, key,
    uniqueness and reference. *)
Definition agrees (s : Schema) (table : string) (c : Column) : bool :=
  match sm_tables s !! table with
  | Some t => existsb (λ d,
      String.eqb (co_name d) (co_name c) && bool_decide (co_type d = co_type c) &&
      Bool.eqb (co_nullable d) (co_nullable c) && Bool.eqb (co_primary d) (co_primary c) &&
      Bool.eqb (co_unique d) (co_unique c) && bool_decide (co_ref d = co_ref c) &&
      Bool.eqb (co_cascade d) (co_cascade c)) (td_columns t)
  | None => false
  end.

(** The two columns of the ORM the migrations do not provide. *)
Definition unmigrated (table : string) (c : Column) : bool :=
  String.eqb table "clients" && String.eqb (co_name c) "token_ciphertext" ||
  String.eqb table "api_keys" && String.eqb (co_name c) "client_id".

Lemma forallb_in {A} (p : A → bool) l x : forallb p l = true → x ∈ l → p x = true.
Proof. intros Hl Hx. by apply (proj1 (forallb_forall _ _) Hl), list_elem_of_In. Qed.

Lemma found {A B} `{!EqDecision B} (o : option A) (f : A → B) u :
  match o with Some x => bool_decide (f x = u) | None => false end = true → ∃ x, o = Some x ∧ f x = u.
Proof. destruct o as [x|]; [|done]. intros H%bool_decide_eq_true. eauto. Qed.

Section Engine.
Context {EN : SchemaEngine} {EL : SchemaEngineLaws}.

(** C36. The migrations form one line of versions, and on every database that runs the
    operations as documented, [upgrade head] succeeds from an empty database and leaves
    the same schema.  That schema has each table and unique constraint of the ORM, and
    each column as the ORM declares it, except two: [clients.token_ciphertext], which
    the ORM selects and no migration creates, and [api_keys.client_id], which the
    migrations create without its foreign key. *)
Theorem upgrade_head_reaches_the_models d :
  en_schema d = empty_schema →
  heads revisions = ["0012_perf_indexes"] ∧
  (∃ d', run_ops upgrade_ops d = Some d' ∧ en_schema d' = head_schema) ∧
  (∀ name t, (name, t) ∈ orm_tables →
     (∃ t', sm_tables head_schema !! name = Some t' ∧ td_unique t' = td_unique t) ∧
     ∀ c, c ∈ td_columns t → agrees head_schema name c = negb (unmigrated name c)) ∧
  (∃ t, sm_tables head_schema !! "clients" = Some t ∧ "token_ciphertext" ∉ column_names t).
Proof.
  intros Hd. split; [vm_compute; reflexivity|]. split.
  { apply run_ops_follow. rewrite Hd. unfold head_schema.
    assert (is_Some (apply_ops upgrade_ops empty_schema)) as [s ->]; [|done]. vm_compute. by eexists. }
  split.
  - intros name t Ht.
    set (ok := λ p : string * TableDef,
      match sm_tables head_schema !! p.1 with
      | Some t' => bool_decide (td_unique t' = td_unique p.2)
      | None => false
      end && forallb (λ c, Bool.eqb (agrees head_schema p.1 c) (negb (unmigrated p.1 c))) (td_columns p.2)).
    assert (forallb ok orm_tables = true) as Hall by (vm_compute; reflexivity).
    apply (forallb_in _ _ _ Hall) in Ht. unfold ok in Ht. simpl in Ht. apply andb_prop in Ht as [Hu Hc]. split.
    + exact (found _ _ _ Hu).
    + intros c Hin. by apply (forallb_in _ _ _ Hc), Bool.eqb_prop in Hin.
  - assert (∃ t, sm_tables head_schema !! "clients" = Some t ∧ str_in "token_ciphertext" (column_names t) = false) as (t & Ht & Hc).
    { vm_compute. eexists. split; reflexivity. }
    exists t. split; [done|]. by apply str_in_false.
Qed.

(** C37. Every migration can be undone: on any well-formed schema it applies to, its
    [downgrade] gives exactly that schema back. *)
Theorem downgrades_undo_upgrades r s s' :
  r ∈ revisions → well_formed s → apply_ops (rv_upgrade r) s = Some s' →
  well_formed s' ∧ apply_ops (rv_downgrade r) s' = Some s.
Proof.
  intros Hr Hwf H.
  set (ok := λ r, forallb builds (rv_upgrade r)).
  assert (forallb ok revisions = true) as Hb by (vm_compute; reflexivity).
  assert (Forall (λ r, rv_downgrade r = undo_all (rv_upgrade r)) revisions) as Hu by (repeat constructor).
  apply (forallb_in _ _ _ Hb) in Hr as Hbr. rewrite Forall_forall in Hu. rewrite (Hu r Hr). by apply undo_ops.
Qed.

(** On Postgres the column for the revision has room for every identifier. *)
Lemma revision_ids_fit row r :
  r ∈ revisions →
  match version_capacity row (_ensure_alembic_version_column_capacity "postgresql" row) with
  | Some n => slen (rv_revision r) ≤ n
  | None => True
  end.
Proof.
  intros Hr. assert (slen (rv_revision r) ≤ 64) as Hlen.
  { assert (forallb (λ r, slen (rv_revision r) <=? 64) revisions = true) as Hall by (vm_compute; reflexivity).
    by apply (forallb_in _ _ _ Hall), Z.leb_le in Hr. }
  revert Hlen. generalize (slen (rv_revision r)). intros len Hlen. destruct row as [[n|]|]; [|done|simpl; lia].
  change (match version_capacity (Some (Some n)) (if n <? 64 then WidenIt else LeaveIt) with Some m => len ≤ m | None => True end).
  destruct (Z.ltb_spec n 64); simpl; lia.
Qed.
End Engine.

(** A database that is only its catalogue. *)
#[export] Instance catalogue_engine : SchemaEngine := {| EngineDb := Schema; en_schema s := s; en_run := apply_op |}.
#[export] Instance catalogue_engine_laws : SchemaEngineLaws.
Proof. split. intros op d s' Ha. by exists s'. Qed.

Lemma upgrade_head_reaches_the_models_witness :
  en_schema empty_schema = empty_schema ∧ ∃ d', run_ops upgrade_ops empty_schema = Some d' ∧ en_schema d' = head_schema.
Proof.
  split; [reflexivity|]. apply (upgrade_head_reaches_the_models (EN:=catalogue_engine) empty_schema). reflexivity.
Defined.
Lemma downgrades_undo_upgrades_witness :
  ∃ s', apply_ops upgrade_0001 empty_schema = Some s' ∧ apply_ops downgrade_0001 s' = Some empty_schema.
Proof.
  destruct (apply_ops upgrade_0001 empty_schema) as [s'|] eqn:E.
  - exists s'. split; [reflexivity|].
    apply (downgrades_undo_upgrades (mkRevision "0001_init" None upgrade_0001 downgrade_0001) empty_schema s').
    + left.
    + apply empty_well_formed.
    + exact E.
  - exfalso. vm_compute in E. discriminate E.
Defined.
