(* ===== verification/DbSession.v ===== *)
(** [app/db/session.py]: which database the application opens, how, and whether it is
    ready; [migrations/env.py]: which database the migrations open; and
    [app/api/health.py]. *)

From S2P Require Import Prelude PyText Json Effects Config Schema Migrations.
Open Scope Z_scope.

(** ** Database addresses *)

(** [s.lstrip(chars)]. *)
Definition lstrip_chars (chars : string) : string → string :=
  lstrip_p (λ c, string_existsb (Ascii.eqb c) chars).
(** [path[1:3] == ":/"]. *)
Definition drive_path (path : string) : bool :=
  (slen path >=? 3) && String.eqb (slice_to 2 (slice_from 1 path)) ":/".

Definition build_database_url (config : AppConfig) : string :=
  let url := default "" (db_url (cfg_database config)) in
  if negb (String.eqb url "") then url
  else
    let path := replace_char "\" "/" (db_path (cfg_database config)) in
    if startswith "/" path then "sqlite:////" +:+ lstrip_chars "/" path
    else if drive_path path then "sqlite:///" +:+ path
    else "sqlite:///./" +:+ lstrip_chars "./" path.

(** [_database_url] of [migrations/env.py]; [environ] is [os.environ], and [load] what
    [load_config] gives. *)
Definition _database_url (environ : dict) (load : Res AppConfig) : Res string :=
  let var k := default "" (dict_get k environ) in
  if negb (String.eqb (var "FCAM_DATABASE_URL") "") then Ok (var "FCAM_DATABASE_URL")
  else if negb (String.eqb (var "FCAM_DATABASE__URL") "") then Ok (var "FCAM_DATABASE__URL")
  else
    let path := var "FCAM_DATABASE__PATH" in
    if negb (String.eqb path "") then
      Ok (if startswith "/" path then "sqlite:////" +:+ lstrip_chars "/" path else "sqlite:///" +:+ path)
    else match load with Ok cfg => Ok (build_database_url cfg) | Raise e => Raise e end.

(** ** The engine *)

Inductive PoolClass := EngineDefault | StaticPool | NullPool.
(** The arguments of [create_engine], and the pragmas of each new connection. *)
Record EngineArgs := mkEngineArgs {
  ea_url : string;
  ea_check_same_thread : option bool;
  ea_timeout : option Q;
  ea_pool : PoolClass;
  ea_pragmas : list string
}.
Definition sqlite_pragmas : list string :=
  ["PRAGMA journal_mode=WAL"; "PRAGMA synchronous=NORMAL"; "PRAGMA busy_timeout=5000"; "PRAGMA foreign_keys=ON"].
(** [_configure_sqlite]: the pragmas run in order until one is refused, and a refusal is
    passed over. *)
Fixpoint _configure_sqlite (accepts : string → bool) (pragmas : list string) : list string :=
  match pragmas with
  | [] => []
  | p :: pragmas => if accepts p then p :: _configure_sqlite accepts pragmas else []
  end.
Definition create_engine_from_config (config : AppConfig) : EngineArgs :=
  let url := build_database_url config in
  if startswith "sqlite" url
  then mkEngineArgs url (Some false) (Some 15%Q) (if contains ":memory:" url then StaticPool else NullPool) sqlite_pragmas
  else mkEngineArgs url None None EngineDefault [].

(** ** Readiness *)

(** A set, listed in the order [sorted] gives. *)
Definition REQUIRED_TABLES : list string :=
  ["api_keys"; "audit_logs"; "clients"; "credit_snapshots"; "idempotency_records"; "request_logs";
   "upstream_resource_bindings"].
(** What a connection shows: whether SELECT 1 works, the kind of database, and the
    tables ([None]: the query fails). *)
Record EngineProbe := mkEngineProbe { pb_select : bool; pb_backend : string; pb_tables : option (list string) }.
(** [str()] of a list of plain names. *)
Definition list_text (l : list string) : string := "[" +:+ join ", " ((λ s, "'" +:+ s +:+ "'") <$> l) +:+ "]".
Definition check_db_ready (p : EngineProbe) : bool * string :=
  if negb (pb_select p) then (false, "Database unavailable")
  else if String.eqb (pb_backend p) "sqlite" then
    match pb_tables p with
    | None => (false, "Database unavailable")
    | Some tables =>
        match List.filter (λ t, negb (str_in t tables)) REQUIRED_TABLES with
        | [] => (true, "ok")
        | missing => (false, "Database not initialized (missing tables: " +:+ list_text missing +:+ ")")
        end
    end
  else (true, "ok").

(** ** [app/api/health.py] *)

Definition is_set (s : option string) : bool := match s with Some v => negb (String.eqb v "") | None => false end.
Definition healthz : Json := JObj [("ok", JBool true)].
(** [redis]: no client, or whether it answers a ping. *)
Definition ready_issues (config : AppConfig) (secrets : Secrets) (db : EngineProbe) (redis : option bool) : list string :=
  (if sv_enable_control_plane (cfg_server config) && negb (is_set (sec_admin_token secrets))
   then ["Admin token not configured"] else []) ++
  (if (sv_enable_data_plane (cfg_server config) || sv_enable_control_plane (cfg_server config))
      && negb (is_set (sec_master_key secrets)) then ["Master key not configured"] else []) ++
  (let '(ok, message) := check_db_ready db in if ok : bool then [] else [message]) ++
  (if String.eqb (st_mode (cfg_state config)) "redis"
   then match redis with None => ["Redis not configured"] | Some false => ["Redis unavailable"] | Some true => [] end
   else []).
Definition readyz (config : AppConfig) (secrets : Secrets) (db : EngineProbe) (redis : option bool) : Res Json :=
  match ready_issues config secrets db redis with
  | [] => Ok (JObj [("ok", JBool true)])
  | (issue :: _) as issues =>
      Raise (EFcam (mkFcamErrorWith 503 "NOT_READY" issue None (Some (JObj [("issues", JList (JStr <$> issues))]))))
  end.

(** ** What holds of them *)

(** The file a SQLite address names: what follows the third slash, [./] in front of a
    relative path aside. *)
Definition sqlite_file (url : string) : option string :=
  if startswith "sqlite:///" url then
    let path := slice_from 10 url in
    Some (if startswith "./" path then slice_from 2 path else path)
  else None.

Definition with_path (p : string) (config : AppConfig) : Prop :=
  db_path (cfg_database config) = p ∧ is_set (db_url (cfg_database config)) = false.

Lemma startswith_app a b : startswith a (a +:+ b) = true.
Proof. induction a as [|c a IH]; [by destruct b|]. unfold startswith in *. simpl. by destruct (Ascii.ascii_dec c c). Qed.
Lemma startswith_char a c p : startswith (String a "") (String c p) = Ascii.eqb a c.
Proof.
  unfold startswith. simpl. destruct (Ascii.eqb_spec a c) as [<-|]; destruct (Ascii.ascii_dec _ _); try done. by destruct p.
Qed.
Lemma startswith_head a s c p : startswith (String a s) (String c p) = true → a = c.
Proof. unfold startswith. cbn [String.prefix]. by destruct (Ascii.ascii_dec a c). Qed.
Lemma replace_char_id a b s : string_forallb (λ c, negb (Ascii.eqb a c)) s = true → replace_char a b s = s.
Proof.
  unfold replace_char. induction s as [|c s IH]; [done|]. simpl. intros [Hc Hs]%andb_prop.
  apply negb_true_iff in Hc. by rewrite Hc, IH.
Qed.

(** The application and the migrations open the same file for a path given in
    FCAM_DATABASE__PATH that does not begin with a dot, holds no backslash and names no
    drive. *)
Lemma same_database environ load config p :
  with_path p config →
  dict_get "FCAM_DATABASE_URL" environ = None → dict_get "FCAM_DATABASE__URL" environ = None →
  dict_get "FCAM_DATABASE__PATH" environ = Some p → p ≠ "" →
  startswith "." p = false → string_forallb (λ c, negb (Ascii.eqb "\" c)) p = true → drive_path p = false →
  ∃ url, _database_url environ load = Ok url ∧ sqlite_file url = sqlite_file (build_database_url config).
Proof.
  intros [Hp Hu] H1 H2 H3 Hne Hdot Hback Hdrive. unfold _database_url. rewrite H1, H2, H3. simpl.
  apply String.eqb_neq in Hne. rewrite Hne. simpl. eexists. split; [reflexivity|].
  unfold build_database_url. rewrite Hp, replace_char_id by done.
  assert (String.eqb (default "" (db_url (cfg_database config))) "" = true) as ->.
  { unfold is_set in Hu. destruct (db_url (cfg_database config)) as [u|]; simpl; [|done]. by apply negb_false_iff in Hu. }
  simpl. rewrite Hdrive. destruct (startswith "/" p) eqn:Hs; [done|].
  assert (lstrip_chars "./" p = p) as ->.
  { unfold lstrip_chars. destruct p as [|c p]; [done|]. rewrite startswith_char in Hs, Hdot. simpl.
    by rewrite (Ascii.eqb_sym c "."), Hdot, (Ascii.eqb_sym c "/"), Hs. }
  unfold sqlite_file.
  change ("sqlite:///./" +:+ p) with ("sqlite:///" +:+ ("./" +:+ p)).
  rewrite !startswith_app, !(slice_from_app "sqlite:///").
  rewrite startswith_app, (slice_from_app "./"). destruct (startswith "./" p) eqn:Hd; [|done].
  exfalso. destruct p as [|c p]; [done|]. rewrite startswith_char in Hdot. apply Ascii.eqb_neq in Hdot.
  by apply startswith_head in Hd.
Qed.

(** For a path in the directory above they do not. *)
Example parent_directory environ load :
  dict_get "FCAM_DATABASE_URL" environ = None → dict_get "FCAM_DATABASE__URL" environ = None →
  dict_get "FCAM_DATABASE__PATH" environ = Some "../data/x.db" →
  sqlite_file <$> (match _database_url environ load with Ok u => Some u | Raise _ => None end) = Some (Some "../data/x.db") ∧
  sqlite_file ("sqlite:///./" +:+ lstrip_chars "./" "../data/x.db") = Some "data/x.db".
Proof. intros H1 H2 H3. unfold _database_url. rewrite H1, H2, H3. split; vm_compute; reflexivity. Qed.

(** The service is ready exactly when nothing it needs is missing: the tokens the
    enabled planes need are set, the database answers and (SQLite) has its tables, and
    Redis answers if it keeps the state.  Otherwise it answers 503 with the issues. *)
Theorem readyz_exact config secrets db redis :
  (readyz config secrets db redis = Ok (JObj [("ok", JBool true)]) ↔
   (sv_enable_control_plane (cfg_server config) = true → is_set (sec_admin_token secrets) = true) ∧
   (sv_enable_data_plane (cfg_server config) = true ∨ sv_enable_control_plane (cfg_server config) = true →
    is_set (sec_master_key secrets) = true) ∧
   (pb_select db = true ∧
    (pb_backend db = "sqlite" → ∃ tables, pb_tables db = Some tables ∧ ∀ t, t ∈ REQUIRED_TABLES → t ∈ tables)) ∧
   (st_mode (cfg_state config) = "redis" → redis = Some true)) ∧
  (∀ e, readyz config secrets db redis = Raise e →
     ∃ issue, e = EFcam (mkFcamErrorWith 503 "NOT_READY" issue None
       (Some (JObj [("issues", JList (JStr <$> ready_issues config secrets db redis))])))).
Proof.
  assert (readyz config secrets db redis = Ok (JObj [("ok", JBool true)]) ↔ ready_issues config secrets db redis = []) as Hr.
  { unfold readyz. destruct (ready_issues config secrets db redis); split; done. }
  split.
  2:{ unfold readyz. destruct (ready_issues config secrets db redis) as [|i l]; [done|]. intros e [= <-]. eauto. }
  rewrite Hr. unfold ready_issues. rewrite !app_nil.
  assert (∀ (b : bool) (x : string), (if b then [x] else []) = [] ↔ b = false) as Hif by (by intros [] x).
  rewrite !Hif, !andb_false_iff, !negb_false_iff, orb_false_iff.
  assert (∀ b : bool, b = false ↔ ¬ b = true) as Hb by (intros []; split; congruence).
  assert ((let '(ok, message) := check_db_ready db in if ok : bool then [] else [message]) = [] ↔
    pb_select db = true ∧
    (pb_backend db = "sqlite" → ∃ tables, pb_tables db = Some tables ∧ ∀ t, t ∈ REQUIRED_TABLES → t ∈ tables)) as ->.
  { unfold check_db_ready. destruct (pb_select db); cbn [negb]; [|naive_solver].
    destruct (String.eqb_spec (pb_backend db) "sqlite") as [E|]; [|naive_solver].
    destruct (pb_tables db) as [tables|]; [|naive_solver].
    destruct (List.filter (λ t, negb (str_in t tables)) REQUIRED_TABLES) as [|m l] eqn:Hf.
    - split; [intros _|done]. split; [done|]. intros _. exists tables. split; [done|]. intros t Ht.
      destruct (str_in t tables) eqn:Hin; [by apply str_in_true|]. exfalso. apply (List.in_nil (a:=t)).
      rewrite <-Hf. apply filter_In. split; [by apply list_elem_of_In|]. by rewrite Hin.
    - split; [intros [=]|]. intros [_ H]. destruct (H E) as (? & [= <-] & Hall). exfalso.
      assert (In m (m :: l)) as Hm by (by left). rewrite <-Hf in Hm. apply filter_In in Hm as [Hm Hn].
      apply negb_true_iff, str_in_false in Hn. apply Hn, Hall. by apply list_elem_of_In. }
  assert ((if String.eqb (st_mode (cfg_state config)) "redis"
           then match redis with None => ["Redis not configured"] | Some false => ["Redis unavailable"] | Some true => [] end
           else []) = [] ↔ (st_mode (cfg_state config) = "redis" → redis = Some true)) as ->.
  { destruct (String.eqb_spec (st_mode (cfg_state config)) "redis"); [|naive_solver]. destruct redis as [[]|]; naive_solver. }
  destruct (sv_enable_control_plane (cfg_server config)), (sv_enable_data_plane (cfg_server config)),
    (is_set (sec_admin_token secrets)), (is_set (sec_master_key secrets)); naive_solver.
Qed.
