(* ===== verification/MigrateTool.v ===== *)
(** [app/tools/migrate_sqlite_to_postgres.py]: copying a SQLite database into Postgres.
    The source is read only and appears as its schema and its rows; the target is any
    database with the operations of [Target].  Progress messages and timings are left out. *)

From S2P Require Import Prelude PyText Schema Migrations DbSession.
Open Scope Z_scope.

(** ** Rows *)

(** [CTime] is a reading of a clock without a time zone, which is what SQLite keeps of a
    [DateTime(timezone=True)] (in UTC, for the gateway writes UTC); [CInstant] is a
    moment, which is what Postgres keeps. *)
Inductive Cell :=
  | CNull | CBytes (b : string) | CInt (n : Z) | CText (s : string) | CBool (b : bool) | CDate (day : Z)
  | CTime (us : Z) | CInstant (us : Z).
#[export] Instance cell_eq_dec : EqDecision Cell.
Proof. solve_decision. Defined.
(** [dict(row)]. *)
Definition Row : Type := gmap string Cell.
Definition row_id (r : Row) : Z := match r !! "id" with Some (CInt n) => n | _ => 0 end.
Definition by_ids (l : list Row) : Prop := StronglySorted (λ r r', row_id r < row_id r') l.

(** The columns of a row that a SELECT names. *)
Definition project (columns : list string) (r : Row) : Row := filter (λ p, p.1 ∈ columns) r.

(** The source: its schema, and its rows in the order of their ids. *)
Record Source := mkSource { so_schema : Schema; so_rows : string → list Row }.
(** [SELECT count( )], and a SELECT of some columns: refused if the table or one of the
    columns is missing. *)
Definition count_source (s : Source) (table : string) : option Z :=
  if sm_tables (so_schema s) !! table then Some (Z.of_nat (length (so_rows s table))) else None.
Definition select_source (s : Source) (columns : list string) (table : string) : option (list Row) :=
  match sm_tables (so_schema s) !! table with
  | Some def => if forallb (λ c, str_in c (column_names def)) columns then Some (project columns <$> so_rows s table)
                else None
  | None => None
  end.

(** The target: its rows in the order of their ids, its schema, the value a table's
    sequence gives next ([None]: the table has no sequence), and the offset from UTC, in
    microseconds, that the time zone of the session has at a reading of the clock.  An
    operation that is refused changes nothing. *)
Class Target := {
  TgDb : Type;
  tg_offset : Z → Z;
  tg_schema : TgDb → Schema;
  tg_rows : string → TgDb → list Row;
  tg_insert : string → list Row → TgDb → option TgDb;
  tg_truncate : list string → TgDb → option TgDb;      (* TRUNCATE ... RESTART IDENTITY *)
  tg_next : string → TgDb → option Z;
  tg_setval : string → Z → bool → TgDb → TgDb          (* setval(seq, v, is_called) *)
}.
(** A reading of a clock that is put into a [timestamptz] column is taken to be in the time
    zone of the session; other values are kept as they are. *)
Definition cell_at (offset : Z → Z) (c : Cell) : Cell :=
  match c with CTime us => CInstant (us - offset us) | _ => c end.
Definition stored_cell `{!Target} : Cell → Cell := cell_at tg_offset.
Definition row_at (offset : Z → Z) (r : Row) : Row := cell_at offset <$> r.
Definition stored `{!Target} : Row → Row := row_at tg_offset.
(** As Postgres documents them.  An INSERT refuses rows that break a constraint.  TRUNCATE
    refuses to empty a table that a table outside the command refers to. *)
Class TargetLaws `{!Target} := {
  insert_rows : ∀ t rows d d', tg_insert t rows d = Some d' → by_ids (tg_rows t d ++ rows) →
    tg_rows t d' = tg_rows t d ++ (stored <$> rows);
  insert_others : ∀ t t' rows d d', tg_insert t rows d = Some d' → t ≠ t' → tg_rows t' d' = tg_rows t' d;
  insert_next : ∀ t t' rows d d', tg_insert t rows d = Some d' → tg_next t' d' = tg_next t' d;
  truncate_rows : ∀ ts t d d', tg_truncate ts d = Some d' → t ∈ ts → tg_rows t d' = [];
  truncate_others : ∀ ts t d d', tg_truncate ts d = Some d' → t ∉ ts → tg_rows t d' = tg_rows t d ∧ tg_next t d' = tg_next t d;
  truncate_referenced : ∀ ts t name def d, t ∈ ts → name ∉ ts → sm_tables (tg_schema d) !! name = Some def →
    refers_to t def = true → tg_truncate ts d = None;
  setval_rows : ∀ t t' v b d, tg_rows t' (tg_setval t v b d) = tg_rows t' d;
  setval_next : ∀ t v b d, is_Some (tg_next t d) → tg_next t (tg_setval t v b d) = Some (if b : bool then v + 1 else v);
  setval_others : ∀ t t' v b d, t ≠ t' → tg_next t' (tg_setval t v b d) = tg_next t' d
}.

(** ** Errors and steps *)

(** Why [MigrationError] is raised; the messages sort the names they list. *)
Inductive MigrationError :=
  | MissingSqlitePath | MissingPostgresUrl | NoSqliteFile
  | NotPostgres (dialect : string)
  | ConnectFailed (label : string)
  | ManyHeads (heads : list string)
  | NotInitialised (label : string)
  | NotAtHead (label current head : string)
  | UnknownTables (names : list string)
  | NothingSelected
  | MissingDependencies (table : string) (missing : list string)
  | TargetNotEmpty (tables : list (string * Z))
  | CountMismatch (table : string) (source target : Z)
  | SampleMissing (table : string) (id : Z)
  | SampleDiffers (table : string) (id : Z) (column : string).
(** A [MigrationError], or an exception of the database driver. *)
Inductive Fault := Migration (e : MigrationError) | DriverError.

Section Tool.
Context {TG : Target}.

Definition Step (A : Type) : Type := TgDb → (Fault + A) * TgDb.
Definition done_ {A} (a : A) : Step A := λ d, (inr a, d).
Definition fail {A} (f : Fault) : Step A := λ d, (inl f, d).
Definition andThen {A B} (m : Step A) (k : A → Step B) : Step B :=
  λ d, match m d with (inr a, d') => k a d' | (inl f, d') => (inl f, d') end.
Definition run_db (f : TgDb → option TgDb) : Step unit :=
  λ d, match f d with Some d' => (inr tt, d') | None => (inl DriverError, d) end.
(** [with engine.begin()]: an exception rolls the transaction back. *)
Definition transaction {A} (m : Step A) : Step A :=
  λ d, match m d with (inr a, d') => (inr a, d') | (inl f, _) => (inl f, d) end.
Fixpoint for_tables {A} (f : string → Step A) (l : list string) : Step (list A) :=
  match l with
  | [] => done_ []
  | t :: l => andThen (f t) (λ a, andThen (for_tables f l) (λ r, done_ (a :: r)))
  end.
Definition driver {A} (o : option A) : Step A := match o with Some a => done_ a | None => fail DriverError end.
Definition check (e : option MigrationError) : Step unit :=
  match e with Some e => fail (Migration e) | None => done_ tt end.

(** ** Which tables *)

Definition TABLE_ORDER : list string := ["clients"; "api_keys"; "idempotency_records"; "request_logs"; "audit_logs"].
Definition DEPENDENCIES : list (string * list string) :=
  [("api_keys", ["clients"]); ("idempotency_records", ["clients"]); ("request_logs", ["api_keys"; "clients"])].
Definition SAMPLE_COLUMNS : list (string * list string) :=
  [("clients", ["id"; "name"; "token_hash"; "is_active"]);
   ("api_keys", ["id"; "client_id"; "api_key_hash"; "api_key_last4"; "plan_type"; "is_active"; "api_key_ciphertext";
                 "account_password_ciphertext"]);
   ("idempotency_records", ["id"; "client_id"; "idempotency_key"; "request_hash"; "status"]);
   ("request_logs", ["id"; "request_id"; "client_id"; "api_key_id"; "endpoint"; "method"; "status_code"; "success";
                     "retry_count"]);
   ("audit_logs", ["id"; "actor_type"; "action"; "resource_type"; "resource_id"])].
Definition assoc {A} (k : string) (l : list (string * A)) : option A :=
  snd <$> List.find (λ p, String.eqb p.1 k) l.

(** [_table(name).c]: the columns the ORM knows of a table. *)
Definition orm_columns (table : string) : list string :=
  match assoc table orm_tables with Some def => column_names def | None => [] end.

Definition _parse_csv_list (value : option string) : option (list string) :=
  (λ v, List.filter (λ s, negb (String.eqb s "")) (strip <$> split_char "," v)) <$> value.
Definition _resolve_tables (include exclude : option (list string)) : MigrationError + list string :=
  match List.filter (λ t, negb (str_in t TABLE_ORDER)) (default [] include ++ default [] exclude) with
  | (_ :: _) as unknown => inl (UnknownTables unknown)
  | [] =>
      let tables := TABLE_ORDER in
      let tables := match include with Some l => List.filter (λ t, str_in t l) tables | None => tables end in
      let tables := match exclude with
                    | Some ((_ :: _) as l) => List.filter (λ t, negb (str_in t l)) tables
                    | _ => tables
                    end in
      match tables with [] => inl NothingSelected | _ => inr tables end
  end.
Fixpoint missing_dependency (selected : list string) (deps : list (string * list string)) : option MigrationError :=
  match deps with
  | [] => None
  | (table, needed) :: deps =>
      let missing := List.filter (λ t, negb (str_in t selected)) needed in
      if str_in table selected && match missing with [] => false | _ => true end
      then Some (MissingDependencies table missing)
      else missing_dependency selected deps
  end.
Definition _validate_table_selection (selected : list string) : option MigrationError :=
  missing_dependency selected DEPENDENCIES.

Definition _sqlite_url_from_path (path : string) : string :=
  let normalized := replace_char "\" "/" path in
  if startswith "/" normalized then "sqlite:////" +:+ lstrip_chars "/" normalized
  else if drive_path normalized then "sqlite:///" +:+ normalized
  else "sqlite:///" +:+ normalized.

(** ** Checks of the two databases *)

Definition _alembic_head_revision : MigrationError + string :=
  match heads revisions with [h] => inr h | hs => inl (ManyHeads hs) end.
(** [version]: the revision a database says it is at, if it says one. *)
Definition _require_alembic_at_head (label : string) (version : option string) : option MigrationError :=
  match _alembic_head_revision with
  | inl e => Some e
  | inr head =>
      match version with
      | None => Some (NotInitialised label)
      | Some current => if String.eqb current head then None else Some (NotAtHead label current head)
      end
  end.
Definition _require_postgres (dialect : string) : option MigrationError :=
  if String.eqb dialect "postgresql" then None else Some (NotPostgres dialect).
Definition _probe (label : string) (connects : bool) : option MigrationError :=
  if connects then None else Some (ConnectFailed label).
Definition _truncate_tables (tables : list string) : Step unit := transaction (run_db (tg_truncate tables)).

(** ** One table *)

Record TableSummary := mkTableSummary { ts_table : string; ts_source_rows : Z; ts_migrated_rows : Z }.

(** The loop over the source rows: full batches are inserted as they fill up, the rest
    at the end; the result is the number of rows inserted. *)
Fixpoint insert_batches (table : string) (batch_size : Z) (batch : list Row) (migrated : Z) (rows : list Row) : Step Z :=
  match rows with
  | [] =>
      match batch with
      | [] => done_ migrated
      | _ => andThen (run_db (tg_insert table batch)) (λ _, done_ (migrated + Z.of_nat (length batch)))
      end
  | row :: rows =>
      let batch := batch ++ [row] in
      if Z.of_nat (length batch) >=? batch_size
      then andThen (run_db (tg_insert table batch))
             (λ _, insert_batches table batch_size [] (migrated + Z.of_nat (length batch)) rows)
      else insert_batches table batch_size batch migrated rows
  end.
(** [SELECT max(id)]. *)
Definition max_id (rows : list Row) : option Z :=
  match rows with [] => None | r :: rows => Some (foldr (λ r m, Z.max (row_id r) m) (row_id r) rows) end.
Definition _fix_postgres_sequence (table : string) : Step unit :=
  λ d, match tg_next table d with
       | None => (inr tt, d)
       | Some _ =>
           (inr tt, match max_id (tg_rows table d) with
                    | None => tg_setval table 1 false d
                    | Some m => tg_setval table m true d
                    end)
       end.
Definition _migrate_one_table (source : Source) (batch_size : Z) (dry_run : bool) (table : string) : Step TableSummary :=
  andThen (driver (count_source source table)) (λ source_rows,
  if dry_run then done_ (mkTableSummary table source_rows 0)
  else transaction
    (andThen (driver (select_source source (orm_columns table) table)) (λ rows,
     andThen (insert_batches table batch_size [] 0 rows) (λ migrated,
     andThen (_fix_postgres_sequence table) (λ _,
     done_ (mkTableSummary table source_rows migrated)))))).

(** ** Verification *)

Fixpoint _verify_counts (source : Source) (tables : list string) : Step unit :=
  match tables with
  | [] => done_ tt
  | name :: tables =>
      andThen (driver (count_source source name)) (λ src, λ d,
      let dst := Z.of_nat (length (tg_rows name d)) in
      if negb (src =? dst) then fail (Migration (CountMismatch name src dst)) d else _verify_counts source tables d)
  end.
(** One column of a sampled row: ciphertexts have to be the same bytes, and not empty. *)
Definition column_differs (name : string) (src dst : Row) (col : string) : bool :=
  let src_v := default CNull (src !! col) in
  let dst_v := default CNull (dst !! col) in
  if contains "ciphertext" col then
    match src_v, dst_v with
    | CNull, CNull => false
    | CBytes b, CBytes b' => String.eqb b "" || String.eqb b' "" || negb (String.eqb b b')
    | _, _ => true
    end
  else negb (bool_decide (src_v = dst_v)).
Fixpoint verify_rows (name : string) (columns : list string) (dst_rows : list Row) (src_rows : list Row)
  : option MigrationError :=
  match src_rows with
  | [] => None
  | src :: src_rows =>
      match List.find (λ r, row_id r =? row_id src) dst_rows with
      | None => Some (SampleMissing name (row_id src))
      | Some dst =>
          match List.find (column_differs name src dst) columns with
          | Some col => Some (SampleDiffers name (row_id src) col)
          | None => verify_rows name columns dst_rows src_rows
          end
      end
  end.
Fixpoint _verify_samples (source : Source) (sample_size : nat) (tables : list string) : Step unit :=
  match tables with
  | [] => done_ tt
  | name :: tables =>
      let columns := default ["id"] (assoc name SAMPLE_COLUMNS) in
      andThen (driver (select_source source columns name)) (λ rows, λ d,
      match verify_rows name columns (tg_rows name d) (take sample_size rows) with
      | Some e => fail (Migration e) d
      | None => _verify_samples source sample_size tables d
      end)
  end.

Fixpoint first_error (l : list (option MigrationError)) : option MigrationError :=
  match l with [] => None | Some e :: _ => Some e | None :: l => first_error l end.
Definition verify (source : Source) (tables : list string) : Step unit :=
  andThen (_verify_counts source tables) (λ _, _verify_samples source 10 tables).

(** ** The command *)

Record Args := mkArgs {
  ar_sqlite_path : option string;
  ar_postgres_url : option string;
  ar_dry_run : bool;
  ar_truncate : bool;
  ar_include : option string;
  ar_exclude : option string;
  ar_batch_size : Z;
  ar_verify : bool
}.
(** What the tool finds: whether the file is there, the dialect of the target, whether
    each side answers and which revision it is at. *)
Record Found := mkFound {
  fo_file : bool; fo_dialect : string;
  fo_sqlite_connects : bool; fo_postgres_connects : bool;
  fo_sqlite_version : option string; fo_postgres_version : option string
}.
Definition first_set (l : list (option string)) : string :=
  default "" (List.find (λ s, negb (String.eqb s "")) (default "" <$> l)).

Definition preconditions (args : Args) (environ : dict) (f : Found) : option MigrationError :=
  let sqlite_path := first_set [ar_sqlite_path args; dict_get "FCAM_DATABASE__PATH" environ] in
  let postgres_url := first_set [ar_postgres_url args; dict_get "FCAM_DATABASE__URL" environ;
                                 dict_get "FCAM_DATABASE_URL" environ] in
  first_error
    [if String.eqb sqlite_path "" then Some MissingSqlitePath else None;
     if String.eqb postgres_url "" then Some MissingPostgresUrl else None;
     if fo_file f then None else Some NoSqliteFile;
     _require_postgres (fo_dialect f);
     _probe "SQLite" (fo_sqlite_connects f);
     _probe "Postgres" (fo_postgres_connects f);
     _require_alembic_at_head "SQLite" (fo_sqlite_version f);
     _require_alembic_at_head "Postgres" (fo_postgres_version f)].

Definition non_empty (tables : list string) (d : TgDb) : list (string * Z) :=
  List.filter (λ p, p.2 >? 0) ((λ t, (t, Z.of_nat (length (tg_rows t d)))) <$> tables).
(** Emptying the target, or finding it empty. *)
Definition clear_target (args : Args) (tables : list string) : Step unit :=
  if ar_truncate args then if ar_dry_run args then done_ tt else _truncate_tables tables
  else λ d, match non_empty tables d with
            | [] => (inr tt, d)
            | l => (inl (Migration (TargetNotEmpty l)), d)
            end.
Definition main (args : Args) (environ : dict) (f : Found) (source : Source) : Step (list TableSummary) :=
  andThen (check (preconditions args environ f)) (λ _,
  match _resolve_tables (_parse_csv_list (ar_include args)) (_parse_csv_list (ar_exclude args)) with
  | inl e => fail (Migration e)
  | inr tables =>
      andThen (check (_validate_table_selection tables)) (λ _,
      andThen (clear_target args tables) (λ _,
      andThen (for_tables (_migrate_one_table source (ar_batch_size args) (ar_dry_run args)) tables) (λ summaries,
      andThen (if negb (ar_dry_run args) && ar_verify args then verify source tables else done_ tt) (λ _,
      done_ summaries))))
  end).
End Tool.
