(* ===== verification/MigrateToolProps.v ===== *)
(** The migration tool copies every selected table, row by row in the order of the ids, with
    readings of a clock taken in the time zone of the target's session; it writes nothing
    in a dry run or into a target that holds rows, and on databases at the head revision can
    copy the audit log only. *)

From S2P Require Import Prelude PyText Schema Migrations DbSession MigrateTool.
Open Scope Z_scope.

Module MigrateTheorems.
Section Tool.
Context {TG : Target} {TL : TargetLaws} (source : Source).

Lemma andThen_ok {A B} (m : Step A) (k : A → Step B) d b d' :
  andThen m k d = (inr b, d') → ∃ a d1, m d = (inr a, d1) ∧ k a d1 = (inr b, d').
Proof. unfold andThen. destruct (m d) as [[f|a] d1]; [done|eauto]. Qed.

Lemma run_db_ok f d d' : run_db f d = (inr tt, d') → f d = Some d'.
Proof. unfold run_db. destruct (f d); [by intros [= ->]|done]. Qed.

Lemma driver_ok {A} (o : option A) d a d' : driver o d = (inr a, d') → o = Some a ∧ d' = d.
Proof. destruct o; [by intros [= -> ->]|done]. Qed.
Lemma count_ok t n : count_source source t = Some n → n = Z.of_nat (length (so_rows source t)).
Proof. unfold count_source. destruct (_ !! t); [by intros [= <-]|done]. Qed.
Lemma select_ok cols t rows : select_source source cols t = Some rows → rows = project cols <$> so_rows source t.
Proof. unfold select_source. destruct (_ !! t); [|done]. destruct (forallb _ _); [by intros [= <-]|done]. Qed.

(** What the tool reads of a table, and what the target keeps of it. *)
Definition read (t : string) : list Row := project (orm_columns t) <$> so_rows source t.
Definition taken (t : string) : list Row := stored <$> read t.

Lemma stored_lookup r c : stored r !! c = stored_cell <$> r !! c.
Proof. exact (lookup_fmap stored_cell (r : gmap string Cell) c). Qed.
Lemma stored_id r : row_id (stored r) = row_id r.
Proof. unfold row_id. rewrite stored_lookup. by destruct (r !! "id") as [[]|]. Qed.
Lemma project_lookup cols r c : c ∈ cols → project cols r !! c = r !! c.
Proof.
  intros Hc. apply option_eq. intros v. unfold project. etrans; [exact (map_lookup_filter_Some (λ p, p.1 ∈ cols) r c v)|].
  simpl. tauto.
Qed.
Lemma project_id cols r : "id" ∈ cols → row_id (project cols r) = row_id r.
Proof. intros Hc. unfold row_id. by rewrite project_lookup. Qed.
Lemma by_ids_fmap (f : Row → Row) l : (∀ r, row_id (f r) = row_id r) → by_ids (f <$> l) ↔ by_ids l.
Proof.
  intros Hf. unfold by_ids. induction l as [|r l IH]; simpl; [done|].
  split; intros Hs; apply StronglySorted_inv in Hs as [Hs Ha]; (constructor; [by apply IH|]).
  - rewrite Forall_fmap in Ha. eapply Forall_impl; [exact Ha|]. simpl. intros x. by rewrite !Hf.
  - rewrite Forall_fmap. eapply Forall_impl; [exact Ha|]. simpl. intros x. by rewrite !Hf.
Qed.
Lemma by_ids_app_stored a b : by_ids (a ++ b) → by_ids (a ++ (stored <$> b)).
Proof.
  unfold by_ids. induction a as [|r a IH]; simpl; [by apply by_ids_fmap, stored_id|].
  intros [Hs Ha]%StronglySorted_inv. constructor; [by apply IH|]. rewrite Forall_app in *. destruct Ha as [Ha Hb].
  split; [done|]. rewrite Forall_fmap. eapply Forall_impl; [exact Hb|]. simpl. intros x. by rewrite stored_id.
Qed.
Lemma by_ids_stored_mid a b c : by_ids ((a ++ b) ++ c) → by_ids ((a ++ (stored <$> b)) ++ c).
Proof.
  intros Hs. apply (by_ids_fmap stored); [apply stored_id|]. apply (by_ids_fmap stored) in Hs; [|apply stored_id].
  rewrite !fmap_app in *. assert (stored <$> (stored <$> b) = stored <$> b) as ->; [|done].
  rewrite <-list_fmap_compose. apply list_fmap_ext. intros i r _. apply (map_eq (M := gmap string)). intros k. unfold compose.
  rewrite !stored_lookup. by destruct (r !! k) as [[]|].
Qed.
Lemma orm_has_id t : t ∈ TABLE_ORDER → "id" ∈ orm_columns t.
Proof.
  intros Ht. assert (forallb (λ t, str_in "id" (orm_columns t)) TABLE_ORDER = true) as H by (vm_compute; reflexivity).
  apply str_in_true, (proj1 (forallb_forall _ _) H). by apply list_elem_of_In.
Qed.
Lemma read_sorted t : t ∈ TABLE_ORDER → by_ids (so_rows source t) → by_ids (read t).
Proof. intros Ht. apply by_ids_fmap. intros r. by apply project_id, orm_has_id. Qed.

(** What a run leaves of the tables it does not fill. *)
Definition only (t : string) (d d' : TgDb) : Prop :=
  ∀ t', t ≠ t' → tg_rows t' d' = tg_rows t' d ∧ tg_next t' d' = tg_next t' d.
#[local] Instance only_preorder t : PreOrder (only t).
Proof.
  split; [done|]. intros d1 d2 d3 H1 H2 t' Ht. destruct (H1 t' Ht), (H2 t' Ht). split; congruence.
Qed.

Lemma by_ids_app_l a b : by_ids (a ++ b) → by_ids a.
Proof. apply StronglySorted_app_1_l. Qed.

Lemma insert_only t rows d d' : tg_insert t rows d = Some d' → only t d d'.
Proof. intros H t' Ht. split; [by eapply insert_others|by eapply insert_next]. Qed.

Lemma insert_batches_copies t n rows : ∀ batch m d m' d',
  by_ids (tg_rows t d ++ batch ++ rows) → insert_batches t n batch m rows d = (inr m', d') →
  tg_rows t d' = tg_rows t d ++ (stored <$> batch ++ rows) ∧ tg_next t d' = tg_next t d ∧ only t d d' ∧
  m' = m + Z.of_nat (length (batch ++ rows)).
Proof.
  induction rows as [|row rows IH]; intros batch m d m' d' Hs H; simpl in H.
  - rewrite app_nil_r in *. destruct batch as [|r batch].
    { injection H as <- <-. rewrite app_nil_r. split_and!; [done..|simpl; lia]. }
    apply andThen_ok in H as ([] & d1 & Hi%run_db_ok & H). injection H as <- <-.
    split_and!; [by apply insert_rows|by eapply insert_next|by eapply insert_only|done].
  - destruct (_ >=? _).
    + apply andThen_ok in H as ([] & d1 & Hi%run_db_ok & H).
      assert (by_ids ((tg_rows t d ++ batch ++ [row]) ++ rows)) as Hs' by (by rewrite <-!app_assoc).
      assert (tg_rows t d1 = tg_rows t d ++ (stored <$> batch ++ [row])) as Hr
        by (by apply insert_rows; [|eapply by_ids_app_l]).
      destruct (IH [] (m + Z.of_nat (length (batch ++ [row]))) d1 m' d') as (Hrows & Hnext & Hother & ->); [|done|].
      { rewrite Hr, app_nil_l. by apply by_ids_stored_mid. }
      split_and!.
      * by rewrite Hrows, Hr, <-app_assoc, <-fmap_app, <-app_assoc.
      * rewrite Hnext. by eapply insert_next.
      * etrans; [by eapply insert_only|done].
      * rewrite !length_app. simpl. lia.
    + destruct (IH (batch ++ [row]) m d m' d') as (Hrows & Hnext & Hother & ->); [by rewrite <-app_assoc|done|].
      rewrite <-!app_assoc in Hrows. split_and!; [done..|]. by rewrite <-app_assoc.
Qed.

Lemma max_id_bounds rows m : max_id rows = Some m → ∀ r, r ∈ rows → row_id r ≤ m.
Proof.
  destruct rows as [|r0 rows]; [done|]. intros [= <-]. simpl.
  assert (∀ r, r = r0 ∨ r ∈ rows → row_id r ≤ foldr (λ r m, Z.max (row_id r) m) (row_id r0) rows) as Hall.
  { induction rows as [|r1 rows IH]; simpl; intros r [->|Hr].
    - lia.
    - by apply elem_of_nil in Hr.
    - specialize (IH r0 (or_introl eq_refl)). lia.
    - apply elem_of_cons in Hr as [->|Hr]; [lia|]. specialize (IH r (or_intror Hr)). lia. }
  intros r [->|Hr]%elem_of_cons; apply Hall; auto.
Qed.

Lemma fix_sequence_ok t d d' : _fix_postgres_sequence t d = (inr tt, d') →
  tg_rows t d' = tg_rows t d ∧ only t d d' ∧
  ∀ n, tg_next t d' = Some n → ∀ r, r ∈ tg_rows t d → row_id r < n.
Proof.
  unfold _fix_postgres_sequence. destruct (tg_next t d) as [n0|] eqn:Hn.
  - intros [= <-]. assert (is_Some (tg_next t d)) as His by (by exists n0).
    destruct (max_id (tg_rows t d)) as [m|] eqn:Hm; (split; [apply setval_rows|]); split.
    + intros t' Ht. by rewrite setval_rows, setval_others.
    + rewrite setval_next by done. intros n [= <-] r Hr. apply (max_id_bounds _ _ Hm) in Hr. lia.
    + intros t' Ht. by rewrite setval_rows, setval_others.
    + intros n _ r Hr. destruct (tg_rows t d); [by apply elem_of_nil in Hr|done].
  - intros [= <-]. split_and!; [done|done|]. congruence.
Qed.

Definition copied (t : string) (d' : TgDb) : Prop :=
  tg_rows t d' = taken t ∧ ∀ n, tg_next t d' = Some n → ∀ r, r ∈ so_rows source t → row_id r < n.
Definition summary (t : string) : TableSummary :=
  mkTableSummary t (Z.of_nat (length (so_rows source t))) (Z.of_nat (length (so_rows source t))).

Lemma taken_id t r : t ∈ TABLE_ORDER → r ∈ so_rows source t → ∃ r', r' ∈ taken t ∧ row_id r' = row_id r.
Proof.
  intros Ht Hr. exists (stored (project (orm_columns t) r)).
  split; [by do 2 apply list_elem_of_fmap_2|]. rewrite stored_id. by apply project_id, orm_has_id.
Qed.
Lemma migrate_table_copies n t d s d' :
  t ∈ TABLE_ORDER → by_ids (so_rows source t) → tg_rows t d = [] →
  _migrate_one_table source n false t d = (inr s, d') →
  copied t d' ∧ only t d d' ∧ s = summary t.
Proof.
  intros Ht Hs%(read_sorted t) He H; [|done]. unfold _migrate_one_table in H.
  apply andThen_ok in H as (c & d0 & [->%count_ok ->]%driver_ok & H). unfold transaction in H.
  destruct (andThen _ _ d) as [[f|s'] d1] eqn:E; [done|]. injection H as -> ->.
  apply andThen_ok in E as (rows & d1' & [->%select_ok ->]%driver_ok & E). fold (read t) in E.
  apply andThen_ok in E as (m & d1 & Hb & E). apply andThen_ok in E as ([] & d2 & Hf & E). injection E as <- <-.
  apply insert_batches_copies in Hb as (Hr & Hn & Ho & ->); [|by rewrite He]. rewrite He in Hr. simpl in Hr.
  apply fix_sequence_ok in Hf as (Hr2 & Ho2 & Hlt). rewrite Hr in Hr2, Hlt.
  split; [|split; [by etrans|unfold summary, read; simpl; by rewrite length_fmap]].
  split; [done|]. intros x Hx r (r' & Hin & <-)%(taken_id t); [|done]. by apply (Hlt x Hx).
Qed.

Lemma for_tables_copies n tables : ∀ d l d',
  NoDup tables → (∀ t, t ∈ tables → t ∈ TABLE_ORDER ∧ by_ids (so_rows source t) ∧ tg_rows t d = []) →
  for_tables (_migrate_one_table source n false) tables d = (inr l, d') →
  (∀ t, t ∈ tables → copied t d') ∧
  (∀ t, t ∉ tables → tg_rows t d' = tg_rows t d ∧ tg_next t d' = tg_next t d) ∧ l = summary <$> tables.
Proof.
  induction tables as [|t tables IH]; intros d l d' Hnd Hall H; simpl in H.
  { injection H as <- <-. split_and!; [by intros t Ht%elem_of_nil|done|done]. }
  apply andThen_ok in H as (s & d1 & Hm & H). apply andThen_ok in H as (l' & d2 & Hl & H). injection H as <- <-.
  apply NoDup_cons in Hnd as [Hni Hnd]. destruct (Hall t) as (Hto & Hs & He); [by left|].
  apply migrate_table_copies in Hm as ((Hr & Hn) & Ho & ->); [|done..].
  destruct (IH d1 l' d2) as (Hin & Hout & ->); [done| |done|].
  { intros t' Ht'. destruct (Hall t') as (? & ? & He'); [by right|]. split_and!; [done..|].
    destruct (Ho t') as [-> _]; [by intros ->|done]. }
  split_and!; [| |done].
  - intros t' [->|Ht']%elem_of_cons; [|by apply Hin]. unfold copied. destruct (Hout t Hni) as [-> ->]. by split.
  - intros t' [Hne Ht']%not_elem_of_cons. destruct (Hout t' Ht') as [-> ->]. by apply Ho.
Qed.

(** ** Which tables are selected *)

Lemma resolved i e tables : _resolve_tables i e = inr tables → NoDup tables ∧ ∀ t, t ∈ tables → t ∈ TABLE_ORDER.
Proof.
  assert (∀ (p : string → bool) l, NoDup l → NoDup (List.filter p l)) as Hf.
  { intros p l Hl. induction Hl as [|x l Hx Hl IH]; simpl; [constructor|]. destruct (p x); [|done]. constructor; [|done].
    intros Hin. apply Hx. apply list_elem_of_In in Hin. apply filter_In in Hin as [Hin _]. by apply list_elem_of_In. }
  assert (∀ (p : string → bool) l t, t ∈ List.filter p l → t ∈ l) as Hs.
  { intros p l t Ht. apply list_elem_of_In in Ht. apply filter_In in Ht as [Ht _]. by apply list_elem_of_In. }
  assert (NoDup TABLE_ORDER) as Hnd.
  { apply (bool_decide_eq_true (NoDup TABLE_ORDER)). vm_compute. reflexivity. }
  unfold _resolve_tables. destruct (List.filter _ (default [] i ++ _)); [|done].
  set (t1 := match i with Some l => _ | None => _ end).
  set (t2 := match e with Some _ => _ | None => _ end).
  assert (NoDup t1 ∧ ∀ t, t ∈ t1 → t ∈ TABLE_ORDER) as [H1 H1'].
  { subst t1. destruct i; [split; [by apply Hf|by intros t Ht%Hs]|done]. }
  assert (NoDup t2 ∧ ∀ t, t ∈ t2 → t ∈ TABLE_ORDER) as H2.
  { subst t2. destruct e as [[|x l]|]; try done. split; [by apply Hf|]. intros t Ht%Hs. by apply H1'. }
  destruct t2; [done|]. by intros [= <-].
Qed.

Lemma check_ok e d d' : check e d = (inr tt, d') → e = None ∧ d' = d.
Proof. destruct e; [done|]. by intros [= ->]. Qed.
Lemma andThen_state {A B} (m : Step A) (k : A → Step B) d :
  (m d).2 = d → (∀ a, (k a d).2 = d) → (andThen m k d).2 = d.
Proof. unfold andThen. destruct (m d) as [[f|a] d1]; simpl; [done|]. by intros ->. Qed.
Lemma driver_state {A} (o : option A) d : (driver o d).2 = d.
Proof. by destruct o. Qed.
Lemma check_state e d : (check e d).2 = d.
Proof. by destruct e. Qed.
Lemma verify_state tables d : (verify source tables d).2 = d.
Proof.
  unfold verify. apply andThen_state; [|intros _]; induction tables as [|t tables IH]; try done; cbn;
    (apply andThen_state; [apply driver_state|]); intros a; cbn zeta.
  - by destruct (negb _).
  - by destruct (verify_rows _ _ _ _).
Qed.

Lemma cleared args tables d d' : ar_dry_run args = false → clear_target args tables d = (inr tt, d') →
  (∀ t, t ∈ tables → tg_rows t d' = []) ∧ (∀ t, t ∉ tables → tg_rows t d' = tg_rows t d ∧ tg_next t d' = tg_next t d).
Proof.
  intros Hdry H. unfold clear_target in H. rewrite Hdry in H. destruct (ar_truncate args).
  - unfold _truncate_tables, transaction, run_db in H. destruct (tg_truncate tables d) as [d1|] eqn:Ht; [|done].
    injection H as <-. split; intros t Hin; [by eapply truncate_rows|by eapply truncate_others].
  - destruct (non_empty tables d) as [|x l] eqn:Hne; [|done]. injection H as <-. split; [|done]. intros t Hin.
    destruct (tg_rows t d) as [|r rs] eqn:Hr; [done|]. exfalso. unfold non_empty in Hne.
    apply (List.in_nil (a:=(t, Z.of_nat (length (r :: rs))))). rewrite <-Hne. apply filter_In. split; [|done].
    rewrite <-Hr. apply list_elem_of_In. apply (list_elem_of_fmap_2 (λ t, (t, Z.of_nat (length (tg_rows t d))))), Hin.
Qed.

(** ** What it refuses *)

Lemma for_tables_dry n tables d : (for_tables (_migrate_one_table source n true) tables d).2 = d.
Proof.
  induction tables as [|t tables IH]; [done|]. cbn [for_tables]. apply andThen_state.
  - apply andThen_state; [apply driver_state|done].
  - intros a. by apply andThen_state.
Qed.

(** The tool does not write where it should not: a dry run leaves the target as it
    is, and without [--truncate] a target with rows in a selected table is refused and
    left as it is. *)
Theorem nothing_is_overwritten args environ f d :
  (ar_dry_run args = true → (main args environ f source d).2 = d) ∧
  (ar_truncate args = false →
   (∃ tables t, _resolve_tables (_parse_csv_list (ar_include args)) (_parse_csv_list (ar_exclude args)) = inr tables ∧
      t ∈ tables ∧ tg_rows t d ≠ []) →
   ∃ e, main args environ f source d = (inl (Migration e), d)).
Proof.
  unfold main. split.
  - intros Hdry. rewrite Hdry. apply andThen_state; [apply check_state|]. intros _.
    destruct (_resolve_tables _ _) as [e|tables]; [done|].
    apply andThen_state; [apply check_state|]. intros _. apply andThen_state.
    { unfold clear_target. rewrite Hdry. destruct (ar_truncate args); [done|]. by destruct (non_empty tables d). }
    intros _. apply andThen_state; [apply for_tables_dry|]. intros a. by apply andThen_state.
  - intros Htr (tables & t & Ht & Hin & Hne). rewrite Ht. unfold andThen.
    destruct (preconditions args environ f) as [e|]; [by exists e|]. cbn [check done_ fail].
    destruct (_validate_table_selection tables) as [e|]; [by exists e|]. cbn [check done_ fail].
    unfold clear_target. rewrite Htr. destruct (non_empty tables d) as [|x l] eqn:E; [|by eexists].
    exfalso. unfold non_empty in E. apply (List.in_nil (a:=(t, Z.of_nat (length (tg_rows t d))))). rewrite <-E.
    apply filter_In. split.
    + apply list_elem_of_In, (list_elem_of_fmap_2 (λ t, (t, Z.of_nat (length (tg_rows t d))))), Hin.
    + simpl. destruct (tg_rows t d); [done|]. apply Z.gtb_lt. simpl. lia.
Qed.

(** The bindings refer to clients, and the tool does not know them. *)
Lemma bindings_refer : ∃ def, sm_tables head_schema !! "upstream_resource_bindings" = Some def ∧
  refers_to "clients" def = true.
Proof. eexists. split; vm_compute; reflexivity. Qed.

(** The table that is copied first, unless only the audit log is selected. *)
Lemma clients_first i e tables : _resolve_tables i e = inr tables → tables ≠ ["audit_logs"] →
  _validate_table_selection tables = None → ∃ rest, tables = "clients" :: rest.
Proof.
  intros Hr Hne Hv.
  assert (tables ≠ []) as Hnil.
  { unfold _resolve_tables in Hr. destruct (List.filter _ (default [] i ++ _)); [|done].
    destruct (match e with Some _ => _ | None => _ end); [done|]. by injection Hr as <-. }
  assert (∃ p, tables = List.filter p TABLE_ORDER) as [p ->].
  { assert (∀ (p q : string → bool) l, List.filter p (List.filter q l) = List.filter (λ x, q x && p x) l) as Hf.
    { intros p q l. induction l as [|x l IH]; simpl; [done|]. destruct (q x); simpl; by rewrite IH. }
    assert (∀ l : list string, l = List.filter (λ _, true) l) as Ha.
    { induction l as [|x l IH]; [done|]. simpl. by f_equal. }
    unfold _resolve_tables in Hr. destruct (List.filter _ (default [] i ++ _)); [|done].
    set (t1 := match i with Some l => _ | None => _ end) in Hr. set (t2 := match e with Some _ => _ | None => _ end) in Hr.
    assert (∃ p, t1 = List.filter p TABLE_ORDER) as [p1 H1] by (subst t1; destruct i; [by eexists|exists (λ _, true); apply Ha]).
    assert (∃ p, t2 = List.filter p TABLE_ORDER) as [p2 H2].
    { subst t2. rewrite H1. destruct e as [[|x e]|]; [by exists p1|eexists; apply Hf|by exists p1]. }
    exists p2. rewrite <-H2. destruct t2; [done|]. by injection Hr. }
  clear Hr. revert Hne Hv Hnil. cbn [List.filter TABLE_ORDER].
  destruct (p "clients"); [by eexists|]. intros Hne Hv Hnil. exfalso. revert Hne Hv Hnil.
  destruct (p "api_keys"), (p "idempotency_records"), (p "request_logs"), (p "audit_logs"); intros Hne Hv Hnil;
    done || (vm_compute in Hv; discriminate Hv).
Qed.
Lemma clients_unreadable : so_schema source = head_schema → select_source source (orm_columns "clients") "clients" = None.
Proof. intros Hs. unfold select_source. rewrite Hs. vm_compute. reflexivity. Qed.

(** C38. On databases at the head revision, as the tool demands, it can copy the audit log
    only.  A run that is not dry and selects any other table fails and leaves the target
    as it is: every other table needs [clients], which is copied first, and reading it
    fails because no migration creates its [token_ciphertext].  With [--truncate] the run
    fails for a source of whatever schema: TRUNCATE refuses to empty [clients], because
    [upstream_resource_bindings] refers to it and is never among the tables. *)
Theorem only_the_audit_log_is_copied args environ f d tables :
  ar_dry_run args = false → tg_schema d = head_schema →
  so_schema source = head_schema ∨ ar_truncate args = true →
  _resolve_tables (_parse_csv_list (ar_include args)) (_parse_csv_list (ar_exclude args)) = inr tables →
  tables ≠ ["audit_logs"] →
  ∃ e, main args environ f source d = (inl e, d).
Proof.
  intros Hdry Hsc Hwhy Ht Hne. unfold main, andThen at 1. rewrite Ht.
  destruct (preconditions args environ f) as [e|]; [by eexists|]. cbn [check done_ fail]. unfold andThen at 1.
  destruct (_validate_table_selection tables) as [e|] eqn:Hv; [by eexists|]. cbn [check done_ fail].
  destruct (clients_first _ _ _ Ht Hne Hv) as [rest Hrest]. unfold andThen at 1, clear_target. rewrite Hdry.
  destruct (ar_truncate args) eqn:Htr.
  - unfold _truncate_tables, transaction, run_db.
    destruct bindings_refer as (def & Hdef & Hc). destruct (resolved _ _ _ Ht) as [_ Hsub].
    assert ("upstream_resource_bindings" ∉ tables) as Hout.
    { intros Hb%Hsub. apply str_in_true in Hb. by vm_compute in Hb. }
    assert (tg_truncate tables d = None) as ->; [|by eexists].
    rewrite <-Hsc in Hdef. eapply truncate_referenced; [|done..]. rewrite Hrest. by left.
  - destruct Hwhy as [Hs|?]; [|done]. destruct (non_empty tables d); [|by eexists]. rewrite Hrest.
    cbn [for_tables]. unfold andThen at 1 2, _migrate_one_table. unfold andThen at 1.
    destruct (count_source source "clients"); [|by eexists]. cbn [driver done_].
    rewrite clients_unreadable by done. by eexists.
Qed.

(** ** The verification accepts what was copied *)

Definition sample (t : string) : list string := default ["id"] (assoc t SAMPLE_COLUMNS).
(** What the comparison of samples needs: no empty ciphertext, and no reading of a clock in
    a sampled column (none of them is for times; one would come back as a moment). *)
Definition comparable (t : string) (rows : list Row) : Prop :=
  ∀ r col, r ∈ rows → col ∈ sample t →
    let v := default CNull (r !! col) in
    if contains "ciphertext" col then v = CNull ∨ ∃ b, v = CBytes b ∧ b ≠ "" else ∀ us, v ≠ CTime us.
(** The source has the columns the ORM selects. *)
Definition readable (t : string) : Prop :=
  ∃ def, sm_tables (so_schema source) !! t = Some def ∧ ∀ c, c ∈ orm_columns t → c ∈ column_names def.

Lemma sample_columns_known t c : t ∈ TABLE_ORDER → c ∈ sample t → c ∈ orm_columns t.
Proof.
  intros Ht Hc.
  assert (forallb (λ t, forallb (λ c, str_in c (orm_columns t)) (sample t)) TABLE_ORDER = true) as H
    by (vm_compute; reflexivity).
  apply str_in_true. apply (proj1 (forallb_forall _ _) (proj1 (forallb_forall _ _) H t ltac:(by apply list_elem_of_In))).
  by apply list_elem_of_In.
Qed.
Lemma sample_has_id t : t ∈ TABLE_ORDER → "id" ∈ sample t.
Proof.
  intros Ht. assert (forallb (λ t, str_in "id" (sample t)) TABLE_ORDER = true) as H by (vm_compute; reflexivity).
  apply str_in_true, (proj1 (forallb_forall _ _) H). by apply list_elem_of_In.
Qed.
Lemma column_same t r col rows :
  t ∈ TABLE_ORDER → comparable t rows → r ∈ rows → col ∈ sample t →
  column_differs t (project (sample t) r) (stored (project (orm_columns t) r)) col = false.
Proof.
  intros Ht Hc Hr Hcol. specialize (Hc r col Hr Hcol). unfold column_differs.
  rewrite stored_lookup, !project_lookup by (done || by apply sample_columns_known).
  destruct (contains "ciphertext" col).
  - destruct (r !! col) as [v|]; [simpl in *|done]. destruct Hc as [->|(b & -> & Hb)]; [done|]. simpl.
    apply String.eqb_neq in Hb. by rewrite Hb, String.eqb_refl.
  - rewrite bool_decide_eq_true_2; [done|]. destruct (r !! col) as [[]|]; try done. by destruct (Hc us).
Qed.
Lemma find_nothing {A} (p : A → bool) l : (∀ x, x ∈ l → p x = false) → List.find p l = None.
Proof.
  intros Hp. induction l as [|x l IH]; simpl; [done|]. rewrite Hp by by left. apply IH. intros y Hy. apply Hp. by right.
Qed.
Lemma find_by_id rows r : by_ids rows → r ∈ rows → List.find (λ r', row_id r' =? row_id r) rows = Some r.
Proof.
  induction 1 as [|r0 rows Hs IH Hall]; intros Hr; [by apply elem_of_nil in Hr|]. simpl.
  apply elem_of_cons in Hr as [->|Hr]; [by rewrite Z.eqb_refl|]. rewrite Forall_forall in Hall.
  specialize (Hall r Hr). simpl in Hall. destruct (Z.eqb_spec (row_id r0) (row_id r)); [lia|]. by apply IH.
Qed.
Lemma select_some cols t def : sm_tables (so_schema source) !! t = Some def → (∀ c, c ∈ cols → c ∈ column_names def) →
  select_source source cols t = Some (project cols <$> so_rows source t).
Proof.
  intros Hd Hc. unfold select_source. rewrite Hd.
  assert (forallb (λ c, str_in c (column_names def)) cols = true) as ->; [|done].
  apply forallb_forall. intros c Hin. by apply str_in_true, Hc, list_elem_of_In.
Qed.
Lemma verify_rows_accepts t rows :
  t ∈ TABLE_ORDER → by_ids (so_rows source t) → comparable t (so_rows source t) → (∀ r, r ∈ rows → r ∈ so_rows source t) →
  verify_rows t (sample t) (taken t) (project (sample t) <$> rows) = None.
Proof.
  intros Ht Hs Hc. induction rows as [|r rows IH]; intros Hin; [done|]. cbn [verify_rows fmap list_fmap].
  assert (r ∈ so_rows source t) as Hr by (apply Hin; by left).
  assert (row_id (project (sample t) r) = row_id (stored (project (orm_columns t) r))) as ->.
  { by rewrite stored_id, !project_id by (apply orm_has_id || apply sample_has_id; done). }
  rewrite find_by_id.
  - rewrite find_nothing by (intros col Hcol; by eapply column_same). apply IH. intros r' Hr'. apply Hin. by right.
  - apply by_ids_fmap; [apply stored_id|]. by apply read_sorted.
  - by do 2 apply list_elem_of_fmap_2.
Qed.
Lemma verify_accepts tables d :
  (∀ t, t ∈ tables → t ∈ TABLE_ORDER ∧ tg_rows t d = taken t ∧ by_ids (so_rows source t) ∧
     comparable t (so_rows source t) ∧ readable t) →
  verify source tables d = (inr tt, d).
Proof.
  intros H. unfold verify, andThen at 1.
  assert (_verify_counts source tables d = (inr tt, d)) as ->.
  { induction tables as [|t tables IH]; [done|]. simpl. destruct (H t) as (_ & Hr & _ & _ & def & Hd & _); [by left|].
    unfold count_source. rewrite Hd. unfold andThen. simpl. rewrite Hr. unfold taken, read.
    rewrite !length_fmap, Z.eqb_refl. apply IH. intros t' Ht'. apply H. by right. }
  induction tables as [|t tables IH]; [done|]. cbn [_verify_samples]. fold (sample t).
  destruct (H t) as (Ht & Hr & Hs & Hc & def & Hd & Hcols); [by left|].
  unfold andThen. rewrite (select_some (sample t) _ _ Hd) by (intros c Hcol; by apply Hcols, sample_columns_known).
  cbn [driver done_]. rewrite Hr, <-fmap_take.
  rewrite verify_rows_accepts; [|done..|].
  - apply IH. intros t' Ht'. apply H. by right.
  - intros r Hin. rewrite <-(take_drop 10 (so_rows source t)). apply elem_of_app. by left.
Qed.

(** ** A run that succeeds *)

(** The target accepts the rows: whenever the tables before [t] have been copied, [t] holds
    the rows before a batch and every other table is as it was, inserting the batch breaks
    no constraint. *)
Definition accepts (tables : list string) (d : TgDb) : Prop :=
  ∀ before t after d' a b c,
    tables = before ++ t :: after → (∀ t', t' ∈ before → copied t' d') →
    (∀ t', t' ∉ before → t' ≠ t → tg_rows t' d' = tg_rows t' d) →
    read t = a ++ b ++ c → tg_rows t d' = stored <$> a → is_Some (tg_insert t b d').

Lemma insert_batches_total t n (P : TgDb → Prop) all :
  by_ids all → (∀ d d', P d → only t d d' → P d') →
  (∀ a b c d', all = a ++ b ++ c → tg_rows t d' = stored <$> a → P d' → is_Some (tg_insert t b d')) →
  ∀ rows a batch m d, all = a ++ batch ++ rows → tg_rows t d = stored <$> a → P d →
    ∃ m' d', insert_batches t n batch m rows d = (inr m', d').
Proof.
  intros Hs HP Hacc. induction rows as [|row rows IH]; intros a batch m d E Hr Hd; simpl.
  - destruct batch as [|r batch]; [by do 2 eexists|]. destruct (Hacc a (r :: batch) [] d E Hr Hd) as [d' Hi].
    unfold andThen, run_db. rewrite Hi. by do 2 eexists.
  - assert (all = a ++ (batch ++ [row]) ++ rows) as E' by (by rewrite E, <-app_assoc).
    destruct (_ >=? _); [|by apply (IH a)].
    destruct (Hacc a (batch ++ [row]) rows d E' Hr Hd) as [d' Hi]. unfold andThen, run_db. rewrite Hi.
    apply (IH (a ++ batch ++ [row])).
    + by rewrite E', <-(app_assoc a).
    + rewrite (insert_rows _ _ _ _ Hi), Hr; [by rewrite (fmap_app stored a)|]. rewrite Hr.
      rewrite E', app_assoc in Hs. apply by_ids_app_l in Hs. by apply (by_ids_stored_mid [] a).
    + eapply HP; [exact Hd|by eapply insert_only].
Qed.
Lemma for_tables_total n d0 tables : ∀ before after d,
  tables = before ++ after → NoDup tables → accepts tables d0 →
  (∀ t, t ∈ tables → t ∈ TABLE_ORDER ∧ by_ids (so_rows source t) ∧ tg_rows t d0 = [] ∧ readable t) →
  (∀ t, t ∈ before → copied t d) → (∀ t, t ∉ before → tg_rows t d = tg_rows t d0) →
  ∃ l d', for_tables (_migrate_one_table source n false) after d = (inr l, d').
Proof.
  intros before after. revert before. induction after as [|t after IH]; intros before d E Hnd Hacc Hall Hin Hout;
    cbn [for_tables]; [by do 2 eexists|].
  destruct (Hall t) as (Ht & Hs & He & def & Hd & Hc); [rewrite E; apply elem_of_app; right; by left|].
  assert (t ∉ before) as Hnb.
  { rewrite E in Hnd. apply NoDup_app in Hnd as (_ & Hno & _). intros Hb. apply (Hno t Hb). by left. }
  assert (tg_rows t d = []) as Hempty by (rewrite Hout by done; apply He).
  assert (∃ s d', _migrate_one_table source n false t d = (inr s, d')) as (s & d1 & H1).
  { unfold _migrate_one_table, andThen at 1, count_source. rewrite Hd.
    cbn [driver done_]. unfold transaction, andThen at 1. rewrite (select_some _ _ _ Hd Hc). cbn [driver done_].
    unfold andThen at 1. fold (read t).
    destruct (insert_batches_total t n (λ d', (∀ t', t' ∈ before → copied t' d') ∧
      (∀ t', t' ∉ before → t' ≠ t → tg_rows t' d' = tg_rows t' d0)) (read t)) with (rows := read t) (a := @nil Row) (batch := @nil Row) (m := 0) (d := d)
      as (m' & d' & ->).
    - by apply read_sorted.
    - intros d2 d3 [Hb Ho] Honly. split.
      + intros t' Ht'. destruct (Honly t') as [Hr Hn]; [by intros ->|]. unfold copied. rewrite Hr, Hn. by apply Hb.
      + intros t' Ht' Hne. destruct (Honly t') as [-> _]; [done|]. by apply Ho.
    - intros a b c d' Er Hr [Hb Ho]. eapply (Hacc before t after); try done.
    - done.
    - done.
    - split; [done|]. intros t' Ht' _. by apply Hout.
    - unfold andThen, _fix_postgres_sequence. destruct (tg_next t d'); by do 2 eexists. }
  unfold andThen. rewrite H1. apply migrate_table_copies in H1 as (Hcp & Ho & _); [|done..].
  destruct (IH (before ++ [t]) d1) as (l & d2 & ->); [by rewrite <-app_assoc|done..| | |by do 2 eexists].
  - intros t' [Ht'| ->%list_elem_of_singleton]%elem_of_app; [|done].
    destruct (Ho t') as [Hr Hn]; [by intros ->|]. unfold copied. rewrite Hr, Hn. by apply Hin.
  - intros t' [Ht' Hne]%not_elem_of_app. destruct (Ho t') as [-> _]; [intros ->; apply Hne; by left|]. by apply Hout.
Qed.

(** C20. The tool copies the data.  A run that is not dry and reports success leaves each
    selected table of the target with the rows of the source, whatever the batch size:
    in their order, with the values of the columns the ORM knows, where a reading of a
    clock has become the moment it denotes in the time zone of the session.  It leaves
    the sequences of those tables above every id, the other tables as they were, and a
    summary that counts what was copied.  And it does succeed, verification included, if
    nothing objects: the checks pass, the target is empty and none of the rows breaks a
    constraint where the copy puts it, and the source has the columns that are selected,
    and in the sampled ones no empty ciphertext and no time. *)
Theorem migration_copies args environ f d tables :
  ar_dry_run args = false → (∀ t, by_ids (so_rows source t)) →
  _resolve_tables (_parse_csv_list (ar_include args)) (_parse_csv_list (ar_exclude args)) = inr tables →
  (∀ summaries d', main args environ f source d = (inr summaries, d') →
     (∀ t, t ∈ tables →
        tg_rows t d' = (λ r, stored (project (orm_columns t) r)) <$> so_rows source t ∧
        ∀ n, tg_next t d' = Some n → ∀ r, r ∈ so_rows source t → row_id r < n) ∧
     (∀ t, t ∉ tables → tg_rows t d' = tg_rows t d ∧ tg_next t d' = tg_next t d) ∧
     summaries = summary <$> tables) ∧
  (preconditions args environ f = None → _validate_table_selection tables = None → ar_truncate args = false →
   (∀ t, t ∈ tables → tg_rows t d = [] ∧ readable t ∧ comparable t (so_rows source t)) → accepts tables d →
   ∃ summaries d', main args environ f source d = (inr summaries, d')).
Proof.
  intros Hdry Hs Et. destruct (resolved _ _ _ Et) as [Hnd Hsub]. unfold main. rewrite Hdry, Et. split.
  - intros summaries d' H. apply andThen_ok in H as ([] & d0 & [_ ->]%check_ok & H).
    apply andThen_ok in H as ([] & d1 & [_ ->]%check_ok & H).
    apply andThen_ok in H as ([] & d1 & Hc & H). apply cleared in Hc as [He Ho]; [|done].
    apply andThen_ok in H as (l & d2 & Hm & H). apply andThen_ok in H as ([] & d3 & Hv & H). injection H as <- <-.
    assert (d3 = d2) as ->.
    { destruct (negb false && ar_verify args); [|by injection Hv]. by rewrite <-(verify_state tables d2), Hv. }
    apply for_tables_copies in Hm as (Hin & Hout & ->); [|done|intros t Ht; split_and!; [by apply Hsub|done|by apply He]].
    split_and!; [| |done].
    + intros t Ht. destruct (Hin t Ht) as [-> Hn]. split; [|done]. unfold taken, read. by rewrite <-list_fmap_compose.
    + intros t Ht. destruct (Hout t Ht) as [-> ->]. by apply Ho.
  - intros -> Hval Htr Hall Hacc. cbn [check]. unfold andThen at 1. cbn [done_]. rewrite Hval. cbn [check].
    unfold andThen at 1. cbn [done_]. unfold andThen at 1, clear_target. rewrite Htr.
    assert (non_empty tables d = []) as ->.
    { unfold non_empty. clear -Hall. induction tables as [|t tables IH]; [done|]. simpl.
      destruct (Hall t) as [-> _]; [by left|]. simpl. apply IH. intros t' Ht'. apply Hall. by right. }
    assert (∀ t, t ∈ tables → t ∈ TABLE_ORDER ∧ by_ids (so_rows source t) ∧ tg_rows t d = []) as Hstart
      by (intros t Ht; split_and!; [by apply Hsub|done|by apply Hall]).
    destruct (for_tables_total (ar_batch_size args) d tables [] tables d) as (l & d' & Hm); [done..| | |done|].
    { intros t Ht. destruct (Hstart t Ht) as (? & ? & ?). split_and!; [done..|by apply Hall]. }
    { by intros t Ht%elem_of_nil. }
    unfold andThen at 1. rewrite Hm. apply for_tables_copies in Hm as (Hin & _ & _); [|done..].
    unfold andThen. assert (verify source tables d' = (inr tt, d')) as Hv.
    { apply verify_accepts. intros t Ht. destruct (Hin t Ht) as [Hr _]. destruct (Hall t Ht) as (_ & ? & ?).
      split_and!; [by apply Hsub|done..]. }
    destruct (negb false && ar_verify args); [rewrite Hv|]; by do 2 eexists.
Qed.
End Tool.

(** ** A target in memory *)

Record MemTarget := mkMemTarget {
  mt_schema : Schema;
  mt_rows : gmap string (list Row);
  mt_next : gmap string Z
}.
Definition mt_get (t : string) (d : MemTarget) : list Row := default [] (mt_rows d !! t).
(** Some table outside the list refers to one in it. *)
Definition referenced (ts : list string) (s : Schema) : bool :=
  existsb (λ p, negb (str_in p.1 ts) && existsb (λ t, refers_to t p.2) ts) (map_to_list (sm_tables s)).
(** Its sessions are eight hours ahead of UTC, and it refuses an id that is there already. *)
Definition ahead : Z := 8 * 3600 * 1000000.
#[export] Instance mem_target : Target := {|
  TgDb := MemTarget;
  tg_offset _ := ahead;
  tg_schema := mt_schema;
  tg_rows := mt_get;
  tg_insert t rows d :=
    let kept := mt_get t d ++ (row_at (λ _, ahead) <$> rows) in
    if bool_decide (NoDup (row_id <$> kept)) then Some (mkMemTarget (mt_schema d) (<[t := kept]> (mt_rows d)) (mt_next d))
    else None;
  tg_truncate ts d :=
    if referenced ts (mt_schema d) then None
    else Some (mkMemTarget (mt_schema d) (foldr (λ t, delete t) (mt_rows d) ts)
                 (foldr (λ t m, if m !! t then <[t := 1]> m else m) (mt_next d) ts));
  tg_next t d := mt_next d !! t;
  tg_setval t v b d := mkMemTarget (mt_schema d) (mt_rows d)
    (match mt_next d !! t with Some _ => <[t := if b then v + 1 else v]> (mt_next d) | None => mt_next d end)
|}.
#[export] Instance mem_target_laws : TargetLaws.
Proof.
  split; simpl.
  - intros t rows d d' H _. case_bool_decide; [|done]. injection H as <-. unfold mt_get. simpl. by rewrite lookup_insert_eq.
  - intros t t' rows d d' H Ht. case_bool_decide; [|done]. injection H as <-. unfold mt_get. simpl.
    by rewrite lookup_insert_ne.
  - intros t t' rows d d' H. case_bool_decide; [|done]. by injection H as <-.
  - intros ts t d d' H Ht. destruct (referenced _ _); [done|]. injection H as <-. unfold mt_get. simpl.
    assert (foldr (λ t, delete t) (mt_rows d) ts !! t = None) as ->; [|done].
    induction ts as [|t' ts IH]; [by apply elem_of_nil in Ht|]. simpl.
    destruct (decide (t' = t)) as [->|Hne]; [by rewrite lookup_delete_eq|]. rewrite lookup_delete_ne by done.
    apply IH. by apply elem_of_cons in Ht as [->|].
  - intros ts t d d' H Ht. destruct (referenced _ _); [done|]. injection H as <-. unfold mt_get. simpl. split.
    + f_equal. induction ts as [|t' ts IH]; [done|]. apply not_elem_of_cons in Ht as [Hne Ht]. simpl.
      rewrite lookup_delete_ne by done. by apply IH.
    + induction ts as [|t' ts IH]; [done|]. apply not_elem_of_cons in Ht as [Hne Ht]. simpl.
      case_match; [rewrite lookup_insert_ne by done|]; by apply IH.
  - intros ts t name def d Ht Hn Hd Hr. assert (referenced ts (mt_schema d) = true) as ->; [|done].
    apply existsb_exists. exists (name, def). split; [by apply list_elem_of_In, elem_of_map_to_list|]. simpl.
    apply str_in_false in Hn. rewrite Hn. simpl. apply existsb_exists. exists t. split; [by apply list_elem_of_In|done].
  - done.
  - intros t v b d [n Hn]. rewrite Hn. by rewrite lookup_insert_eq.
  - intros t t' v b d Ht. destruct (mt_next d !! t); [|done]. by rewrite lookup_insert_ne.
Qed.

Lemma by_ids_distinct l : by_ids l → NoDup (row_id <$> l).
Proof.
  induction 1 as [|r l Hs IH Hall]; simpl; constructor; [|done]. intros (x & Heq & Hx)%list_elem_of_fmap.
  rewrite Forall_forall in Hall. specialize (Hall x Hx). simpl in Hall. lia.
Qed.
Lemma mem_accepts source tables d : (∀ t, t ∈ TABLE_ORDER → by_ids (so_rows source t)) → (∀ t, t ∈ tables → t ∈ TABLE_ORDER) →
  accepts (TG:=mem_target) source tables d.
Proof.
  intros Hs Hsub before t after d' a b c E _ _ Hr Ha. simpl in Ha |- *. rewrite Ha.
  assert (t ∈ TABLE_ORDER) as Ht by (apply Hsub; rewrite E; apply elem_of_app; right; by left).
  pose proof (read_sorted source t Ht (Hs t Ht)) as Hread. rewrite Hr, app_assoc in Hread.
  apply by_ids_app_l in Hread. rewrite bool_decide_eq_true_2; [by eexists|].
  apply by_ids_distinct. rewrite <-(fmap_app (row_at (λ _, ahead))). apply by_ids_fmap; [exact (stored_id (TG:=mem_target))|done].
Qed.

(** Two clients are copied, one batch each, from a source made by the ORM into an empty
    database at the head. *)
Definition demo_row (id : Z) (name : string) : Row :=
  <["id" := CInt id]> (<["name" := CText name]> (<["token_hash" := CText name]> (<["is_active" := CBool true]>
    (<["created_at" := CTime 1767225600000000]> ∅)))).
Definition demo_source (s : Schema) : Source :=
  mkSource s (λ t, if String.eqb t "clients" then [demo_row 3 "a"; demo_row 7 "b"] else []).
Definition orm_schema : Schema := mkSchema (list_to_map orm_tables) ∅.
Definition demo_target (rows : gmap string (list Row)) : MemTarget := mkMemTarget head_schema rows {["clients" := 1]}.
Definition demo_args (dry truncate : bool) : Args :=
  mkArgs (Some "fcam.db") (Some "postgresql://db") dry truncate (Some "clients, audit_logs") None 1 true.
Definition demo_found : Found :=
  mkFound true "postgresql" true true (Some "0012_perf_indexes") (Some "0012_perf_indexes").

Definition demo_run (args : Args) (s : Schema) (d : MemTarget) : (Fault + list TableSummary) * MemTarget :=
  main (TG:=mem_target) args [] demo_found (demo_source s) d.
Lemma demo_sorted s t : by_ids (so_rows (demo_source s) t).
Proof. simpl. destruct (String.eqb t "clients"); repeat constructor. Qed.

(** What the gateway wrote as midnight, UTC, is now four in the afternoon of the day before. *)
Definition copied_row (id : Z) (name : string) : Row :=
  <["created_at" := CInstant (1767225600000000 - ahead)]> (demo_row id name).
Lemma demo_taken : taken (TG:=mem_target) (demo_source orm_schema) "clients" = [copied_row 3 "a"; copied_row 7 "b"].
Proof. vm_compute. reflexivity. Qed.
Lemma demo_cell i n col : col ∈ sample "clients" →
  let v := default CNull (demo_row i n !! col) in
  if contains "ciphertext" col then v = CNull ∨ ∃ b, v = CBytes b ∧ b ≠ "" else ∀ us, v ≠ CTime us.
Proof.
  intros Hcol. repeat (apply elem_of_cons in Hcol as [->|Hcol]; [cbn; done|]). by apply elem_of_nil in Hcol.
Qed.
Lemma demo_comparable t : t ∈ ["clients"; "audit_logs"] → comparable t (so_rows (demo_source orm_schema) t).
Proof.
  intros [->|[->|Ht%elem_of_nil]%elem_of_cons]%elem_of_cons r col Hr Hcol; [|by apply elem_of_nil in Hr|done].
  apply elem_of_cons in Hr as [->|[->|Hr%elem_of_nil]%elem_of_cons]; [by apply demo_cell..|done].
Qed.

Lemma migration_copies_witness :
  ∃ l d', demo_run (demo_args false false) orm_schema (demo_target ∅) = (inr l, d') ∧
    tg_rows (Target:=mem_target) "clients" d' = [copied_row 3 "a"; copied_row 7 "b"] ∧
    l = [mkTableSummary "clients" 2 2; mkTableSummary "audit_logs" 0 0].
Proof.
  destruct (migration_copies (TG:=mem_target) (demo_source orm_schema) (demo_args false false) [] demo_found
    (demo_target ∅) ["clients"; "audit_logs"]) as [Hcopy Hruns]; [reflexivity|apply demo_sorted|vm_compute; reflexivity|].
  destruct Hruns as (l & d' & E).
  - vm_compute. reflexivity.
  - vm_compute. reflexivity.
  - reflexivity.
  - intros t Ht. split_and!; [reflexivity| |by apply demo_comparable].
    apply elem_of_cons in Ht as [->|Ht%list_elem_of_singleton]; [|subst t];
      (eexists; split; [vm_compute; reflexivity|]); intros c Hc; apply str_in_true in Hc; apply str_in_true;
      exact Hc.
  - apply mem_accepts; [intros t _; apply demo_sorted|]. intros t Ht. apply str_in_true.
    apply elem_of_cons in Ht as [->|Ht%list_elem_of_singleton]; [|subst t]; reflexivity.
  - exists l, d'. split; [exact E|]. destruct (Hcopy l d' E) as (Hin & _ & Hl). split; [|exact Hl].
    rewrite <-demo_taken. unfold taken, read. rewrite <-list_fmap_compose. apply Hin. left.
Defined.
Lemma nothing_is_overwritten_witness :
  (demo_run (demo_args true false) orm_schema (demo_target ∅)).2 = demo_target ∅ ∧
  ∃ e, demo_run (demo_args false false) orm_schema (demo_target {["clients" := [demo_row 1 "x"]]}) =
       (inl (Migration e), demo_target {["clients" := [demo_row 1 "x"]]}).
Proof.
  split.
  - apply (nothing_is_overwritten (TG:=mem_target) (demo_source orm_schema) (demo_args true false) [] demo_found (demo_target ∅)).
    reflexivity.
  - apply (nothing_is_overwritten (TG:=mem_target) (demo_source orm_schema) (demo_args false false) [] demo_found); [reflexivity|].
    exists ["clients"; "audit_logs"], "clients". split; [vm_compute; reflexivity|]. split; [left|]. vm_compute. discriminate.
Defined.
Lemma only_the_audit_log_is_copied_witness :
  (∃ e, demo_run (demo_args false false) head_schema (demo_target ∅) = (inl e, demo_target ∅)) ∧
  (∃ e, demo_run (demo_args false true) orm_schema (demo_target ∅) = (inl e, demo_target ∅)).
Proof.
  split.
  - apply (only_the_audit_log_is_copied (TG:=mem_target) (demo_source head_schema) (demo_args false false) [] demo_found
      (demo_target ∅) ["clients"; "audit_logs"]);
      [reflexivity|reflexivity|left; reflexivity|vm_compute; reflexivity|discriminate].
  - apply (only_the_audit_log_is_copied (TG:=mem_target) (demo_source orm_schema) (demo_args false true) [] demo_found
      (demo_target ∅) ["clients"; "audit_logs"]);
      [reflexivity|reflexivity|right; reflexivity|vm_compute; reflexivity|discriminate].
Defined.
End MigrateTheorems.
