(* ===== verification/HttpPool.v ===== *)
(** [app/core/http_pool.py]: the pool of HTTP clients, with the threads that use it.
    Every [httpx.Client] that was ever made is in one store, named by its position, so
    that what the pool, a request and a pending close hold are names of the same client.
    Log messages are left out.  No client is lost, whatever the threads do; and the pool
    can close a client a request is using. *)

From S2P Require Import Prelude PyText.
Open Scope Z_scope.

Module HttpPool.

(** [httpx.Limits]. *)
Record Limits := mkLimits { li_max_connections : Z; li_max_keepalive_connections : Z; li_keepalive_expiry : Q }.
(** [httpx.Client]; the timeout is in seconds. *)
Record HttpClient := mkHttpClient { hc_base_url : string; hc_timeout : Z; hc_limits : Limits; hc_is_closed : bool }.
(** [UpstreamHttpPool]; [hp_transport]: a transport was given. *)
Record UpstreamHttpPool := mkUpstreamHttpPool {
  hp_enabled : bool;
  hp_transport : bool;
  hp_limits : Limits;
  hp_clients : gmap string nat
}.
(** The pool and every client made so far. *)
Record World := mkWorld { w_pool : UpstreamHttpPool; w_made : list HttpClient }.

Definition init (enabled : bool) (max_connections max_keepalive_connections : Z) (keepalive_expiry : Q) (transport : bool)
  : UpstreamHttpPool :=
  mkUpstreamHttpPool enabled transport
    (mkLimits (Z.max max_connections 1) (Z.max max_keepalive_connections 0) keepalive_expiry) ∅.

Definition set_clients (m : gmap string nat) (p : UpstreamHttpPool) : UpstreamHttpPool :=
  mkUpstreamHttpPool (hp_enabled p) (hp_transport p) (hp_limits p) m.
Definition is_open (i : nat) (w : World) : bool :=
  match w_made w !! i with Some c => negb (hc_is_closed c) | None => false end.
(** [client.close()]. *)
Definition close_client (i : nat) (w : World) : World :=
  mkWorld (w_pool w) (alter (λ c, mkHttpClient (hc_base_url c) (hc_timeout c) (hc_limits c) true) i (w_made w)).

Definition _make_client (base_url : string) (timeout : Z) (w : World) : nat * World :=
  (length (w_made w),
   mkWorld (w_pool w) (w_made w ++ [mkHttpClient base_url timeout (hp_limits (w_pool w)) false])).
Definition _get_pooled (base_url : string) (timeout : Z) (w : World) : nat * World :=
  let key := rstrip_char "/" base_url in
  let make :=
    let '(i, w) := _make_client key timeout w in
    (i, mkWorld (set_clients (<[key := i]> (hp_clients (w_pool w))) (w_pool w)) (w_made w)) in
  match hp_clients (w_pool w) !! key with
  | Some i => if is_open i w then (i, w) else make
  | None => make
  end.
(** What is done under the lock by [set_enabled] and [close], with the clients that are
    closed after it. *)
Definition set_enabled (want : bool) (w : World) : list nat * World :=
  let p := w_pool w in
  if Bool.eqb (hp_enabled p) want then ([], w)
  else if want then ([], mkWorld (mkUpstreamHttpPool want (hp_transport p) (hp_limits p) (hp_clients p)) (w_made w))
  else ((map_to_list (hp_clients p)).*2, mkWorld (mkUpstreamHttpPool want (hp_transport p) (hp_limits p) ∅) (w_made w)).
Definition close (w : World) : list nat * World :=
  ((map_to_list (hp_clients (w_pool w))).*2, mkWorld (set_clients ∅ (w_pool w)) (w_made w)).

(** ** Threads *)

(** Where a thread is: in [acquire], before and after the decision for the pool; in the
    body of the [with], with a client of its own or one of the pool; in the loop that
    closes clients. *)
Inductive Phase :=
  | Starting (base_url : string) (timeout : Z)
  | Pooling (base_url : string) (timeout : Z)
  | Using (i : nat) (own : bool)
  | Closing (clients : list nat).
(** The next step of a thread; [None]: it is done. *)
Definition advance (p : Phase) (w : World) : option Phase * World :=
  match p with
  | Starting base_url timeout =>
      if hp_transport (w_pool w) || negb (hp_enabled (w_pool w))
      then let '(i, w) := _make_client (rstrip_char "/" base_url) timeout w in (Some (Using i true), w)
      else (Some (Pooling base_url timeout), w)
  | Pooling base_url timeout => let '(i, w) := _get_pooled base_url timeout w in (Some (Using i false), w)
  | Using i own => (None, if own then close_client i w else w)
  | Closing [] => (None, w)
  | Closing (i :: clients) => (Some (Closing clients), close_client i w)
  end.

Record System := mkSystem { sy_world : World; sy_threads : gmap nat Phase }.
Definition set_phase (t : nat) (p : option Phase) (m : gmap nat Phase) : gmap nat Phase :=
  match p with Some p => <[t := p]> m | None => delete t m end.
(** Any thread may take its next step, a request may enter [acquire], and the pool may be
    switched or closed. *)
Inductive step : System → System → Prop :=
  | step_enter s t base_url timeout : sy_threads s !! t = None →
      step s (mkSystem (sy_world s) (<[t := Starting base_url timeout]> (sy_threads s)))
  | step_advance s t p : sy_threads s !! t = Some p →
      step s (mkSystem (advance p (sy_world s)).2 (set_phase t (advance p (sy_world s)).1 (sy_threads s)))
  | step_switch s t want : sy_threads s !! t = None →
      step s (mkSystem (set_enabled want (sy_world s)).2
                (<[t := Closing (set_enabled want (sy_world s)).1]> (sy_threads s)))
  | step_close s t : sy_threads s !! t = None →
      step s (mkSystem (close (sy_world s)).2 (<[t := Closing (close (sy_world s)).1]> (sy_threads s))).
Definition started (p : UpstreamHttpPool) : System := mkSystem (mkWorld p []) ∅.

End HttpPool.

(** * Theorems *)

Import HttpPool.

Module HttpPoolTheorems.

Definition pooled (s : System) (i : nat) : Prop := ∃ k, hp_clients (w_pool (sy_world s)) !! k = Some i.
Definition owned (s : System) (i : nat) : Prop := ∃ t, sy_threads s !! t = Some (Using i true).
Definition closing (s : System) (i : nat) : Prop := ∃ t l, sy_threads s !! t = Some (Closing l) ∧ i ∈ l.
Definition used (s : System) (i : nat) : Prop := ∃ t own, sy_threads s !! t = Some (Using i own).

Record Inv (s : System) : Prop := {
  inv_known : ∀ i, pooled s i ∨ used s i ∨ closing s i → (i < length (w_made (sy_world s)))%nat;
  inv_url : ∀ k i c, hp_clients (w_pool (sy_world s)) !! k = Some i → w_made (sy_world s) !! i = Some c → hc_base_url c = k;
  inv_own_open : ∀ i, owned s i → is_open i (sy_world s) = true;
  inv_own_alone : ∀ i t t' own, sy_threads s !! t = Some (Using i true) → sy_threads s !! t' = Some (Using i own) → t = t';
  inv_own_apart : ∀ i, owned s i → ¬ pooled s i ∧ ¬ closing s i;
  inv_held : ∀ i, is_open i (sy_world s) = true → pooled s i ∨ owned s i ∨ closing s i
}.

(** ** Clients *)

Lemma set_phase_lookup t t' p m : set_phase t p m !! t' = if decide (t = t') then p else m !! t'.
Proof.
  destruct p as [p|]; simpl; destruct (decide (t = t')) as [<-|].
  - by rewrite lookup_insert_eq.
  - by rewrite lookup_insert_ne.
  - by rewrite lookup_delete_eq.
  - by rewrite lookup_delete_ne.
Qed.
Lemma is_open_known i w : is_open i w = true → (i < length (w_made w))%nat.
Proof. unfold is_open. destruct (_ !! i) eqn:E; [|done]. intros _. by eapply lookup_lt_Some. Qed.
Lemma open_close i j w : is_open i (close_client j w) = is_open i w && negb (bool_decide (i = j)).
Proof.
  unfold is_open, close_client. simpl. destruct (decide (i = j)) as [->|Hne].
  - rewrite list_lookup_alter_eq, bool_decide_eq_true_2 by done. destruct (_ !! j); simpl; by rewrite ?andb_false_r.
  - rewrite list_lookup_alter_ne, bool_decide_eq_false_2 by done. by rewrite andb_true_r.
Qed.
Lemma length_close j w : length (w_made (close_client j w)) = length (w_made w).
Proof. apply length_alter. Qed.
Lemma url_close i j w c : w_made (close_client j w) !! i = Some c →
  ∃ c', w_made w !! i = Some c' ∧ hc_base_url c' = hc_base_url c.
Proof.
  unfold close_client. simpl. destruct (decide (i = j)) as [->|Hne].
  - rewrite list_lookup_alter_eq. intros (c' & Hc & ->)%fmap_Some. eauto.
  - rewrite list_lookup_alter_ne by done. eauto.
Qed.
Lemma open_made i u t w : is_open i (_make_client u t w).2 = is_open i w || bool_decide (i = length (w_made w)).
Proof.
  unfold is_open, _make_client. simpl. destruct (decide (i = length (w_made w))) as [->|Hne].
  - by rewrite list_lookup_middle, bool_decide_eq_true_2, orb_true_r.
  - rewrite bool_decide_eq_false_2, orb_false_r by done. destruct (decide (i < length (w_made w))%nat).
    + by rewrite lookup_app_l.
    + rewrite !lookup_ge_None_2; [done|lia|rewrite length_app; simpl; lia].
Qed.
Lemma taken_pooled w i : i ∈ (map_to_list (hp_clients (w_pool w))).*2 ↔ ∃ k, hp_clients (w_pool w) !! k = Some i.
Proof.
  rewrite list_elem_of_fmap. split.
  - intros ([k j] & -> & Hin). exists k. by apply elem_of_map_to_list.
  - intros [k Hk]. exists (k, i). split; [done|]. by apply elem_of_map_to_list.
Qed.

(** ** Threads *)

Lemma owned_at w t p m i : owned (mkSystem w (set_phase t p m)) i ↔
  p = Some (Using i true) ∨ ∃ t', t ≠ t' ∧ m !! t' = Some (Using i true).
Proof. unfold owned. simpl. setoid_rewrite set_phase_lookup. split.
  - intros [t' H]. case_decide; [by left|right; eauto].
  - intros [->|(t' & Hne & H)]; [exists t; by rewrite decide_True|exists t'; by rewrite decide_False]. Qed.
Lemma used_at w t p m i : used (mkSystem w (set_phase t p m)) i ↔
  (∃ own, p = Some (Using i own)) ∨ ∃ t' own, t ≠ t' ∧ m !! t' = Some (Using i own).
Proof. unfold used. simpl. setoid_rewrite set_phase_lookup. split.
  - intros (t' & own & H). case_decide; [left; eauto|right; eauto].
  - intros [[own ->]|(t' & own & Hne & H)]; [exists t, own; by rewrite decide_True|exists t', own; by rewrite decide_False]. Qed.
Lemma closing_at w t p m i : closing (mkSystem w (set_phase t p m)) i ↔
  (∃ l, p = Some (Closing l) ∧ i ∈ l) ∨ ∃ t' l, t ≠ t' ∧ m !! t' = Some (Closing l) ∧ i ∈ l.
Proof. unfold closing. simpl. setoid_rewrite set_phase_lookup. split.
  - intros (t' & l & H & Hi). case_decide; [left; eauto|right; eauto 6].
  - intros [(l & -> & Hi)|(t' & l & Hne & H & Hi)]; [exists t, l; by rewrite decide_True|exists t', l; by rewrite decide_False]. Qed.
Lemma alone_at t p m :
  (∀ i t1 t2 own, m !! t1 = Some (Using i true) → m !! t2 = Some (Using i own) → t1 = t2) →
  (∀ i own, p = Some (Using i own) → ∀ t', t ≠ t' → m !! t' ≠ Some (Using i true)) →
  (∀ i, p = Some (Using i true) → ∀ t' own, t ≠ t' → m !! t' ≠ Some (Using i own)) →
  ∀ i t1 t2 own, set_phase t p m !! t1 = Some (Using i true) → set_phase t p m !! t2 = Some (Using i own) → t1 = t2.
Proof.
  intros Hm H1 H2 i t1 t2 own. rewrite !set_phase_lookup. case_decide; case_decide; subst; intros E1 E2; [done| | |eauto].
  - by edestruct H2.
  - by edestruct H1.
Qed.

(** A thread moves to a phase that holds no client, or holds one of the pool. *)
Lemma inv_move s t p :
  Inv s → (∀ q, sy_threads s !! t = Some q → ∀ i, q ≠ Using i true ∧ ∀ l, q = Closing l → l = []) →
  (∀ i own, p = Some (Using i own) → own = false ∧ pooled s i) → (∀ l, p = Some (Closing l) → l = []) →
  Inv (mkSystem (sy_world s) (set_phase t p (sy_threads s))).
Proof.
  intros [Hk Hu Ho Ha Hp Hh] Hq Hp1 Hp2.
  assert (∀ i, owned (mkSystem (sy_world s) (set_phase t p (sy_threads s))) i ↔ owned s i) as Eo.
  { intros i. rewrite owned_at. split.
    - intros [->|(t' & _ & H)]; [by destruct (Hp1 _ _ eq_refl)|by exists t'].
    - intros [t' H]. right. exists t'. split; [|done]. intros <-. by edestruct Hq. }
  assert (∀ i, closing (mkSystem (sy_world s) (set_phase t p (sy_threads s))) i ↔ closing s i) as Ec.
  { intros i. rewrite closing_at. split.
    - intros [(l & -> & Hi)|(t' & l & _ & H & Hi)]; [|by exists t', l]. rewrite (Hp2 l) in Hi by done. by apply elem_of_nil in Hi.
    - intros (t' & l & H & Hi). right. exists t', l. split; [|done]. intros <-. destruct (Hq _ H i) as [_ Hl].
      rewrite (Hl l) in Hi by done. by apply elem_of_nil in Hi. }
  split; simpl.
  - intros i. rewrite used_at, Ec. intros [H|[[[own ->]|(t' & own & _ & H)]|H]]; apply Hk.
    + by left.
    + left. by eapply Hp1.
    + right. left. by exists t', own.
    + by right; right.
  - done.
  - intros i. rewrite Eo. apply Ho.
  - apply alone_at; [done| |].
    + intros i own [-> Hpool]%Hp1 t' _ H. destruct (Hp i) as [Hn _]; [by exists t'|done].
    + intros i [? _]%Hp1. done.
  - intros i. rewrite Eo, Ec. apply Hp.
  - intros i. rewrite Eo, Ec. apply Hh.
Qed.

(** A new client, named by the length of the store, is known to nobody. *)
Lemma inv_new s : Inv s → let n := length (w_made (sy_world s)) in
  ¬ pooled s n ∧ (∀ t own, sy_threads s !! t ≠ Some (Using n own)) ∧ ¬ closing s n.
Proof.
  intros [Hk _ _ _ _ _]. assert (∀ P : Prop, (P → (length (w_made (sy_world s)) < length (w_made (sy_world s)))%nat) → ¬ P) as Hn.
  { intros P H HP. specialize (H HP). lia. }
  split_and!.
  - apply Hn. intros H. apply Hk. by left.
  - intros t own. apply Hn. intros H. apply Hk. right. left. by exists t, own.
  - apply Hn. intros H. apply Hk. by right; right.
Qed.
Lemma made_lookup u t w i c : w_made (_make_client u t w).2 !! i = Some c →
  w_made w !! i = Some c ∨ i = length (w_made w) ∧ hc_base_url c = u.
Proof. simpl. intros [H|[Hle [H <-]%list_lookup_singleton_Some]]%lookup_app_Some; [by left|]. right. split; [lia|done]. Qed.

Lemma inv_make s t q u to :
  Inv s → sy_threads s !! t = Some q → (∀ i own, q ≠ Using i own) → (∀ l, q ≠ Closing l) →
  Inv (mkSystem (_make_client u to (sy_world s)).2
         (set_phase t (Some (Using (length (w_made (sy_world s))) true)) (sy_threads s))).
Proof.
  intros Hi Hq Hq1 Hq2. destruct (inv_new _ Hi) as (Np & Nu & Nc). destruct Hi as [Hk Hu Ho Ha Hp Hh].
  set (n := length (w_made (sy_world s))) in *. set (w := (_make_client u to (sy_world s)).2).
  assert (∀ i, owned (mkSystem w (set_phase t (Some (Using n true)) (sy_threads s))) i ↔ i = n ∨ owned s i) as Eo.
  { intros i. rewrite owned_at. split.
    - intros [[= ->]|(t' & _ & H)]; [by left|right; by exists t'].
    - intros [->|[t' H]]; [by left|]. right. exists t'. split; [|done]. intros <-. rewrite Hq in H. injection H as ->. by eapply Hq1. }
  assert (∀ i, closing (mkSystem w (set_phase t (Some (Using n true)) (sy_threads s))) i ↔ closing s i) as Ec.
  { intros i. rewrite closing_at. split.
    - intros [(l & [=] & _)|(t' & l & _ & H)]. by exists t', l.
    - intros (t' & l & H & Hin). right. exists t', l. split; [|done]. intros <-. rewrite Hq in H. injection H as ->. by eapply Hq2. }
  assert (∀ i, pooled (mkSystem w (set_phase t (Some (Using n true)) (sy_threads s))) i ↔ pooled s i) as Ep by done.
  assert (∀ i, is_open i w = is_open i (sy_world s) || bool_decide (i = n)) as Eopen by (intros i; apply open_made).
  assert (length (w_made w) = S n) as El by (unfold w; simpl; rewrite length_app; simpl; unfold n; lia).
  split; cbn [sy_world sy_threads].
  - intros i. rewrite Ep, used_at, Ec, El. intros [H|[[[own [= ->]]|(t' & own & _ & H)]|H]].
    + apply Nat.lt_lt_succ_r, Hk. by left.
    + lia.
    + apply Nat.lt_lt_succ_r, Hk. right. left. by exists t', own.
    + apply Nat.lt_lt_succ_r, Hk. by right; right.
  - intros k i c Hk' Hc. apply made_lookup in Hc as [Hc|[-> _]]; [by eapply Hu|]. exfalso. apply Np. by exists k.
  - intros i. rewrite Eo, Eopen. intros [->|Hown]; [by rewrite bool_decide_eq_true_2, orb_true_r|by rewrite (Ho i)].
  - apply alone_at; [done| |].
    + intros i own [= <- <-] t' _. apply Nu.
    + intros i [= <-] t' own _. apply Nu.
  - intros i. rewrite Eo, Ep, Ec. intros [->|?]; [done|by apply Hp].
  - intros i. rewrite Eopen, Eo, Ep, Ec. intros [H|H%bool_decide_eq_true]%orb_true_iff; [|by auto]. apply Hh in H. tauto.
Qed.

(** A client is made for the pool. *)
Lemma inv_pool s t q key u to :
  Inv s → sy_threads s !! t = Some q → (∀ i own, q ≠ Using i own) → (∀ l, q ≠ Closing l) → key = u →
  (∀ i, hp_clients (w_pool (sy_world s)) !! key = Some i → is_open i (sy_world s) = false) →
  let n := length (w_made (sy_world s)) in let w := (_make_client u to (sy_world s)).2 in
  Inv (mkSystem (mkWorld (set_clients (<[key := n]> (hp_clients (w_pool w))) (w_pool w)) (w_made w))
         (set_phase t (Some (Using n false)) (sy_threads s))).
Proof.
  intros Hi Hq Hq1 Hq2 Hkey Hstale n w. destruct (inv_new _ Hi) as (Np & Nu & Nc). destruct Hi as [Hk Hu Ho Ha Hp Hh].
  fold n in Np, Nu, Nc. match goal with |- Inv ?x => set (s' := x) end.
  assert (∀ i, owned s' i ↔ owned s i) as Eo.
  { intros i. unfold s'. rewrite owned_at. split.
    - intros [[=]|(t' & _ & H)]. by exists t'.
    - intros [t' H]. right. exists t'. split; [|done]. intros <-. rewrite Hq in H. injection H as ->. by eapply Hq1. }
  assert (∀ i, closing s' i ↔ closing s i) as Ec.
  { intros i. unfold s'. rewrite closing_at. split.
    - intros [(l & [=] & _)|(t' & l & _ & H)]. by exists t', l.
    - intros (t' & l & H & Hin). right. exists t', l. split; [|done]. intros <-. rewrite Hq in H. injection H as ->. by eapply Hq2. }
  assert (∀ i, pooled s' i → i = n ∨ pooled s i) as Ep.
  { intros i [k Hki]. simpl in Hki. apply lookup_insert_Some in Hki as [[_ <-]|[_ H]]; [by left|right; by exists k]. }
  assert (∀ i, is_open i (sy_world s') = is_open i (sy_world s) || bool_decide (i = n)) as Eopen by (intros i; apply open_made).
  assert (length (w_made (sy_world s')) = S n) as El by (unfold s', w; simpl; rewrite length_app; simpl; unfold n; lia).
  split.
  - intros i. rewrite El. unfold s' at 2. rewrite used_at, Ec. intros [[->|H]%Ep|[[[own [= ->]]|(t' & own & _ & H)]|H]].
    + lia.
    + apply Nat.lt_lt_succ_r, Hk. by left.
    + lia.
    + apply Nat.lt_lt_succ_r, Hk. right. left. by exists t', own.
    + apply Nat.lt_lt_succ_r, Hk. by right; right.
  - intros k i c Hki Hc. apply made_lookup in Hc as [Hc|[-> Hc]].
    + simpl in Hki. apply lookup_insert_Some in Hki as [[_ <-]|[_ H]]; [|by eapply Hu].
      apply lookup_lt_Some in Hc. unfold n in Hc. lia.
    + simpl in Hki. apply lookup_insert_Some in Hki as [[<- _]|[_ H]]; [congruence|]. exfalso. apply Np. by exists k.
  - intros i. rewrite Eo, Eopen. intros Hown. by rewrite (Ho i).
  - apply alone_at; [done| |done]. intros i own [= <- <-] t' _. apply Nu.
  - intros i. rewrite Eo, Ec. intros Hown. split; [|by apply Hp]. intros [->|H]%Ep; [|by apply Hp in Hown as []].
    destruct Hown as [t' H]. by eapply Nu.
  - intros i. rewrite Eopen, Eo, Ec. intros [H|H%bool_decide_eq_true]%orb_true_iff.
    + destruct (Hh _ H) as [[k Hki]|[Hown|Hcl]]; [left|by right; left|by right; right].
      exists k. simpl. rewrite lookup_insert_ne; [done|]. intros <-. by rewrite (Hstale i) in H.
    + left. exists key. simpl. by rewrite H, lookup_insert_eq.
Qed.

(** A client is closed: by the thread that owns it, or by one that has it to close. *)
Lemma inv_close s t p i :
  Inv s →
  (sy_threads s !! t = Some (Using i true) ∧ p = None ∨ ∃ l, sy_threads s !! t = Some (Closing (i :: l)) ∧ p = Some (Closing l)) →
  Inv (mkSystem (close_client i (sy_world s)) (set_phase t p (sy_threads s))).
Proof.
  intros [Hk Hu Ho Ha Hp Hh] Ht. match goal with |- Inv ?x => set (s' := x) end.
  assert (∀ j, owned s' j → owned s j) as Eo.
  { intros j. unfold s'. rewrite owned_at. intros [->|(t' & _ & H)]; [|by exists t']. by destruct Ht as [[_ [=]]|(l & _ & [=])]. }
  assert (∀ j, closing s' j → closing s j) as Ec.
  { intros j. unfold s'. rewrite closing_at. intros [(l & -> & Hin)|(t' & l & _ & H & Hin)]; [|by exists t', l].
    destruct Ht as [[_ [=]]|(l' & H & [= <-])]. exists t, (i :: l). split; [done|by right]. }
  assert (∀ j, j ≠ i → owned s j → owned s' j) as Eo'.
  { intros j Hj [t' H]. unfold s'. rewrite owned_at. right. exists t'. split; [|done]. intros <-.
    destruct Ht as [[H' _]|(l & H' & _)]; congruence. }
  assert (∀ j, j ≠ i → closing s j → closing s' j) as Ec'.
  { intros j Hj (t' & l & H & Hin). unfold s'. rewrite closing_at. destruct (decide (t = t')) as [<-|]; [|right; eauto 6].
    left. destruct Ht as [[H' _]|(l' & H' & ->)]; [congruence|]. rewrite H in H'. injection H' as ->.
    exists l'. split; [done|]. by apply elem_of_cons in Hin as [?|]. }
  assert (owned s i → ∀ j, owned s' j → j ≠ i) as Hgone.
  { intros Hoi j Hj ->. destruct Ht as [[Ht ->]|(l & Ht & ->)].
    - unfold s' in Hj. rewrite owned_at in Hj. destruct Hj as [[=]|(t' & Hne & H)]. apply Hne. by eapply Ha.
    - apply (Hp i Hoi). exists t, (i :: l). split; [done|by left]. }
  split.
  - intros j. change (w_made (sy_world s')) with (w_made (close_client i (sy_world s))). rewrite length_close. intros [H|[H|H]].
    + apply Hk. by left.
    + apply Hk. right. left. unfold s' in H. rewrite used_at in H. destruct H as [[own ->]|(t' & own & _ & H)]; [|by exists t', own].
      by destruct Ht as [[_ [=]]|(l & _ & [=])].
    + apply Hk. right. right. by apply Ec.
  - intros k j c Hkj (c' & Hc & <-)%url_close. by eapply Hu.
  - intros j Hj. unfold s'. simpl. rewrite open_close, (Ho j) by (by apply Eo). simpl.
    rewrite bool_decide_eq_false_2; [done|]. intros ->. apply Eo in Hj as Hown. by apply (Hgone Hown i).
  - apply alone_at; [done| |]; intros j; destruct Ht as [[_ ->]|(l & _ & ->)]; done.
  - intros j Hj. destruct (Hp j) as [Hnp Hnc]; [by apply Eo|]. split; [done|]. intros H. by apply Hnc, Ec.
  - intros j. change (sy_world s') with (close_client i (sy_world s)). rewrite open_close. intros [H Hne%negb_true_iff%bool_decide_eq_false]%andb_prop.
    destruct (Hh _ H) as [?|[?|?]]; [by left|right; left; by apply Eo'|right; right; by apply Ec'].
Qed.

(** The pool is emptied, and a thread gets its clients to close. *)
Lemma inv_empty s t p :
  Inv s → sy_threads s !! t = None → hp_clients p = ∅ →
  Inv (mkSystem (mkWorld p (w_made (sy_world s)))
         (<[t := Closing (map_to_list (hp_clients (w_pool (sy_world s)))).*2]> (sy_threads s))).
Proof.
  intros [Hk Hu Ho Ha Hp Hh] Ht He. match goal with |- Inv ?x => set (s' := x) end.
  change (<[t := Closing ?l]> ?m) with (set_phase t (Some (Closing l)) m) in s'.
  assert (∀ i, owned s' i ↔ owned s i) as Eo.
  { intros i. unfold s'. rewrite owned_at. split; [intros [[=]|(t' & _ & H)]; by exists t'|].
    intros [t' H]. right. exists t'. split; [congruence|done]. }
  assert (∀ i, closing s' i ↔ pooled s i ∨ closing s i) as Ec.
  { intros i. unfold s'. rewrite closing_at. split.
    - intros [(l & [= <-] & Hin)|(t' & l & _ & H)]; [left; by apply taken_pooled|right; by exists t', l].
    - intros [H|(t' & l & H & Hin)]; [left; eexists; split; [done|by apply taken_pooled]|].
      right. exists t', l. split; [congruence|done]. }
  assert (∀ i, ¬ pooled s' i) as Ep by (intros i [k H]; simpl in H; by rewrite He in H).
  split.
  - intros i [H|[H|H%Ec]]; [by apply Ep in H| |apply Hk; tauto].
    unfold s' in H. rewrite used_at in H. destruct H as [[own [=]]|(t' & own & _ & H)]. apply Hk. right. left. by exists t', own.
  - intros k i c H. simpl in H. by rewrite He in H.
  - intros i. rewrite Eo. apply Ho.
  - by apply alone_at.
  - intros i. rewrite Eo, Ec. intros H%Hp. split; [apply Ep|tauto].
  - intros i H. change (is_open i (sy_world s) = true) in H. rewrite Eo, Ec. apply Hh in H. tauto.
Qed.

(** ** Runs *)

Lemma inv_flags s p :
  Inv s → hp_clients p = hp_clients (w_pool (sy_world s)) → Inv (mkSystem (mkWorld p (w_made (sy_world s))) (sy_threads s)).
Proof. intros [Hk Hu Ho Ha Hp Hh] He. split; unfold pooled in *; simpl; rewrite ?He; done. Qed.

Lemma inv_switch s t want :
  Inv s → sy_threads s !! t = None →
  Inv (mkSystem (set_enabled want (sy_world s)).2 (<[t := Closing (set_enabled want (sy_world s)).1]> (sy_threads s))).
Proof.
  intros Hi Ht. unfold set_enabled.
  assert (∀ s', Inv s' → sy_threads s' !! t = None → Inv (mkSystem (sy_world s') (<[t := Closing []]> (sy_threads s')))) as Hnone.
  { intros s' Hi' Ht'. apply (inv_move s' t (Some (Closing []))); [done|congruence|done|by intros l [= <-]]. }
  destruct (Bool.eqb _ _); [by apply Hnone|]. destruct want; [|by apply inv_empty].
  by apply (Hnone (mkSystem _ _)); [apply inv_flags|].
Qed.
Lemma inv_advance s t p :
  Inv s → sy_threads s !! t = Some p →
  Inv (mkSystem (advance p (sy_world s)).2 (set_phase t (advance p (sy_world s)).1 (sy_threads s))).
Proof.
  intros Hi Ht. destruct p as [u to|u to|i [|]|[|i l]]; simpl.
  - destruct (_ || _).
    + by eapply (inv_make s t _ (rstrip_char "/" u) to).
    + apply inv_move; [done| |done|done]. rewrite Ht. by intros q [= <-] i.
  - unfold _get_pooled. destruct (hp_clients _ !! _) as [i|] eqn:Hp.
    + destruct (is_open i (sy_world s)) eqn:Ho.
      * apply inv_move; [done| | |done]; [rewrite Ht; by intros q [= <-] j|].
        intros j own [= <- <-]. split; [done|]. by eexists.
      * eapply inv_pool; [done..|]. intros j Hj. congruence.
    + eapply inv_pool; [done..|]. congruence.
  - apply (inv_close s t None i); [done|by left].
  - apply (inv_move s t None); [done| |done|done]. rewrite Ht. by intros q [= <-] j.
  - apply (inv_move s t None); [done| |done|done]. rewrite Ht. intros q [= <-] j. split; [done|by intros l [= <-]].
  - apply (inv_close s t (Some (Closing l)) i); [done|]. right. by exists l.
Qed.
Lemma inv_step s s' : step s s' → Inv s → Inv s'.
Proof.
  intros [s1 t u to Ht|s1 t p Ht|s1 t want Ht|s1 t Ht] Hi.
  - apply (inv_move s1 t (Some (Starting u to))); [done|congruence|done|done].
  - by apply inv_advance.
  - by apply inv_switch.
  - by apply inv_empty.
Qed.
Lemma inv_reachable p s : hp_clients p = ∅ → rtc step (started p) s → Inv s.
Proof.
  intros He H. assert (Inv (started p)) as Hi.
  { assert (∀ i, ¬ pooled (started p) i) as Hp by (intros i [k H']; simpl in H'; by rewrite He in H').
    split; simpl.
    - intros i [H'|[(t & own & H')|(t & l & H' & _)]]; [by apply Hp in H'|done|done].
    - intros k i c. by rewrite He.
    - by intros i [t H'].
    - done.
    - by intros i [t H'].
    - done. }
  clear He. revert Hi. induction H as [|s1 s2 s3 H12 _ IH]; [done|]. intros Hi. by apply IH, (inv_step s1).
Qed.

(** C17. Whatever the requests, switches and shutdowns that use the pool do, in whatever
    order: a client that is open is in the pool, or is the own client of one request, or
    is about to be closed, so none is lost; a request that has its own client is the only
    one to use it, and it stays open; and the pool holds at most one client per base URL,
    made for that URL.  When all threads are done after the pool was emptied, every
    client is closed. *)
Theorem no_client_is_lost p s :
  hp_clients p = ∅ → rtc step (started p) s →
  (∀ i, is_open i (sy_world s) = true → pooled s i ∨ owned s i ∨ closing s i) ∧
  (∀ t i, sy_threads s !! t = Some (Using i true) →
     is_open i (sy_world s) = true ∧ ∀ t' own, sy_threads s !! t' = Some (Using i own) → t' = t) ∧
  (∀ k i c, hp_clients (w_pool (sy_world s)) !! k = Some i → w_made (sy_world s) !! i = Some c → hc_base_url c = k) ∧
  (sy_threads s = ∅ → hp_clients (w_pool (sy_world s)) = ∅ → ∀ i, is_open i (sy_world s) = false).
Proof.
  intros He Hr. destruct (inv_reachable _ _ He Hr) as [Hk Hu Ho Ha Hp Hh]. split_and!; [done| |done|].
  - intros t i Ht. split; [apply Ho; by exists t|]. intros t' own Ht'. symmetry. by eapply Ha.
  - intros Ht Hc i. destruct (is_open i (sy_world s)) eqn:E; [|done]. exfalso.
    destruct (Hh i E) as [[k H]|[[t H]|(t & l & H & _)]]; [by rewrite Hc in H|by rewrite Ht in H|by rewrite Ht in H].
Qed.

(** Without interference two requests for one base URL share a client of the pool; the
    second gets the timeout of the first. *)
Lemma clients_are_reused u v t t' w :
  rstrip_char "/" u = rstrip_char "/" v →
  _get_pooled v t' (_get_pooled u t w).2 = _get_pooled u t w.
Proof.
  intros Huv. unfold _get_pooled at 1. rewrite <-Huv.
  assert (hp_clients (w_pool (_get_pooled u t w).2) !! rstrip_char "/" u = Some (_get_pooled u t w).1 ∧
          is_open (_get_pooled u t w).1 (_get_pooled u t w).2 = true) as [-> ->]; [|by destruct (_get_pooled u t w)].
  unfold _get_pooled.
  assert (∀ m : gmap string nat, is_open (length (w_made w))
    (mkWorld (set_clients m (w_pool w)) (w_made (_make_client (rstrip_char "/" u) t w).2)) = true) as Hnew.
  { intros m. pose proof (open_made (length (w_made w)) (rstrip_char "/" u) t w) as H.
    by rewrite bool_decide_eq_true_2, orb_true_r in H. }
  destruct (hp_clients (w_pool w) !! _) as [i|] eqn:E; [destruct (is_open i w) eqn:Eo; [done|]|]; simpl;
    (split; [by rewrite lookup_insert_eq|apply Hnew]).
Qed.

(** Switching the pool off closes the client of a request that is under way. *)
Example switching_off_closes_clients_in_use :
  ∃ s, rtc step (started (init true 100 20 30%Q false)) s ∧
    ∃ t, sy_threads s !! t = Some (Using 0 false) ∧ is_open 0 (sy_world s) = false.
Proof.
  eexists. split.
  { eapply rtc_l; [by apply (step_enter _ 1 "https://api.firecrawl.dev" 30)|].
    eapply rtc_l; [by apply (step_advance _ 1 (Starting "https://api.firecrawl.dev" 30))|].
    eapply rtc_l; [by apply (step_advance _ 1 (Pooling "https://api.firecrawl.dev" 30))|].
    eapply rtc_l; [by apply (step_switch _ 2 false)|].
    eapply rtc_l; [by apply (step_advance _ 2 (Closing [0%nat]))|]. apply rtc_refl. }
  exists 1%nat. split; vm_compute; reflexivity.
Qed.

Lemma no_client_is_lost_witness :
  ∃ s, rtc step (started (init false 100 20 30%Q false)) s ∧ sy_threads s !! 1%nat = Some (Using 0 true) ∧
    is_open 0 (sy_world s) = true.
Proof.
  set (p := init false 100 20 30%Q false).
  set (s1 := mkSystem (mkWorld p []) {[1%nat := Starting "https://api.exa.ai/" 30]}).
  set (s2 := mkSystem (advance (Starting "https://api.exa.ai/" 30) (sy_world s1)).2
    (set_phase 1 (advance (Starting "https://api.exa.ai/" 30) (sy_world s1)).1 (sy_threads s1))).
  assert (rtc step (started p) s2) as Hr.
  { eapply rtc_l; [apply (step_enter (started p) 1 "https://api.exa.ai/" 30); reflexivity|].
    eapply rtc_l; [apply (step_advance s1 1); reflexivity|]. apply rtc_refl. }
  exists s2. split; [exact Hr|]. split; [vm_compute; reflexivity|].
  apply (no_client_is_lost p s2 eq_refl Hr) with (t := 1%nat). vm_compute. reflexivity.
Defined.
End HttpPoolTheorems.
