(* ===== verification/LoadConfig.v ===== *)
(** [load_config] of [app/config.py]: defaults, then the YAML file, then the environment,
    then validation; and where each value comes from.  What pydantic and yaml do is an
    interface; [_deep_merge] is in [Config.v]. *)

From S2P Require Import Prelude PyText Json Effects Config.
Open Scope Z_scope.

(** [yaml.safe_load] ([None]: a YAMLError), [AppConfig.model_dump] and
    [AppConfig.model_validate] ([None]: a ValidationError). *)
Class Loader := {
  safe_load : string → option Json;
  model_dump : AppConfig → list (string * Json);
  model_validate : Json → option AppConfig
}.
(** The keys of a loaded mapping are distinct. *)
Class LoaderLaws `{!Loader} := { safe_load_keyed : ∀ s j, safe_load s = Some j → well_keyed j }.

Definition _RESERVED_ENV_KEYS : list string := ["FCAM_CONFIG"; "FCAM_ADMIN_TOKEN"; "FCAM_MASTER_KEY"].

(** [s.split("__")]. *)
Fixpoint split_delimiter (s : string) : list string :=
  match s with
  | EmptyString => [EmptyString]
  | String c s' =>
      match s' with
      | String d s'' =>
          if Ascii.eqb c "_" && Ascii.eqb d "_" then EmptyString :: split_delimiter s''
          else match split_delimiter s' with [] => [] | p :: ps => String c p :: ps end
      | EmptyString => [String c EmptyString]
      end
  end.
Definition path_of (key : string) : list string := split_delimiter (lower (slice_from (String.length "FCAM_") key)).

Section Load.
Context {LD : Loader}.

(** [contents]: [None] when the file does not exist. *)
Definition _load_yaml_file (contents : option string) : Res (list (string * Json)) :=
  match contents with
  | None => Ok []
  | Some raw =>
      match safe_load raw with
      | None => Raise (EOther "YAMLError")
      | Some data => if negb (truthy data) then Ok []
                     else match data with JObj o => Ok o | _ => Raise (EValueError "config.yaml 顶层必须是 object/dict") end
      end
  end.

(** The variable's path in the configuration, if it sets one. *)
Definition setting (environ : dict) (key : string) : option (list string) :=
  if str_in key _RESERVED_ENV_KEYS then None
  else if String.eqb key "FCAM_DATABASE_URL" then
    match dict_get "FCAM_DATABASE__URL" environ with Some _ => None | None => Some (path_of "FCAM_DATABASE__URL") end
  else if startswith "FCAM_" key then Some (path_of key) else None.
(** The walk of [cursor] down [path], making the dictionaries it needs. *)
Fixpoint set_path (path : list string) (value : Json) (o : list (string * Json)) : list (string * Json) :=
  match path with
  | [] => o
  | [part] => obj_set part value o
  | part :: path =>
      let next_cursor := match obj_get part o with Some (JObj m) => m | _ => [] end in
      obj_set part (JObj (set_path path value next_cursor)) o
  end.
Fixpoint env_loop (environ items : dict) (result : list (string * Json)) : Res (list (string * Json)) :=
  match items with
  | [] => Ok result
  | (key, raw_value) :: items =>
      match setting environ key with
      | None => env_loop environ items result
      | Some path =>
          match safe_load raw_value with
          | None => Raise (EOther "YAMLError")
          | Some value => env_loop environ items (set_path path value result)
          end
      end
  end.
Definition _env_overrides (environ : dict) : Res (list (string * Json)) := env_loop environ environ [].

Definition urls_differ (environ : dict) : bool :=
  match dict_get "FCAM_DATABASE_URL" environ, dict_get "FCAM_DATABASE__URL" environ with
  | Some url, Some nested => negb (String.eqb url "") && negb (String.eqb nested "") && negb (String.eqb url nested)
  | _, _ => false
  end.
(** [read path]: the contents of a file, if it exists. *)
Definition load_config (environ : dict) (read : string → option string) : Res (AppConfig * Secrets) :=
  let defaults := model_dump default_AppConfig in
  if urls_differ environ then Raise (EValueError "FCAM_DATABASE_URL 与 FCAM_DATABASE__URL 同时设置但不一致；请只设置一个或保持一致。")
  else
    match _load_yaml_file (read (default "config.yaml" (dict_get "FCAM_CONFIG" environ))) with
    | Raise e => Raise e
    | Ok yaml_config =>
        match _env_overrides environ with
        | Raise e => Raise e
        | Ok env_config =>
            let merged := deep_merge (JObj defaults) (JObj yaml_config) in
            let merged := deep_merge merged (JObj env_config) in
            match model_validate merged with
            | None => Raise (EOther "ValidationError")
            | Some config =>
                Ok (config, mkSecrets (dict_get (as_token_env (se_admin (cfg_security config))) environ)
                                      (dict_get (ke_master_key_env (se_key_encryption (cfg_security config))) environ))
            end
        end
    end.
End Load.

(** * Theorems *)

Module LoadConfigTheorems.

Example a_path : path_of "FCAM_DATABASE__URL" = ["database"; "url"].
Proof. reflexivity. Qed.

(** ** Values at a path *)

(** What a tree says of a path: a value, nothing, or that something on the way is not an
    object. *)
Inductive Entry := Given (v : Json) | Silent | Cut.
Fixpoint entry (p : list string) (j : Json) : Entry :=
  match p with
  | [] => Given j
  | k :: p => match j with
              | JObj o => match obj_get k o with Some v => entry p v | None => Silent end
              | _ => Cut
              end
  end.
Definition value_at (p : list string) (j : Json) : option Json :=
  match entry p j with Given v => Some v | _ => None end.
Definition is_object (j : Json) : bool := match j with JObj _ => true | _ => false end.

Lemma obj_get_set k v o : obj_get k (obj_set k v o) = Some v.
Proof.
  induction o as [|[k' v'] o IH]; simpl; [by rewrite String.eqb_refl|].
  destruct (String.eqb k k') eqn:E; simpl; [by rewrite String.eqb_refl|by rewrite E].
Qed.
Lemma obj_get_set_ne k k' v o : k ≠ k' → obj_get k (obj_set k' v o) = obj_get k o.
Proof.
  intros Hne. induction o as [|[k1 v1] o IH]; simpl.
  - by destruct (String.eqb_spec k k').
  - destruct (String.eqb_spec k' k1) as [->|]; simpl; [by destruct (String.eqb_spec k k1)|]. by rewrite IH.
Qed.
Lemma obj_get_none k o : k ∉ o.*1 → obj_get k o = None.
Proof.
  induction o as [|[k' v'] o IH]; simpl; [done|]. intros [Hne Hn]%not_elem_of_cons.
  destruct (String.eqb_spec k k'); [done|by apply IH].
Qed.

(** ** Merging *)

Definition merged_value (old : option Json) (v : Json) : Json :=
  match v, old with JObj _, Some (JObj m) => deep_merge (JObj m) v | _, _ => v end.
Definition merge_loop (b o : list (string * Json)) : list (string * Json) :=
  foldl (λ acc kv, obj_set kv.1 (merged_value (obj_get kv.1 acc) kv.2) acc) b o.
Lemma deep_merge_eq b o : deep_merge (JObj b) (JObj o) = JObj (merge_loop b o).
Proof.
  cbn [deep_merge]. f_equal. unfold merge_loop. revert b. induction o as [|[k v] o IH]; intros b; [done|]. simpl foldl.
  rewrite <-IH. f_equal.
Qed.
Lemma merge_loop_get k o : NoDup o.*1 → ∀ b,
  obj_get k (merge_loop b o) = match obj_get k o with
                               | Some v => Some (merged_value (obj_get k b) v)
                               | None => obj_get k b
                               end.
Proof.
  unfold merge_loop. induction o as [|[k' v'] o IH]; intros Hnd b; simpl; [done|].
  apply NoDup_cons in Hnd as [Hni Hnd]. rewrite IH by done. destruct (String.eqb_spec k k') as [->|Hne].
  - by rewrite obj_get_none, obj_get_set.
  - by rewrite obj_get_set_ne.
Qed.
Lemma keyed_get o k v : well_keyed (JObj o) → obj_get k o = Some v → well_keyed v.
Proof.
  simpl. intros [_ Ho]. induction o as [|[k' v'] o IH]; simpl in *; [done|]. destruct Ho as [Hv Ho].
  destruct (String.eqb k k'); [by intros [= <-]|by apply IH].
Qed.

(** What the merged tree has at a path: what the upper tree says there, an object of it
    merged into the one below it; what the lower tree has where the upper is silent. *)
Definition over (upper : Entry) (below : option Json) : option Json :=
  match upper with Given v => Some (merged_value below v) | Silent => below | Cut => None end.
Lemma merged_value_none v : merged_value None v = v.
Proof. by destruct v. Qed.
Lemma merged_at p : p ≠ [] → ∀ b o, well_keyed (JObj o) →
  value_at p (deep_merge (JObj b) (JObj o)) = over (entry p (JObj o)) (value_at p (JObj b)).
Proof.
  unfold value_at. induction p as [|k p IH]; intros Hp b o Hk; [done|]. rewrite deep_merge_eq. cbn [entry].
  rewrite merge_loop_get by apply Hk. destruct (obj_get k o) as [v|] eqn:E; [|done].
  destruct p as [|k' p].
  { simpl. by destruct (obj_get k b). }
  assert (merged_value (obj_get k b) v = v → (∀ m, obj_get k b = Some (JObj m) → is_object v = false) →
    match entry (k' :: p) (merged_value (obj_get k b) v) with Given x => Some x | _ => None end =
    over (entry (k' :: p) v) (match obj_get k b with
                              | Some w => match entry (k' :: p) w with Given x => Some x | _ => None end
                              | None => None end)) as Hover.
  { intros -> Hm. destruct (obj_get k b) as [[| | | | | |m]|]; try (simpl; destruct v; simpl; try done;
      destruct (obj_get k' _); simpl; try done; destruct (entry p _); simpl; by rewrite ?merged_value_none).
    rewrite <-(andb_true_r (is_object v)) in Hm. destruct v; try done. by specialize (Hm m eq_refl). }
  destruct v as [| | | | | |vo]; try (apply Hover; [by destruct (obj_get k b)|done]).
  apply (keyed_get _ _ _ Hk) in E. destruct (obj_get k b) as [[| | | | | |m]|] eqn:Eb;
    try (rewrite <-Eb; apply Hover; rewrite Eb; done); try (apply Hover; done).
  by apply (IH ltac:(done) m vo).
Qed.

(** ** Setting a path *)

Definition apart (p q : list string) : Prop := ¬ p `prefix_of` q ∧ ¬ q `prefix_of` p.
Lemma apart_cons k p q : apart (k :: p) (k :: q) → apart p q.
Proof. intros [H1 H2]. split; intros H; [apply H1|apply H2]; by apply prefix_cons. Qed.
Lemma apart_sym p q : apart p q → apart q p.
Proof. intros []. by split. Qed.

Lemma set_path_same q v : q ≠ [] → ∀ o, entry q (JObj (set_path q v o)) = Given v.
Proof.
  induction q as [|k q IH]; intros Hq o; [done|]. destruct q as [|k' q]; cbn; rewrite obj_get_set; [done|]. by apply IH.
Qed.
Lemma set_path_apart p : ∀ q v o, apart p q → entry p (JObj o) ≠ Cut →
  entry p (JObj (set_path q v o)) = entry p (JObj o).
Proof.
  induction p as [|k p IH]; intros q v o Ha Hc; [by destruct Ha as [[] _]; apply prefix_nil|].
  destruct q as [|k' q]; [done|].
  assert (∀ x, k ≠ k' → entry (k :: p) (JObj (obj_set k' x o)) = entry (k :: p) (JObj o)) as Hother.
  { intros x Hne. cbn. by rewrite obj_get_set_ne. }
  destruct (decide (k = k')) as [<-|Hne]; [|destruct q; by apply Hother].
  apply apart_cons in Ha. destruct q as [|k2 q]; [by destruct Ha as [_ []]; apply prefix_nil|].
  assert (p ≠ []) as Hp by (intros ->; destruct Ha as [[] _]; apply prefix_nil).
  change (set_path (k :: k2 :: q) v o) with
    (obj_set k (JObj (set_path (k2 :: q) v (match obj_get k o with Some (JObj m) => m | _ => [] end))) o).
  cbn [entry] in Hc |- *. rewrite obj_get_set. destruct (obj_get k o) as [j|].
  - destruct p as [|k1 p]; [done|]. destruct j; try (by destruct Hc). by apply IH.
  - rewrite IH; [by destruct p|done|by destruct p].
Qed.

Lemma set_keys k v o x : x ∈ (obj_set k v o).*1 → x = k ∨ x ∈ o.*1.
Proof.
  induction o as [|[k' v'] o IH]; simpl; [by intros ->%list_elem_of_singleton; left|].
  destruct (String.eqb_spec k k') as [->|]; simpl; [tauto|]. intros [->|Hx]%elem_of_cons; [right; by left|].
  apply IH in Hx as [?|?]; [by left|right; by right].
Qed.
Lemma well_keyed_set k v o : well_keyed (JObj o) → well_keyed v → well_keyed (JObj (obj_set k v o)).
Proof.
  cbn [well_keyed]. intros [Hnd Ho] Hv. induction o as [|[k' v'] o IH]; simpl in *.
  - split; [apply NoDup_singleton|done].
  - apply NoDup_cons in Hnd as [Hni Hnd]. destruct Ho as [Hv' Ho]. destruct (String.eqb_spec k k') as [->|Hne]; simpl.
    + split; [by constructor|done].
    + destruct IH as [Hnd' Ho']; [done..|]. split; [|done]. constructor; [|done]. by intros [?|?]%set_keys.
Qed.
Lemma set_path_keyed q v : well_keyed v → ∀ o, well_keyed (JObj o) → well_keyed (JObj (set_path q v o)).
Proof.
  intros Hv. induction q as [|k q IH]; intros o Ho; [done|]. destruct q as [|k' q]; [by apply well_keyed_set|].
  change (set_path (k :: k' :: q) v o) with
    (obj_set k (JObj (set_path (k' :: q) v (match obj_get k o with Some (JObj m) => m | _ => [] end))) o).
  apply well_keyed_set; [done|]. apply IH. destruct (obj_get k o) as [[| | | | | |m]|] eqn:E; try (split; constructor).
  by eapply keyed_get.
Qed.

(** ** The environment *)

Section Load.
Context {LD : Loader} {LL : LoaderLaws} (environ : dict).

(** The settings of the environment: path and text, in order. *)
Definition settings (items : dict) : list (list string * string) :=
  omap (λ kv, p ← setting environ kv.1; Some (p, kv.2)) items.
Fixpoint apply_settings (l : list (list string * string)) (o : list (string * Json)) : Res (list (string * Json)) :=
  match l with
  | [] => Ok o
  | (p, raw) :: l => match safe_load raw with Some v => apply_settings l (set_path p v o) | None => Raise (EOther "YAMLError") end
  end.
Lemma env_loop_settings items : ∀ o, env_loop environ items o = apply_settings (settings items) o.
Proof.
  induction items as [|[k raw] items IH]; intros o; [done|]. unfold settings. simpl.
  destruct (setting environ k) as [p|]; simpl; [|apply IH]. destruct (safe_load raw); [apply IH|done].
Qed.

Lemma apply_settings_keyed l : ∀ o r, well_keyed (JObj o) → apply_settings l o = Ok r → well_keyed (JObj r).
Proof.
  induction l as [|[p raw] l IH]; intros o r Ho; simpl; [by intros [= <-]|].
  destruct (safe_load raw) as [v|] eqn:E; [|done]. apply IH, set_path_keyed; [|done]. by eapply safe_load_keyed.
Qed.
Lemma apply_settings_apart p l : ∀ o r, (∀ q raw, (q, raw) ∈ l → apart p q) → entry p (JObj o) ≠ Cut →
  apply_settings l o = Ok r → entry p (JObj r) = entry p (JObj o).
Proof.
  induction l as [|[q raw] l IH]; intros o r Ha Hc; simpl; [by intros [= <-]|].
  destruct (safe_load raw) as [v|]; [|done]. intros Hr.
  assert (apart p q) as Hpq by (apply (Ha q raw); by left).
  rewrite (IH (set_path q v o)); [by apply set_path_apart| |by rewrite set_path_apart|done].
  intros q' raw' Hin. apply (Ha q' raw'). by right.
Qed.
Lemma apply_settings_app a b o : apply_settings (a ++ b) o =
  match apply_settings a o with Ok o' => apply_settings b o' | Raise e => Raise e end.
Proof. revert o. induction a as [|[p raw] a IH]; intros o; simpl; [done|]. by destruct (safe_load raw). Qed.

(** A path that one variable sets, and no other variable above or below it. *)
Definition sets (p : list string) (raw : string) : Prop :=
  ∃ a b, settings environ = a ++ (p, raw) :: b ∧ ∀ q raw', (q, raw') ∈ b → apart p q.
Definition untouched (p : list string) : Prop := ∀ q raw, (q, raw) ∈ settings environ → apart p q.

Lemma env_sets p raw r : p ≠ [] → sets p raw → _env_overrides environ = Ok r →
  ∃ v, safe_load raw = Some v ∧ entry p (JObj r) = Given v.
Proof.
  intros Hp (a & b & Hab & Hapart) Hr. unfold _env_overrides in Hr. rewrite env_loop_settings, Hab, apply_settings_app in Hr.
  destruct (apply_settings a []) as [o|]; [|done]. simpl in Hr. destruct (safe_load raw) as [v|]; [|done].
  exists v. split; [done|].
  rewrite (apply_settings_apart p b (set_path p v o)); [by apply set_path_same|done|by rewrite set_path_same|done].
Qed.
Lemma env_untouched p r : p ≠ [] → untouched p → _env_overrides environ = Ok r → entry p (JObj r) = Silent.
Proof.
  intros Hp Hu Hr. unfold _env_overrides in Hr. rewrite env_loop_settings in Hr.
  assert (entry p (JObj []) = Silent) as He by (by destruct p).
  rewrite (apply_settings_apart p (settings environ) [] r); [done|done|by rewrite He|done].
Qed.

Lemma env_keyed r : _env_overrides environ = Ok r → well_keyed (JObj r).
Proof. unfold _env_overrides. rewrite env_loop_settings. apply apply_settings_keyed. split; constructor. Qed.
Lemma yaml_keyed contents y : _load_yaml_file contents = Ok y → well_keyed (JObj y).
Proof.
  unfold _load_yaml_file. destruct contents as [raw|]; [|intros [= <-]; split; constructor].
  destruct (safe_load raw) as [j|] eqn:E; [|done]. apply safe_load_keyed in E.
  destruct (negb (truthy j)); [intros [= <-]; split; constructor|]. destruct j; try done. by intros [= <-].
Qed.

(** C19. Where a configuration comes from.  For every path of the configuration: the last
    environment variable that sets it, if no later one sets something above or below it,
    decides it; if no variable touches it the YAML file decides it, and if the file does
    not mention it either, the default stands.  To decide is to replace what the sources
    further down say, except that an object is merged with an object further down; and
    where the file has something other than an object above the path, there is no value
    at it.  The administrator's token and the master key are read from the variables
    that configuration names, and not from it. *)
Theorem values_come_from_env_file_defaults read config secrets :
  load_config environ read = Ok (config, secrets) →
  ∃ yaml merged,
    _load_yaml_file (read (default "config.yaml" (dict_get "FCAM_CONFIG" environ))) = Ok yaml ∧
    model_validate merged = Some config ∧
    (let file_value p := over (entry p (JObj yaml)) (value_at p (JObj (model_dump default_AppConfig))) in
     (∀ p raw, p ≠ [] → sets p raw →
        ∃ v, safe_load raw = Some v ∧ value_at p merged = over (Given v) (file_value p)) ∧
     (∀ p, p ≠ [] → untouched p → value_at p merged = file_value p)) ∧
    sec_admin_token secrets = dict_get (as_token_env (se_admin (cfg_security config))) environ ∧
    sec_master_key secrets = dict_get (ke_master_key_env (se_key_encryption (cfg_security config))) environ.
Proof.
  unfold load_config. destruct (urls_differ environ); [done|]. destruct (_load_yaml_file _) as [yaml|] eqn:Hy; [|done].
  destruct (_env_overrides environ) as [env|] eqn:He; [|done]. rewrite deep_merge_eq.
  set (lower := merge_loop _ yaml). destruct (model_validate _) as [c|] eqn:Hv; [|done]. intros [= <- <-].
  assert (∀ p, p ≠ [] → value_at p (JObj lower) =
    over (entry p (JObj yaml)) (value_at p (JObj (model_dump default_AppConfig)))) as Hlower.
  { intros p Hp. unfold lower. rewrite <-deep_merge_eq. apply merged_at; [done|]. by eapply yaml_keyed. }
  exists yaml, (deep_merge (JObj lower) (JObj env)). split_and!; [done..| | |done|done].
  - intros p raw Hp (v & Hl & Hs)%(env_sets p raw env Hp); [|done]. exists v. split; [done|].
    by rewrite merged_at, Hs, Hlower by (done || by apply env_keyed).
  - intros p Hp Hu. rewrite merged_at, (env_untouched p env Hp Hu He) by (done || by apply env_keyed).
    by apply Hlower.
Qed.
End Load.

(** An empty FCAM_DATABASE__URL hides a FCAM_DATABASE_URL: the address is not set, whereas
    the migrations use it. *)
Example empty_nested_url (LD : Loader) :
  safe_load "" = Some JNull →
  _env_overrides [("FCAM_DATABASE__URL", ""); ("FCAM_DATABASE_URL", "postgresql://db")] =
  Ok [("database", JObj [("url", JNull)])].
Proof. intros H. unfold _env_overrides. cbn. by rewrite H. Qed.

(** ** A small loader: integers and strings, one section of the configuration *)

#[export] Instance demo_loader : Loader := {|
  safe_load s := Some (if String.eqb s "server: {port: 9000}" then JObj [("server", JObj [("port", JInt 9000)])]
                       else match parse_int s with Some n => JInt n | None => JStr s end);
  model_dump c := [("server", JObj [("host", JStr (sv_host (cfg_server c))); ("port", JInt (sv_port (cfg_server c)))])];
  model_validate j := match value_at ["server"; "port"] j with Some (JInt _) => Some default_AppConfig | _ => None end
|}.
#[export] Instance demo_loader_laws : LoaderLaws.
Proof.
  split. intros s j [= <-]. destruct (String.eqb s _).
  - split; [apply NoDup_singleton|]. repeat split. apply NoDup_singleton.
  - by destruct (parse_int s).
Qed.
Definition demo_environ : dict := [("FCAM_CONFIG", "prod.yaml"); ("FCAM_SERVER__HOST", "127.0.0.1"); ("FCAM_ADMIN_TOKEN", "t")].
Definition demo_read (path : string) : option string :=
  if String.eqb path "prod.yaml" then Some "server: {port: 9000}" else None.
Lemma values_come_from_env_file_defaults_witness :
  ∃ merged, value_at ["server"; "host"] merged = Some (JStr "127.0.0.1") ∧
            value_at ["server"; "port"] merged = Some (JInt 9000).
Proof.
  destruct (values_come_from_env_file_defaults (LD:=demo_loader) demo_environ demo_read default_AppConfig
    (mkSecrets (Some "t") None)) as (yaml & merged & Hy & _ & (Henv & Hfile) & _); [vm_compute; reflexivity|].
  vm_compute in Hy. injection Hy as <-. exists merged. split.
  - destruct (Henv ["server"; "host"] "127.0.0.1") as (v & Hv & Hm).
    + discriminate.
    + exists [], []. split; [vm_compute; reflexivity|]. intros q raw Hin. inversion Hin.
    + vm_compute in Hv. injection Hv as <-. rewrite Hm. reflexivity.
  - assert (untouched demo_environ ["server"; "port"]) as Hu.
    { intros q raw Hin. assert (settings demo_environ demo_environ = [(["server"; "host"], "127.0.0.1")]) as Es
        by (vm_compute; reflexivity).
      rewrite Es in Hin. apply list_elem_of_singleton in Hin. injection Hin as -> ->. split; intros [r Hr]; discriminate Hr. }
    rewrite (Hfile ["server"; "port"]) by (done || discriminate). reflexivity.
Defined.
End LoadConfigTheorems.
