(* ===== verification/App.v ===== *)
(** [app/main.py]: how the application is put together, started and shut down, with
    [app/core/credit_refresh_scheduler.py] and the place of the runtime settings file.
    The objects are the records of their own files; FastAPI, the static files and the
    placeholder page are left out, a router is named by its module.  Resources are released
    at shutdown if the background task stops in time, and the limiters keep their state in
    Redis apart. *)

From S2P Require Import Prelude PyText Json Effects Config RuntimeSettings Cooldown RedisLimits Middleware.
From S2P Require Import DbSession HttpPool Models Forwarder.
Open Scope Z_scope.

Module App.

(** ** The background task *)

(** An asyncio task: how it ended, or, while it runs, how it ends once it is asked to
    stop ([None]: not before it is cancelled; the loop lets CancelledError through). *)
Inductive TaskEnd := Returned | Failed | WasCancelled.
Inductive Task := Ended (e : TaskEnd) | Running (when_asked : option TaskEnd).
(** [await asyncio.wait_for(task, timeout)] on a task that was asked to stop: its result,
    its exception, its cancellation, or, when the time is up, a TimeoutError, after the
    task was cancelled and awaited. *)
Inductive Waited := Result | Exception_ | Cancellation | TimedOut.
Definition ended (e : TaskEnd) : Waited :=
  match e with Returned => Result | Failed => Exception_ | WasCancelled => Cancellation end.
Definition wait_for (t : Task) : Waited * Task :=
  match t with
  | Ended e | Running (Some e) => (ended e, Ended e)
  | Running None => (TimedOut, Ended WasCancelled)
  end.
(** [task.cancel()]. *)
Definition cancel (t : Task) : Task := match t with Ended e => Ended e | Running _ => Ended WasCancelled end.

(** What of [app.state] starting and stopping is about. *)
Record AppState := mkAppState {
  as_credit_refresh_task : option Task;
  as_stop_event : option bool;             (* whether it is set *)
  as_db_open : bool;
  as_http : HttpPool.World;
  as_redis_open : option bool              (* None: no Redis *)
}.
Definition set_task (t : option Task) (ev : option bool) (s : AppState) : AppState :=
  mkAppState t ev (as_db_open s) (as_http s) (as_redis_open s).

(** [loop]: the task of [credit_refresh_loop]. *)
Definition start_credit_refresh_scheduler (config : AppConfig) (secrets : Secrets) (loop : Task) (s : AppState) : AppState :=
  if negb (cm_enabled (cfg_credit_monitoring config)) then s
  else if negb (is_set (sec_master_key secrets)) then s
  else match as_credit_refresh_task s with
       | Some _ => s
       | None => set_task (Some loop) (Some false) s
       end.

(** [CancelledError] is not an [Exception]: no [except Exception] stops it. *)
Inductive Outcome := Finished | CancelledError.
Definition stop_credit_refresh_scheduler (s : AppState) : Outcome * AppState :=
  match as_credit_refresh_task s with
  | None => (Finished, s)
  | Some task =>
      let outcome :=
        match wait_for task with
        | (Result, _) => Finished
        | (TimedOut, task) => match wait_for (cancel task) with (Cancellation, _) => CancelledError | _ => Finished end
        | (Exception_, _) => Finished
        | (Cancellation, _) => CancelledError
        end in
      (outcome, set_task None None s)
  end.

(** ** Shutting down *)

Definition close_http (w : HttpPool.World) : HttpPool.World :=
  let '(clients, w) := HttpPool.close w in foldl (λ w i, HttpPool.close_client i w) w clients.
(** The end of [lifespan]. *)
Definition shutdown (s : AppState) : Outcome * AppState :=
  match stop_credit_refresh_scheduler s with
  | (CancelledError, s) => (CancelledError, s)
  | (Finished, s) =>
      (Finished, mkAppState (as_credit_refresh_task s) (as_stop_event s) false (close_http (as_http s))
                   ((λ _, false) <$> as_redis_open s))
  end.

(** ** The settings file *)

Section App.
Context (expanduser : string → string) (resolved_parent : string → string).   (* pathlib *)

Definition default_runtime_settings_path (env : option string) (database_path : option string) : string :=
  let env := strip (default "" env) in
  if negb (String.eqb env "") then expanduser env
  else match database_path with
       | Some p => if String.eqb p "" then "data/runtime_settings.json"
                   else resolved_parent (expanduser p) +:+ "/runtime_settings.json"
       | None => "data/runtime_settings.json"
       end.

(** ** Construction *)

Inductive Concurrency_ := MemoryConcurrency | RedisConcurrency (prefix scope : string) (lease_ttl_ms : Z).
Inductive RateLimiter_ := MemoryRateLimiter | RedisRateLimiter (prefix scope : string).
Inductive CooldownStore_ := NoopCooldown | RedisCooldown (prefix scope : string).
Inductive Router := Health | DataPlaneRouter | FirecrawlCompat | FirecrawlV2Compat | ExaCompat | ControlPlaneRouter | Ui.

Record App := mkApp {
  ap_docs_url : option string;
  ap_openapi_url : option string;
  ap_engine : EngineArgs;
  ap_redis : option string;                  (* the address *)
  ap_client_concurrency : Concurrency_;
  ap_client_rate_limiter : RateLimiter_;
  ap_key_concurrency : Concurrency_;
  ap_key_rate_limiter : RateLimiter_;
  ap_cooldown_store : CooldownStore_;
  ap_runtime_settings : RuntimeScheduling;
  ap_http_pool : HttpPool.UpstreamHttpPool;
  ap_metrics_path : option string;
  ap_request_limits : Middleware.Limits;
  ap_routers : list Router
}.

Definition lease_ttl_ms (config : AppConfig) : Z :=
  let f := cfg_firecrawl config in
  (Z.max (fc_timeout f) 1 * (Z.max (fc_max_retries f) 0 + 1) + 10) * 1000.

(** [saved path]: the JSON of the settings file, if it is there and can be read. *)
Definition create_app (config : AppConfig) (environ : dict) (saved : string → option Json) : App :=
  let server := cfg_server config in
  let exa := ps_exa (cfg_providers config) in
  let limits := se_request_limits (cfg_security config) in
  let http_cfg := se_http_client (cfg_security config) in
  let prefix := rd_key_prefix (st_redis (cfg_state config)) in
  let redis := String.eqb (st_mode (cfg_state config)) "redis" in
  let runtime_path := default_runtime_settings_path (dict_get "FCAM_RUNTIME_SETTINGS_PATH" environ)
                        (Some (db_path (cfg_database config))) in
  let runtime_settings := load_from_disk (saved runtime_path) (init_scheduling (cfg_scheduling config) None) in
  let pool_enabled := effective_http_connection_pool_enabled runtime_settings (hc_connection_pool_enabled http_cfg) in
  mkApp
    (if sv_enable_docs server then Some "/docs" else None)
    (if sv_enable_docs server then Some "/openapi.json" else None)
    (create_engine_from_config config)
    (if redis then Some (rd_url (st_redis (cfg_state config))) else None)
    (if redis then RedisConcurrency prefix "client" (lease_ttl_ms config) else MemoryConcurrency)
    (if redis then RedisRateLimiter prefix "client" else MemoryRateLimiter)
    (if redis then RedisConcurrency prefix "key" (lease_ttl_ms config) else MemoryConcurrency)
    (if redis then RedisRateLimiter prefix "key" else MemoryRateLimiter)
    (if redis then RedisCooldown prefix "key" else NoopCooldown)
    runtime_settings
    (HttpPool.init pool_enabled (hc_max_connections http_cfg) (hc_max_keepalive_connections http_cfg)
       (hc_keepalive_expiry_seconds http_cfg) false)
    (if ob_metrics_enabled (cfg_observability config) then Some (ob_metrics_path (cfg_observability config)) else None)
    (Middleware.init_limits (rq_max_body_bytes limits) (rq_allowed_paths limits)
       (if pr_enabled exa then pr_allowed_paths exa else []) (rq_stream_body_limit limits))
    (Health ::
     (if sv_enable_data_plane server
      then [DataPlaneRouter; FirecrawlCompat; FirecrawlV2Compat] ++ (if pr_enabled exa then [ExaCompat] else []) else []) ++
     (if sv_enable_control_plane server then [ControlPlaneRouter; Ui] else [])).
End App.

(** ** Names in Redis *)

(** What is kept per client or per key, and the name it has in Redis. *)
Inductive Slot :=
  | ClientLeases (id : Z) | ClientTokens (id : Z) | KeyLeases (id : Z) | KeyTokens (id : Z) | KeyCooldown (id : Z).
Definition leases_name (c : Concurrency_) (id : Z) : option string :=
  match c with
  | RedisConcurrency prefix scope _ => Some (redis_name "concurrency" (redis_names prefix scope) (str_int id))
  | MemoryConcurrency => None
  end.
Definition tokens_name (l : RateLimiter_) (id : Z) : option string :=
  match l with
  | RedisRateLimiter prefix scope => Some (redis_name "rate_limit" (redis_names prefix scope) (str_int id))
  | MemoryRateLimiter => None
  end.
Definition slot_name (a : App) (s : Slot) : option string :=
  match s with
  | ClientLeases id => leases_name (ap_client_concurrency a) id
  | ClientTokens id => tokens_name (ap_client_rate_limiter a) id
  | KeyLeases id => leases_name (ap_key_concurrency a) id
  | KeyTokens id => tokens_name (ap_key_rate_limiter a) id
  | KeyCooldown id => match ap_cooldown_store a with
                      | RedisCooldown prefix scope => Some (RedisCooldownStore.redis_key (RedisCooldownStore.make prefix scope) id)
                      | NoopCooldown => None
                      end
  end.
End App.

(** * Theorems *)

Import App.

Module AppTheorems.

(** ** The background task *)

Definition stops_in_time (s : AppState) : bool :=
  match as_credit_refresh_task s with
  | None => true
  | Some (Ended e) | Some (Running (Some e)) => match e with WasCancelled => false | _ => true end
  | Some (Running None) => false
  end.

Lemma stop_outcome s : stop_credit_refresh_scheduler s =
  (if stops_in_time s then Finished else CancelledError,
   match as_credit_refresh_task s with None => s | Some _ => set_task None None s end).
Proof. unfold stop_credit_refresh_scheduler, stops_in_time. by destruct (as_credit_refresh_task s) as [[[]|[[]|]]|]. Qed.

Lemma close_clients_open l : ∀ w i, HttpPool.is_open i (foldl (λ w i, HttpPool.close_client i w) w l) = true →
  HttpPool.is_open i w = true ∧ i ∉ l.
Proof.
  induction l as [|j l IH]; intros w i; simpl.
  - intros H. split; [done|]. apply not_elem_of_nil.
  - intros [H Hni]%IH. unfold HttpPool.is_open, HttpPool.close_client in H |- *. simpl in H.
    destruct (decide (i = j)) as [->|Hne].
    + rewrite list_lookup_alter_eq in H. by destruct (_ !! j).
    + rewrite list_lookup_alter_ne in H by done. split; [done|]. by apply not_elem_of_cons.
Qed.
Lemma close_clients_pool l : ∀ w, HttpPool.w_pool (foldl (λ w i, HttpPool.close_client i w) w l) = HttpPool.w_pool w.
Proof. induction l as [|j l IH]; intros w; simpl; [done|]. by rewrite IH. Qed.

(** C22. Shutting down: if the background task ends when it is asked to, the database, every
    client in the connection pool and the connection to Redis are closed and nothing is
    left.  If it does not (it is in the middle of a round for more than five seconds), it
    is cancelled, but awaiting it again raises CancelledError, which the handler does not
    catch, and the database, the pool and Redis are left as they are. *)
Theorem shutdown_releases_if_the_task_stops s :
  as_credit_refresh_task (shutdown s).2 = None ∧
  (stops_in_time s = true →
     (shutdown s).1 = Finished ∧ as_db_open (shutdown s).2 = false ∧ as_redis_open (shutdown s).2 ≠ Some true ∧
     HttpPool.hp_clients (HttpPool.w_pool (as_http (shutdown s).2)) = ∅ ∧
     ∀ k i, HttpPool.hp_clients (HttpPool.w_pool (as_http s)) !! k = Some i →
       HttpPool.is_open i (as_http (shutdown s).2) = false) ∧
  (stops_in_time s = false →
     (shutdown s).1 = CancelledError ∧ as_db_open (shutdown s).2 = as_db_open s ∧
     as_http (shutdown s).2 = as_http s ∧ as_redis_open (shutdown s).2 = as_redis_open s).
Proof.
  unfold shutdown. rewrite stop_outcome. destruct (stops_in_time s) eqn:Hs; (split; [|split; intros ?; try done]).
  - by destruct (as_credit_refresh_task s) eqn:Et.
  - set (s' := match as_credit_refresh_task s with None => s | Some _ => set_task None None s end).
    assert (as_http s' = as_http s) as -> by (unfold s'; by destruct (as_credit_refresh_task s)).
    split_and!; [done|done| |..]; simpl.
    + by destruct (as_redis_open s').
    + unfold close_http. simpl. by rewrite close_clients_pool.
    + intros k i Hk. destruct (HttpPool.is_open i (close_http (as_http s))) eqn:E; [|done]. exfalso.
      unfold close_http in E. simpl in E. apply close_clients_open in E as [_ Hni]. apply Hni.
      apply list_elem_of_fmap. exists (k, i). split; [done|]. by apply elem_of_map_to_list.
  - by destruct (as_credit_refresh_task s) eqn:Et.
  - by destruct (as_credit_refresh_task s) eqn:Et.
Qed.

(** The task is started once, if credits are monitored and the master key is there. *)
Lemma started_once config secrets loop s :
  as_credit_refresh_task s = None →
  let s' := start_credit_refresh_scheduler config secrets loop s in
  as_credit_refresh_task s' =
    (if cm_enabled (cfg_credit_monitoring config) && DbSession.is_set (sec_master_key secrets) then Some loop else None) ∧
  ∀ loop', start_credit_refresh_scheduler config secrets loop' s' =
    (if cm_enabled (cfg_credit_monitoring config) && DbSession.is_set (sec_master_key secrets) then s' else s).
Proof.
  intros Hs. unfold start_credit_refresh_scheduler. destruct (cm_enabled _); simpl; [|done].
  destruct (DbSession.is_set _); simpl; [|done]. by rewrite Hs.
Qed.

(** ** Names in Redis *)

Lemma strip_id p s : string_forallb (λ c, negb (p c)) s = true → strip_p p s = s.
Proof.
  intros H. unfold strip_p. assert (lstrip_p p s = s) as ->.
  { destruct s as [|c s]; [done|]. simpl in *. apply andb_prop in H as [H _]. apply negb_true_iff in H. by rewrite H. }
  induction s as [|c s IH]; [done|]. simpl in *. apply andb_prop in H as [Hc H]. apply negb_true_iff in Hc.
  rewrite IH by done. rewrite Hc. by destruct s.
Qed.
Lemma digit_not_colon n : negb (Ascii.eqb ":" (pretty_N_char n)) = true.
Proof. unfold pretty_N_char. by repeat case_match. Qed.
Lemma pretty_no_colon n : string_forallb (λ c, negb (Ascii.eqb ":" c)) (str_int n) = true ∧ str_int n ≠ "".
Proof.
  assert (∀ x s, string_forallb (λ c, negb (Ascii.eqb ":" c)) s = true →
    string_forallb (λ c, negb (Ascii.eqb ":" c)) (pretty_N_go x s) = true ∧ (s ≠ "" ∨ x ≠ 0%N → pretty_N_go x s ≠ "")) as Hgo.
  { intros x. induction (N.lt_wf_0 x) as [x _ IH]. intros s Hs.
    assert (x = 0 ∨ 0 < x)%N as [->|Hx] by lia; [rewrite pretty_N_go_0; naive_solver|].
    rewrite pretty_N_go_step by done. destruct (IH (x `div` 10)%N (N.div_lt x 10 Hx eq_refl)
      (String (pretty_N_char (x `mod` 10)) s)) as [H1 H2]; [change (negb (Ascii.eqb ":" (pretty_N_char (x `mod` 10))) && string_forallb (λ c, negb (Ascii.eqb ":" c)) s = true); by rewrite digit_not_colon|].
    split; [done|]. intros _. apply H2. by left. }
  assert (∀ x : N, string_forallb (λ c, negb (Ascii.eqb ":" c)) (pretty x) = true ∧ pretty x ≠ "") as HN.
  { intros x. unfold pretty, pretty_N. case_decide as Hx; [done|].
    destruct (Hgo x "" eq_refl) as [H1 H2]. split; [done|]. apply H2. by right. }
  unfold str_int. destruct n as [|x|x]; [done|apply (HN (Npos x))|].
  change (pretty (Z.neg x)) with ("-" +:+ pretty (Npos x)). split; [|done]. apply (HN (Npos x)).
Qed.
Lemma id_in_name n : or_str (strip_char ":" (str_int n)) "unknown" = str_int n.
Proof.
  destruct (pretty_no_colon n) as [H Hne]. unfold strip_char. rewrite strip_id by done.
  unfold or_str. by apply String.eqb_neq in Hne as ->.
Qed.
Lemma app_inj_l a b c : a +:+ b = a +:+ c → b = c.
Proof. induction a as [|x a IH]; simpl; [done|]. intros [= H]. by apply IH. Qed.

(** With Redis every limit is kept under a name of its own: the leases, tokens and
    cooldowns of clients and keys never share one, whatever the prefix. *)
Theorem redis_names_are_apart expanduser parent config environ saved s s' name :
  slot_name (create_app expanduser parent config environ saved) s = Some name →
  slot_name (create_app expanduser parent config environ saved) s' = Some name → s = s'.
Proof.
  unfold create_app. cbn zeta. set (prefix := rd_key_prefix _).
  destruct (String.eqb (st_mode _) "redis"); [|by destruct s].
  assert (∀ kind sc id, redis_name kind (redis_names prefix sc) (str_int id) =
    strip_char ":" (or_str prefix "fcam") +:+ (":" +:+ kind +:+ ":" +:+ strip_char ":" sc +:+ ":" +:+ str_int id)) as Hn.
  { intros kind sc id. unfold redis_name, redis_names. cbn [rn_prefix rn_scope]. by rewrite id_in_name. }
  destruct s as [i|i|i|i|i], s' as [j|j|j|j|j]; cbn [slot_name ap_client_concurrency ap_client_rate_limiter ap_key_concurrency
    ap_key_rate_limiter ap_cooldown_store leases_name tokens_name]; rewrite ?Hn;
    intros [= <-] [= H]; apply app_inj_l in H; try discriminate H; simplify_eq/=; f_equal;
    by apply (inj (pretty (A:=Z))) in H.
Qed.

(** ** How long leases last *)

(** A lease outlives the attempts of a request, and ten seconds more, for a client whose
    budget is that of the configuration. *)
Lemma leases_last config client provider_max :
  0 < fc_timeout (cfg_firecrawl config) → c_max_retries client ≤ fc_max_retries (cfg_firecrawl config) →
  Forwarder._client_retry_budget client provider_max * fc_timeout (cfg_firecrawl config) * 1000 + 10000 ≤ lease_ttl_ms config.
Proof. unfold Forwarder._client_retry_budget, lease_ttl_ms. nia. Qed.
(** It does not for a client with a larger budget. *)
Example leases_too_short client provider_max :
  c_max_retries client = 10 →
  lease_ttl_ms default_AppConfig < Forwarder._client_retry_budget client provider_max * fc_timeout (cfg_firecrawl default_AppConfig) * 1000.
Proof. intros H. unfold Forwarder._client_retry_budget. rewrite H. vm_compute. reflexivity. Qed.

(** ** Concrete runs *)

Definition demo_state (t : option Task) : AppState :=
  mkAppState t (Some false) true
    (HttpPool.mkWorld (HttpPool.set_clients {["https://api.firecrawl.dev" := 0%nat]} (HttpPool.init true 100 20 30%Q false))
       [HttpPool.mkHttpClient "https://api.firecrawl.dev" 30 (HttpPool.mkLimits 100 20 30%Q) false]) (Some true).
Lemma shutdown_releases_if_the_task_stops_witness :
  ((shutdown (demo_state (Some (Running (Some Returned))))).1 = Finished ∧
   HttpPool.is_open 0 (as_http (shutdown (demo_state (Some (Running (Some Returned))))).2) = false) ∧
  as_db_open (shutdown (demo_state (Some (Running None)))).2 = true.
Proof.
  split.
  - destruct (shutdown_releases_if_the_task_stops (demo_state (Some (Running (Some Returned))))) as (_ & H & _).
    destruct (H eq_refl) as (H1 & _ & _ & _ & H2). split; [exact H1|].
    apply (H2 "https://api.firecrawl.dev"). vm_compute. reflexivity.
  - destruct (shutdown_releases_if_the_task_stops (demo_state (Some (Running None)))) as (_ & _ & H).
    destruct (H eq_refl) as (_ & H1 & _). rewrite H1. reflexivity.
Defined.

Definition redis_config : AppConfig :=
  {| cfg_server := default_ServerConfig; cfg_firecrawl := default_FirecrawlConfig; cfg_providers := default_ProvidersConfig;
     cfg_security := default_SecurityConfig; cfg_quota := default_QuotaConfig; cfg_rate_limit := default_RateLimitConfig;
     cfg_credit_monitoring := default_CreditMonitoringConfig; cfg_scheduling := default_SchedulingConfig;
     cfg_idempotency := default_IdempotencyConfig; cfg_database := default_DatabaseConfig;
     cfg_logging := default_LoggingConfig; cfg_observability := default_ObservabilityConfig;
     cfg_state := mkStateConfig "redis" default_RedisConfig; cfg_control_plane := default_ControlPlaneConfig |}.
Definition demo_app : App := create_app id id redis_config [] (λ _, None).
Lemma redis_names_are_apart_witness :
  ∃ name, slot_name demo_app (KeyTokens 7) = Some name ∧ ∀ s, slot_name demo_app s = Some name → KeyTokens 7 = s.
Proof.
  eexists. split; [reflexivity|]. intros s. apply (redis_names_are_apart id id redis_config [] (λ _, None)). reflexivity.
Defined.
End AppTheorems.
