(* ===== verification/Observability.v ===== *)
(** [app/observability/logging.py] and [app/observability/metrics.py]: what a line of the
    log holds, and what the metrics count.  Handlers, the registry and the text format of
    Prometheus are left out. *)

From S2P Require Import Prelude PyText Json JsonText Config Redact RedactProps RequestLog.
Open Scope Z_scope.

(** ** Log lines *)

Module Logging.
Section Logging.
Context {U : UnicodeTables} {F : FloatText}.

(** [logging.LogRecord]; [lr_fields] is [None] unless the record has a dictionary. *)
Record LogRecord := mkLogRecord {
  lr_levelname : string;
  lr_name : string;
  lr_message : string;
  lr_fields : option (list (string * Json))
}.
(** The request's id, or a dash. *)
Definition shown_request_id (request_id : option string) : string := opt_or_str request_id "-".

Definition json_payload (sensitive_keys : list string) (timestamp : string) (request_id : option string) (record : LogRecord)
  : Json :=
  JObj ([("timestamp", JStr timestamp); ("level", JStr (lr_levelname record)); ("logger", JStr (lr_name record));
         ("message", JStr (redact_text (lr_message record))); ("request_id", JStr (shown_request_id request_id))] ++
        match lr_fields record with
        | Some fields => [("fields", redact_data sensitive_keys (JObj fields))]
        | None => []
        end).
Definition JsonFormatter_format (sensitive_keys : list string) (timestamp : string) (request_id : option string)
    (record : LogRecord) : string :=
  dumps (json_payload sensitive_keys timestamp request_id record).
Definition PlainFormatter_format (sensitive_keys : list string) (request_id : option string) (record : LogRecord) : string :=
  let line := lr_levelname record +:+ " " +:+ lr_name record +:+ " request_id=" +:+ shown_request_id request_id +:+ " " +:+
              redact_text (lr_message record) in
  match lr_fields record with
  | Some ((_ :: _) as fields) => line +:+ " " +:+ dumps (redact_data sensitive_keys (JObj fields))
  | _ => line
  end.
(** [configure_logging]: the level and the formatter. *)
Inductive Formatter := Plain (sensitive_keys : list string) | AsJson (sensitive_keys : list string).
Definition configure_logging (config : LoggingConfig) : string * Formatter :=
  let sensitive_keys := lower <$> lo_redact_fields config in
  (upper (lo_level config), if String.eqb (lo_format config) "plain" then Plain sensitive_keys else AsJson sensitive_keys).

(** The message and the fields of a line hold no credential. *)
Lemma log_lines_are_clean sensitive_keys timestamp request_id record :
  ∃ o, json_payload sensitive_keys timestamp request_id record = JObj o ∧
    (∀ v, obj_get "message" o = Some v → clean_values sensitive_keys v = true) ∧
    (∀ v, obj_get "fields" o = Some v → clean_values sensitive_keys v = true).
Proof.
  eexists. split; [reflexivity|]. split; intros v; simpl.
  - intros [= <-]. simpl. by apply clean_text_fixed, redact_text_fixed, redact_text_clean.
  - destruct (lr_fields record) as [fields|]; [|done]. intros [= <-]. exact (redact_data_clean sensitive_keys (JObj fields)).
Qed.
End Logging.
End Logging.

(** ** Metrics *)

Module Metrics.

(** A family of counters or gauges by its labels. *)
Notation Family := (gmap (list string) Z).
Definition counted (m : Family) (labels : list string) : Z := default 0 (m !! labels).
Definition inc (labels : list string) (m : Family) : Family := <[labels := counted m labels + 1]> m.
Record Histogram := mkHistogram { hi_buckets : list Z; hi_count : Z; hi_sum : Z }.
Definition DURATION_BUCKETS : list Z := [25; 50; 100; 250; 500; 1000; 2000; 5000; 10000].
(** The counts of the observations up to each bound, of all, and their sum. *)
Definition observe (v : Z) (h : Histogram) : Histogram :=
  mkHistogram (zip_with (λ le n, if v <=? le then n + 1 else n) DURATION_BUCKETS (hi_buckets h)) (hi_count h + 1) (hi_sum h + v).
Definition no_observations : Histogram := mkHistogram (replicate (length DURATION_BUCKETS) 0) 0 0.

Record Metrics := mkMetrics {
  me_requests_total : Family;
  me_request_duration_ms : gmap (list string) Histogram;
  me_key_selected_total : Family;
  me_key_switch_total : Family;
  me_upstream_status_total : Family;
  me_key_cooldown_total : Family;
  me_quota_remaining : gmap (list string) Q;
  me_key_score : gmap (list string) Q
}.
Definition no_metrics : Metrics := mkMetrics ∅ ∅ ∅ ∅ ∅ ∅ ∅ ∅.

Definition request_labels (r : RequestMetrics) : list string :=
  [rm_endpoint r; rm_method r; str_int (rm_status_code r);
   match rm_client_id r with Some id => str_int id | None => "unknown" end].
Definition record_request (r : RequestMetrics) (m : Metrics) : Metrics :=
  let labels := [rm_endpoint r; rm_method r] in
  mkMetrics (inc (request_labels r) (me_requests_total m))
    (<[labels := observe (rm_latency_ms r) (default no_observations (me_request_duration_ms m !! labels))]> (me_request_duration_ms m))
    (me_key_selected_total m) (me_key_switch_total m) (me_upstream_status_total m) (me_key_cooldown_total m)
    (me_quota_remaining m) (me_key_score m).
Definition record_key_selected (key_id : Z) (provider : string) (m : Metrics) : Metrics :=
  mkMetrics (me_requests_total m) (me_request_duration_ms m)
    (inc [str_int key_id; or_str provider "firecrawl"] (me_key_selected_total m))
    (me_key_switch_total m) (me_upstream_status_total m) (me_key_cooldown_total m) (me_quota_remaining m) (me_key_score m).
Definition record_key_switch (reason : string) (m : Metrics) : Metrics :=
  mkMetrics (me_requests_total m) (me_request_duration_ms m) (me_key_selected_total m)
    (inc [slice_to 64 (or_str reason "unknown")] (me_key_switch_total m))
    (me_upstream_status_total m) (me_key_cooldown_total m) (me_quota_remaining m) (me_key_score m).
Definition record_upstream_status (provider : string) (status_code : Z) (m : Metrics) : Metrics :=
  mkMetrics (me_requests_total m) (me_request_duration_ms m) (me_key_selected_total m) (me_key_switch_total m)
    (inc [or_str provider "firecrawl"; str_int status_code] (me_upstream_status_total m))
    (me_key_cooldown_total m) (me_quota_remaining m) (me_key_score m).
Definition record_key_cooldown (key_id : Z) (m : Metrics) : Metrics :=
  mkMetrics (me_requests_total m) (me_request_duration_ms m) (me_key_selected_total m) (me_key_switch_total m)
    (me_upstream_status_total m) (inc [str_int key_id] (me_key_cooldown_total m)) (me_quota_remaining m) (me_key_score m).
Definition set_quota_remaining (scope : string) (id remaining : Z) (m : Metrics) : Metrics :=
  mkMetrics (me_requests_total m) (me_request_duration_ms m) (me_key_selected_total m) (me_key_switch_total m)
    (me_upstream_status_total m) (me_key_cooldown_total m)
    (<[[scope; str_int id] := inject_Z remaining]> (me_quota_remaining m)) (me_key_score m).
Definition set_key_score (key_id : Z) (score : Q) (m : Metrics) : Metrics :=
  mkMetrics (me_requests_total m) (me_request_duration_ms m) (me_key_selected_total m) (me_key_switch_total m)
    (me_upstream_status_total m) (me_key_cooldown_total m) (me_quota_remaining m) (<[[str_int key_id] := score]> (me_key_score m)).

(** ** What is counted *)

Lemma inc_lookup l l' m : counted (inc l m) l' = counted m l' + (if bool_decide (l = l') then 1 else 0).
Proof.
  unfold inc, counted. destruct (decide (l = l')) as [->|Hne].
  - by rewrite bool_decide_eq_true_2, lookup_insert_eq.
  - rewrite bool_decide_eq_false_2, lookup_insert_ne by done. lia.
Qed.
(** The number of elements with a property. *)
Definition how_many {A} (p : A → bool) (l : list A) : Z := Z.of_nat (length (List.filter p l)).
Lemma how_many_snoc {A} (p : A → bool) l x : how_many p (l ++ [x]) = how_many p l + (if p x then 1 else 0).
Proof. unfold how_many. rewrite List.filter_app, length_app. simpl. destruct (p x); simpl; lia. Qed.

Definition duration (m : Metrics) (labels : list string) : Histogram := default no_observations (me_request_duration_ms m !! labels).
Definition same_route (labels : list string) (r : RequestMetrics) : bool := bool_decide ([rm_endpoint r; rm_method r] = labels).
Definition total_latency (labels : list string) (l : list RequestMetrics) : Z :=
  foldr (λ r n, rm_latency_ms r + n) 0 (List.filter (same_route labels) l).

Lemma total_latency_snoc labels l r :
  total_latency labels (l ++ [r]) = total_latency labels l + (if same_route labels r then rm_latency_ms r else 0).
Proof.
  assert (∀ k n, foldr (λ r n, rm_latency_ms r + n) n k = foldr (λ r n, rm_latency_ms r + n) 0 k + n) as Hk.
  { intros k n. induction k as [|x k IH]; simpl; [done|]. rewrite IH. lia. }
  unfold total_latency. rewrite List.filter_app, foldr_app, Hk. simpl. destruct (same_route labels r); simpl; lia.
Qed.
Lemma buckets_step (f : Z → Z → Z) (g : Z → Z) l : zip_with f l (g <$> l) = (λ le, f le (g le)) <$> l.
Proof. induction l as [|x l IH]; [done|]. cbn. f_equal. apply IH. Qed.

(** After any sequence of requests each counter of [fcam_requests_total] is the number
    of requests with its labels, and the histogram of a route has counted each of its
    requests once, with the sum of their latencies and, for every bound, the number that
    took no longer. *)
Theorem requests_are_counted l :
  let m := foldl (λ m r, record_request r m) no_metrics l in
  (∀ labels, counted (me_requests_total m) labels = how_many (λ r, bool_decide (request_labels r = labels)) l) ∧
  (∀ labels, duration m labels =
     mkHistogram ((λ le, how_many (λ r, same_route labels r && (rm_latency_ms r <=? le)) l) <$> DURATION_BUCKETS)
       (how_many (same_route labels) l) (total_latency labels l)).
Proof.
  induction l as [|r l IH] using rev_ind; [done|]. rewrite foldl_app.
  cbn [foldl]. destruct IH as [IH1 IH2]. split; intros labels.
  - cbn [record_request me_requests_total]. by rewrite inc_lookup, IH1, how_many_snoc.
  - specialize (IH2 labels). unfold duration in *. cbn [record_request me_request_duration_ms].
    rewrite (how_many_snoc (same_route labels)), total_latency_snoc.
    destruct (same_route labels r) eqn:E; pose proof E as E'; unfold same_route in E'.
    + apply bool_decide_eq_true in E' as <-. rewrite lookup_insert_eq, IH2. unfold observe.
      change (default no_observations (Some ?h)) with h. cbn [hi_buckets hi_count hi_sum].
      rewrite buckets_step. apply (f_equal (λ b, mkHistogram b _ _)), list_fmap_ext. intros _ le _. rewrite how_many_snoc, E. simpl. case_match; lia.
    + apply bool_decide_eq_false in E'. rewrite lookup_insert_ne by done. rewrite IH2, !Z.add_0_r.
      apply (f_equal (λ b, mkHistogram b _ _)), list_fmap_ext. intros _ le _. rewrite how_many_snoc, E. simpl. lia.
Qed.
End Metrics.
