(* ===== verification/SettingsFile.v ===== *)
(** The file of the runtime settings ([app/core/runtime_settings.py]): reading it when the
    process starts, and writing it so that a reader sees the old or the new content
    whatever interrupts the writer. *)

From S2P Require Import Prelude PyText Json Config RuntimeSettings Sim.
Open Scope Z_scope.

Definition newline : string := String (Ascii.ascii_of_nat 10) EmptyString.
(** [json.dumps(x, ensure_ascii=False, indent=2)] and [json.loads]. *)
Class JsonFile := { dumps_indented : Json → string; json_loads : string → option Json }.
Class JsonFileLaws `{!JsonFile} := { loads_dumped : ∀ j, well_keyed j → json_loads (dumps_indented j +:+ newline) = Some j }.

(** The contents of the files. *)
Notation Files := (gmap string string).

Section File.
Context {J : JsonFile}.

(** [_load_from_disk]: a file that is not there or not JSON is passed over. *)
Definition _load_from_disk (persist_path : option string) (files : Files) (s : RuntimeScheduling) : RuntimeScheduling :=
  match persist_path with
  | None => s
  | Some path => load_from_disk (raw ← files !! path; json_loads raw) s
  end.
(** [RuntimeSettings.__init__]. *)
Definition start_settings (scheduling : SchedulingConfig) (persist_path : option string) (load_persisted : bool) (files : Files)
  : RuntimeScheduling :=
  let s := init_scheduling scheduling None in
  if load_persisted then _load_from_disk persist_path files s else s.

(** [path.with_suffix(path.suffix + ".tmp")]. *)
Definition tmp_path (path : string) : string := path +:+ ".tmp".
(** Where an error, or the end of the process, interrupts the writer: before it writes,
    when [n] characters are written, or before the replacement. *)
Inductive Interruption := BeforeWriting | WhileWriting (n : nat) | BeforeReplacing.
Definition _save_to_disk_unlocked (at_ : option Interruption) (persist_path : option string) (s : RuntimeScheduling)
    (files : Files) : Files :=
  match persist_path with
  | None => files
  | Some path =>
      let text := dumps_indented (save_document s) +:+ newline in
      match at_ with
      | Some BeforeWriting => files
      | Some (WhileWriting n) => <[tmp_path path := slice_to n text]> files
      | Some BeforeReplacing => <[tmp_path path := text]> files
      | None => <[path := text]> (delete (tmp_path path) files)
      end
  end.
(** [patch_scheduling] with [persist]. *)
Definition patch_and_save (at_ : option Interruption) (persist_path : option string) (persist : bool) (p : Patch)
    (w : RuntimeScheduling * Files) : RuntimeScheduling * Files :=
  let s := patch_scheduling p w.1 in
  (s, if persist then _save_to_disk_unlocked at_ persist_path s w.2 else w.2).
End File.

(** ** Interrupted saves *)

Section Props.
Context {J : JsonFile} {JL : JsonFileLaws}.

Lemma tmp_path_ne path : tmp_path path ≠ path.
Proof.
  unfold tmp_path. intros H. assert (String.length (path +:+ ".tmp") = String.length path) as Hl by congruence.
  assert (∀ a b, String.length (a +:+ b) = (String.length a + String.length b)%nat) as Ha
    by (intros a b; induction a as [|c a IH]; [done|]; simpl; by f_equal).
  rewrite Ha in Hl. simpl in Hl. lia.
Qed.
Lemma document_keyed s : well_keyed (save_document s).
Proof.
  simpl. repeat split; [by apply (bool_decide_eq_true (NoDup ["version"; "overrides"]))| |]; unfold overrides, entry.
  - repeat (case_match; simpl); apply (bool_decide_eq_true (NoDup _)); vm_compute; reflexivity.
  - repeat (case_match; simpl); done.
Qed.

(** C21. The settings survive the end of the process at any moment: whatever interrupts a
    patch that is saved, a process that starts afterwards has the settings that were in
    the file before, or exactly the patched ones (with its own values for the fields the
    patch cleared); if nothing interrupts it, the patched ones. *)
Theorem settings_survive_interruptions at_ path p s files scheduling :
  scheduling_ok s →
  let '(s', files') := patch_and_save at_ (Some path) true p (s, files) in
  scheduling_ok s' ∧
  (start_settings scheduling (Some path) true files' = start_settings scheduling (Some path) true files ∨
   start_settings scheduling (Some path) true files' = overlay s' (init_scheduling scheduling None)) ∧
  (at_ = None → start_settings scheduling (Some path) true files' = overlay s' (init_scheduling scheduling None)).
Proof.
  intros Hs%(patch_ok p). simpl. set (s' := patch_scheduling p s) in *. split; [done|].
  assert (start_settings scheduling (Some path) true (_save_to_disk_unlocked None (Some path) s' files) =
    overlay s' (init_scheduling scheduling None)) as Hdone.
  { unfold start_settings, _save_to_disk_unlocked, _load_from_disk. rewrite lookup_insert_eq. simpl.
    rewrite loads_dumped by apply document_keyed. by apply load_from_disk_saved. }
  split; [|by intros ->]. destruct at_ as [[|n|]|]; [by left|left|left|by right];
    unfold start_settings, _save_to_disk_unlocked, _load_from_disk; by rewrite lookup_insert_ne by apply tmp_path_ne.
Qed.
End Props.

(** ** The codec of the simulations, with a line end *)

#[export] Instance sim_json_file : JsonFile := {|
  dumps_indented := Simulation.sim_json_dumps;
  json_loads s := Simulation.sim_json_loads (slice_to (pred (String.length s)) s)
|}.
#[export] Instance sim_json_file_laws : JsonFileLaws.
Proof.
  split. intros j _. unfold dumps_indented, json_loads, sim_json_file.
  assert (pred (String.length (Simulation.sim_json_dumps j +:+ newline)) = String.length (Simulation.sim_json_dumps j)) as ->.
  { generalize (Simulation.sim_json_dumps j). intros s. assert (String.length (s +:+ newline) = S (String.length s)) as ->; [|done].
    induction s as [|c s IH]; [done|]. simpl. by f_equal. }
  rewrite slice_to_app. apply Simulation.sim_loads_dumps.
Qed.

Definition demo_patch : Patch := mkPatch (Some 120) None (Some 0) false (Some true) false None false None false None false None false None false.
Lemma settings_survive_interruptions_witness :
  let s := init_scheduling default_SchedulingConfig None in
  rs_credit_workers (patch_scheduling demo_patch s) = Some 1 ∧
  start_settings default_SchedulingConfig (Some "runtime.json") true
    (patch_and_save None (Some "runtime.json") true demo_patch (s, ∅)).2 = overlay (patch_scheduling demo_patch s) s.
Proof.
  intros s. split; [vm_compute; reflexivity|].
  assert (scheduling_ok s) as Hs.
  { unfold s, scheduling_ok. simpl. split_and!; intros x [= <-]; vm_compute; try split; discriminate. }
  apply (settings_survive_interruptions None "runtime.json" demo_patch s ∅ default_SchedulingConfig Hs). reflexivity.
Defined.
