(* ===== verification/Quota.v ===== *)
(** The daily quota of a client when requests overlap: [enforce_client_governance] in
    [app/api/deps.py] and [_consume_quota_on_success] in [app/core/forwarder.py], each
    working on the copy of the client's row that [require_client] loaded into the session
    of its request.  Sessions keep loaded objects over a commit
    ([expire_on_commit=False] in [app/db/session.py]), so the copy is only read anew after
    a rollback.  The check is switched on, and successes are counted.  Within a day that
    begins with no request under way the row never counts more than the requests that
    succeeded, and exactly those when requests come one at a time; with two at a time, or
    over midnight, it goes wrong. *)

From S2P Require Import Prelude Effects Models Config Env KeyPool Deps DepsProps Forwarder ForwarderProps.
From S2P Require Import AdminRows Sim.
Import Deps.
Open Scope Z_scope.

Module Quota.

(** ** A request and its copy of the client *)

(** How SQLAlchemy writes an object to its row: [old] is the object as it was loaded or
    last written, [new] as it is, and only the columns that differ are set. *)
Class RowWriter := { write_row : Client → Client → Client → Client }.
Class RowLaws `{RowWriter} := {
  write_usage : ∀ old new row, c_daily_usage (write_row old new row) =
    if decide (c_daily_usage old = c_daily_usage new) then c_daily_usage row else c_daily_usage new;
  write_reset : ∀ old new row, c_quota_reset_at (write_row old new row) =
    if decide (c_quota_reset_at old = c_quota_reset_at new) then c_quota_reset_at row else c_quota_reset_at new;
  write_quota : ∀ old new row, c_daily_quota (write_row old new row) =
    if decide (c_daily_quota old = c_daily_quota new) then c_daily_quota row else c_daily_quota new
}.

(** The counter starts anew on a new day. *)
Definition begin_day (today : Z) (client : Client) : Client :=
  if bool_decide (c_quota_reset_at client = Some today) then client
  else set_c_quota_reset_at (Some today) (set_c_daily_usage 0 client).
(** The copy after the check, and whether the request goes on. *)
Definition check_quota (today : Z) (client : Client) : Client * bool :=
  match c_daily_quota client with
  | None => (client, true)
  | Some quota => let client := begin_day today client in (client, negb (quota <=? c_daily_usage client))
  end.
(** One more use. *)
Definition count_use (client : Client) : Client :=
  match c_daily_quota client with
  | Some _ => set_c_daily_usage (c_daily_usage client + 1) client
  | None => client
  end.

(** ** Requests of one client *)

(** A request that was authenticated, or one that passed the check, with its copy. *)
Inductive Progress := Loaded (client : Client) | LetIn (client : Client).
Record Traffic := mkTraffic {
  tr_today : Z;
  tr_row : Client;                       (* what the database holds *)
  tr_requests : gmap nat Progress;       (* those under way *)
  tr_successes : nat                     (* how many have succeeded so far *)
}.
(** Each step is one transaction. *)
Inductive traffic_step `{RowWriter} : Traffic → Traffic → Prop :=
  | traffic_load s t : tr_requests s !! t = None →
      traffic_step s (mkTraffic (tr_today s) (tr_row s) (<[t := Loaded (tr_row s)]> (tr_requests s)) (tr_successes s))
  | traffic_check s t c : tr_requests s !! t = Some (Loaded c) →
      traffic_step s (mkTraffic (tr_today s) (write_row c (check_quota (tr_today s) c).1 (tr_row s))
        (if (check_quota (tr_today s) c).2
         then <[t := LetIn (check_quota (tr_today s) c).1]> (tr_requests s) else delete t (tr_requests s))
        (tr_successes s))
  | traffic_success s t c : tr_requests s !! t = Some (LetIn c) →
      traffic_step s (mkTraffic (tr_today s) (write_row c (count_use c) (tr_row s)) (delete t (tr_requests s))
        (S (tr_successes s)))
  | traffic_rollback s t c : tr_requests s !! t = Some (LetIn c) →
      traffic_step s (mkTraffic (tr_today s) (tr_row s) (<[t := LetIn (tr_row s)]> (tr_requests s)) (tr_successes s))
  | traffic_leave s t p : tr_requests s !! t = Some p →
      traffic_step s (mkTraffic (tr_today s) (tr_row s) (delete t (tr_requests s)) (tr_successes s))
  | traffic_midnight s today : tr_today s < today →
      traffic_step s (mkTraffic today (tr_row s) (tr_requests s) (tr_successes s)).

(** Steps in which no more than [n] requests are under way. *)
Definition at_most `{RowWriter} (n : nat) (s s' : Traffic) : Prop :=
  traffic_step s s' ∧ (size (tr_requests s') ≤ n)%nat.
(** No request is under way. *)
Definition quiet (today : Z) (row : Client) : Traffic := mkTraffic today row ∅ 0.

End Quota.

(** * Theorems *)

Import Quota.

Module QuotaTheorems.
Import DepsFacts.

(** ** The steps are those of the program *)

Lemma begin_day_spec today c :
  c_quota_reset_at (begin_day today c) = Some today ∧ c_daily_usage (begin_day today c) = usage_on today c ∧
  c_daily_quota (begin_day today c) = c_daily_quota c.
Proof. unfold begin_day, usage_on. case_bool_decide; case_decide; done. Qed.
Lemma check_spec today c q : c_daily_quota c = Some q →
  check_quota today c = (begin_day today c, negb (q <=? usage_on today c)).
Proof. intros Hq. unfold check_quota. rewrite Hq. cbn. by rewrite (proj1 (proj2 (begin_day_spec today c))). Qed.

(** [quota_check] lets a request go on only if [check_quota] does, and refuses it for its
    quota only if that refuses; the session then shows the usage of the copy. *)
Lemma check_is_quota_check {E : Env} {Z0 : ZoneInfo} {OL : OrmLaws} config cid client q lease w :
  qu_enable_quota_check (cfg_quota config) = true →
  t_clients (view w) !! cid = Some client → c_daily_quota client = Some q →
  match quota_check config cid lease w with
  | (Ok _, w') => ∃ today client', (today_in_timezone (qu_timezone (cfg_quota config)) w).1 = Ok today ∧
      (check_quota today client).2 = true ∧ t_clients (view w') !! cid = Some client' ∧
      c_daily_usage client' = c_daily_usage (check_quota today client).1 ∧
      c_quota_reset_at client' = c_quota_reset_at (check_quota today client).1
  | (Raise e, _) => e = EFcam KeyPool.db_unavailable ∨
      ∃ today, (today_in_timezone (qu_timezone (cfg_quota config)) w).1 = Ok today ∧
        (check_quota today client).2 = false
  end.
Proof.
  intros He Hc Hq. pose proof (quota_check_spec config cid client q lease w He Hc Hq) as Hs.
  destruct (quota_check config cid lease w) as [[[]|e] w'].
  - destruct Hs as (_ & today & client' & Ht & Hc' & Hr & Hu & Hlt). exists today, client'.
    rewrite (check_spec today client q Hq). cbn. destruct (begin_day_spec today client) as (-> & -> & _).
    split_and!; [done| |done..]. apply negb_true_iff, Z.leb_gt, Hlt.
  - destruct Hs as (_ & [->|(f & today & _ & _ & Ht & Hle)]); [by left|]. right. exists today. split; [done|].
    rewrite (check_spec today client q Hq). cbn. apply negb_false_iff, Z.leb_le, Hle.
Qed.

(** A success that is accounted for adds to the usage what [count_use] adds. *)
Lemma accounting_is_count_use {E : Env} {OL : OrmLaws} ci ki client key w :
  t_clients (view w) !! ci = Some client → t_keys (view w) !! ki = Some key →
  match Forwarder._consume_quota_on_success ci ki w with
  | (Ok _, w') => ∃ client', t_clients (durable w') !! ci = Some client' ∧
      c_daily_usage client' = c_daily_usage (count_use client)
  | (Raise e, _) => e = EFcam KeyPool.db_unavailable
  end.
Proof.
  intros Hc Hk. pose proof (ForwarderTheorems.success_counted_once ci ki client key w Hc Hk) as Hs.
  destruct (Forwarder._consume_quota_on_success ci ki w) as [[[]|e] w']; [|done].
  destruct Hs as (client' & _ & Hc' & _ & _ & Hu). exists client'. split; [done|]. rewrite Hu. unfold count_use.
  destruct (c_daily_quota client); simpl; lia.
Qed.

(** ** Within a day *)

Section Day.
Context `{RowLaws}.
Variables (row0 : Client) (q : Z).
Hypothesis quota : c_daily_quota row0 = Some q.

Lemma count_use_spec c : c_daily_quota c = Some q →
  c_daily_usage (count_use c) = c_daily_usage c + 1 ∧ c_quota_reset_at (count_use c) = c_quota_reset_at c ∧
  c_daily_quota (count_use c) = Some q.
Proof. intros Hq. unfold count_use. by rewrite Hq. Qed.

Lemma usage_today d c : c_quota_reset_at c = Some d → usage_on d c = c_daily_usage c.
Proof. intros Hr. unfold usage_on. by rewrite decide_True. Qed.







(** ** One request at a time *)



End Day.


(** ** Two requests at a time *)

Section Overlap.
Context `{RowLaws}.
Variables (d q : Z).

(** The row, on the day [d]. *)
Definition row_at (u : Z) (row : Client) : Prop :=
  c_quota_reset_at row = Some d ∧ c_daily_quota row = Some q ∧ c_daily_usage row = u.
Lemma check_row_at u row : row_at u row → u < q → check_quota d row = (row, true).
Proof.
  intros (Hr & Hq & Hu) Hlt. rewrite (check_spec _ _ _ Hq), (usage_today _ _ Hr), Hu. unfold begin_day.
  rewrite bool_decide_eq_true_2 by done. by rewrite (proj2 (Z.leb_gt _ _)).
Qed.
Lemma write_same_row_at u c row : row_at u row → row_at u (write_row c c row).
Proof.
  intros (? & ? & ?). unfold row_at. rewrite write_reset, write_quota, write_usage. by rewrite !decide_True.
Qed.
Lemma write_use_row_at u v c row : row_at u c → row_at v row → row_at (u + 1) (write_row c (count_use c) row).
Proof.
  intros (Hr & Hq & Hu) (Hr' & Hq' & Hu'). destruct (count_use_spec q c Hq) as (Hcu & Hcr & Hcq). unfold row_at.
  rewrite write_reset, write_quota, write_usage. rewrite !decide_True by congruence. rewrite decide_False by lia.
  split_and!; [done..|lia].
Qed.

(** A request begins and is admitted. *)
Lemma let_in u row m n t k :
  row_at u row → u < q → m !! t = None → (size m < k)%nat →
  ∃ row', row_at u row' ∧
    rtc (at_most k) (mkTraffic d row m n) (mkTraffic d row' (<[t := LetIn row]> m) n).
Proof.
  intros Hrow Hlt Ht Hk. exists (write_row row row row). split; [by apply write_same_row_at|].
  assert (∀ p, (size (<[t := p]> m) ≤ k)%nat) as Hsize by (intros p; rewrite map_size_insert_None by done; lia).
  eapply rtc_l; [split; [by apply (traffic_load _ t)|by apply Hsize]|].
  apply rtc_once. pose proof (traffic_check (mkTraffic d row (<[t := Loaded row]> m) n) t row) as Hc.
  cbn [tr_today tr_row tr_requests tr_successes] in Hc. rewrite (check_row_at _ _ Hrow Hlt) in Hc. cbn [fst snd] in Hc.
  rewrite insert_insert_eq in Hc. split; [apply Hc, lookup_insert_eq|apply Hsize].
Qed.
(** One whole request, next to others. *)
Lemma request u row m n t k :
  row_at u row → u < q → m !! t = None → (size m < k)%nat →
  ∃ row', row_at (u + 1) row' ∧ rtc (at_most k) (mkTraffic d row m n) (mkTraffic d row' m (S n)).
Proof.
  intros Hrow Hlt Ht Hk. destruct (let_in u row m n t k) as (row' & Hrow' & Hrun); [done..|].
  exists (write_row row (count_use row) row'). split; [by eapply write_use_row_at|].
  etrans; [exact Hrun|]. apply rtc_once.
  pose proof (traffic_success (mkTraffic d row' (<[t := LetIn row]> m) n) t row) as Hs.
  cbn [tr_today tr_row tr_requests tr_successes] in Hs. rewrite delete_insert_id in Hs by done.
  split; [apply Hs, lookup_insert_eq|]. simpl. lia.
Qed.
Lemma request_many j u row m n t k :
  row_at u row → u + Z.of_nat j ≤ q → m !! t = None → (size m < k)%nat →
  ∃ row', row_at (u + Z.of_nat j) row' ∧ rtc (at_most k) (mkTraffic d row m n) (mkTraffic d row' m (n + j)).
Proof.
  revert u row n. induction j as [|j IH]; intros u row n Hrow Hle Ht Hk.
  - exists row. rewrite Z.add_0_r, Nat.add_0_r. done.
  - destruct (request u row m n t k) as (r1 & H1 & Hrun1); [done|lia|done..|].
    destruct (IH (u + 1) r1 (S n)) as (r2 & H2 & Hrun2); [done|lia|done..|].
    exists r2. replace (u + Z.of_nat (S j)) with (u + 1 + Z.of_nat j) by lia.
    replace (n + S j)%nat with (S n + j)%nat by lia. split; [done|]. by etrans.
Qed.
(** A slow request, while others use up the quota: the usage is then that of the slow one. *)
Lemma slow_request j row n :
  row_at (q - Z.of_nat (S j)) row →
  ∃ row', row_at (q - Z.of_nat j) row' ∧
    rtc (at_most 2) (mkTraffic d row ∅ n) (mkTraffic d row' ∅ (S (n + S j))).
Proof.
  intros Hrow. destruct (let_in _ row ∅ n 0 2 Hrow) as (r1 & H1 & Hrun1); [lia|done|rewrite map_size_empty; lia|].
  destruct (request_many (S j) _ r1 (<[0%nat := LetIn row]> ∅) n 1 2 H1) as (r2 & H2 & Hrun2); [lia|done|..].
  { rewrite map_size_insert_None by done. rewrite map_size_empty. lia. }
  exists (write_row row (count_use row) r2). split.
  { replace (q - Z.of_nat j) with (q - Z.of_nat (S j) + 1) by lia. by eapply write_use_row_at. }
  etrans; [exact Hrun1|]. etrans; [exact Hrun2|]. apply rtc_once.
  pose proof (traffic_success (mkTraffic d r2 (<[0%nat := LetIn row]> ∅) (n + S j)) 0 row) as Hs.
  cbn [tr_today tr_row tr_requests tr_successes] in Hs. rewrite delete_insert_eq, delete_empty in Hs.
  split; [apply Hs, lookup_insert_eq|]. simpl. rewrite map_size_empty. lia.
Qed.
Lemma slow_requests j row n :
  row_at (q - Z.of_nat j) row →
  ∃ row' n', row_at q row' ∧ rtc (at_most 2) (mkTraffic d row ∅ n) (mkTraffic d row' ∅ n') ∧
    (2 * n' = 2 * n + j * (j + 3))%nat.
Proof.
  revert row n. induction j as [|j IH]; intros row n Hrow.
  - exists row, n. rewrite Z.sub_0_r in Hrow. split_and!; [done..|lia].
  - destruct (slow_request j row n Hrow) as (r1 & H1 & Hrun1). destruct (IH r1 (S (n + S j)) H1) as (r2 & n2 & H2 & Hrun2 & Hn).
    exists r2, n2. split_and!; [done|by etrans|lia].
Qed.
End Overlap.

(** With two requests at a time, a client with a quota of [q] and no use so far today can
    make [q * (q + 3) / 2] successful requests before the row counts [q]: 5150 instead
    of 100. *)
Theorem overlap_multiplies_the_quota `{RowLaws} today (q : nat) row :
  c_daily_quota row = Some (Z.of_nat q) → c_quota_reset_at row = Some today → c_daily_usage row = 0 →
  ∃ s, rtc (at_most 2) (quiet today row) s ∧ tr_today s = today ∧ usage_on today (tr_row s) = Z.of_nat q ∧
    (2 * tr_successes s = q * (q + 3))%nat.
Proof.
  intros Hq Hr Hu. destruct (slow_requests today (Z.of_nat q) q row 0) as (row' & n' & (Hr' & _ & Hu') & Hrun & Hn).
  { by rewrite Z.sub_diag. }
  exists (mkTraffic today row' ∅ n'). split_and!; [done..| |simpl; lia]. simpl. by rewrite (usage_today _ _ Hr').
Qed.

(** The first request of a new day ends without success, next to others. *)
Lemma first_of_the_day `{RowLaws} day q row m n t k :
  c_daily_quota row = Some q → c_quota_reset_at row ≠ Some day → 0 < q → m !! t = None → (size m < k)%nat →
  rtc (at_most k) (mkTraffic day row m n) (mkTraffic day (write_row row (begin_day day row) row) m n).
Proof.
  intros Hq Hr Hpos Ht Hk.
  assert (∀ p, (size (<[t := p]> m) ≤ k)%nat) as Hsize by (intros p; rewrite map_size_insert_None by done; lia).
  eapply rtc_l; [split; [by apply (traffic_load _ t)|by apply Hsize]|]. cbn [tr_today tr_row tr_requests tr_successes].
  pose proof (traffic_check (mkTraffic day row (<[t := Loaded row]> m) n) t row) as Hc.
  cbn [tr_today tr_row tr_requests tr_successes] in Hc. rewrite (check_spec _ _ _ Hq) in Hc.
  assert (usage_on day row = 0) as Hz by (unfold usage_on; by rewrite decide_False).
  rewrite Hz, (proj2 (Z.leb_gt _ _)) in Hc by lia. cbn [fst snd negb] in Hc. rewrite insert_insert_eq in Hc.
  eapply rtc_l; [split; [apply Hc, lookup_insert_eq|apply Hsize]|].
  apply rtc_once. pose proof (traffic_leave (mkTraffic day (write_row row (begin_day day row) row)
    (<[t := LetIn (begin_day day row)]> m) n) t (LetIn (begin_day day row))) as Hl.
  cbn [tr_today tr_row tr_requests tr_successes] in Hl. rewrite delete_insert_id in Hl by done.
  split; [apply Hl, lookup_insert_eq|]. simpl. lia.
Qed.

(** A request that was admitted before midnight and succeeds after another has begun the
    new day puts the usage of the old day on the new one: a client that was one short of
    its quota is refused all day. *)
Theorem midnight_uses_up_the_quota `{RowLaws} today tomorrow q row :
  c_daily_quota row = Some q → c_quota_reset_at row = Some today → c_daily_usage row = q - 1 → 1 < q → today < tomorrow →
  ∃ s, rtc (at_most 2) (quiet today row) s ∧ tr_today s = tomorrow ∧ tr_requests s = ∅ ∧ tr_successes s = 1%nat ∧
    (check_quota tomorrow (tr_row s)).2 = false.
Proof.
  intros Hq Hr Hu H1 Hday.
  destruct (let_in today q (q - 1) row ∅ 0 0 2) as (r1 & (Hr1 & Hq1 & Hu1) & Hrun); [done|lia|done|rewrite map_size_empty; lia|].
  set (m := <[0%nat := LetIn row]> (∅ : gmap nat Progress)) in *.
  assert (size m = 1%nat) as Hm by (unfold m; by rewrite map_size_insert_None, map_size_empty).
  assert (Some today ≠ Some tomorrow) as Hne by (intros [= ->]; lia).
  destruct (begin_day_spec tomorrow r1) as (Hbr & Hbu & Hbq). unfold usage_on in Hbu.
  rewrite decide_False in Hbu by congruence.
  set (r2 := write_row r1 (begin_day tomorrow r1) r1). destruct (count_use_spec q row Hq) as (Hcu & Hcr & Hcq).
  set (r3 := write_row row (count_use row) r2).
  exists (mkTraffic tomorrow r3 ∅ 1). split_and!; [|done..|].
  - etrans; [exact Hrun|].
    eapply rtc_l; [split; [by apply (traffic_midnight _ tomorrow)|simpl; lia]|].
    etrans; [apply (first_of_the_day tomorrow q r1 m 0 1 2); [done|congruence|lia|done|lia]|].
    apply rtc_once. pose proof (traffic_success (mkTraffic tomorrow r2 m 0) 0 row) as Hs.
    cbn [tr_today tr_row tr_requests tr_successes] in Hs. unfold m in Hs. rewrite delete_insert_eq, delete_empty in Hs.
    split; [apply Hs, lookup_insert_eq|]. simpl. rewrite map_size_empty. lia.
  - cbn [tr_row]. assert (c_quota_reset_at r3 = Some tomorrow ∧ c_daily_quota r3 = Some q ∧ c_daily_usage r3 = q) as (Hr3 & Hq3 & Hu3).
    { unfold r3, r2. rewrite !write_reset, !write_quota, !write_usage.
      repeat case_decide; split_and!; try congruence; lia. }
    rewrite (check_spec _ _ _ Hq3), (usage_today _ _ Hr3), Hu3. cbn. by rewrite Z.leb_refl.
Qed.

(** ** A run *)

(** Columns are written one by one. *)
#[local] Instance by_column : RowWriter := {| write_row old new row :=
  let row := if decide (c_daily_usage old = c_daily_usage new) then row else set_c_daily_usage (c_daily_usage new) row in
  let row := if decide (c_quota_reset_at old = c_quota_reset_at new) then row
             else set_c_quota_reset_at (c_quota_reset_at new) row in
  if decide (c_daily_quota old = c_daily_quota new) then row else set_c_daily_quota (c_daily_quota new) row |}.
#[local] Instance by_column_laws : RowLaws.
Proof. split; intros old new row; simpl; repeat case_decide; done. Qed.

End QuotaTheorems.
